(* ===== verification/_CoqProject ===== *)
-Q . S2P
Prelude.v
RBTree.v
WaitList.v
Locks.v
Sched.v
SchedInv.v
SchedRun.v
Executor.v
Timer.v
IntrusiveList.v
Address.v
Buddy.v
PageAlloc.v
PageTable.v
MmArea.v
MmList.v
MmRange.v
MmMap.v
OpenFlags.v
Mode.v
Path.v
Dentry.v
DentryCache.v
DentryInv.v
DentryRename.v
DentryOps.v
DentrySys.v
DentryWalk.v
Io.v
Getdents.v
PageCache.v
Block.v
InodeFile.v
Pipe.v
UserMem.v
UserIo.v
Futex.v
Signal.v
Terminal.v
Process.v
ProcessJobs.v
ProcessTree.v
ProcessSys.v
File.v
FileArray.v
FileRw.v
FileMove.v
FsCalls.v
FsOpen.v
