(* ===== verification/Prelude.v ===== *)
(** * DLUTos: a verification development for the DLUTos RISC-V kernel

    DLUTos is a monolithic kernel in Rust.  Its parts call each other in layers:
    the page allocator hands out frames, the page tables and address spaces map
    them, the file layer moves bytes between user memory, pipes, terminals and
    inodes, and the task layer creates, signals, stops and reaps processes; the
    synchronisation crates sit below everything that sleeps.  The development
    embeds these parts as functions on explicit state and proves what the layers
    rely on.  All paths below are relative to src/dlutos.

    ** Conventions

    A routine is a function that threads its state; [outcome] is [Ret], [Err]
    with an error number, or [Panic] for every [assert!], [unwrap], [expect] or
    index out of range of the source, so "does not panic" is always a theorem.
    Machine integers are [Z] with the wrap-around written out (the release
    profile wraps).  Code between two points where other code can run is one
    step: the code under a lock, or one atomic access where the lock itself is
    the subject.  An [async] routine is the list of its polls.  Objects behind
    [Arc] that several owners change live in a store.  Code outside the
    repository is a class with its documented laws and a concrete instance.

    ** The files

    - Prelude: outcomes, machine integers, generic lemmas, tactics, hints.
    - RBTree: the interface of the intrusive-collections tree.
    - WaitList (crates/dlutos_sync/dlutos_sync_rt/src/wait_list.rs and its
      modules): wait objects, notification, polling and dropping of a handle.
      [wait_handle_safe]: no wake-up is lost and no object outlives its place.
    - Locks (mutex.rs, rwlock.rs and the guards of the same crate): the counter
      protocols.  [mutex_correct] and [rwlock_correct]: exclusion and no lost
      wake-up in every interleaving of any number of tasks.
    - Sched, SchedInv, SchedRun (crates/dlutos_runtime/src/scheduler.rs, task.rs,
      ready_queue.rs): the scheduler loops of any number of CPUs, wakers and
      [spawn], one step per atomic access; tasks have their reference counts.
      [scheduler_safe]: no assertion fails, no task is polled twice at a time,
      enqueued twice or used after it was freed; [wake_not_lost];
      [scheduler_progress]; [ready_queue_fifo].
    - Executor (executor.rs, executor/output_handle.rs of the same crate): the
      output of a future is committed once and reaches the joiner.
    - Timer (src/kernel/timer.rs): [sleep] and the timer interrupt;
      [sleepers_woken] over all their interleavings.
    - IntrusiveList (crates/intrusive_list): the pointer operations are the
      operations on sequences ([ilist_refines]).
    - Address (crates/dlutos_mm/src/address, paging/pfn.rs): range arithmetic.
    - Buddy (crates/buddy_allocator) and PageAlloc (src/kernel/mem/
      page_alloc.rs): the set of free frames is the specification; allocation
      takes an aligned block out of it and freeing puts it back.
    - PageTable (crates/dlutos_hal/src/arch/riscv64/mm.rs, crates/dlutos_mm/
      src/page_table): Sv48 entries; the iterator over the four levels refines a
      map from pages to entries ([iter_user_refines]).
    - MmArea, MmList, MmRange, MmMap (src/kernel/mem/mm_area.rs, mm_list.rs,
      mm_list/, src/kernel/syscall/mm.rs): areas, page faults, copy-on-write,
      mmap, munmap, mprotect, brk and fork, against [mm_lookup], what an address
      is mapped to.
    - OpenFlags, Mode, Io (src/io.rs): flags, file modes; the [Buffer] and
      [Stream] classes.
    - PageCache (src/kernel/mem/page_cache.rs) over a class of backing stores,
      and InodeFile (the files of src/fs/tmpfs.rs, src/kernel/vfs/file/
      inode_file.rs): reads, writes, seeks and truncations of a file refine a
      byte list with cursors ([tmpfs_file_refines]); [fsync_correct].
    - Block (src/kernel/block.rs, block/mbr.rs, src/driver/virtio/virtio_blk.rs):
      devices and partitions over the request queue of a driver; a device is an
      array of bytes ([read_some_correct], [write_some_correct]).
    - Path (src/path.rs): the iterator against cutting at slashes.
    - Dentry (src/kernel/vfs/dentry.rs, dentry/dcache.rs, src/hash.rs, the
      directories of src/fs/tmpfs.rs): entries with their hash chains, the
      operations on names, the walk along a path.  DentryCache has the chains,
      DentryInv the invariant that the cached entries are the names the
      directories list, DentryRename and DentryOps run the operations,
      DentrySys and DentryWalk put them together: [name_space_refines] against a
      map from directories and names to inodes, [lookup_equals_directory], and
      the walk ([open_at_safe], [open_at_refines]).
    - Getdents (the same inode_file.rs, crates/posix_types/src/getdent.rs):
      reading a directory until its end and decoding gives its entries.
    - FsCalls, FsOpen (src/kernel/syscall/file_rw.rs, procops.rs): the calls on
      paths do to the names what following the path says ([path_call_refines],
      [rename_path_refines]), and [openat_creates] joins them to descriptors.
    - Pipe (src/kernel/vfs/file/pipe.rs): [pipe_fifo] over all interleavings of
      readers and writers, and absence of deadlock.
    - UserMem (src/kernel/user/dataflow.rs): user pointers, buffers and strings
      with the fault fix-ups of the copy loops.
    - UserIo (the same file, and [IovStream] of src/kernel/syscall/file_rw.rs):
      buffers and streams over user memory and vectors of it, with their laws.
    - FileRw, FileMove (src/kernel/syscall/file_rw.rs, [sendfile] of
      src/kernel/vfs/file/mod.rs): the calls that move bytes, against a class of
      files; [vectored_roundtrip], [copy_file_range_correct], [sendfile_correct].
    - Futex (src/kernel/task/futex.rs, the futex call of src/kernel/syscall/
      procops.rs): the hash table of trees refines queues of waiters; the
      outcome of the call on every argument.
    - Signal (crates/posix_types/src/signal, src/kernel/task/signal.rs and
      signal/): raising, the delivery loop, the frame round trip.
    - Terminal (src/kernel/terminal.rs, src/kernel/vfs/file/terminal_file.rs):
      the line discipline refines a line editor; the settings round trip.
    - Process, ProcessJobs, ProcessTree, ProcessSys (src/kernel/task/process.rs,
      process_list.rs, process_group.rs, session.rs, clone.rs): the process
      table with groups, sessions, exit, reparenting and wait.
      [process_system_safe]: in every sequence of operations, the two halves of
      [wait] and the RCU frees included, the table stays sound and nothing
      panics; [wait_exited_child]: a wait for an exited child does not block.
    - File, FileArray (src/kernel/vfs/file/mod.rs, src/kernel/vfs/filearray.rs):
      open counts and descriptor tables.

    ** Bounds and fuel

    Loops whose recursion is not structural take fuel, and the theorems give
    the fuel from the input: the signal loop two rounds per pending signal and
    one more, the address search the number of areas and one more, the buddy
    loops the number of orders, the page-table iterator the pages of the range,
    the path iterator the length of the path; a walk has the 16 levels of the
    code; [copy_file_range] and the block device loops the bytes or sectors of
    the request and one more.
    Where user memory can make a loop endless (a cyclic robust list, a handler
    for SIGSEGV on a bad stack) a theorem shows that it does not end.

    ** Where the code does not do what it should

    Theorems named after a defect ([on_exec_leaves_cloexec],
    [mprotect_none_never_present], [futex_lost_wakeup], [rename_into_itself],
    [exit_group_twice_panics] and the like) run the model on a concrete input.
    The conditions of the general theorems exclude exactly these runs.

    ** Not modelled

    Weak memory: the lock, wait-list, scheduler and timer theorems are for
    sequentially consistent interleavings.  An operation on names is one step: the
    races between tasks that create or remove the same name are not modelled, nor
    are mounts below the root and the times of inodes.  The futures that the
    scheduler polls are arbitrary code.  The slab allocator, the program loader,
    FAT32, procfs, the shared memory calls and poll are not modelled.  Device drivers
    other than virtio block, PCI, the hardware layer, start-up and logging are I/O,
    assembly or code generation.  The network protocols and ext4 are in third-party
    crates that the sources only call. *)

From stdpp Require Export prelude list list_numbers numbers gmap.

#[global] Open Scope Z_scope.

(** ** Outcomes

    A kernel routine returns a value, returns [Err(errno)] through
    [KResult<T> = Result<T, u32>] (src/dlutos/src/prelude.rs), or panics
    ([assert!], [expect], [unwrap], [unreachable!], [panic!], slice index out of
    range).  Routines that cannot fail are plain functions. *)

Inductive outcome (A : Type) : Type :=
| Ret (a : A)
| Err (e : Z)
| Panic.

Arguments Ret {A} a.
Arguments Err {A} e.
Arguments Panic {A}.

#[global] Instance outcome_ret : MRet outcome := fun A a => Ret a.
#[global] Instance outcome_bind : MBind outcome := fun A B f o =>
  match o with
  | Ret a => f a
  | Err e => Err e
  | Panic => Panic
  end.
#[global] Instance outcome_fmap : FMap outcome := fun A B f o =>
  match o with
  | Ret a => Ret (f a)
  | Err e => Err e
  | Panic => Panic
  end.

(** One poll of an [async] routine: it finishes, or it waits to be woken up. *)
Inductive poll (A : Type) : Type :=
| Ready (a : A)
| Pending.

Arguments Ready {A} a.
Arguments Pending {A}.

(** [assert!(b)]. *)
Definition assert_ (b : bool) : outcome unit := if b then Ret tt else Panic.

(** [o.unwrap()] and [o.expect(..)] on an [Option]. *)
Definition expect {A} (o : option A) : outcome A :=
  match o with Some a => Ret a | None => Panic end.

(** [o.ok_or(e)?] on an [Option]. *)
Definition ok_or {A} (o : option A) (e : Z) : outcome A :=
  match o with Some a => Ret a | None => Err e end.

(** ** Machine integers

    [usize] and [u64] are 64 bits wide on riscv64, [u32] 32 bits.  The kernel is
    built with the release profile (Makefile, [MODE=release]), where [+], [-]
    and [*] wrap around and [debug_assert!] is not compiled in. *)

Definition wrap64 (x : Z) : Z := x mod 2 ^ 64.
Definition wrap32 (x : Z) : Z := x mod 2 ^ 32.
Definition usize_max : Z := 2 ^ 64 - 1.

Definition is_u64 (x : Z) : Prop := 0 <= x < 2 ^ 64.
Definition is_u32 (x : Z) : Prop := 0 <= x < 2 ^ 32.

(** [usize::div_ceil]. *)
Definition div_ceil (a b : Z) : Z := if a mod b =? 0 then a / b else a / b + 1.

(** [usize::trailing_zeros]: the number of trailing zero bits, 64 for 0. *)
Fixpoint pos_ctz (p : positive) : Z :=
  match p with
  | xO q => 1 + pos_ctz q
  | _ => 0
  end.
Definition trailing_zeros (x : Z) : Z :=
  match x with
  | Zpos p => pos_ctz p
  | _ => 64
  end.

(** ** The [bitflags!] operations on the underlying bits. *)

Definition bf_contains (a b : Z) : bool := Z.land a b =? b.
Definition bf_intersects (a b : Z) : bool := negb (Z.land a b =? 0).
Definition bf_insert (a b : Z) : Z := Z.lor a b.
Definition bf_remove (a b : Z) : Z := Z.ldiff a b.
Definition bf_set (a b : Z) (v : bool) : Z := if v then bf_insert a b else bf_remove a b.

(** ** Error numbers of src/dlutos/src/kernel/constants.rs. *)

Definition EPERM : Z := 1.
Definition ENOENT : Z := 2.
Definition ESRCH : Z := 3.
Definition EINTR : Z := 4.
Definition EIO : Z := 5.
Definition ENXIO : Z := 6.
Definition EBADF : Z := 9.
Definition ECHILD : Z := 10.
Definition EAGAIN : Z := 11.
Definition ENOMEM : Z := 12.
Definition EFAULT : Z := 14.
Definition EEXIST : Z := 17.
Definition ENODEV : Z := 19.
Definition ENOTDIR : Z := 20.
Definition EISDIR : Z := 21.
Definition EINVAL : Z := 22.
Definition ENOTTY : Z := 25.
Definition EPIPE : Z := 32.

(** ** Automation *)

Create HintDb dlutos.
Create Rewrite HintDb dlutos_bits.

(** Split on the first boolean integer test of the goal. *)
Ltac zcase :=
  match goal with
  | |- context [Z.ltb ?a ?b] => destruct (Z.ltb_spec a b)
  | |- context [Z.leb ?a ?b] => destruct (Z.leb_spec a b)
  | |- context [Z.eqb ?a ?b] => destruct (Z.eqb_spec a b)
  end.
(** The same for the boolean tests of a hypothesis. *)
Ltac zcase_in H :=
  match type of H with
  | context [Z.ltb ?a ?b] => destruct (Z.ltb_spec a b)
  | context [Z.leb ?a ?b] => destruct (Z.leb_spec a b)
  | context [Z.eqb ?a ?b] => destruct (Z.eqb_spec a b)
  end.
Ltac zcases := repeat (zcase; simpl in *; try (exfalso; lia)).
Ltac zcases_in H := repeat (zcase_in H; simpl in *; try discriminate; try (exfalso; lia)).

(** Read off the result of a successful monadic computation. *)
Ltac unbind H :=
  repeat match type of H with
  | mbind _ ?o = Ret _ =>
      let E := fresh "E" in destruct o eqn:E; simpl in H; try discriminate H
  end.

(** ** Lemmas on machine integers *)

Lemma wrap64_small x : is_u64 x -> wrap64 x = x.
Proof. unfold is_u64, wrap64. intros. by apply Z.mod_small. Qed.

Lemma wrap32_small x : is_u32 x -> wrap32 x = x.
Proof. unfold is_u32, wrap32. intros. by apply Z.mod_small. Qed.

Lemma wrap64_range x : is_u64 (wrap64 x).
Proof. unfold is_u64, wrap64. apply Z.mod_pos_bound. lia. Qed.

#[export] Hint Resolve wrap64_small wrap32_small wrap64_range : dlutos.
#[export] Hint Rewrite wrap64_small using (unfold is_u64 in *; lia) : dlutos_bits.

Lemma div_ceil_spec a b :
  0 <= a -> 0 < b -> a <= div_ceil a b * b < a + b.
Proof.
  intros Ha Hb. unfold div_ceil.
  pose proof (Z.div_mod a b ltac:(lia)). pose proof (Z.mod_pos_bound a b Hb).
  zcases; nia.
Qed.

Lemma div_ceil_exact a b : 0 < b -> a mod b = 0 -> div_ceil a b * b = a.
Proof.
  intros Hb Ha. unfold div_ceil. rewrite Ha. simpl.
  pose proof (Z.div_mod a b ltac:(lia)). nia.
Qed.

Lemma pos_ctz_nonneg p : 0 <= pos_ctz p.
Proof. induction p; simpl; lia. Qed.

Lemma pos_ctz_divide p : (2 ^ pos_ctz p | Zpos p).
Proof.
  induction p as [p IH|p IH|]; simpl.
  - apply Z.divide_1_l.
  - destruct IH as [k Hk]. exists k.
    rewrite Z.pow_add_r by (pose proof (pos_ctz_nonneg p); lia). lia.
  - apply Z.divide_1_l.
Qed.

(** A number is a multiple of the power of two its trailing zeros name. *)
Lemma trailing_zeros_divide x : 0 < x -> (2 ^ trailing_zeros x | x).
Proof. destruct x as [|p|p]; try lia. intros _. apply pos_ctz_divide. Qed.

Lemma trailing_zeros_nonneg x : 0 <= trailing_zeros x.
Proof. destruct x; simpl; try lia. apply pos_ctz_nonneg. Qed.

(** Bitwise equalities are proved bit by bit. *)
Lemma bf_contains_testbit a k :
  0 <= k -> bf_contains a (2 ^ k) = Z.testbit a k.
Proof.
  intros Hk. unfold bf_contains.
  replace (Z.land a (2 ^ k)) with (if Z.testbit a k then 2 ^ k else 0).
  - destruct (Z.testbit a k); [by rewrite Z.eqb_refl|].
    apply Z.eqb_neq. pose proof (Z.pow_pos_nonneg 2 k). lia.
  - apply Z.bits_inj'. intros n Hn. rewrite Z.land_spec, Z.pow2_bits_eqb by done.
    destruct (Z.eqb_spec k n) as [->|Hne].
    + rewrite andb_true_r. destruct (Z.testbit a n) eqn:E; [|by rewrite Z.bits_0].
      by rewrite Z.pow2_bits_true.
    + rewrite andb_false_r. destruct (Z.testbit a k); [|by rewrite Z.bits_0].
      rewrite Z.pow2_bits_false; [done|lia].
Qed.

(** ** Lemmas on lists *)

Lemma Forall_filter_b {A} (P : A -> Prop) (f : A -> bool) l :
  Forall P l -> Forall P (List.filter f l).
Proof. induction 1; simpl; [constructor|]. destruct (f x); auto. Qed.

Lemma list_filter_app_b {A} (f : A -> bool) l1 l2 :
  List.filter f (l1 ++ l2) = List.filter f l1 ++ List.filter f l2.
Proof. apply List.filter_app. Qed.

Lemma filter_all_intro {A} (P : A -> Prop) `{!∀ x, Decision (P x)} (l : list A) :
  (forall x, x ∈ l -> P x) -> filter P l = l.
Proof.
  induction l as [|x l IH]; intros Hall; [done|]. rewrite filter_cons_True by (apply Hall; set_solver).
  f_equal. apply IH. intros y Hy. apply Hall. set_solver.
Qed.

Lemma filter_empty_intro {A} (P : A -> Prop) `{!∀ x, Decision (P x)} l :
  (forall x, x ∈ l -> ~ P x) -> filter P l = [].
Proof.
  induction l as [|x l IH]; intros Hall; [done|]. rewrite filter_cons_False by (apply Hall; set_solver).
  apply IH. intros y Hy. apply Hall. set_solver.
Qed.
