(* ===== verification/RBTree.v ===== *)
(** * The interface of the intrusive red-black tree

    The kernel keeps descriptors, processes and timers in the [RBTree] of the
    [intrusive_collections] crate.  The crate is not part of the repository, so
    the tree is a parameter: [RBTree] lists the operations used and
    [RBTreeLaws] states their documented behaviour for distinct keys, in terms
    of the sequence the tree iterates over.  A cursor is the key it points at,
    [None] being the null object.  [list_rbtree] is an instance. *)

From Stdlib Require Import Sorted.
From S2P Require Import Prelude.

Class Keyed (V : Type) := key_of : V -> Z.

(** The elements in strictly increasing key order. *)
Definition SortedBy `{Keyed V} (l : list V) : Prop :=
  StronglySorted (fun a b => key_of a < key_of b) l.

Fixpoint insert_sorted `{Keyed V} (v : V) (l : list V) : list V :=
  match l with
  | [] => [v]
  | w :: l' => if key_of v <? key_of w then v :: l else w :: insert_sorted v l'
  end.

Class RBTree (V T : Type) := {
  rb_new : T;
  rb_iter : T -> list V;
  rb_insert : V -> T -> T;
  rb_remove : Z -> T -> T
}.

Class RBTreeLaws (V T : Type) `{Keyed V} `{RBTree V T} := {
  rb_iter_new : rb_iter rb_new = [];
  rb_iter_insert (v : V) (t : T) :
    SortedBy (rb_iter t) -> key_of v ∉ (key_of <$> rb_iter t) ->
    rb_iter (rb_insert v t) = insert_sorted v (rb_iter t);
  rb_iter_remove k t :
    SortedBy (rb_iter t) ->
    rb_iter (rb_remove k t) = filter (fun v => key_of v <> k) (rb_iter t)
}.

(** ** Lookups and cursors *)

Section ops.
Context `{Keyed V} `{RBTree V T}.

Definition rb_find (k : Z) (t : T) : option V :=
  List.find (fun v => key_of v =? k) (rb_iter t).

(** [range(Bound::Included(&k), Bound::Unbounded)]. *)
Definition rb_range_from (k : Z) (t : T) : list V :=
  List.filter (fun v => k <=? key_of v) (rb_iter t).

Definition cursor_front (t : T) : option Z := key_of <$> head (rb_iter t).

(** The element after key [k], the null object at the end. *)
Definition cursor_after (k : Z) (t : T) : option Z :=
  key_of <$> head (List.filter (fun v => k <? key_of v) (rb_iter t)).

Definition cursor_get (c : option Z) (t : T) : option V :=
  k ← c; rb_find k t.

(** Moving on from the null object goes to the first element. *)
Definition cursor_move_next (c : option Z) (t : T) : option Z :=
  match c with None => cursor_front t | Some k => cursor_after k t end.

(** Removing the current element leaves the cursor on the next one. *)
Definition cursor_remove (c : option Z) (t : T) : option V * T * option Z :=
  match c with
  | None => (None, t, None)
  | Some k =>
      match rb_find k t with
      | None => (None, t, None)
      | Some v => (Some v, rb_remove k t, cursor_after k t)
      end
  end.
End ops.

(** ** Facts about sorted sequences *)

Section sorted.
Context `{Keyed V}.

Lemma SortedBy_cons (v : V) l :
  SortedBy (v :: l) <-> SortedBy l /\ Forall (fun w => key_of v < key_of w) l.
Proof. split; [by inversion 1|intros []; by constructor]. Qed.

Lemma insert_sorted_elem (v w : V) l : w ∈ insert_sorted v l <-> w = v \/ w ∈ l.
Proof.
  induction l as [|x l IH]; simpl; [set_solver|].
  destruct (key_of v <? key_of x); [set_solver|]. rewrite !elem_of_cons, IH. set_solver.
Qed.

Lemma insert_sorted_sorted (v : V) l :
  SortedBy l -> key_of v ∉ (key_of <$> l) -> SortedBy (insert_sorted v l).
Proof.
  induction l as [|x l IH]; simpl; intros Hs Hn; [repeat constructor|].
  apply SortedBy_cons in Hs as [Hs Hx]. apply not_elem_of_cons in Hn as [Hvx Hn].
  destruct (Z.ltb_spec (key_of v) (key_of x)).
  - apply SortedBy_cons. split; [by apply SortedBy_cons|].
    constructor; [done|]. eapply Forall_impl; [done|]. simpl. lia.
  - apply SortedBy_cons. split; [by apply IH|].
    apply Forall_forall. intros w [->|Hw]%insert_sorted_elem; [lia|].
    rewrite Forall_forall in Hx. auto.
Qed.

Lemma filter_SortedBy (P : V -> Prop) `{!∀ v, Decision (P v)} l :
  SortedBy l -> SortedBy (filter P l).
Proof.
  induction l as [|x l IH]; intros Hs; [done|]. apply SortedBy_cons in Hs as [Hs Hx].
  rewrite filter_cons. case_decide; [|auto]. apply SortedBy_cons. split; [auto|].
  rewrite Forall_forall in *. intros w [_ Hw]%list_elem_of_filter. auto.
Qed.

Lemma insert_sorted_perm (v : V) l : insert_sorted v l ≡ₚ v :: l.
Proof.
  induction l as [|x l IH]; simpl; [done|]. destruct (key_of v <? key_of x); [done|].
  rewrite IH. constructor.
Qed.

Lemma filter_key_absent k (l : list V) :
  k ∉ (key_of <$> l) -> filter (fun v => key_of v <> k) l = l.
Proof.
  induction l as [|x l IH]; simpl; intros Hk; [done|]. apply not_elem_of_cons in Hk as [Hx Hk].
  rewrite filter_cons_True by done. by rewrite IH.
Qed.

(** Removing a key removes the one element that has it. *)
Lemma remove_key_perm (v : V) l :
  SortedBy l -> v ∈ l -> l ≡ₚ v :: filter (fun w => key_of w <> key_of v) l.
Proof.
  induction l as [|x l IH]; intros Hs Hv; [by apply elem_of_nil in Hv|].
  apply SortedBy_cons in Hs as [Hs Hx]. rewrite Forall_forall in Hx.
  apply elem_of_cons in Hv as [->|Hv].
  - rewrite filter_cons_False by naive_solver. rewrite filter_key_absent; [done|].
    intros (w & Hk & Hw)%list_elem_of_fmap. specialize (Hx _ Hw). lia.
  - specialize (Hx _ Hv). rewrite filter_cons_True by lia.
    rewrite Permutation_swap. by rewrite <- IH.
Qed.

(** A sorted sequence finds exactly its members. *)
Lemma find_sorted k (v : V) l :
  SortedBy l -> List.find (fun w => key_of w =? k) l = Some v <-> v ∈ l /\ key_of v = k.
Proof.
  induction l as [|x l IH]; simpl; intros Hs; [set_solver|].
  apply SortedBy_cons in Hs as [Hs Hx]. rewrite Forall_forall in Hx.
  destruct (Z.eqb_spec (key_of x) k) as [Hk|Hk].
  - split; [intros [= ->]; set_solver|]. intros [[->|Hv]%elem_of_cons <-]; [done|].
    specialize (Hx _ Hv). lia.
  - rewrite IH by done. rewrite elem_of_cons. naive_solver.
Qed.
End sorted.

(** ** Facts about trees *)

Section laws.
Context `{RBTreeLaws V T}.
Implicit Types t : T.

Lemma rb_find_Some k v t :
  SortedBy (rb_iter t) -> rb_find k t = Some v <-> v ∈ rb_iter t /\ key_of v = k.
Proof. apply find_sorted. Qed.

Lemma rb_find_None k t :
  SortedBy (rb_iter t) -> rb_find k t = None <-> k ∉ (key_of <$> rb_iter t).
Proof.
  intros Hs. split.
  - intros Hn (v & -> & Hv)%list_elem_of_fmap.
    destruct (rb_find_Some (key_of v) v t Hs) as [_ Hf]. rewrite Hf in Hn; [done|]. done.
  - intros Hn. destruct (rb_find k t) as [v|] eqn:E; [|done].
    apply rb_find_Some in E as [Hv <-]; [|done]. exfalso. apply Hn.
    apply list_elem_of_fmap. eauto.
Qed.

Lemma rb_insert_sorted v t :
  SortedBy (rb_iter t) -> rb_find (key_of v) t = None -> SortedBy (rb_iter (rb_insert v t)).
Proof.
  intros Hs Hn. apply rb_find_None in Hn; [|done]. rewrite rb_iter_insert by done.
  by apply insert_sorted_sorted.
Qed.

Lemma rb_remove_sorted k t : SortedBy (rb_iter t) -> SortedBy (rb_iter (rb_remove k t)).
Proof. intros Hs. rewrite rb_iter_remove by done. by apply filter_SortedBy. Qed.

Lemma rb_find_insert k v t :
  SortedBy (rb_iter t) -> rb_find (key_of v) t = None ->
  rb_find k (rb_insert v t) = if decide (key_of v = k) then Some v else rb_find k t.
Proof.
  intros Hs Hn. apply option_eq. intros w.
  rewrite rb_find_Some by by apply rb_insert_sorted.
  rewrite rb_iter_insert, insert_sorted_elem by (done || by apply rb_find_None).
  destruct (decide (key_of v = k)) as [<-|Hk].
  - split; [|naive_solver]. intros [[->|Hw] Hkw]; [done|].
    exfalso. apply rb_find_None in Hn; [|done]. apply Hn. rewrite <- Hkw.
    apply list_elem_of_fmap. eauto.
  - rewrite rb_find_Some by done. naive_solver.
Qed.

Lemma rb_find_remove k k' t :
  SortedBy (rb_iter t) ->
  rb_find k (rb_remove k' t) = if decide (k' = k) then None else rb_find k t.
Proof.
  intros Hs. apply option_eq. intros w.
  rewrite rb_find_Some by by apply rb_remove_sorted.
  rewrite rb_iter_remove, list_elem_of_filter by done.
  destruct (decide (k' = k)) as [<-|Hk]; [naive_solver|].
  rewrite rb_find_Some by done. naive_solver.
Qed.
End laws.

(** ** An instance: the sequence itself *)

#[export] Instance list_rbtree (V : Type) `{Keyed V} : RBTree V (list V) := {
  rb_new := [];
  rb_iter l := l;
  rb_insert := insert_sorted;
  rb_remove k l := filter (fun v => key_of v <> k) l
}.

#[export] Instance list_rbtree_laws (V : Type) `{Keyed V} : RBTreeLaws V (list V).
Proof. by split. Qed.
