(* ===== verification/WaitList.v ===== *)
(** * Wait lists

    Models crates/dlutos_sync/dlutos_sync_rt/src/wait_list.rs,
    wait_list/wait_handle.rs and wait_list/wait_object.rs.

    A wait object is a node of an intrusive list that lives in the future of the
    waiting task; the notifier touches it while it holds the list's lock, the
    waiter while it does not.  The operations are given as the pieces between
    which the other side may run, and the step relation at the end interleaves
    them (sequentially consistent memory).  A waker is the identity of the task
    to be woken up. *)

From S2P Require Import Prelude.

(** ** [WaitObject] *)

Record WObj := mkWObj { wo_woken_up : bool; wo_waker : option nat; wo_on_list : bool }.

(** [WaitObject::new]; the pointer to the list is not null from the start. *)
Definition wait_object_new : WObj := mkWObj false None true.

Definition save_waker (o : WObj) (waker : nat) : outcome WObj :=
  match wo_waker o with
  | None => Ret (mkWObj (wo_woken_up o) (Some waker) (wo_on_list o))
  | Some _ => Panic
  end.

Definition save_waker_if_not_woken_up (o : WObj) (waker : nat) : outcome (bool * WObj) :=
  if wo_woken_up o then Ret (false, o)
  else o ← save_waker o waker; Ret (true, o).

Definition take_waker (o : WObj) : option nat * WObj := (wo_waker o, mkWObj (wo_woken_up o) None (wo_on_list o)).
Definition set_woken_up (o : WObj) : WObj := mkWObj true (wo_waker o) (wo_on_list o).
Definition clear_wait_list (o : WObj) : WObj := mkWObj (wo_woken_up o) (wo_waker o) false.

(** ** [WaitList]

    The list and the objects, by identity. *)
Record WL := mkWL { wl_waiters : list nat; wl_objs : gmap nat WObj }.

Definition wl_new : WL := mkWL [] ∅.
Definition wl_obj (l : WL) (h : nat) : WObj := default wait_object_new (wl_objs l !! h).
Definition set_obj (l : WL) (h : nat) (o : WObj) : WL := mkWL (wl_waiters l) (<[h := o]> (wl_objs l)).
Definition remove_waiter (l : WL) (h : nat) : WL := mkWL (filter (fun x => x <> h) (wl_waiters l)) (wl_objs l).

Definition has_waiters (l : WL) : bool := match wl_waiters l with [] => false | _ => true end.

(** The three pieces of [notify_waiter_unchecked]. *)
Definition notify_set (l : WL) (h : nat) : WL := set_obj l h (set_woken_up (wl_obj l h)).
Definition notify_wake (l : WL) (h : nat) : option nat * WL :=
  let (w, o) := take_waker (wl_obj l h) in (w, set_obj l h o).
Definition notify_remove (l : WL) (h : nat) : WL :=
  let l := remove_waiter l h in set_obj l h (clear_wait_list (wl_obj l h)).

Definition notify_waiter_unchecked (l : WL) (h : nat) : option nat * WL :=
  let l := notify_set l h in
  let (w, l) := notify_wake l h in
  (w, notify_remove l h).

(** [notify_one] and [notify_all]: the tasks woken up, in order. *)
Definition wl_notify_one (l : WL) : bool * list nat * WL :=
  match wl_waiters l with
  | [] => (false, [], l)
  | h :: _ => let (w, l) := notify_waiter_unchecked l h in (true, option_list w, l)
  end.

Fixpoint notify_all_loop (n : nat) (l : WL) : nat * list nat * WL :=
  match n with
  | O => (O, [], l)
  | S n =>
      match wl_waiters l with
      | [] => (O, [], l)
      | h :: _ =>
          let (w, l) := notify_waiter_unchecked l h in
          let '(count, ws, l) := notify_all_loop n l in
          (S count, option_list w ++ ws, l)
      end
  end.
Definition wl_notify_all (l : WL) : nat * list nat * WL := notify_all_loop (length (wl_waiters l)) l.

(** [notify_waiter], for the waker function of a handle of this list. *)
Definition wl_notify_waiter (l : WL) (h : nat) : list nat * WL :=
  if negb (wo_on_list (wl_obj l h)) then ([], l)
  else let (w, l) := notify_waiter_unchecked l h in (option_list w, l).

(** ** [WaitHandle]

    [HSpinning] is a handle that has seen it was woken up and spins in
    [wait_until_off_list]; [HWokenUp] is one that has returned. *)
Inductive HState := HInit | HOnList | HWakerSet | HSpinning | HWokenUp | HDropped.

#[export] Instance HState_eq_dec : EqDecision HState.
Proof. solve_decision. Defined.

(** The arm [State::Init] of [do_add_to_wait_list], which locks the list. *)
Definition add_to_list (l : WL) (h : nat) (waker : option nat) : outcome (WL * HState) :=
  let o := wl_obj l h in
  let l := mkWL (wl_waiters l ++ [h]) (wl_objs l) in
  match waker with
  | Some w => o ← save_waker o w; Ret (set_obj l h o, HWakerSet)
  | None => Ret (set_obj l h o, HOnList)
  end.

(** The arm [State::OnList]: the first test of [woken_up] ... *)
Definition poll_on_list (l : WL) (h : nat) : bool := wo_woken_up (wl_obj l h).
(** ... and, if it failed, the locked part. *)
Definition poll_save_waker (l : WL) (h : nat) (w : nat) : outcome (WL * HState) :=
  '(waker_set, o) ← save_waker_if_not_woken_up (wl_obj l h) w;
  Ret (set_obj l h o, if waker_set : bool then HWakerSet else HSpinning).

(** The arm [State::WakerSet] of [poll]. *)
Definition poll_waker_set (l : WL) (h : nat) : HState :=
  if wo_woken_up (wl_obj l h) then HSpinning else HWakerSet.

(** [wait_until_off_list] can stop. *)
Definition off_list (l : WL) (h : nat) : bool := negb (wo_on_list (wl_obj l h)).

(** The part of [Drop] that locks the list. *)
Definition drop_locked (l : WL) (h : nat) : outcome WL :=
  if wo_on_list (wl_obj l h) then
    assert_ (bool_decide (h ∈ wl_waiters l));;
    Ret (remove_waiter l h)
  else Ret l.

(** ** Everything at once

    The list, the state of each handle, what the holder of the list's lock is
    doing, and the tasks that have been woken up.  Handle [h] is polled by task
    [h]. *)
Inductive Notifier := NIdle | NSet (h : nat) | NWoken (h : nat).

Record wsys := mkWsys {
  ws_list : WL; ws_handles : nat -> HState; ws_notifier : Notifier; ws_woken : gset nat; ws_panic : bool
}.

Definition set_handle (f : nat -> HState) (h : nat) (s : HState) : nat -> HState :=
  fun x => if decide (x = h) then s else f x.

Definition wsys_init : wsys := mkWsys wl_new (fun _ => HInit) NIdle ∅ false.

Inductive wait_step : wsys -> wsys -> Prop :=
| WAdd l hs ws h waker r :
    hs h = HInit -> waker = None \/ waker = Some h -> add_to_list l h waker = r ->
    wait_step (mkWsys l hs NIdle ws false)
      match r with
      | Ret (l', s) => mkWsys l' (set_handle hs h s) NIdle ws false
      | _ => mkWsys l hs NIdle ws true
      end
| WPollWoken l hs n ws h :
    hs h = HOnList -> poll_on_list l h = true ->
    wait_step (mkWsys l hs n ws false) (mkWsys l (set_handle hs h HSpinning) n ws false)
| WPollSave l hs n ws h r :
    hs h = HOnList -> poll_save_waker l h h = r ->
    wait_step (mkWsys l hs n ws false)
      match r with
      | Ret (l', s) => mkWsys l' (set_handle hs h s) n ws false
      | _ => mkWsys l hs n ws true
      end
| WPollWakerSet l hs n ws h :
    hs h = HWakerSet ->
    wait_step (mkWsys l hs n ws false) (mkWsys l (set_handle hs h (poll_waker_set l h)) n ws false)
| WReady l hs n ws h :
    hs h = HSpinning -> off_list l h = true ->
    wait_step (mkWsys l hs n ws false) (mkWsys l (set_handle hs h HWokenUp) n ws false)
| WDropDone l hs n ws h :
    hs h = HInit \/ hs h = HWokenUp ->
    wait_step (mkWsys l hs n ws false) (mkWsys l (set_handle hs h HDropped) n ws false)
| WDropWoken l hs n ws h :
    hs h = HOnList \/ hs h = HWakerSet -> wo_woken_up (wl_obj l h) = true -> off_list l h = true ->
    wait_step (mkWsys l hs n ws false) (mkWsys l (set_handle hs h HDropped) n ws false)
| WDropLock l hs ws h r :
    hs h = HOnList \/ hs h = HWakerSet -> drop_locked l h = r ->
    wait_step (mkWsys l hs NIdle ws false)
      match r with
      | Ret l' => mkWsys l' (set_handle hs h HDropped) NIdle ws false
      | _ => mkWsys l hs NIdle ws true
      end
| WNotifySet l hs ws h :
    h ∈ wl_waiters l ->
    wait_step (mkWsys l hs NIdle ws false) (mkWsys (notify_set l h) hs (NSet h) ws false)
| WNotifyWake l hs ws h :
    wait_step (mkWsys l hs (NSet h) ws false)
      (mkWsys (notify_wake l h).2 hs (NWoken h) (match (notify_wake l h).1 with Some w => {[w]} ∪ ws | None => ws end) false)
| WNotifyRemove l hs ws h :
    wait_step (mkWsys l hs (NWoken h) ws false) (mkWsys (notify_remove l h) hs NIdle ws false).

(** ** The invariant, one handle at a time *)

Inductive phase := PNone | PSet | PWoken.

Definition phase_of (n : Notifier) (h : nat) : phase :=
  match n with
  | NIdle => PNone
  | NSet x => if decide (x = h) then PSet else PNone
  | NWoken x => if decide (x = h) then PWoken else PNone
  end.

(** Listed and not woken up, being notified, or woken up and off the list. *)
Definition listed (inW : Prop) (o : WObj) (ph : phase) : Prop :=
  match ph with
  | PNone => if wo_woken_up o then ~ inW /\ wo_on_list o = false else inW /\ wo_on_list o = true
  | _ => wo_woken_up o = true /\ inW /\ wo_on_list o = true
  end.

Definition waker_ok (h : nat) (o : WObj) (ph : phase) (woken : Prop) : Prop :=
  match ph with
  | PNone => if wo_woken_up o then wo_waker o = None /\ woken else wo_waker o = Some h
  | PSet => wo_waker o = Some h
  | PWoken => wo_waker o = None /\ woken
  end.

Definition handle_ok (h : nat) (s : HState) (inW : Prop) (o : WObj) (ph : phase) (woken : Prop) : Prop :=
  match s with
  | HInit => ~ inW /\ o = wait_object_new /\ ph = PNone
  | HOnList => listed inW o ph /\ wo_waker o = None
  | HWakerSet => listed inW o ph /\ waker_ok h o ph woken
  | HSpinning => listed inW o ph /\ wo_woken_up o = true
  | HWokenUp => ~ inW /\ wo_on_list o = false /\ wo_woken_up o = true /\ ph = PNone
  | HDropped => ~ inW /\ ph = PNone
  end.

Definition handle_inv (y : wsys) (h : nat) : Prop :=
  handle_ok h (ws_handles y h) (h ∈ wl_waiters (ws_list y)) (wl_obj (ws_list y) h)
    (phase_of (ws_notifier y) h) (h ∈ ws_woken y).

Definition wsys_inv (y : wsys) : Prop := ws_panic y = false /\ forall h, handle_inv y h.

(** Only membership in the list and in the woken set matters. *)
Lemma handle_ok_ext h s (P P' : Prop) o ph (Q Q' : Prop) :
  (P <-> P') -> (Q -> Q') -> handle_ok h s P o ph Q -> handle_ok h s P' o ph Q'.
Proof.
  intros HP HQ. destruct s; simpl; unfold listed, waker_ok; destruct ph, (wo_woken_up o); tauto.
Qed.

#[export] Instance handle_ok_proper h s : Proper (iff ==> (=) ==> (=) ==> iff ==> iff) (handle_ok h s).
Proof. intros P P' HP o o' <- ph ph' <- Q Q' HQ. split; apply handle_ok_ext; tauto. Qed.

Lemma set_handle_eq f h s : set_handle f h s h = s.
Proof. unfold set_handle. by rewrite decide_True. Qed.
Lemma set_handle_ne f h s x : x <> h -> set_handle f h s x = f x.
Proof. intros Hx. unfold set_handle. by rewrite decide_False. Qed.

Lemma wl_obj_set_eq l h o : wl_obj (set_obj l h o) h = o.
Proof. unfold wl_obj, set_obj. simpl. by rewrite lookup_insert_eq. Qed.
Lemma wl_obj_set_ne l h o x : x <> h -> wl_obj (set_obj l h o) x = wl_obj l x.
Proof. intros Hx. unfold wl_obj, set_obj. simpl. by rewrite lookup_insert_ne. Qed.

Lemma elem_of_remove_waiter l h x : x ∈ wl_waiters (remove_waiter l h) <-> x <> h /\ x ∈ wl_waiters l.
Proof. simpl. by rewrite list_elem_of_filter. Qed.

(** A step that only concerns handle [h] and its object. *)
Lemma handle_inv_frame l l' hs n n' ws ws' h s :
  (forall x, x <> h -> handle_inv (mkWsys l hs n ws false) x) ->
  (forall x, x <> h -> wl_obj l' x = wl_obj l x) ->
  (forall x, x <> h -> (x ∈ wl_waiters l' <-> x ∈ wl_waiters l)) ->
  (forall x, x <> h -> phase_of n' x = phase_of n x) ->
  ws ⊆ ws' ->
  handle_ok h s (h ∈ wl_waiters l') (wl_obj l' h) (phase_of n' h) (h ∈ ws') ->
  wsys_inv (mkWsys l' (set_handle hs h s) n' ws' false).
Proof.
  intros Hinv Ho Hw Hn Hs Hh. split; [done|]. intros x. unfold handle_inv. simpl.
  destruct (decide (x = h)) as [->|Hx]; [by rewrite set_handle_eq|].
  rewrite set_handle_ne, Ho, Hn by done. eapply handle_ok_ext; [by symmetry; apply Hw| |by apply Hinv].
  set_solver.
Qed.

(** A step of the notifier does not change the state of the handle. *)
Lemma handle_inv_notify l l' hs n n' ws ws' h :
  (forall x, x <> h -> handle_inv (mkWsys l hs n ws false) x) ->
  (forall x, x <> h -> wl_obj l' x = wl_obj l x) ->
  (forall x, x <> h -> (x ∈ wl_waiters l' <-> x ∈ wl_waiters l)) ->
  (forall x, x <> h -> phase_of n' x = phase_of n x) ->
  ws ⊆ ws' ->
  handle_ok h (hs h) (h ∈ wl_waiters l') (wl_obj l' h) (phase_of n' h) (h ∈ ws') ->
  wsys_inv (mkWsys l' hs n' ws' false).
Proof.
  intros Hinv Ho Hw Hn Hs Hh. split; [done|]. intros x. unfold handle_inv. simpl.
  destruct (decide (x = h)) as [->|Hx]; [done|].
  rewrite Ho, Hn by done. eapply handle_ok_ext; [by symmetry; apply Hw| |by apply Hinv]. set_solver.
Qed.

Lemma add_to_list_inv l hs ws h waker :
  wsys_inv (mkWsys l hs NIdle ws false) -> hs h = HInit -> waker = None \/ waker = Some h ->
  exists l' s, add_to_list l h waker = Ret (l', s) /\ wsys_inv (mkWsys l' (set_handle hs h s) NIdle ws false).
Proof.
  intros [_ Hinv] Hh Hw. pose proof (Hinv h) as Hok. unfold handle_inv in Hok. simpl in Hok. rewrite Hh in Hok.
  destruct Hok as (Hnin & Ho & _). unfold add_to_list. rewrite Ho.
  destruct Hw as [-> | ->]; eexists _, _; (split; [reflexivity|]); apply (handle_inv_frame l _ hs NIdle _ ws); auto;
    try (intros x Hx; by rewrite wl_obj_set_ne); try (intros x Hx; simpl; rewrite elem_of_app, list_elem_of_singleton; tauto).
  all: rewrite wl_obj_set_eq; simpl; rewrite elem_of_app, list_elem_of_singleton; auto.
Qed.

Lemma poll_save_inv l hs n ws h :
  wsys_inv (mkWsys l hs n ws false) -> hs h = HOnList ->
  exists l' s, poll_save_waker l h h = Ret (l', s) /\ wsys_inv (mkWsys l' (set_handle hs h s) n ws false).
Proof.
  intros [_ Hinv] Hh. pose proof (Hinv h) as Hok. unfold handle_inv in Hok. simpl in Hok. rewrite Hh in Hok.
  destruct Hok as (Hl & Hw). unfold poll_save_waker, save_waker_if_not_woken_up, save_waker.
  destruct (wo_woken_up (wl_obj l h)) eqn:Hwk; [|rewrite Hw]; eexists _, _; (split; [reflexivity|]);
    apply (handle_inv_frame l _ hs n _ ws); auto; try (intros x Hx; by rewrite wl_obj_set_ne);
    rewrite wl_obj_set_eq; [by split|]. simpl. unfold listed, waker_ok in *. simpl. rewrite Hwk in *.
  destruct (phase_of n h); [done|by destruct Hl|by destruct Hl].
Qed.

Lemma notify_inv l hs ws h :
  wsys_inv (mkWsys l hs NIdle ws false) -> h ∈ wl_waiters l -> wsys_inv (mkWsys (notify_set l h) hs (NSet h) ws false).
Proof.
  intros [_ Hinv] Hh. pose proof (Hinv h) as Hok. unfold handle_inv in Hok. simpl in Hok.
  apply (handle_inv_notify l _ hs NIdle _ ws _ h); auto.
  - intros x Hx. unfold notify_set. by rewrite wl_obj_set_ne.
  - intros x Hx. simpl. by rewrite decide_False.
  - unfold notify_set. rewrite wl_obj_set_eq. simpl. rewrite decide_True by done.
    destruct (hs h); simpl in *; unfold listed in *; simpl in *; destruct (wo_woken_up (wl_obj l h)); tauto.
Qed.

Lemma notify_wake_inv l hs ws h :
  wsys_inv (mkWsys l hs (NSet h) ws false) ->
  wsys_inv (mkWsys (notify_wake l h).2 hs (NWoken h) (match (notify_wake l h).1 with Some w => {[w]} ∪ ws | None => ws end) false).
Proof.
  intros [_ Hinv]. pose proof (Hinv h) as Hok. unfold handle_inv in Hok. simpl in Hok. rewrite decide_True in Hok by done.
  apply (handle_inv_notify l _ hs (NSet h) _ ws _ h); auto.
  - intros x Hx. simpl. by rewrite wl_obj_set_ne.
  - intros x Hx. simpl. by rewrite !decide_False.
  - simpl. destruct (wo_waker (wl_obj l h)); set_solver.
  - simpl. rewrite wl_obj_set_eq, decide_True by done. simpl.
    destruct (hs h); simpl in *; unfold listed, waker_ok in *; simpl in *; [by destruct Hok as (_ & _ & ?)|tauto| |tauto|naive_solver|naive_solver].
    destruct Hok as [Hl ->]. split; [done|]. split; [done|]. set_solver.
Qed.

Lemma notify_remove_inv l hs ws h :
  wsys_inv (mkWsys l hs (NWoken h) ws false) -> wsys_inv (mkWsys (notify_remove l h) hs NIdle ws false).
Proof.
  intros [_ Hinv]. pose proof (Hinv h) as Hok. unfold handle_inv in Hok. simpl in Hok. rewrite decide_True in Hok by done.
  apply (handle_inv_notify l _ hs (NWoken h) _ ws _ h); auto.
  - intros x Hx. unfold notify_remove. by rewrite wl_obj_set_ne.
  - intros x Hx. unfold notify_remove. simpl. rewrite list_elem_of_filter. tauto.
  - intros x Hx. simpl. by rewrite decide_False.
  - unfold notify_remove. rewrite wl_obj_set_eq. simpl. rewrite list_elem_of_filter.
    change (wl_obj (remove_waiter l h) h) with (wl_obj l h).
    destruct (hs h); simpl in *; unfold listed, waker_ok in *; simpl in *; try tauto;
      destruct (wo_woken_up (wl_obj l h)); naive_solver.
Qed.

Lemma drop_locked_inv l hs ws h :
  wsys_inv (mkWsys l hs NIdle ws false) -> hs h = HOnList \/ hs h = HWakerSet ->
  exists l', drop_locked l h = Ret l' /\ wsys_inv (mkWsys l' (set_handle hs h HDropped) NIdle ws false).
Proof.
  intros [_ Hinv] Hh. pose proof (Hinv h) as Hok. unfold handle_inv in Hok. simpl in Hok.
  assert (listed (h ∈ wl_waiters l) (wl_obj l h) PNone) as Hl by (destruct Hh as [Hh|Hh]; rewrite Hh in Hok; apply Hok).
  unfold drop_locked, listed in *. destruct (wo_woken_up (wl_obj l h)).
  - destruct Hl as [Hnin ->]. exists l. split; [done|]. by apply (handle_inv_frame l _ hs NIdle _ ws).
  - destruct Hl as [Hin ->]. rewrite bool_decide_true by done. eexists. split; [reflexivity|].
    apply (handle_inv_frame l _ hs NIdle _ ws); auto.
    + intros x Hx. rewrite elem_of_remove_waiter. tauto.
    + simpl. rewrite list_elem_of_filter. tauto.
Qed.

Lemma wait_step_inv y y' : wait_step y y' -> wsys_inv y -> wsys_inv y'.
Proof.
  intros Hstep Hinv.
  destruct Hstep as [l hs ws h waker r Hh Hw Hr|l hs n ws h Hh Hp|l hs n ws h r Hh Hr|l hs n ws h Hh|l hs n ws h Hh Hoff
    |l hs n ws h Hh|l hs n ws h Hh Hwk Hoff|l hs ws h r Hh Hr|l hs ws h Hin|l hs ws h|l hs ws h].
  1: { destruct (add_to_list_inv _ _ _ _ _ Hinv Hh Hw) as (l' & s & E & Hi). by rewrite <- Hr, E. }
  2: { destruct (poll_save_inv _ _ _ _ _ Hinv Hh) as (l' & s & E & Hi). by rewrite <- Hr, E. }
  6: { destruct (drop_locked_inv _ _ _ _ Hinv Hh) as (l' & E & Hi). by rewrite <- Hr, E. }
  6: by apply notify_inv. 6: by apply notify_wake_inv. 6: by apply notify_remove_inv.
  all: destruct Hinv as [_ Hinv]; pose proof (Hinv h) as Hok; unfold handle_inv in Hok; simpl in Hok.
  all: apply (handle_inv_frame l l hs n n ws ws h); auto.
  - rewrite Hh in Hok. destruct Hok as [Hl Hw]. by split.
  - unfold poll_waker_set. rewrite Hh in Hok. destruct Hok as [Hl Hw]. by destruct (wo_woken_up (wl_obj l h)) eqn:E; split.
  - rewrite Hh in Hok. destruct Hok as [Hl Hw]. unfold off_list in Hoff. apply negb_true_iff in Hoff.
    simpl. unfold listed in Hl. rewrite Hw, Hoff in *. destruct (phase_of n h); naive_solver.
  - simpl. destruct Hh as [Hh|Hh]; rewrite Hh in Hok; simpl in Hok; tauto.
  - simpl. unfold off_list in Hoff. apply negb_true_iff in Hoff.
    assert (listed (h ∈ wl_waiters l) (wl_obj l h) (phase_of n h)) as Hl by (destruct Hh as [Hh|Hh]; rewrite Hh in Hok; apply Hok).
    unfold listed in Hl. rewrite Hwk, Hoff in Hl. destruct (phase_of n h); naive_solver.
Qed.

Lemma wsys_init_inv : wsys_inv wsys_init.
Proof.
  split; [done|]. intros h. unfold handle_inv, wl_obj. simpl. rewrite lookup_empty. split; [apply not_elem_of_nil|done].
Qed.

Lemma wsys_reachable_inv y : rtc wait_step wsys_init y -> wsys_inv y.
Proof.
  intros Hr. pose proof wsys_init_inv as Hi. revert Hi. induction Hr; [done|]. eauto using wait_step_inv.
Qed.

(** C34: A wake-up is never lost and a wait object never outlives its place on
    the list.  In every interleaving of waiters and notifiers, no assertion
    fails; a handle whose last poll returned [Pending] is on the list with its
    waker in place, or the notifier is about to call that waker, or the task
    has been woken up; a handle that spins does so only while the notifier is
    taking it off the list; and a handle that returned or was dropped is off
    the list with nobody working on it, so its memory can be reused. *)
Theorem wait_handle_safe y h :
  rtc wait_step wsys_init y ->
  let o := wl_obj (ws_list y) h in
  let on := h ∈ wl_waiters (ws_list y) in
  ws_panic y = false /\
  (ws_handles y h = HWakerSet ->
     (on /\ wo_woken_up o = false /\ wo_waker o = Some h) \/ (ws_notifier y = NSet h /\ wo_waker o = Some h) \/ h ∈ ws_woken y) /\
  (ws_handles y h = HSpinning -> off_list (ws_list y) h = true \/ ws_notifier y = NSet h \/ ws_notifier y = NWoken h) /\
  (ws_handles y h = HWokenUp \/ ws_handles y h = HDropped -> ~ on /\ ws_notifier y <> NSet h /\ ws_notifier y <> NWoken h).
Proof.
  intros Hr o on. destruct (wsys_reachable_inv y Hr) as [Hp Hinv]. specialize (Hinv h). unfold handle_inv in Hinv.
  fold o on in Hinv. split; [done|].
  assert (match phase_of (ws_notifier y) h with
          | PNone => ws_notifier y <> NSet h /\ ws_notifier y <> NWoken h
          | PSet => ws_notifier y = NSet h | PWoken => ws_notifier y = NWoken h end) as Hph.
  { unfold phase_of. destruct (ws_notifier y); [by split|case_decide; naive_solver|case_decide; naive_solver]. }
  split_and!; intros Hs; [rewrite Hs in Hinv| rewrite Hs in Hinv|destruct Hs as [Hs|Hs]; rewrite Hs in Hinv];
    simpl in Hinv; unfold listed, waker_ok in Hinv; fold o.
  - destruct (phase_of (ws_notifier y) h), (wo_woken_up o); naive_solver.
  - unfold off_list. fold o. destruct (phase_of (ws_notifier y) h); [|tauto..]. destruct Hinv as [Hl Hw]. rewrite Hw in Hl.
    left. by destruct Hl as [_ ->].
  - destruct Hinv as (? & ? & ? & E). rewrite E in Hph. done.
  - destruct Hinv as (? & E). rewrite E in Hph. done.
Qed.

(** A task that waits and is being notified. *)
Definition demo_wait : wsys :=
  mkWsys (mkWL [7%nat] {[ 7%nat := mkWObj true (Some 7%nat) true ]}) (set_handle (set_handle (fun _ => HInit) 7 HOnList) 7 HWakerSet) (NSet 7) ∅ false.

Lemma demo_wait_reachable : rtc wait_step wsys_init demo_wait.
Proof.
  eapply rtc_l; [apply (WAdd wl_new (fun _ => HInit) ∅ 7 None _ eq_refl (or_introl eq_refl) eq_refl)|].
  eapply rtc_l; [apply (WPollSave _ _ _ _ 7 _ eq_refl eq_refl)|].
  eapply rtc_l; [apply (WNotifySet _ _ _ 7); set_solver|]. apply rtc_refl.
Qed.

Lemma wait_handle_safe_witness :
  rtc wait_step wsys_init demo_wait /\ ws_handles demo_wait 7 = HWakerSet /\
  ((7%nat ∈ wl_waiters (ws_list demo_wait) /\ wo_woken_up (wl_obj (ws_list demo_wait) 7) = false /\
      wo_waker (wl_obj (ws_list demo_wait) 7) = Some 7%nat) \/
   (ws_notifier demo_wait = NSet 7 /\ wo_waker (wl_obj (ws_list demo_wait) 7) = Some 7%nat) \/ 7%nat ∈ ws_woken demo_wait).
Proof.
  split; [exact demo_wait_reachable|]. split; [reflexivity|].
  destruct (wait_handle_safe demo_wait 7 demo_wait_reachable) as (_ & Hw & _). apply Hw. reflexivity.
Defined.

(** ** Notifying, seen from outside *)

Lemma notify_waiter_unchecked_list l h :
  wl_waiters (notify_waiter_unchecked l h).2 = filter (fun x => x <> h) (wl_waiters l).
Proof. done. Qed.

(** The first waiter leaves the list, and is told. *)
Lemma wl_notify_one_ok l :
  NoDup (wl_waiters l) ->
  match wl_waiters l with
  | [] => wl_notify_one l = (false, [], l)
  | h :: hs => exists l', wl_notify_one l = (true, option_list (wo_waker (wl_obj l h)), l') /\ wl_waiters l' = hs /\
      wo_woken_up (wl_obj l' h) = true /\ (forall x, x <> h -> wl_obj l' x = wl_obj l x)
  end.
Proof.
  intros Hnd. unfold wl_notify_one. destruct (wl_waiters l) as [|h hs] eqn:E; [done|].
  apply NoDup_cons in Hnd as [Hh Hnd]. unfold notify_waiter_unchecked, notify_wake, take_waker.
  unfold notify_set. rewrite wl_obj_set_eq. eexists. split; [reflexivity|]. unfold notify_remove. split; [|split].
  - simpl. rewrite E, filter_cons_False by naive_solver. apply filter_all_intro. intros x Hx ->. done.
  - rewrite wl_obj_set_eq. simpl. unfold wl_obj. simpl. by rewrite lookup_insert_eq.
  - intros x Hx. rewrite wl_obj_set_ne by done. unfold remove_waiter, wl_obj. simpl. by rewrite !lookup_insert_ne.
Qed.
