(* ===== verification/Locks.v ===== *)
(** * Sleeping locks

    Models crates/dlutos_sync/dlutos_sync_rt/src/mutex.rs, rwlock.rs and their
    guards.

    Any number of tasks lock and unlock, one atomic access at a time, in every
    interleaving (sequentially consistent memory).  The operations on the wait
    lists are the ones of [WaitList], atomic because they hold the list's lock;
    what a waiter sees of them is whether it has been woken up.  A state of a
    task that has a flag is a state in which it has a wait handle on a list, and
    the flag says that the handle has been woken up. *)

From S2P Require Import Prelude.

Definition upd {A} (f : nat -> A) (t : nat) (x : A) : nat -> A := fun u => if decide (u = t) then x else f u.

Lemma upd_eq {A} (f : nat -> A) t x : upd f t x t = x.
Proof. unfold upd. by rewrite decide_True. Qed.
Lemma upd_ne {A} (f : nat -> A) t x u : u <> t -> upd f t x u = f u.
Proof. intros. unfold upd. by rewrite decide_False. Qed.

(** ** [Mutex] *)

Inductive MTask :=
| MIdle
| MFast                    (** [lock]: about to [try_lock] *)
| MSlow                    (** the head of the loop of [lock_slow_path] *)
| MTry (woken : bool)      (** on the list, about to [try_lock_weak] *)
| MWait (woken : bool)     (** [wait.await] *)
| MGot (woken : bool)      (** has the lock, about to drop its handle *)
| MHold
| MUnlock.                 (** has stored [false], about to notify *)

Record MSys := mkMSys { m_locked : bool; m_wait : list nat; m_task : nat -> MTask }.

Definition mutex_init : MSys := mkMSys false [] (fun _ => MIdle).

Definition m_wake (x : MTask) : MTask :=
  match x with MTry _ => MTry true | MWait _ => MWait true | MGot _ => MGot true | x => x end.

(** The next access of task [t]; [spurious] is the choice of
    [compare_exchange_weak].  [None]: the task sleeps. *)
Definition mutex_next (spurious : bool) (t : nat) (s : MSys) : option MSys :=
  let '(mkMSys locked wait f) := s in
  match f t with
  | MIdle => Some (mkMSys locked wait (upd f t MFast))
  | MFast => Some (if locked then mkMSys locked wait (upd f t MSlow) else mkMSys true wait (upd f t MHold))
  | MSlow => Some (mkMSys locked (wait ++ [t]) (upd f t (MTry false)))
  | MTry w =>
      Some (if locked || spurious then mkMSys locked wait (upd f t (MWait w)) else mkMSys true wait (upd f t (MGot w)))
  | MWait true => Some (mkMSys locked wait (upd f t MSlow))
  | MWait false => None
  | MGot w => Some (mkMSys locked (filter (fun x => x <> t) wait) (upd f t MHold))
  | MHold => Some (mkMSys false wait (upd f t MUnlock))
  | MUnlock =>
      Some match wait with
           | [] => mkMSys locked wait (upd f t MIdle)
           | h :: wait => mkMSys locked wait (upd (upd f h (m_wake (f h))) t MIdle)
           end
  end.

Definition mutex_step (s s' : MSys) : Prop := exists t, mutex_next false t s = Some s'.

Definition m_holds (x : MTask) : bool := match x with MGot _ | MHold => true | _ => false end.
Definition m_listed (x : MTask) : bool := match x with MTry false | MWait false | MGot false => true | _ => false end.
(** Tasks that will try to take the lock or to wake somebody up. *)
Definition m_active (x : MTask) : bool :=
  match x with MSlow | MTry _ | MWait true | MUnlock => true | _ => false end.
Definition m_asleep (x : MTask) : bool := match x with MWait false => true | _ => false end.

Record mutex_inv (s : MSys) : Prop := {
  mi_nodup : NoDup (m_wait s);
  mi_listed t : t ∈ m_wait s <-> m_listed (m_task s t) = true;
  mi_locked : m_locked s = true <-> exists t, m_holds (m_task s t) = true;
  mi_unique t u : m_holds (m_task s t) = true -> m_holds (m_task s u) = true -> t = u;
  mi_awake t : m_locked s = false -> m_asleep (m_task s t) = true -> exists u, m_active (m_task s u) = true
}.

(** Replacing the state of one task. *)
Lemma mutex_inv_upd s t locked' wait' y :
  mutex_inv s ->
  NoDup wait' -> (forall u, u <> t -> (u ∈ wait' <-> u ∈ m_wait s)) -> (t ∈ wait' <-> m_listed y = true) ->
  match m_holds (m_task s t), m_holds y with
  | false, false | true, true => locked' = m_locked s
  | false, true => m_locked s = false /\ locked' = true
  | true, false => locked' = false
  end ->
  (locked' = false -> (exists u, m_asleep (upd (m_task s) t y u) = true) -> exists v, m_active (upd (m_task s) t y v) = true) ->
  mutex_inv (mkMSys locked' wait' (upd (m_task s) t y)).
Proof.
  intros [Hnd Hl Hk Hu Ha] Hnd' Hw Hy Hh Hact. constructor; cbn [m_locked m_wait m_task].
  - done.
  - intros u. destruct (decide (u = t)) as [->|Hne]; [by rewrite upd_eq|]. rewrite upd_ne, Hw by done. apply Hl.
  - destruct (m_holds (m_task s t)) eqn:Et, (m_holds y) eqn:Ey.
    + rewrite Hh, Hk. split; [intros _; exists t; by rewrite upd_eq|intros _; by exists t].
    + rewrite Hh. split; [done|]. intros [u Hu']. destruct (decide (u = t)) as [->|Hne]; [by rewrite upd_eq, Ey in Hu'|].
      rewrite upd_ne in Hu' by done. by destruct (Hne (Hu _ _ Hu' Et)).
    + destruct Hh as [_ ->]. split; [intros _; exists t; by rewrite upd_eq|done].
    + rewrite Hh, Hk. split; intros [u Hu']; exists u; destruct (decide (u = t)) as [->|Hne]; rewrite ?upd_eq, ?upd_ne in * by done; congruence.
  - intros u v. destruct (decide (u = t)) as [->|Hnu], (decide (v = t)) as [->|Hnv]; rewrite ?upd_eq, ?upd_ne by done; [done|..].
    + intros H1 H2. rewrite H1 in Hh. destruct (m_holds (m_task s t)) eqn:Et; [by apply Hu|].
      destruct Hh as [Hf _]. assert (m_locked s = true) by (apply Hk; by exists v). congruence.
    + intros H1 H2. rewrite H2 in Hh. destruct (m_holds (m_task s t)) eqn:Et; [by apply Hu|].
      destruct Hh as [Hf _]. assert (m_locked s = true) by (apply Hk; by exists u). congruence.
    + apply Hu.
  - intros u Hf Hs. apply Hact; [done|by exists u].
Qed.

(** The new state is active, or neither it nor the old one matters. *)
Lemma mutex_awake s t y :
  mutex_inv s -> m_locked s = false ->
  m_active y = true \/ (m_active (m_task s t) = false /\ m_asleep y = false) ->
  (exists u, m_asleep (upd (m_task s) t y u) = true) -> exists v, m_active (upd (m_task s) t y v) = true.
Proof.
  intros Hinv Hf [Hy|[Hx Hy]] [u Hs]; [exists t; by rewrite upd_eq|].
  destruct (decide (u = t)) as [->|Hne]; [rewrite upd_eq in Hs; congruence|]. rewrite upd_ne in Hs by done.
  destruct (mi_awake s Hinv u Hf Hs) as [v Hv]. exists v. rewrite upd_ne; [done|]. intros ->. congruence.
Qed.

Lemma mutex_inv_wake s h w :
  mutex_inv s -> m_wait s = h :: w -> mutex_inv (mkMSys (m_locked s) w (upd (m_task s) h (m_wake (m_task s h)))).
Proof.
  intros Hinv Hw. pose proof (mi_nodup s Hinv) as Hnd. rewrite Hw in Hnd. apply NoDup_cons in Hnd as [Hh Hnd].
  assert (m_listed (m_task s h) = true) as Hl by (apply (mi_listed s Hinv); rewrite Hw; set_solver).
  apply mutex_inv_upd; auto.
  - intros u Hu. rewrite Hw. set_solver.
  - split; [done|]. by destruct (m_task s h) as [| | |[]|[]|[]| |].
  - by destruct (m_task s h) as [| | |[]|[]|[]| |].
  - intros Hf. apply mutex_awake; auto. left. destruct (m_task s h) as [| | |[]|[]|[]| |] eqn:E; try done.
    assert (m_locked s = true) by (apply (mi_locked s Hinv); exists h; by rewrite E). congruence.
Qed.

Lemma mutex_step_inv s s' : mutex_step s s' -> mutex_inv s -> mutex_inv s'.
Proof.
  intros [t Hn] Hinv. destruct s as [locked wait f] eqn:Es. unfold mutex_next in Hn. rewrite <- Es in Hinv.
  assert (locked = m_locked s) as -> by by rewrite Es. assert (wait = m_wait s) as -> by by rewrite Es.
  assert (f = m_task s) as -> by by rewrite Es. clear Es.
  pose proof (mi_nodup s Hinv) as Hnd. pose proof (mi_listed s Hinv t) as Hl.
  assert (m_locked s = false -> m_holds (m_task s t) = false) as Hfree.
  { intros Hf. destruct (m_holds (m_task s t)) eqn:E; [|done]. assert (m_locked s = true) by (apply (mi_locked s Hinv); by exists t). congruence. }
  destruct (m_task s t) as [| | |w|[]|w| |] eqn:Et; simpl in *; try discriminate; injection Hn as <-.
  - apply mutex_inv_upd; rewrite ?Et; simpl; auto. intros Hf. apply mutex_awake; auto. right. by rewrite Et.
  - destruct (m_locked s) eqn:El; [rewrite <- El|]; apply mutex_inv_upd; rewrite ?Et, ?El; simpl; auto; done.
  - assert (t ∉ m_wait s) as Hnin by (rewrite Hl; done). apply mutex_inv_upd; rewrite ?Et; simpl; auto.
    + apply NoDup_app. split; [done|]. split; [set_solver|apply NoDup_singleton].
    + intros u Hu. set_solver.
    + set_solver.
    + intros Hf. apply mutex_awake; auto.
  - destruct (m_locked s) eqn:El; simpl; [rewrite <- El|]; apply mutex_inv_upd; rewrite ?Et, ?El; simpl; auto; try done; by destruct w.
  - apply mutex_inv_upd; rewrite ?Et; simpl; auto. intros Hf. apply mutex_awake; auto.
  - apply mutex_inv_upd; rewrite ?Et; simpl; auto.
    + by apply NoDup_filter.
    + intros u Hu. rewrite list_elem_of_filter. tauto.
    + rewrite list_elem_of_filter. split; [tauto|done].
    + intros Hf. discriminate (Hfree Hf).
  - apply mutex_inv_upd; rewrite ?Et; simpl; auto. intros _ _. exists t. by rewrite upd_eq.
  - destruct (m_wait s) as [|h wait] eqn:Ew.
    + rewrite <- Ew in *. apply mutex_inv_upd; rewrite ?Et; simpl; auto. intros _ [u Hu]. exfalso.
      destruct (decide (u = t)) as [->|Hne]; [by rewrite upd_eq in Hu|]. rewrite upd_ne in Hu by done.
      assert (u ∈ m_wait s) as Hin by (apply (mi_listed s Hinv); by destruct (m_task s u) as [| | |[]|[]|[]| |]). rewrite Ew in Hin. set_solver.
    + assert (h <> t) as Hht by (intros ->; assert (m_listed (m_task s t) = true) by (apply (mi_listed s Hinv); rewrite Ew; set_solver);
        rewrite Et in *; done).
      pose proof (mutex_inv_wake s h wait Hinv Ew) as Hinv1. set (s1 := mkMSys _ _ _) in Hinv1.
      change (upd (upd (m_task s) h (m_wake (m_task s h))) t MIdle) with (upd (m_task s1) t MIdle).
      assert (m_task s1 t = MUnlock) as Et1 by (unfold s1; simpl; by rewrite upd_ne).
      apply (mutex_inv_upd s1); rewrite ?Et1; simpl; auto.
      * apply (mi_nodup s1 Hinv1).
      * pose proof (mi_listed s1 Hinv1 t) as Hl1. rewrite Et1 in Hl1. exact Hl1.
      * intros Hf _. exists h. rewrite upd_ne by done. unfold s1. simpl. rewrite upd_eq.
        assert (m_listed (m_task s h) = true) as Hlh by (apply (mi_listed s Hinv); rewrite Ew; set_solver).
        destruct (m_task s h) as [| | |[]|[]|[]| |] eqn:E; try done.
        assert (m_locked s = true) by (apply (mi_locked s Hinv); exists h; by rewrite E). simpl in Hf. congruence.
Qed.

Lemma mutex_reachable_inv s : rtc mutex_step mutex_init s -> mutex_inv s.
Proof.
  intros Hr. assert (mutex_inv mutex_init) as Hi.
  { constructor; simpl; try done; [constructor|intros t; split; [set_solver|done]|split; [done|by intros [t ?]]]. }
  revert Hi. induction Hr; [done|]. eauto using mutex_step_inv.
Qed.


(** The next state when task [t] moves. *)
Definition m_run (spurious : bool) (s : option MSys) (t : nat) : option MSys :=
  match s with Some s => mutex_next spurious t s | None => None end.

(** Task 1 inside, task 2 asleep. *)
Definition demo_mutex : option MSys := foldl (m_run false) (Some mutex_init) [1%nat; 1%nat; 2%nat; 2%nat; 2%nat; 2%nat].

Lemma m_run_reachable s0 ts s : rtc mutex_step mutex_init s0 -> foldl (m_run false) (Some s0) ts = Some s -> rtc mutex_step mutex_init s.
Proof.
  revert s0. induction ts as [|t ts IH]; intros s0 Hr Hf; simpl in Hf; [by injection Hf as <-|].
  destruct (mutex_next false t s0) as [s1|] eqn:E.
  - apply (IH s1); [|done]. eapply rtc_r; [done|by exists t].
  - exfalso. clear -Hf. induction ts as [|x ts IH]; [done|by apply IH].
Qed.


(** A weak exchange that fails on a free mutex puts the task to sleep with
    nobody left to wake it up. *)
Theorem mutex_spurious_failure_sleeps :
  exists s, foldl (fun s t => m_run (bool_decide (t = 2%nat)) s t) (Some mutex_init)
              [1%nat; 1%nat; 2%nat; 2%nat; 1%nat; 1%nat; 2%nat; 2%nat] = Some s /\
    m_locked s = false /\ m_task s 2%nat = MWait false /\ m_task s 1%nat = MIdle.
Proof. eexists. split; [vm_compute; reflexivity|]. done. Qed.

(** ** [RwLock] *)

Inductive RwTask :=
| TIdle
| TWFast                         (** [write]: about to [try_write] *)
| TWSlow                         (** the head of the loop of [write_slow_path] *)
| TWTry (woken : bool)           (** on [write_wait], about to [try_write_weak] *)
| TWWait (woken : bool)
| TWGot (woken : bool)           (** has the lock, about to drop its handle *)
| TWHold
| TRFast                         (** [read]: about to look at [write_wait] *)
| TRFastLoad                     (** [try_read]: about to load the counter *)
| TRFastCas (counter : Z)        (** [try_read]: about to exchange it *)
| TRSlow                         (** the head of the loop of [read_slow_path] *)
| TRLoad (woken : bool)          (** on [read_wait], about to load the counter *)
| TRCas (woken : bool) (counter : Z)
| TRWait (woken : bool)
| TRGot (woken : bool)
| TRHold
| TUnlock                        (** the counter is 0; about to notify a writer *)
| TUnlockR.                      (** there was none; about to notify the readers *)

Record RwSys := mkRwSys {
  rw_counter : Z; rw_read_wait : list nat; rw_write_wait : list nat; rw_task : nat -> RwTask; rw_panic : bool
}.

Definition rwlock_init : RwSys := mkRwSys 0 [] [] (fun _ => TIdle) false.

Definition rw_wake (x : RwTask) : RwTask :=
  match x with
  | TWTry _ => TWTry true | TWWait _ => TWWait true | TWGot _ => TWGot true
  | TRLoad _ => TRLoad true | TRCas _ c => TRCas true c | TRWait _ => TRWait true | TRGot _ => TRGot true
  | x => x
  end.

(** [notify_all]: every listed task is woken up. *)
Definition rw_wake_all (l : list nat) (f : nat -> RwTask) : nat -> RwTask :=
  fun u => if decide (u ∈ l) then rw_wake (f u) else f u.

(** The next access of task [t]; [write] is its choice when it is idle. *)
Definition rw_next (spurious write : bool) (t : nat) (s : RwSys) : option RwSys :=
  let '(mkRwSys c rl wl f p) := s in
  let goto x := Some (mkRwSys c rl wl (upd f t x) p) in
  match f t with
  | TIdle => goto (if write then TWFast else TRFast)
  (* try_write *)
  | TWFast => if c =? 0 then Some (mkRwSys (-1) rl wl (upd f t TWHold) p) else goto TWSlow
  (* write_slow_path *)
  | TWSlow => Some (mkRwSys c rl (wl ++ [t]) (upd f t (TWTry false)) p)
  | TWTry w => if (c =? 0) && negb spurious then Some (mkRwSys (-1) rl wl (upd f t (TWGot w)) p) else goto (TWWait w)
  | TWWait true => goto TWSlow
  | TWWait false => None
  | TWGot w => Some (mkRwSys c rl (filter (fun x => x <> t) wl) (upd f t TWHold) p)
  (* write_unlock *)
  | TWHold => Some (mkRwSys 0 rl wl (upd f t TUnlock) p)
  (* try_read *)
  | TRFast => match wl with [] => goto TRFastLoad | _ => goto TRSlow end
  | TRFastLoad => if 0 <=? c then goto (TRFastCas c) else goto TRSlow
  | TRFastCas v => if c =? v then Some (mkRwSys (v + 1) rl wl (upd f t TRHold) p) else goto TRSlow
  (* read_slow_path *)
  | TRSlow => Some (mkRwSys c (rl ++ [t]) wl (upd f t (TRLoad false)) p)
  | TRLoad w => if 0 <=? c then goto (TRCas w c) else goto (TRWait w)
  | TRCas w v => if (c =? v) && negb spurious then Some (mkRwSys (v + 1) rl wl (upd f t (TRGot w)) p) else goto (TRWait w)
  | TRWait true => goto TRSlow
  | TRWait false => None
  | TRGot w => Some (mkRwSys c (filter (fun x => x <> t) rl) wl (upd f t TRHold) p)
  (* read_unlock *)
  | TRHold =>
      if 2 <=? c then Some (mkRwSys (c - 1) rl wl (upd f t TIdle) p)
      else if c =? 1 then Some (mkRwSys (c - 1) rl wl (upd f t TUnlock) p)
      else Some (mkRwSys (c - 1) rl wl f true)
  (* the notifications *)
  | TUnlock =>
      match wl with
      | [] => goto TUnlockR
      | h :: wl => Some (mkRwSys c rl wl (upd (upd f h (rw_wake (f h))) t TIdle) p)
      end
  | TUnlockR => Some (mkRwSys c [] wl (upd (rw_wake_all rl f) t TIdle) p)
  end.

Definition rw_step (s s' : RwSys) : Prop := exists write t, rw_next false write t s = Some s'.

(** ** What the states mean *)

Definition rw_writes (x : RwTask) : bool := match x with TWGot _ | TWHold => true | _ => false end.
Definition rw_reads (x : RwTask) : bool := match x with TRGot _ | TRHold => true | _ => false end.
Definition rw_wlisted (x : RwTask) : bool := match x with TWTry false | TWWait false | TWGot false => true | _ => false end.
Definition rw_rlisted (x : RwTask) : bool :=
  match x with TRLoad false | TRCas false _ | TRWait false | TRGot false => true | _ => false end.

(** Tasks that will try to take a free lock (and, when they release it, notify). *)
Definition rw_trying (x : RwTask) : bool :=
  match x with
  | TWSlow | TWTry _ | TWWait true | TRSlow | TRLoad _ | TRWait true | TRCas true _ => true
  | TRCas false v => v =? 0
  | _ => false
  end.
Definition rw_helps_writer (x : RwTask) : bool := match x with TUnlock => true | x => rw_trying x end.
Definition rw_helps_reader (x : RwTask) : bool := match x with TUnlock | TUnlockR => true | x => rw_trying x end.

Definition rw_wasleep (x : RwTask) : bool := match x with TWWait false => true | _ => false end.
(** Asleep, or about to be: the exchange of a value that is not 0 will fail. *)
Definition rw_rasleep (x : RwTask) : bool :=
  match x with TRWait false => true | TRCas false v => negb (v =? 0) | _ => false end.

Definition rw_count_ok (c : Z) (f : nat -> RwTask) : Prop :=
  (c = -1 /\ (forall t, rw_reads (f t) = false) /\
     exists w, rw_writes (f w) = true /\ forall t, rw_writes (f t) = true -> t = w) \/
  ((forall t, rw_writes (f t) = false) /\
     exists R : gset nat, c = Z.of_nat (size R) /\ forall t, t ∈ R <-> rw_reads (f t) = true).

(** The value a reader is about to exchange is not that of a writer. *)
Definition rw_seen_ok (x : RwTask) : bool := match x with TRFastCas v | TRCas _ v => 0 <=? v | _ => true end.

Record rwlock_inv (s : RwSys) : Prop := {
  ri_panic : rw_panic s = false;
  ri_seen t : rw_seen_ok (rw_task s t) = true;
  ri_wnodup : NoDup (rw_write_wait s);
  ri_rnodup : NoDup (rw_read_wait s);
  ri_wlisted t : t ∈ rw_write_wait s <-> rw_wlisted (rw_task s t) = true;
  ri_rlisted t : t ∈ rw_read_wait s <-> rw_rlisted (rw_task s t) = true;
  ri_count : rw_count_ok (rw_counter s) (rw_task s);
  ri_writers : rw_counter s = 0 -> (exists t, rw_wasleep (rw_task s t) = true) -> exists u, rw_helps_writer (rw_task s u) = true;
  ri_readers : rw_counter s = 0 -> (exists t, rw_rasleep (rw_task s t) = true) -> exists u, rw_helps_reader (rw_task s u) = true
}.

Lemma rw_count_ext c f g :
  (forall u, rw_reads (g u) = rw_reads (f u)) -> (forall u, rw_writes (g u) = rw_writes (f u)) ->
  rw_count_ok c f -> rw_count_ok c g.
Proof.
  intros Hr Hw [(-> & H1 & w & H2 & H3)|(H1 & R & -> & H2)].
  - left. split; [done|]. split; [intros t; by rewrite Hr|]. exists w. rewrite Hw. split; [done|]. intros t. rewrite Hw. apply H3.
  - right. split; [intros t; by rewrite Hw|]. exists R. split; [done|]. intros t. rewrite Hr. apply H2.
Qed.

Lemma rw_count_same c f t y :
  rw_reads y = rw_reads (f t) -> rw_writes y = rw_writes (f t) -> rw_count_ok c f -> rw_count_ok c (upd f t y).
Proof.
  intros Hr Hw. apply rw_count_ext; intros u; (destruct (decide (u = t)) as [->|]; [by rewrite upd_eq|by rewrite upd_ne]).
Qed.

Lemma rw_count_read c f t y :
  rw_reads (f t) = false -> rw_reads y = true -> rw_writes y = false -> 0 <= c ->
  rw_count_ok c f -> rw_count_ok (c + 1) (upd f t y).
Proof.
  intros Hx Hy Hyw Hc [(-> & _)|(H1 & R & -> & H2)]; [lia|]. right. split.
  - intros u. destruct (decide (u = t)) as [->|]; [by rewrite upd_eq|by rewrite upd_ne].
  - exists ({[t]} ∪ R). assert (t ∉ R) as Ht by (rewrite H2, Hx; done). rewrite size_union by set_solver. rewrite size_singleton.
    split; [lia|]. intros u. destruct (decide (u = t)) as [->|Hu]; [rewrite upd_eq; set_solver|]. rewrite upd_ne, <- H2 by done. set_solver.
Qed.

Lemma rw_count_unread c f t y :
  rw_reads (f t) = true -> rw_reads y = false -> rw_writes y = false ->
  rw_count_ok c f -> 1 <= c /\ rw_count_ok (c - 1) (upd f t y).
Proof.
  intros Hx Hy Hyw [(-> & H1 & _)|(H1 & R & -> & H2)]; [by rewrite H1 in Hx|].
  assert (t ∈ R) as Ht by by apply H2. assert (size R = S (size (R ∖ {[t]}))) as Hs.
  { rewrite size_difference, size_singleton by set_solver. assert (size R <> 0%nat) by (intros E; apply size_empty_inv in E; set_solver). lia. }
  split; [lia|]. right. split.
  - intros u. destruct (decide (u = t)) as [->|]; [by rewrite upd_eq|by rewrite upd_ne].
  - exists (R ∖ {[t]}). split; [lia|]. intros u. destruct (decide (u = t)) as [->|Hu]; [rewrite upd_eq, Hy; set_solver|].
    rewrite upd_ne, <- H2 by done. set_solver.
Qed.

Lemma rw_count_zero f : rw_count_ok 0 f -> forall t, rw_reads (f t) = false /\ rw_writes (f t) = false.
Proof.
  intros [(? & _)|(H1 & R & HR & H2)] t; [lia|]. split; [|done]. destruct (rw_reads (f t)) eqn:E; [|done].
  apply H2 in E. assert (size R = 0%nat) as Hz by lia. apply size_empty_inv in Hz. set_solver.
Qed.

Lemma rw_count_write f t y : rw_writes y = true -> rw_reads y = false -> rw_count_ok 0 f -> rw_count_ok (-1) (upd f t y).
Proof.
  intros Hy Hyr Hok. pose proof (rw_count_zero f Hok) as Hz. left. split; [done|]. split.
  - intros u. destruct (decide (u = t)) as [->|]; [by rewrite upd_eq|rewrite upd_ne by done; apply Hz].
  - exists t. rewrite upd_eq. split; [done|]. intros u. destruct (decide (u = t)) as [->|]; [done|].
    rewrite upd_ne by done. by rewrite (proj2 (Hz u)).
Qed.

Lemma rw_count_unwrite c f t y :
  rw_writes (f t) = true -> rw_writes y = false -> rw_reads y = false -> rw_count_ok c f -> c = -1 /\ rw_count_ok 0 (upd f t y).
Proof.
  intros Hx Hy Hyr [(-> & H1 & w & H2 & H3)|(H1 & _)]; [|by rewrite H1 in Hx]. split; [done|]. right. split.
  - intros u. destruct (decide (u = t)) as [->|Hu]; [by rewrite upd_eq|]. rewrite upd_ne by done.
    destruct (rw_writes (f u)) eqn:E; [|done]. destruct Hu. rewrite (H3 t Hx). by apply H3.
  - exists ∅. split; [done|]. intros u. destruct (decide (u = t)) as [->|Hu]; [rewrite upd_eq, Hyr; set_solver|].
    rewrite upd_ne, H1 by done. set_solver.
Qed.

(** Replacing the state of one task. *)
Lemma rwlock_inv_upd s t c' rl' wl' y :
  rwlock_inv s -> NoDup rl' -> NoDup wl' ->
  (forall u, u <> t -> (u ∈ wl' <-> u ∈ rw_write_wait s)) -> (t ∈ wl' <-> rw_wlisted y = true) ->
  (forall u, u <> t -> (u ∈ rl' <-> u ∈ rw_read_wait s)) -> (t ∈ rl' <-> rw_rlisted y = true) ->
  rw_seen_ok y = true -> rw_count_ok c' (upd (rw_task s) t y) ->
  (c' = 0 -> (exists u, rw_wasleep (upd (rw_task s) t y u) = true) -> exists u, rw_helps_writer (upd (rw_task s) t y u) = true) ->
  (c' = 0 -> (exists u, rw_rasleep (upd (rw_task s) t y u) = true) -> exists u, rw_helps_reader (upd (rw_task s) t y u) = true) ->
  rwlock_inv (mkRwSys c' rl' wl' (upd (rw_task s) t y) (rw_panic s)).
Proof.
  intros Hinv Hr Hw Hwl Hwt Hrl Hrt Hs Hc Hhw Hhr. constructor; cbn [rw_counter rw_read_wait rw_write_wait rw_task rw_panic]; auto.
  - apply (ri_panic s Hinv).
  - intros u. destruct (decide (u = t)) as [->|Hne]; [by rewrite upd_eq|]. rewrite upd_ne by done. apply (ri_seen s Hinv).
  - intros u. destruct (decide (u = t)) as [->|Hne]; [by rewrite upd_eq|]. rewrite upd_ne, Hwl by done. apply (ri_wlisted s Hinv).
  - intros u. destruct (decide (u = t)) as [->|Hne]; [by rewrite upd_eq|]. rewrite upd_ne, Hrl by done. apply (ri_rlisted s Hinv).
Qed.

(** A move of one task keeps a helper: the task itself helps, or it did not
    before and does not fall asleep now. *)
Lemma rw_keeps_helper (asleep helps : RwTask -> bool) f t y :
  helps y = true \/ (helps (f t) = false /\ (asleep y = true -> asleep (f t) = true)) ->
  ((exists u, asleep (f u) = true) -> exists u, helps (f u) = true) ->
  (exists u, asleep (upd f t y u) = true) -> exists u, helps (upd f t y u) = true.
Proof.
  intros [Hy|[Hx Hy]] Hold [u Hu]; [exists t; by rewrite upd_eq|].
  destruct Hold as [v Hv].
  { exists u. destruct (decide (u = t)) as [->|Hne]; [rewrite upd_eq in Hu; auto|by rewrite upd_ne in Hu]. } exists v. rewrite upd_ne; [done|]. intros ->. congruence.
Qed.

Lemma rwlock_keeps s t y :
  rwlock_inv s ->
  rw_helps_writer y = true \/ (rw_helps_writer (rw_task s t) = false /\ (rw_wasleep y = true -> rw_wasleep (rw_task s t) = true)) ->
  rw_helps_reader y = true \/ (rw_helps_reader (rw_task s t) = false /\ (rw_rasleep y = true -> rw_rasleep (rw_task s t) = true)) ->
  rw_counter s = 0 ->
  ((exists u, rw_wasleep (upd (rw_task s) t y u) = true) -> exists u, rw_helps_writer (upd (rw_task s) t y u) = true) /\
  ((exists u, rw_rasleep (upd (rw_task s) t y u) = true) -> exists u, rw_helps_reader (upd (rw_task s) t y u) = true).
Proof.
  intros Hinv Hw Hr Hc. split.
  - apply rw_keeps_helper; [done|]. by apply (ri_writers s Hinv).
  - apply rw_keeps_helper; [done|]. by apply (ri_readers s Hinv).
Qed.

(** A move that leaves the counter and the lists alone. *)
Lemma rwlock_inv_goto s t y :
  rwlock_inv s ->
  rw_wlisted y = rw_wlisted (rw_task s t) -> rw_rlisted y = rw_rlisted (rw_task s t) ->
  rw_reads y = rw_reads (rw_task s t) -> rw_writes y = rw_writes (rw_task s t) -> rw_seen_ok y = true ->
  (rw_counter s = 0 -> rw_helps_writer y = true \/ (rw_helps_writer (rw_task s t) = false /\ (rw_wasleep y = true -> rw_wasleep (rw_task s t) = true))) ->
  (rw_counter s = 0 -> rw_helps_reader y = true \/ (rw_helps_reader (rw_task s t) = false /\ (rw_rasleep y = true -> rw_rasleep (rw_task s t) = true))) ->
  rwlock_inv (mkRwSys (rw_counter s) (rw_read_wait s) (rw_write_wait s) (upd (rw_task s) t y) (rw_panic s)).
Proof.
  intros Hinv Hwl Hrl Hr Hw Hs Hhw Hhr. apply rwlock_inv_upd; auto.
  - apply (ri_rnodup s Hinv).
  - apply (ri_wnodup s Hinv).
  - rewrite Hwl. apply (ri_wlisted s Hinv).
  - rewrite Hrl. apply (ri_rlisted s Hinv).
  - apply rw_count_same; [done..|]. apply (ri_count s Hinv).
  - intros Hc. by apply (rwlock_keeps s t y Hinv (Hhw Hc) (Hhr Hc) Hc).
  - intros Hc. by apply (rwlock_keeps s t y Hinv (Hhw Hc) (Hhr Hc) Hc).
Qed.

(** A move that changes the counter. *)
Lemma rwlock_inv_count s t c' y :
  rwlock_inv s ->
  rw_wlisted y = rw_wlisted (rw_task s t) -> rw_rlisted y = rw_rlisted (rw_task s t) ->
  rw_seen_ok y = true -> rw_count_ok c' (upd (rw_task s) t y) ->
  c' <> 0 \/ y = TUnlock ->
  rwlock_inv (mkRwSys c' (rw_read_wait s) (rw_write_wait s) (upd (rw_task s) t y) (rw_panic s)).
Proof.
  intros Hinv Hwl Hrl Hs Hc Hy. apply rwlock_inv_upd; auto.
  - apply (ri_rnodup s Hinv).
  - apply (ri_wnodup s Hinv).
  - rewrite Hwl. apply (ri_wlisted s Hinv).
  - rewrite Hrl. apply (ri_rlisted s Hinv).
  - intros E _. destruct Hy as [Hy| ->]; [done|]. exists t. by rewrite upd_eq.
  - intros E _. destruct Hy as [Hy| ->]; [done|]. exists t. by rewrite upd_eq.
Qed.

(** Tasks enter and leave the lists. *)
Lemma rwlock_inv_enter s t y :
  rwlock_inv s -> rw_task s t = TWSlow /\ y = TWTry false \/ rw_task s t = TRSlow /\ y = TRLoad false ->
  rwlock_inv (mkRwSys (rw_counter s)
    (if rw_rlisted y then rw_read_wait s ++ [t] else rw_read_wait s)
    (if rw_wlisted y then rw_write_wait s ++ [t] else rw_write_wait s) (upd (rw_task s) t y) (rw_panic s)).
Proof.
  intros Hinv Hy. pose proof (ri_rnodup s Hinv) as Hr. pose proof (ri_wnodup s Hinv) as Hw.
  pose proof (ri_rlisted s Hinv t) as Hrt. pose proof (ri_wlisted s Hinv t) as Hwt.
  assert (t ∉ rw_read_wait s) as Hnr by (destruct Hy as [[E _]|[E _]]; rewrite Hrt, E; done).
  assert (t ∉ rw_write_wait s) as Hnw by (destruct Hy as [[E _]|[E _]]; rewrite Hwt, E; done).
  assert (rw_count_ok (rw_counter s) (upd (rw_task s) t y)) as Hc
    by (apply rw_count_same; [destruct Hy as [[-> ->]|[-> ->]]; done..|apply (ri_count s Hinv)]).
  assert (rw_helps_writer y = true /\ rw_helps_reader y = true) as [H1 H2] by (destruct Hy as [[_ ->]|[_ ->]]; done).
  apply rwlock_inv_upd; auto.
  - destruct (rw_rlisted y); [|done]. apply NoDup_app. split; [done|]. split; [set_solver|apply NoDup_singleton].
  - destruct (rw_wlisted y); [|done]. apply NoDup_app. split; [done|]. split; [set_solver|apply NoDup_singleton].
  - intros u Hu. destruct (rw_wlisted y); set_solver.
  - destruct (rw_wlisted y); set_solver.
  - intros u Hu. destruct (rw_rlisted y); set_solver.
  - destruct (rw_rlisted y); set_solver.
  - by destruct Hy as [[_ ->]|[_ ->]].
  - intros _ _. exists t. by rewrite upd_eq.
  - intros _ _. exists t. by rewrite upd_eq.
Qed.

Lemma rwlock_inv_leave s t y :
  rwlock_inv s -> (exists w, rw_task s t = TWGot w) /\ y = TWHold \/ (exists w, rw_task s t = TRGot w) /\ y = TRHold ->
  rwlock_inv (mkRwSys (rw_counter s)
    (if rw_reads y then filter (fun x => x <> t) (rw_read_wait s) else rw_read_wait s)
    (if rw_writes y then filter (fun x => x <> t) (rw_write_wait s) else rw_write_wait s) (upd (rw_task s) t y) (rw_panic s)).
Proof.
  intros Hinv Hy. pose proof (ri_rnodup s Hinv) as Hr. pose proof (ri_wnodup s Hinv) as Hw.
  pose proof (ri_rlisted s Hinv t) as Hrt. pose proof (ri_wlisted s Hinv t) as Hwt.
  assert (rw_count_ok (rw_counter s) (upd (rw_task s) t y)) as Hc
    by (apply rw_count_same; [destruct Hy as [[[w ->] ->]|[[w ->] ->]]; done..|apply (ri_count s Hinv)]).
  assert (rw_counter s <> 0) as Hnz.
  { intros E. pose proof (ri_count s Hinv) as Hok. rewrite E in Hok. pose proof (rw_count_zero _ Hok t) as [H1 H2].
    destruct Hy as [[[w Ht] ->]|[[w Ht] ->]]; rewrite Ht in *; done. }
  apply rwlock_inv_upd; auto.
  - destruct (rw_reads y); [|done]. by apply NoDup_filter.
  - destruct (rw_writes y); [|done]. by apply NoDup_filter.
  - intros u Hu. destruct (rw_writes y); [|done]. rewrite list_elem_of_filter. tauto.
  - destruct Hy as [[[w Ht] ->]|[[w Ht] ->]]; simpl; rewrite ?list_elem_of_filter, ?Hwt, ?Ht; simpl; [|done]. split; [by intros []|done].
  - intros u Hu. destruct (rw_reads y); [|done]. rewrite list_elem_of_filter. tauto.
  - destruct Hy as [[[w Ht] ->]|[[w Ht] ->]]; simpl; rewrite ?list_elem_of_filter, ?Hrt, ?Ht; simpl; [done|]. split; [by intros []|done].
  - by destruct Hy as [[_ ->]|[_ ->]].
  - done.
  - done.
Qed.

Lemma rw_wake_reads x : rw_reads (rw_wake x) = rw_reads x /\ rw_writes (rw_wake x) = rw_writes x.
Proof. by destruct x. Qed.

Lemma rw_wake_unlisted x : rw_wlisted (rw_wake x) = false /\ rw_rlisted (rw_wake x) = false.
Proof. by destruct x. Qed.

Lemma rw_wake_helps x :
  (rw_helps_writer x = true -> rw_helps_writer (rw_wake x) = true) /\
  (rw_helps_reader x = true -> rw_helps_reader (rw_wake x) = true).
Proof. by destruct x as [| | |[]|[]|[]| | | | | |[]|[]|[]|[]| | |]. Qed.

Lemma rw_wake_seen x : rw_seen_ok (rw_wake x) = rw_seen_ok x.
Proof. by destruct x. Qed.

Lemma rw_wlisted_wake x : rw_wlisted x = true -> rw_rlisted x = false /\ (rw_writes x = false -> rw_trying (rw_wake x) = true).
Proof. by destruct x as [| | |[]|[]|[]| | | | | |[]|[]|[]|[]| | |]. Qed.

Lemma rw_asleep_listed x :
  (rw_wasleep x = true -> rw_wlisted x = true) /\ (rw_rasleep x = true -> rw_rlisted x = true) /\
  rw_wasleep (rw_wake x) = false /\ rw_rasleep (rw_wake x) = false.
Proof. by destruct x as [| | |[]|[]|[]| | | | | |[]|[]|[]|[]| | |]. Qed.

Lemma rw_trying_helps x : rw_trying x = true -> rw_helps_writer x = true /\ rw_helps_reader x = true.
Proof. by destruct x. Qed.

(** [notify_one] on the writers. *)
Lemma rwlock_inv_wake s h wl' :
  rwlock_inv s -> rw_write_wait s = h :: wl' ->
  rwlock_inv (mkRwSys (rw_counter s) (rw_read_wait s) wl' (upd (rw_task s) h (rw_wake (rw_task s h))) (rw_panic s)) /\
  (rw_counter s = 0 -> rw_trying (rw_wake (rw_task s h)) = true).
Proof.
  intros Hinv Hwl. pose proof (ri_wnodup s Hinv) as Hnd. rewrite Hwl in Hnd. apply NoDup_cons in Hnd as [Hh Hnd].
  assert (rw_wlisted (rw_task s h) = true) as Hl by (apply (ri_wlisted s Hinv); rewrite Hwl; set_solver).
  destruct (rw_wlisted_wake _ Hl) as [Hnr Htry]. destruct (rw_wake_unlisted (rw_task s h)) as [Hu1 Hu2].
  assert (rw_counter s = 0 -> rw_trying (rw_wake (rw_task s h)) = true) as Ht.
  { intros E. apply Htry. pose proof (ri_count s Hinv) as Hok. rewrite E in Hok. apply (rw_count_zero _ Hok h). }
  split; [|done]. apply rwlock_inv_upd; auto.
  - apply (ri_rnodup s Hinv).
  - intros u Hu. rewrite Hwl. set_solver.
  - rewrite Hu1. done.
  - rewrite Hu2, (ri_rlisted s Hinv h), Hnr. done.
  - rewrite rw_wake_seen. apply (ri_seen s Hinv).
  - apply rw_count_same; [apply rw_wake_reads..|apply (ri_count s Hinv)].
  - intros E _. exists h. rewrite upd_eq. by apply rw_trying_helps, Ht.
  - intros E _. exists h. rewrite upd_eq. by apply rw_trying_helps, Ht.
Qed.

Lemma rwlock_inv_notify_writer s t h wl' :
  rwlock_inv s -> rw_task s t = TUnlock -> rw_write_wait s = h :: wl' ->
  rwlock_inv (mkRwSys (rw_counter s) (rw_read_wait s) wl'
    (upd (upd (rw_task s) h (rw_wake (rw_task s h))) t TIdle) (rw_panic s)).
Proof.
  intros Hinv Et Hwl. destruct (rwlock_inv_wake s h wl' Hinv Hwl) as [Hinv1 Htry]. set (s1 := mkRwSys _ _ _ _ _) in Hinv1.
  assert (h <> t) as Hht by (intros ->; assert (rw_wlisted (rw_task s t) = true) as H
    by (apply (ri_wlisted s Hinv); rewrite Hwl; set_solver); by rewrite Et in H).
  assert (rw_task s1 t = TUnlock) as Et1 by (unfold s1; simpl; by rewrite upd_ne).
  pose proof (ri_wlisted s1 Hinv1 t) as Hw. pose proof (ri_rlisted s1 Hinv1 t) as Hr. rewrite Et1 in Hw, Hr.
  apply (rwlock_inv_upd s1); auto.
  - apply (ri_rnodup s1 Hinv1).
  - apply (ri_wnodup s1 Hinv1).
  - apply rw_count_same; rewrite ?Et1; [done..|apply (ri_count s1 Hinv1)].
  - intros E _. exists h. rewrite upd_ne by done. unfold s1. simpl. rewrite upd_eq. by apply rw_trying_helps, Htry.
  - intros E _. exists h. rewrite upd_ne by done. unfold s1. simpl. rewrite upd_eq. by apply rw_trying_helps, Htry.
Qed.

(** [notify_all] on the readers. *)
Lemma rwlock_inv_wake_all s :
  rwlock_inv s ->
  let g := rw_wake_all (rw_read_wait s) (rw_task s) in
  rwlock_inv (mkRwSys (rw_counter s) [] (rw_write_wait s) g (rw_panic s)) /\ (forall u, rw_rasleep (g u) = false).
Proof.
  intros Hinv g.
  assert (forall u, (u ∈ rw_read_wait s /\ g u = rw_wake (rw_task s u)) \/ (u ∉ rw_read_wait s /\ g u = rw_task s u)) as Hg.
  { intros u. unfold g, rw_wake_all. destruct (decide (u ∈ rw_read_wait s)); auto. }
  assert (forall u, rw_rasleep (g u) = false) as Hnone.
  { intros u. destruct (Hg u) as [[_ ->]|[Hn ->]]; [apply rw_asleep_listed|]. rewrite (ri_rlisted s Hinv) in Hn.
    destruct (rw_rasleep (rw_task s u)) eqn:E; [|done]. destruct Hn. by apply rw_asleep_listed. }
  split; [|done]. constructor; cbn [rw_counter rw_read_wait rw_write_wait rw_task rw_panic].
  - apply (ri_panic s Hinv).
  - intros u. destruct (Hg u) as [[_ ->]|[_ ->]]; [rewrite rw_wake_seen|]; apply (ri_seen s Hinv).
  - apply (ri_wnodup s Hinv).
  - constructor.
  - intros u. rewrite (ri_wlisted s Hinv). destruct (Hg u) as [[Hin ->]|[_ ->]]; [|done].
    rewrite (proj1 (rw_wake_unlisted _)). apply (ri_rlisted s Hinv) in Hin.
    destruct (rw_wlisted (rw_task s u)) eqn:E; [|done]. apply rw_wlisted_wake in E as [E _]. congruence.
  - intros u. split; [by intros ?%not_elem_of_nil|]. destruct (Hg u) as [[Hin ->]|[Hn ->]].
    + by rewrite (proj2 (rw_wake_unlisted _)).
    + by rewrite (ri_rlisted s Hinv) in Hn.
  - eapply rw_count_ext; [..|apply (ri_count s Hinv)]; intros u; (destruct (Hg u) as [[_ ->]|[_ ->]]; [apply rw_wake_reads|done]).
  - intros Hc [u Hu]. destruct (ri_writers s Hinv Hc) as [v Hv].
    + exists u. destruct (Hg u) as [[_ E]|[_ E]]; rewrite E in Hu; [|done]. by rewrite (proj1 (proj2 (proj2 (rw_asleep_listed _)))) in Hu.
    + exists v. destruct (Hg v) as [[_ ->]|[_ ->]]; [by apply rw_wake_helps|done].
  - intros _ [u Hu]. by rewrite Hnone in Hu.
Qed.

Lemma rwlock_inv_notify_readers s t :
  rwlock_inv s -> rw_task s t = TUnlockR ->
  rwlock_inv (mkRwSys (rw_counter s) [] (rw_write_wait s)
    (upd (rw_wake_all (rw_read_wait s) (rw_task s)) t TIdle) (rw_panic s)).
Proof.
  intros Hinv Et. destruct (rwlock_inv_wake_all s Hinv) as [Hinv1 Hnone]. set (s1 := mkRwSys _ _ _ _ _) in Hinv1.
  assert (rw_task s1 t = TUnlockR) as Et1 by (unfold s1, rw_wake_all; simpl; rewrite Et; by case_decide).
  pose proof (ri_wlisted s1 Hinv1 t) as Hw. pose proof (ri_rlisted s1 Hinv1 t) as Hr. rewrite Et1 in Hw, Hr.
  apply (rwlock_inv_upd s1); auto.
  - apply (ri_rnodup s1 Hinv1).
  - apply (ri_wnodup s1 Hinv1).
  - apply rw_count_same; rewrite ?Et1; [done..|apply (ri_count s1 Hinv1)].
  - intros E. apply rw_keeps_helper; [right; by rewrite Et1|]. by apply (ri_writers s1 Hinv1).
  - intros E [u Hu]. exfalso. destruct (decide (u = t)) as [->|Hne]; [by rewrite upd_eq in Hu|].
    rewrite upd_ne in Hu by done. unfold s1 in Hu. simpl in Hu. by rewrite Hnone in Hu.
Qed.

Lemma rw_step_inv s s' : rw_step s s' -> rwlock_inv s -> rwlock_inv s'.
Proof.
  intros (write & t & Hn) Hinv. destruct s as [c rl wl f p] eqn:Es. unfold rw_next in Hn. rewrite <- Es in Hinv.
  assert (c = rw_counter s) as -> by by rewrite Es. assert (rl = rw_read_wait s) as -> by by rewrite Es.
  assert (wl = rw_write_wait s) as -> by by rewrite Es. assert (p = rw_panic s) as -> by by rewrite Es.
  assert (f = rw_task s) as -> by by rewrite Es. clear Es.
  pose proof (ri_count s Hinv) as Hok. pose proof (ri_seen s Hinv t) as Hseen.
  destruct (rw_task s t) as [| | |w|[]|w| | | |v| |w|w v|[]|w| | |] eqn:Et; simpl in *; try discriminate.
  - injection Hn as <-. destruct write; apply rwlock_inv_goto; rewrite ?Et; simpl; auto.
  - destruct (Z.eqb_spec (rw_counter s) 0) as [Ec|]; injection Hn as <-.
    + apply rwlock_inv_count; rewrite ?Et; auto with lia. rewrite Ec in Hok. by apply rw_count_write.
    + apply rwlock_inv_goto; rewrite ?Et; simpl; auto.
  - injection Hn as <-. apply (rwlock_inv_enter s t (TWTry false)); auto.
  - destruct (Z.eqb_spec (rw_counter s) 0) as [Ec|]; injection Hn as <-.
    + apply rwlock_inv_count; rewrite ?Et; auto with lia. rewrite Ec in Hok. by apply rw_count_write.
    + apply rwlock_inv_goto; rewrite ?Et; simpl; auto; intros; lia.
  - injection Hn as <-. apply rwlock_inv_goto; rewrite ?Et; simpl; auto.
  - injection Hn as <-. apply (rwlock_inv_leave s t TWHold); eauto.
  - injection Hn as <-. apply rwlock_inv_count; rewrite ?Et; auto.
    eapply rw_count_unwrite; [..|exact Hok]; by rewrite ?Et.
  - destruct (rw_write_wait s) eqn:Ew; injection Hn as <-; rewrite <- Ew; apply rwlock_inv_goto; rewrite ?Et; simpl; auto.
  - destruct (Z.leb_spec 0 (rw_counter s)); injection Hn as <-; apply rwlock_inv_goto; rewrite ?Et; simpl; auto. lia.
  - destruct (Z.eqb_spec (rw_counter s) v) as [Ec|]; injection Hn as <-.
    + apply rwlock_inv_count; rewrite ?Et; auto with lia. rewrite <- Ec in *. apply rw_count_read; rewrite ?Et; auto; lia.
    + apply rwlock_inv_goto; rewrite ?Et; simpl; auto.
  - injection Hn as <-. apply (rwlock_inv_enter s t (TRLoad false)); auto.
  - destruct (Z.leb_spec 0 (rw_counter s)) as [Hc|Hc]; injection Hn as <-; apply rwlock_inv_goto; rewrite ?Et; simpl; auto.
    + lia.
    + intros ->. by destruct w; left.
    + intros ->. by destruct w; left.
    + intros; lia.
    + intros; lia.
  - destruct (Z.eqb_spec (rw_counter s) v) as [Ec|Hne]; injection Hn as <-.
    + apply rwlock_inv_count; rewrite ?Et; auto with lia. rewrite <- Ec in *. apply rw_count_read; rewrite ?Et; auto; lia.
    + apply rwlock_inv_goto; rewrite ?Et; simpl; auto.
      * intros Ec. destruct w; [by left|right]. simpl. split; [|done]. apply Z.eqb_neq. lia.
      * intros Ec. destruct w; [by left|right]. simpl. assert ((v =? 0) = false) as -> by (apply Z.eqb_neq; lia). done.
  - injection Hn as <-. apply rwlock_inv_goto; rewrite ?Et; simpl; auto.
  - injection Hn as <-. apply (rwlock_inv_leave s t TRHold); eauto.
  - destruct (rw_count_unread (rw_counter s) (rw_task s) t TIdle) as [H1 H2]; rewrite ?Et; auto.
    destruct (rw_count_unread (rw_counter s) (rw_task s) t TUnlock) as [_ H3]; rewrite ?Et; auto.
    destruct (Z.leb_spec 2 (rw_counter s)); [|destruct (Z.eqb_spec (rw_counter s) 1); [|lia]]; injection Hn as <-;
      apply rwlock_inv_count; rewrite ?Et; auto. left. lia.
  - destruct (rw_write_wait s) as [|h wl'] eqn:Ew; injection Hn as <-; [rewrite <- Ew|by apply rwlock_inv_notify_writer].
    apply rwlock_inv_upd; rewrite ?Et; simpl; auto; rewrite ?Ew.
    + apply (ri_rnodup s Hinv).
    + constructor.
    + split; [by intros ?%not_elem_of_nil|done].
    + rewrite (ri_rlisted s Hinv), Et. done.
    + apply rw_count_same; rewrite ?Et; done.
    + intros _ [u Hu]. exfalso. assert (u ∈ rw_write_wait s) as Hin; [|rewrite Ew in Hin; set_solver].
      apply (ri_wlisted s Hinv). destruct (decide (u = t)) as [->|Hne]; [by rewrite upd_eq in Hu|].
      rewrite upd_ne in Hu by done. by apply rw_asleep_listed.
    + intros _ _. exists t. by rewrite upd_eq.
  - injection Hn as <-. by apply rwlock_inv_notify_readers.
Qed.

Lemma rw_reachable_inv s : rtc rw_step rwlock_init s -> rwlock_inv s.
Proof.
  intros Hr. assert (rwlock_inv rwlock_init) as Hi.
  { constructor; simpl; try done; try apply NoDup_nil_2; try (intros t; split; [set_solver|done]); try (by intros _ [t ?]).
    right. split; [done|]. exists ∅. split; [done|]. intros t. simpl. set_solver. }
  revert Hi. induction Hr; [done|]. eauto using rw_step_inv.
Qed.


Definition rw_run (s : option RwSys) (m : bool * nat) : option RwSys :=
  match s with Some s => rw_next false m.1 m.2 s | None => None end.

Lemma rw_run_reachable ms s s' : foldl rw_run (Some s) ms = Some s' -> rtc rw_step s s'.
Proof.
  revert s. induction ms as [|[w t] ms IH]; intros s Hf; simpl in Hf; [by injection Hf as <-|].
  destruct (rw_next false w t s) as [s1|] eqn:E.
  - eapply rtc_l; [by exists w, t|]. by apply IH.
  - exfalso. clear -Hf. induction ms as [|x ms IH]; [done|by apply IH].
Qed.

(** Tasks 1 and 2 read, task 3 waits to write and task 4 to read behind it. *)
Definition demo_rwlock_moves : list (bool * nat) :=
  [(false, 1); (false, 1); (false, 1); (false, 1); (false, 2); (false, 2); (false, 2); (false, 2);
   (true, 3); (true, 3); (true, 3); (true, 3); (false, 4); (false, 4); (false, 4); (false, 4)]%nat.

