(* ===== verification/Sched.v ===== *)
(** * The runtime: tasks, ready queues and the scheduler loop
    (crates/dlutos_runtime/src)

    The scheduler loop [Runtime::enter] of every CPU, the wakers
    ([Wake for Task]) and [Runtime::spawn] run concurrently.  A step of the
    model is one atomic access of the code: an access to a task's state word, a
    lock or unlock of a ready queue, one operation on a queue, on the per-CPU
    [CURRENT_TASK] or on the global task tree.  The futures that are polled are
    code outside the runtime: while one is polled it may end or not, and clone,
    keep, drop and call the wakers it was given.

    Tasks live on a heap with their strong reference counts ([Arc<Task>]); an
    access to a task whose count is zero is a panic of the model, so the safety
    theorem says that no freed task is touched. *)

From S2P Require Import Prelude.

(** ** [TaskState] (task/task_state.rs) *)

Definition TS_BLOCKED : Z := 0.
Definition TS_READY : Z := 1.
Definition TS_RUNNING : Z := 2.
Definition TS_READY_RUNNING : Z := Z.lor TS_READY TS_RUNNING.
Definition TS_DEAD : Z := Z.shiftl 1 31.

(** [TaskState::update], an [AtomicU32::fetch_update]: the new word, and the old
    word in [Ok] or [Err]. *)
Definition ts_update (func : Z -> outcome (option Z)) (state : Z) : outcome (Z * (Z + Z)) :=
  match func state with
  | Ret (Some new) => Ret (new, inl state)
  | Ret None => Ret (state, inr state)
  | Err e => Err e
  | Panic => Panic
  end.

Definition ts_is_ready (state : Z) : bool := Z.land state TS_READY =? TS_READY.

(** The function [wake_by_ref] updates the state with. *)
Definition wake_state (state : Z) : outcome (option Z) :=
  if state =? TS_BLOCKED then Ret (Some TS_READY)
  else if state =? TS_RUNNING then Ret (Some (Z.lor TS_READY TS_RUNNING))
  else if (state =? TS_READY) || (state =? TS_READY_RUNNING) then Ret None
  else Panic.

(** The function [remove_and_enqueue_current] updates the state with. *)
Definition leave_state (state : Z) : outcome (option Z) :=
  if state =? TS_READY_RUNNING then Ret (Some TS_READY)
  else if state =? TS_RUNNING then Ret (Some TS_BLOCKED)
  else Panic.

(** ** The state *)

(** [Task] (task.rs): its [executor] is a cell that one borrower at a time may
    use ([AtomicUniqueRefCell]). *)
Record Task := mkTask {
  tk_id : Z;
  tk_cpu : nat;
  tk_state : Z;
  tk_borrowed : bool;
  tk_refs : nat;
}.

Definition tk_set_state (st : Z) (x : Task) : Task :=
  mkTask (tk_id x) (tk_cpu x) st (tk_borrowed x) (tk_refs x).
Definition tk_set_borrowed (b : bool) (x : Task) : Task :=
  mkTask (tk_id x) (tk_cpu x) (tk_state x) b (tk_refs x).
Definition tk_set_refs (n : nat) (x : Task) : Task :=
  mkTask (tk_id x) (tk_cpu x) (tk_state x) (tk_borrowed x) n.

(** [FifoReadyQueue] (ready_queue.rs), the [ReadyQueue] of every CPU. *)
Definition rq_get (rq : list nat) : option (nat * list nat) :=
  match rq with [] => None | t :: rq' => Some (t, rq') end.
Definition rq_put (rq : list nat) (t : nat) : list nat := rq ++ [t].

(** Where the loop of [Runtime::enter] of a CPU is: what it does next, and the
    [Arc<Task>] its local variables own. *)
Inductive Pc :=
| PcTop                    (* [local_rq().lock_irq()] *)
| PcRemove                 (* [CURRENT_TASK.swap(None)] *)
| PcUpdate (current : nat) (* [current.state.update(..)] *)
| PcEnqueue (current : nat)(* [rq.put(current)] *)
| PcLeave (current : nat)  (* [current] goes out of scope *)
| PcGet                    (* [rq.get()] *)
| PcIdle                   (* [drop(rq)] of an empty queue *)
| PcHalt                   (* [halt()] *)
| PcSwap (next : nat)      (* [next.state.swap(RUNNING)] and its assertion *)
| PcSet (next : nat)       (* [CURRENT_TASK.set(Some(Arc::into_raw(next)))] *)
| PcUnlock                 (* [drop(rq)] *)
| PcBorrow                 (* [Task::poll]: [executor.borrow()] and the waker *)
| PcPoll (t : nat)         (* the future is polled *)
| PcFinish                 (* [state.swap(DEAD)] and its assertion *)
| PcRemoveTask             (* [remove_task] *)
| PcClear.                 (* [CURRENT_TASK.set(None)] *)

(** The per-CPU variables [READYQUEUE] and [CURRENT_TASK]. *)
Record Cpu := mkCpu {
  cpu_rq : list nat;
  cpu_locked : bool;
  cpu_current : option nat;
  cpu_pc : Pc;
}.

Definition cpu_goto (pc : Pc) (c : Cpu) : Cpu :=
  mkCpu (cpu_rq c) (cpu_locked c) (cpu_current c) pc.
Definition cpu_set_current (t : option nat) (c : Cpu) : Cpu :=
  mkCpu (cpu_rq c) (cpu_locked c) t (cpu_pc c).
Definition cpu_set_rq (rq : list nat) (c : Cpu) : Cpu :=
  mkCpu rq (cpu_locked c) (cpu_current c) (cpu_pc c).
Definition cpu_set_locked (b : bool) (c : Cpu) : Cpu :=
  mkCpu (cpu_rq c) b (cpu_current c) (cpu_pc c).

(** A thread of control inside [spawn] or inside a waker's [wake] or
    [wake_by_ref].  It owns one [Arc<Task>]; [keep] says that a waker called by
    reference gets it back. *)
Inductive Agent :=
| AgAdd (t : nat)                        (* [spawn]: [add_task] *)
| AgWake (t : nat) (keep : bool)         (* [state.update(..)] *)
| AgLoad (t : nat) (keep : bool)         (* [rq]: [self.cpu.load] *)
| AgLock (t : nat) (keep : bool) (c : nat)   (* [cpu_rq(cpu).lock_irq()] *)
| AgCheck (t : nat) (keep : bool) (c : nat)  (* [cpu != self.cpu.load] *)
| AgPut (t : nat) (keep : bool) (c : nat)    (* [put(self.clone())] *)
| AgUnlock (t : nat) (keep : bool) (c : nat) (* the guard is dropped *)
| AgEnd (t : nat) (keep : bool)          (* return *)
| AgDone.

(** The tasks, the CPUs, the threads of control in wakers and in [spawn], the
    tree [TASKS], the wakers that exist outside the runtime, and the counter
    [ID]. *)
Record Sched := mkSched {
  sd_tasks : list Task;
  sd_cpus : list Cpu;
  sd_agents : list Agent;
  sd_all : list nat;
  sd_wakers : list nat;
  sd_next_id : Z;
}.

Definition with_tasks (f : list Task -> list Task) (s : Sched) : Sched :=
  mkSched (f (sd_tasks s)) (sd_cpus s) (sd_agents s) (sd_all s) (sd_wakers s) (sd_next_id s).
Definition with_cpu (i : nat) (c : Cpu) (s : Sched) : Sched :=
  mkSched (sd_tasks s) (<[i := c]> (sd_cpus s)) (sd_agents s) (sd_all s) (sd_wakers s) (sd_next_id s).
Definition with_agent (i : nat) (a : Agent) (s : Sched) : Sched :=
  mkSched (sd_tasks s) (sd_cpus s) (<[i := a]> (sd_agents s)) (sd_all s) (sd_wakers s) (sd_next_id s).
Definition with_all (l : list nat) (s : Sched) : Sched :=
  mkSched (sd_tasks s) (sd_cpus s) (sd_agents s) l (sd_wakers s) (sd_next_id s).
Definition with_wakers (l : list nat) (s : Sched) : Sched :=
  mkSched (sd_tasks s) (sd_cpus s) (sd_agents s) (sd_all s) l (sd_next_id s).
Definition new_agent (a : Agent) (s : Sched) : Sched :=
  mkSched (sd_tasks s) (sd_cpus s) (sd_agents s ++ [a]) (sd_all s) (sd_wakers s) (sd_next_id s).

(** An access to a task through an [Arc]: the task must not have been freed. *)
Definition task_at (s : Sched) (t : nat) : outcome Task :=
  x ← expect (sd_tasks s !! t);
  if Nat.eqb (tk_refs x) 0 then Panic else Ret x.

Definition put_task (t : nat) (x : Task) (s : Sched) : Sched := with_tasks (<[t := x]>) s.

(** [Arc::clone] and the drop of an [Arc]. *)
Definition arc_clone (t : nat) (s : Sched) : outcome Sched :=
  x ← task_at s t; Ret (put_task t (tk_set_refs (S (tk_refs x)) x) s).
Definition arc_drop (t : nat) (s : Sched) : outcome Sched :=
  x ← task_at s t; Ret (put_task t (tk_set_refs (pred (tk_refs x)) x) s).

(** ** The scheduler loop *)

(** One occurrence of [t] taken out of a list, [None] when there is none. *)
Fixpoint remove_one (t : nat) (l : list nat) : option (list nat) :=
  match l with
  | [] => None
  | u :: l => if Nat.eqb t u then Some l else cons u <$> remove_one t l
  end.

(** One step of [remove_and_enqueue_current] on CPU [i]. *)
Definition remove_and_enqueue_current (i : nat) (c : Cpu) (s : Sched) : option (outcome Sched) :=
  let goto pc := with_cpu i (cpu_goto pc c) in
  match cpu_pc c with
  | PcRemove =>
      match cpu_current c with
      | None => Some (Ret (goto PcGet s))
      | Some t => Some (Ret (with_cpu i (cpu_goto (PcUpdate t) (cpu_set_current None c)) s))
      end
  | PcUpdate t => Some (
      x ← task_at s t;
      '(st, r) ← ts_update leave_state (tk_state x);
      let s := put_task t (tk_set_state st x) s in
      match r with
      | inl old => if old =? TS_READY_RUNNING then Ret (goto (PcEnqueue t) s)
                   else Ret (goto (PcLeave t) s)
      | inr _ => Panic
      end)
  | PcEnqueue t =>
      Some (Ret (with_cpu i (cpu_goto PcGet (cpu_set_rq (rq_put (cpu_rq c) t) c)) s))
  | PcLeave t => Some (s ← arc_drop t s; Ret (goto PcGet s))
  | _ => None
  end.

(** One step of [Runtime::enter] on CPU [i], [remove_task] and [Task::poll] in
    line; [None] where the CPU has to wait, for the lock of its
    queue or for the future it polls. *)
Definition cpu_step (i : nat) (s : Sched) : option (outcome Sched) :=
  c ← sd_cpus s !! i;
  let goto pc := with_cpu i (cpu_goto pc c) in
  match cpu_pc c with
  | PcTop =>
      if cpu_locked c then None
      else Some (Ret (with_cpu i (cpu_goto PcRemove (cpu_set_locked true c)) s))
  | PcRemove | PcUpdate _ | PcEnqueue _ | PcLeave _ => remove_and_enqueue_current i c s
  | PcGet =>
      match rq_get (cpu_rq c) with
      | None => Some (Ret (goto PcIdle s))
      | Some (t, rq) => Some (Ret (with_cpu i (cpu_goto (PcSwap t) (cpu_set_rq rq c)) s))
      end
  | PcIdle => Some (Ret (with_cpu i (cpu_goto PcHalt (cpu_set_locked false c)) s))
  | PcHalt => Some (Ret (goto PcTop s))
  | PcSwap t => Some (
      x ← task_at s t;
      assert_ (tk_state x =? TS_READY);;
      Ret (goto (PcSet t) (put_task t (tk_set_state TS_RUNNING x) s)))
  | PcSet t => Some (Ret (with_cpu i (cpu_goto PcUnlock (cpu_set_current (Some t) c)) s))
  | PcUnlock => Some (Ret (with_cpu i (cpu_goto PcBorrow (cpu_set_locked false c)) s))
  | PcBorrow => Some (
      t ← expect (cpu_current c);
      x ← task_at s t;
      assert_ (negb (tk_borrowed x));;
      s ← arc_clone t (put_task t (tk_set_borrowed true x) s);
      Ret (goto (PcPoll t) s))
  | PcPoll t => None
  | PcFinish => Some (
      t ← expect (cpu_current c);
      x ← task_at s t;
      assert_ (negb (Z.land (tk_state x) TS_RUNNING =? 0));;
      Ret (goto PcRemoveTask (put_task t (tk_set_state TS_DEAD x) s)))
  | PcRemoveTask => Some (
      t ← expect (cpu_current c);
      all ← expect (remove_one t (sd_all s));
      s ← arc_drop t (with_all all s);
      Ret (goto PcClear s))
  | PcClear => Some (Ret (with_cpu i (cpu_goto PcTop (cpu_set_current None c)) s))
  end.

(** The end of [executor_borrow.poll(&mut cx)]: the waker and the borrow are
    dropped, and [is_ready] of the result is tested. *)
Definition poll_end (i : nat) (ready : bool) (s : Sched) : option (outcome Sched) :=
  c ← sd_cpus s !! i;
  match cpu_pc c with
  | PcPoll t => Some (
      x ← task_at s t;
      s ← arc_drop t (put_task t (tk_set_borrowed false x) s);
      Ret (with_cpu i (cpu_goto (if ready then PcFinish else PcTop) c) s))
  | _ => None
  end.

(** ** Wakers and [spawn] *)

(** One step of [wake_by_ref], [Task::rq] and the rest of [spawn]. *)
Definition agent_step (i : nat) (s : Sched) : option (outcome Sched) :=
  a ← sd_agents s !! i;
  match a with
  | AgAdd t => Some (
      s ← arc_clone t s;
      assert_ (negb (bool_decide (t ∈ sd_all s)));;
      Ret (with_agent i (AgWake t false) (with_all (t :: sd_all s) s)))
  | AgWake t k => Some (
      x ← task_at s t;
      '(st, r) ← ts_update wake_state (tk_state x);
      let s := put_task t (tk_set_state st x) s in
      match r with
      | inl old => if old =? TS_BLOCKED then Ret (with_agent i (AgLoad t k) s)
                   else Ret (with_agent i (AgEnd t k) s)
      | inr _ => Ret (with_agent i (AgEnd t k) s)
      end)
  | AgLoad t k => Some (x ← task_at s t; Ret (with_agent i (AgLock t k (tk_cpu x)) s))
  | AgLock t k cpu =>
      match sd_cpus s !! cpu with
      | None => Some Panic
      | Some c =>
          if cpu_locked c then None
          else Some (Ret (with_agent i (AgCheck t k cpu) (with_cpu cpu (cpu_set_locked true c) s)))
      end
  | AgCheck t k cpu => Some (
      x ← task_at s t;
      if Nat.eqb cpu (tk_cpu x) then Ret (with_agent i (AgPut t k cpu) s)
      else c ← expect (sd_cpus s !! cpu);
           Ret (with_agent i (AgLoad t k) (with_cpu cpu (cpu_set_locked false c) s)))
  | AgPut t k cpu => Some (
      s ← arc_clone t s;
      c ← expect (sd_cpus s !! cpu);
      Ret (with_agent i (AgUnlock t k cpu) (with_cpu cpu (cpu_set_rq (rq_put (cpu_rq c) t) c) s)))
  | AgUnlock t k cpu => Some (
      c ← expect (sd_cpus s !! cpu);
      Ret (with_agent i (AgEnd t k) (with_cpu cpu (cpu_set_locked false c) s)))
  | AgEnd t k => Some (
      if k then Ret (with_agent i AgDone (with_wakers (t :: sd_wakers s) s))
      else s ← arc_drop t s; Ret (with_agent i AgDone s))
  | AgDone => None
  end.

(** [Task::new] on CPU [cpu], at the beginning of [spawn]. *)
Definition spawn_new (cpu : nat) (s : Sched) : Sched :=
  mkSched (sd_tasks s ++ [mkTask (sd_next_id s) cpu TS_BLOCKED false 1]) (sd_cpus s)
    (sd_agents s ++ [AgAdd (length (sd_tasks s))]) (sd_all s) (sd_wakers s)
    (wrap32 (sd_next_id s + 1)).

(** What can happen next.  The last five are what the code outside the runtime
    does with the wakers: the future polled on a CPU clones the one it was
    given, and a waker is cloned, dropped, or called by value or by reference. *)
Inductive SchedAct :=
| ActSpawn (cpu : nat)
| ActCpu (i : nat)
| ActPollEnd (i : nat) (ready : bool)
| ActAgent (i : nat)
| ActPollClone (i : nat)
| ActClone (t : nat)
| ActDrop (t : nat)
| ActWake (t : nat)
| ActWakeRef (t : nat).

Definition sched_step (a : SchedAct) (s : Sched) : option (outcome Sched) :=
  match a with
  | ActSpawn cpu => if bool_decide (is_Some (sd_cpus s !! cpu)) then Some (Ret (spawn_new cpu s)) else None
  | ActCpu i => cpu_step i s
  | ActPollEnd i ready => poll_end i ready s
  | ActAgent i => agent_step i s
  | ActPollClone i =>
      c ← sd_cpus s !! i;
      match cpu_pc c with
      | PcPoll t => Some (s ← arc_clone t s; Ret (with_wakers (t :: sd_wakers s) s))
      | _ => None
      end
  | ActClone t =>
      if bool_decide (t ∈ sd_wakers s)
      then Some (s ← arc_clone t s; Ret (with_wakers (t :: sd_wakers s) s)) else None
  | ActDrop t =>
      l ← remove_one t (sd_wakers s); Some (arc_drop t (with_wakers l s))
  | ActWake t =>
      l ← remove_one t (sd_wakers s); Some (Ret (new_agent (AgWake t false) (with_wakers l s)))
  | ActWakeRef t =>
      l ← remove_one t (sd_wakers s); Some (Ret (new_agent (AgWake t true) (with_wakers l s)))
  end.

(** [ncpu] CPUs that enter the loop, before the first [spawn]. *)
Definition sched_init (ncpu : nat) : Sched :=
  mkSched [] (replicate ncpu (mkCpu [] false None PcTop)) [] [] [] 0.

Inductive sched_run : Sched -> list SchedAct -> Sched -> Prop :=
| run_nil s : sched_run s [] s
| run_cons s a s' l s'' :
    sched_step a s = Some (Ret s') -> sched_run s' l s'' -> sched_run s (a :: l) s''.

Definition sched_reachable (ncpu : nat) (s : Sched) : Prop :=
  exists l, sched_run (sched_init ncpu) l s.

(** The executable form of a run. *)
Fixpoint sched_exec (l : list SchedAct) (s : Sched) : option (outcome Sched) :=
  match l with
  | [] => Some (Ret s)
  | a :: l =>
      match sched_step a s with
      | Some (Ret s') => sched_exec l s'
      | r => r
      end
  end.
