(* ===== verification/SchedInv.v ===== *)
(** * The invariant of the scheduler

    Where the references to a task are, counted over the queues, the CPUs, the
    wakers and the task tree, determine its state word; every step of a CPU and
    of a waker keeps these sums, and none of them panics except the wake-up of a
    finished task. *)

From S2P Require Import Prelude Sched.

(** ** Counting where the task is *)

Definition total {A} (f : A -> nat) (l : list A) : nat := sum_list (f <$> l).
Definition here (t u : nat) : nat := if Nat.eqb t u then 1%nat else 0%nat.
Definition occ (t : nat) (l : list nat) : nat := total (here t) l.
Definition occ_opt (t : nat) (o : option nat) : nat := match o with Some u => here t u | None => 0%nat end.

(** An [Arc] of a task in state [READY]: on its way to or from a ready queue. *)
Definition pc_ready (t : nat) (pc : Pc) : nat :=
  match pc with PcEnqueue u | PcSwap u => here t u | _ => 0%nat end.
Definition cpu_ready (t : nat) (c : Cpu) : nat := (occ t (cpu_rq c) + pc_ready t (cpu_pc c))%nat.
Definition ag_ready (t : nat) (a : Agent) : nat :=
  match a with
  | AgLoad u _ | AgLock u _ _ | AgCheck u _ _ | AgPut u _ _ => here t u
  | _ => 0%nat
  end.

(** A task that is current, from the swap to [RUNNING] until it leaves. *)
Definition cpu_run (t : nat) (c : Cpu) : nat :=
  match cpu_pc c with
  | PcUpdate u | PcSet u => here t u
  | PcRemoveTask | PcClear => 0%nat
  | _ => occ_opt t (cpu_current c)
  end.

(** A finished task that is still current, and one still in [TASKS]. *)
Definition cpu_dead (t : nat) (c : Cpu) : nat :=
  match cpu_pc c with PcRemoveTask | PcClear => occ_opt t (cpu_current c) | _ => 0%nat end.
Definition cpu_listed (t : nat) (c : Cpu) : nat :=
  match cpu_pc c with PcRemoveTask => occ_opt t (cpu_current c) | _ => 0%nat end.

Definition cpu_poll (t : nat) (c : Cpu) : nat :=
  match cpu_pc c with PcPoll u => here t u | _ => 0%nat end.

(** The references a CPU and an agent own. *)
Definition pc_refs (t : nat) (pc : Pc) : nat :=
  match pc with
  | PcUpdate u | PcEnqueue u | PcLeave u | PcSwap u | PcSet u | PcPoll u => here t u
  | _ => 0%nat
  end.
Definition cpu_refs (t : nat) (c : Cpu) : nat :=
  (occ t (cpu_rq c) + occ_opt t (cpu_current c) + pc_refs t (cpu_pc c))%nat.
Definition ag_refs (t : nat) (a : Agent) : nat :=
  match a with
  | AgAdd u | AgWake u _ | AgLoad u _ | AgLock u _ _ | AgCheck u _ _ | AgPut u _ _
  | AgUnlock u _ _ | AgEnd u _ => here t u
  | AgDone => 0%nat
  end.
Definition ag_adding (t : nat) (a : Agent) : nat :=
  match a with AgAdd u => here t u | _ => 0%nat end.

Definition ready_at (s : Sched) (t : nat) : nat :=
  (total (cpu_ready t) (sd_cpus s) + total (ag_ready t) (sd_agents s))%nat.
Definition run_at (s : Sched) (t : nat) : nat := total (cpu_run t) (sd_cpus s).
Definition dead_at (s : Sched) (t : nat) : nat := total (cpu_dead t) (sd_cpus s).
Definition listed_at (s : Sched) (t : nat) : nat := total (cpu_listed t) (sd_cpus s).
Definition poll_at (s : Sched) (t : nat) : nat := total (cpu_poll t) (sd_cpus s).
Definition adding_at (s : Sched) (t : nat) : nat := total (ag_adding t) (sd_agents s).
Definition refs_at (s : Sched) (t : nat) : nat :=
  (total (cpu_refs t) (sd_cpus s) + total (ag_refs t) (sd_agents s)
   + occ t (sd_all s) + occ t (sd_wakers s))%nat.

(** Who holds the lock of a queue. *)
Definition pc_locked (pc : Pc) : nat :=
  match pc with
  | PcRemove | PcUpdate _ | PcEnqueue _ | PcLeave _ | PcGet | PcIdle | PcSwap _ | PcSet _
  | PcUnlock => 1%nat
  | _ => 0%nat
  end.
Definition ag_locked (i : nat) (a : Agent) : nat :=
  match a with AgCheck _ _ c | AgPut _ _ c | AgUnlock _ _ c => here i c | _ => 0%nat end.
Definition ag_cpu (a : Agent) : option nat :=
  match a with
  | AgLock _ _ c | AgCheck _ _ c | AgPut _ _ c | AgUnlock _ _ c => Some c
  | _ => None
  end.

Arguments cpu_ready _ !_ /.
Arguments cpu_run _ !_ /.
Arguments cpu_dead _ !_ /.
Arguments cpu_listed _ !_ /.
Arguments cpu_poll _ !_ /.
Arguments cpu_refs _ !_ /.
Arguments cpu_goto _ !_ /.
Arguments cpu_set_current _ !_ /.
Arguments cpu_set_rq _ !_ /.
Arguments cpu_set_locked _ !_ /.

(** [CURRENT_TASK] at each place of the loop. *)
Definition current_ok (c : Cpu) : Prop :=
  match cpu_pc c with
  | PcTop | PcRemove => True
  | PcUnlock | PcBorrow | PcFinish | PcRemoveTask | PcClear => is_Some (cpu_current c)
  | PcPoll t => cpu_current c = Some t
  | _ => cpu_current c = None
  end.

(** ** The invariant *)

Definition is_st (st x : Z) : nat := Nat.b2n (st =? x).

(** A task in state [READY] is in one queue or in the hand of one thread on its
    way there or back; a task in state [RUNNING] or [READY_RUNNING] is the
    current task of one CPU; its count is the number of references there are,
    and one more when it has finished. *)
Record task_ok (s : Sched) (t : nat) (x : Task) : Prop := {
  ok_state : tk_state x ∈ [TS_BLOCKED; TS_READY; TS_RUNNING; TS_READY_RUNNING; TS_DEAD];
  ok_ready : ready_at s t = is_st (tk_state x) TS_READY;
  ok_run : run_at s t = (is_st (tk_state x) TS_RUNNING + is_st (tk_state x) TS_READY_RUNNING)%nat;
  ok_dead : (dead_at s t <= is_st (tk_state x) TS_DEAD)%nat;
  ok_refs : (tk_refs x + dead_at s t)%nat = (refs_at s t + is_st (tk_state x) TS_DEAD)%nat;
  ok_poll : Nat.b2n (tk_borrowed x) = poll_at s t;
  ok_listed : (occ t (sd_all s) + adding_at s t + is_st (tk_state x) TS_DEAD)%nat
              = (1 + listed_at s t)%nat;
  ok_adding : (0 < adding_at s t)%nat -> tk_refs x = 1%nat /\ tk_state x = TS_BLOCKED;
  ok_cpu : (tk_cpu x < length (sd_cpus s))%nat;
}.

(** The locks are held by who is inside, and each CPU has a current task where it
    reads it. *)
Record loop_ok (s : Sched) : Prop := {
  loop_lock : forall i c, sd_cpus s !! i = Some c ->
    Nat.b2n (cpu_locked c) = (pc_locked (cpu_pc c) + total (ag_locked i) (sd_agents s))%nat;
  loop_current : forall i c, sd_cpus s !! i = Some c -> current_ok c;
  loop_agent : forall i a c, sd_agents s !! i = Some a -> ag_cpu a = Some c ->
    (c < length (sd_cpus s))%nat;
}.

Record sched_inv (s : Sched) : Prop := {
  inv_task : forall t x, sd_tasks s !! t = Some x -> task_ok s t x;
  inv_absent : forall t, sd_tasks s !! t = None -> refs_at s t = 0%nat;
  inv_loop : loop_ok s;
}.

(** ** Counting lemmas *)

Lemma total_insert {A} (f : A -> nat) l i x y :
  l !! i = Some y -> (total f (<[i := x]> l) + f y = total f l + f x)%nat.
Proof.
  unfold total. revert i. induction l as [|z l IH]; intros [|i] H; simplify_eq/=; [lia|].
  specialize (IH i H). lia.
Qed.

Lemma total_app {A} (f : A -> nat) l k : total f (l ++ k) = (total f l + total f k)%nat.
Proof. unfold total. induction l as [|x l IH]; csimpl; [done|]. rewrite IH. lia. Qed.

Lemma total_lookup {A} (f : A -> nat) l i x : l !! i = Some x -> (f x <= total f l)%nat.
Proof. unfold total. revert i. induction l as [|z l IH]; intros [|i] H; simplify_eq/=; [lia|].
  specialize (IH i H). lia. Qed.

Lemma total_le {A} (f g : A -> nat) l : (forall x, (f x <= g x)%nat) -> (total f l <= total g l)%nat.
Proof. intros H. unfold total. induction l as [|z l IH]; csimpl; [lia|]. specialize (H z). lia. Qed.

Lemma total_le_at {A} (f g : A -> nat) l i x d :
  (forall j y, l !! j = Some y -> (f y <= g y)%nat) -> l !! i = Some x -> (f x + d <= g x)%nat ->
  (total f l + d <= total g l)%nat.
Proof.
  unfold total. revert i. induction l as [|z l IH]; intros i Hle Hi Hx; [done|]. csimpl.
  assert (Hle' : forall j y, l !! j = Some y -> (f y <= g y)%nat) by (intros j; apply (Hle (S j))).
  destruct i as [|i]; simplify_eq/=.
  - enough (sum_list (f <$> l) <= sum_list (g <$> l))%nat by lia.
    clear -Hle'. induction l as [|y l IH]; csimpl; [done|].
    pose proof (Hle' 0%nat y eq_refl). specialize (IH (fun j => Hle' (S j))). lia.
  - specialize (IH i Hle' Hi Hx). pose proof (Hle 0%nat z eq_refl). lia.
Qed.

Lemma total_zero {A} (f : A -> nat) l : (forall x, x ∈ l -> f x = 0%nat) -> total f l = 0%nat.
Proof.
  unfold total. induction l as [|z l IH]; intros H; csimpl; [done|].
  rewrite (H z) by set_solver. apply IH. set_solver.
Qed.

Lemma occ_app t l k : occ t (l ++ k) = (occ t l + occ t k)%nat.
Proof. apply total_app. Qed.

Lemma occ_cons t u l : occ t (u :: l) = (here t u + occ t l)%nat.
Proof. done. Qed.

Lemma occ_elem t l : t ∈ l <-> (0 < occ t l)%nat.
Proof.
  unfold occ, total. induction l as [|u l IH]; csimpl; [split; [set_solver|lia]|].
  rewrite elem_of_cons, IH. unfold here. destruct (Nat.eqb_spec t u); lia.
Qed.

Lemma remove_one_Some u t l k : remove_one t l = Some k -> occ u l = (here u t + occ u k)%nat.
Proof.
  revert k. induction l as [|v l IH]; intros k; csimpl; [done|].
  destruct (Nat.eqb_spec t v) as [<-|].
  - intros [= <-]. done.
  - destruct (remove_one t l) as [k'|]; intros [= <-]. specialize (IH _ eq_refl).
    unfold occ, total in *. csimpl in *. lia.
Qed.

Lemma remove_one_is t l : (0 < occ t l)%nat -> is_Some (remove_one t l).
Proof.
  induction l as [|u l IH]; unfold occ, total, here in *; csimpl; [lia|].
  destruct (Nat.eqb_spec t u); [eauto|]. intros H.
  destruct (IH H) as [k ->]. eauto.
Qed.

Lemma rq_get_Some u rq t rq' :
  rq_get rq = Some (t, rq') -> occ u rq = (here u t + occ u rq')%nat.
Proof. destruct rq; csimpl; intros; simplify_eq. done. Qed.

Lemma rq_put_occ u rq t : occ u (rq_put rq t) = (occ u rq + here u t)%nat.
Proof. unfold rq_put. rewrite occ_app. unfold occ, total. csimpl. lia. Qed.

Lemma here_refl t : here t t = 1%nat.
Proof. unfold here. by rewrite Nat.eqb_refl. Qed.

Lemma here_ne t u : t <> u -> here t u = 0%nat.
Proof. intros H. unfold here. by destruct (Nat.eqb_spec t u). Qed.

Lemma adding_owned t l : (total (ag_adding t) l <= total (ag_refs t) l)%nat.
Proof. apply total_le. intros []; simpl; lia. Qed.

Lemma adding_owned_at t i a l :
  l !! i = Some a -> (total (ag_adding t) l + (ag_refs t a - ag_adding t a) <= total (ag_refs t) l)%nat.
Proof.
  intros Hi. eapply total_le_at; [intros j [] _; simpl; lia|exact Hi|destruct a; simpl; lia].
Qed.

(** What replacing one CPU, and one agent, does to the counts of [u]. *)
Lemma cpu_counts u i c c' l :
  l !! i = Some c ->
  (total (cpu_ready u) (<[i := c']> l) + cpu_ready u c = total (cpu_ready u) l + cpu_ready u c'
   /\ total (cpu_run u) (<[i := c']> l) + cpu_run u c = total (cpu_run u) l + cpu_run u c'
   /\ total (cpu_dead u) (<[i := c']> l) + cpu_dead u c = total (cpu_dead u) l + cpu_dead u c'
   /\ total (cpu_listed u) (<[i := c']> l) + cpu_listed u c = total (cpu_listed u) l + cpu_listed u c'
   /\ total (cpu_poll u) (<[i := c']> l) + cpu_poll u c = total (cpu_poll u) l + cpu_poll u c'
   /\ total (cpu_refs u) (<[i := c']> l) + cpu_refs u c = total (cpu_refs u) l + cpu_refs u c')%nat.
Proof. intros H. repeat split; by apply total_insert. Qed.

Lemma agent_counts u i a a' l :
  l !! i = Some a ->
  (total (ag_ready u) (<[i := a']> l) + ag_ready u a = total (ag_ready u) l + ag_ready u a'
   /\ total (ag_refs u) (<[i := a']> l) + ag_refs u a = total (ag_refs u) l + ag_refs u a'
   /\ total (ag_adding u) (<[i := a']> l) + ag_adding u a = total (ag_adding u) l + ag_adding u a')%nat.
Proof. intros H. repeat split; by apply total_insert. Qed.

Lemma cpu_counts_at u i c l :
  l !! i = Some c ->
  (cpu_ready u c <= total (cpu_ready u) l /\ cpu_run u c <= total (cpu_run u) l
   /\ cpu_dead u c <= total (cpu_dead u) l /\ cpu_listed u c <= total (cpu_listed u) l
   /\ cpu_poll u c <= total (cpu_poll u) l /\ cpu_refs u c <= total (cpu_refs u) l)%nat.
Proof. intros H. repeat split; by eapply total_lookup. Qed.

Lemma agent_counts_at u i a l :
  l !! i = Some a ->
  (ag_ready u a <= total (ag_ready u) l /\ ag_refs u a <= total (ag_refs u) l
   /\ ag_adding u a <= total (ag_adding u) l)%nat.
Proof. intros H. repeat split; by eapply total_lookup. Qed.

(** ** Changing one part of the state *)

Definition same_counts (s s' : Sched) (u : nat) : Prop :=
  ready_at s' u = ready_at s u /\ run_at s' u = run_at s u /\ dead_at s' u = dead_at s u
  /\ listed_at s' u = listed_at s u /\ poll_at s' u = poll_at s u
  /\ adding_at s' u = adding_at s u /\ refs_at s' u = refs_at s u
  /\ occ u (sd_all s') = occ u (sd_all s).

Lemma task_ok_same s s' u x :
  length (sd_cpus s') = length (sd_cpus s) -> same_counts s s' u ->
  task_ok s u x -> task_ok s' u x.
Proof.
  intros Hl (E1 & E2 & E3 & E4 & E5 & E6 & E7 & E8) [].
  split; rewrite ?E1, ?E2, ?E3, ?E4, ?E5, ?E6, ?E7, ?E8, ?Hl; done.
Qed.

Lemma inv_same s s' :
  sched_inv s -> sd_tasks s' = sd_tasks s -> length (sd_cpus s') = length (sd_cpus s) ->
  (forall u, same_counts s s' u) -> loop_ok s' -> sched_inv s'.
Proof.
  intros [H1 H2 _] Ht Hl Hs Hloop. split; [..|done]; intros u; rewrite Ht.
  - intros x Hx. eapply task_ok_same; eauto.
  - intros Hu. destruct (Hs u) as (_&_&_&_&_&_&E&_). rewrite E. auto.
Qed.

Lemma inv_change s s' t x x' :
  sched_inv s -> sd_tasks s !! t = Some x -> sd_tasks s' = <[t := x']> (sd_tasks s) ->
  length (sd_cpus s') = length (sd_cpus s) ->
  (forall u, u <> t -> same_counts s s' u) -> task_ok s' t x' -> loop_ok s' -> sched_inv s'.
Proof.
  intros [H1 H2 _] Hx Ht Hl Hs Hok Hloop. split; [..|done]; intros u; rewrite Ht.
  - destruct (decide (u = t)) as [->|Hne].
    + rewrite list_lookup_insert_eq by (by eapply lookup_lt_Some). intros y [= <-]. done.
    + rewrite list_lookup_insert_ne by done. intros y Hy. eapply task_ok_same; eauto.
  - intros Hu. assert (u <> t) as Hne.
    { intros ->. rewrite list_lookup_insert_eq in Hu by (by eapply lookup_lt_Some). done. }
    rewrite list_lookup_insert_ne in Hu by done.
    destruct (Hs u Hne) as (_&_&_&_&_&_&E&_). rewrite E. auto.
Qed.

(** A task somebody owns a reference to is there. *)
Lemma owned s t :
  sched_inv s -> (0 < refs_at s t)%nat ->
  exists x, sd_tasks s !! t = Some x /\ task_at s t = Ret x /\ task_ok s t x.
Proof.
  intros Hinv Hr. destruct (sd_tasks s !! t) as [x|] eqn:Hx.
  2:{ rewrite (inv_absent _ Hinv t Hx) in Hr. lia. }
  pose proof (inv_task _ Hinv t x Hx) as Hok. exists x. split; [done|]. split; [|done].
  unfold task_at. rewrite Hx. simpl. destruct (Nat.eqb_spec (tk_refs x) 0); [|done].
  pose proof (ok_refs _ _ _ Hok). pose proof (ok_dead _ _ _ Hok). lia.
Qed.

Lemma loop_with_cpu s i c c' :
  loop_ok s -> sd_cpus s !! i = Some c -> current_ok c' ->
  (Nat.b2n (cpu_locked c') + pc_locked (cpu_pc c) = Nat.b2n (cpu_locked c) + pc_locked (cpu_pc c'))%nat ->
  loop_ok (with_cpu i c' s).
Proof.
  intros [H1 H2 H3] Hi Hc Hl. split; simpl.
  - intros j d. destruct (decide (j = i)) as [->|].
    + rewrite list_lookup_insert_eq by (by eapply lookup_lt_Some). intros [= <-].
      specialize (H1 i c Hi). lia.
    + rewrite list_lookup_insert_ne by done. auto.
  - intros j d. destruct (decide (j = i)) as [->|].
    + rewrite list_lookup_insert_eq by (by eapply lookup_lt_Some). by intros [= <-].
    + rewrite list_lookup_insert_ne by done. eauto.
  - intros. rewrite length_insert. eauto.
Qed.

Lemma loop_with_agent s i a a' :
  loop_ok s -> sd_agents s !! i = Some a -> (forall j, ag_locked j a' = ag_locked j a) ->
  (forall c, ag_cpu a' = Some c -> (c < length (sd_cpus s))%nat) ->
  loop_ok (with_agent i a' s).
Proof.
  intros [H1 H2 H3] Hi Hc Hl. split; simpl; [|done|].
  - intros j d Hj. rewrite (H1 j d Hj).
    pose proof (total_insert (ag_locked j) _ i a' a Hi). rewrite Hc in *. lia.
  - intros j d cc. destruct (decide (j = i)) as [->|].
    + rewrite list_lookup_insert_eq by (by eapply lookup_lt_Some). intros [= <-]. auto.
    + rewrite list_lookup_insert_ne by done. eauto.
Qed.

(** An agent takes or releases the lock of CPU [k]. *)
Lemma loop_lock_agent s i a a' k c c' :
  loop_ok s -> sd_agents s !! i = Some a -> sd_cpus s !! k = Some c ->
  cpu_pc c' = cpu_pc c -> cpu_current c' = cpu_current c ->
  (Nat.b2n (cpu_locked c') + ag_locked k a = Nat.b2n (cpu_locked c) + ag_locked k a')%nat ->
  (forall j, j <> k -> ag_locked j a' = ag_locked j a) ->
  (forall q, ag_cpu a' = Some q -> (q < length (sd_cpus s))%nat) ->
  loop_ok (with_agent i a' (with_cpu k c' s)).
Proof.
  intros [H1 H2 H3] Hi Hk Hpc Hcur Hl Hj Hq. split; simpl.
  - intros j d. pose proof (total_insert (ag_locked j) _ i a' a Hi) as E.
    destruct (decide (j = k)) as [->|].
    + rewrite list_lookup_insert_eq by (by eapply lookup_lt_Some). intros [= <-].
      specialize (H1 k c Hk). rewrite Hpc. lia.
    + rewrite list_lookup_insert_ne by done. intros Hd. rewrite (H1 j d Hd).
      rewrite Hj in E by done. lia.
  - intros j d. destruct (decide (j = k)) as [->|].
    + rewrite list_lookup_insert_eq by (by eapply lookup_lt_Some). intros [= <-].
      specialize (H2 k c Hk). unfold current_ok. rewrite Hpc, Hcur. exact H2.
    + rewrite list_lookup_insert_ne by done. eauto.
  - intros j d cc. rewrite length_insert. destruct (decide (j = i)) as [->|].
    + rewrite list_lookup_insert_eq by (by eapply lookup_lt_Some). intros [= <-]. auto.
    + rewrite list_lookup_insert_ne by done. eauto.
Qed.

(** The lock theorems do not look at the tasks, the tree and the wakers. *)
Lemma loop_ok_ext s s' :
  sd_cpus s' = sd_cpus s -> sd_agents s' = sd_agents s -> loop_ok s -> loop_ok s'.
Proof. intros Hc Ha [H1 H2 H3]. split; rewrite ?Hc, ?Ha; done. Qed.

(** ** Every step keeps the invariant *)

Lemma put_put t x y s : put_task t x (put_task t y s) = put_task t x s.
Proof. unfold put_task, with_tasks. simpl. by rewrite list_insert_insert_eq. Qed.

Lemma put_same t x s : sd_tasks s !! t = Some x -> put_task t x s = s.
Proof. intros H. unfold put_task, with_tasks. destruct s; simpl in *. by rewrite list_insert_id. Qed.

Lemma task_at_put t x y s :
  sd_tasks s !! t = Some y -> tk_refs x <> 0%nat -> task_at (put_task t x s) t = Ret x.
Proof.
  intros H Hr. unfold task_at, put_task, with_tasks. simpl.
  rewrite list_lookup_insert_eq by (by eapply lookup_lt_Some). simpl.
  by destruct (Nat.eqb_spec (tk_refs x) 0).
Qed.

Lemma owned_refs s t x :
  sched_inv s -> sd_tasks s !! t = Some x -> (refs_at s t <= tk_refs x)%nat.
Proof.
  intros Hinv Hx. destruct (inv_task _ Hinv _ _ Hx) as [_ _ _ H1 H2 _ _ _ _]. lia.
Qed.

(** The counts of the state as sums, for [lia]. *)
Ltac open_counts :=
  unfold same_counts, ready_at, run_at, dead_at, listed_at, poll_at, adding_at, refs_at in *;
  cbn [sd_tasks sd_cpus sd_agents sd_all sd_wakers with_tasks with_cpu with_agent with_all
       with_wakers new_agent put_task] in *.
Ltac open_cpu :=
  cbn [cpu_ready cpu_run cpu_dead cpu_listed cpu_poll cpu_refs cpu_goto cpu_set_current
       cpu_set_rq cpu_set_locked cpu_rq cpu_locked cpu_current cpu_pc pc_ready pc_refs
       pc_locked occ_opt] in *.

Ltac open_agent := cbn [ag_ready ag_refs ag_adding ag_cpu ag_locked] in *.

(** A step of CPU [i] from [c] to [c'] that does not touch any task. *)
Lemma inv_cpu_only s i c c' :
  sched_inv s -> sd_cpus s !! i = Some c ->
  (forall u, cpu_ready u c' = cpu_ready u c /\ cpu_run u c' = cpu_run u c
    /\ cpu_dead u c' = cpu_dead u c /\ cpu_listed u c' = cpu_listed u c
    /\ cpu_poll u c' = cpu_poll u c /\ cpu_refs u c' = cpu_refs u c) ->
  current_ok c' ->
  (Nat.b2n (cpu_locked c') + pc_locked (cpu_pc c) = Nat.b2n (cpu_locked c) + pc_locked (cpu_pc c'))%nat ->
  sched_inv (with_cpu i c' s).
Proof.
  intros Hinv Hi Hc Hcur Hl. apply (inv_same s); [done|done|simpl; by rewrite length_insert| |].
  - intros u. destruct (cpu_counts u i c c' _ Hi) as (?&?&?&?&?&?).
    destruct (Hc u) as (?&?&?&?&?&?). open_counts. repeat split; lia.
  - eapply loop_with_cpu; eauto using inv_loop.
Qed.

(** A step of CPU [i] that changes task [t] from [x] to [x']. *)
Lemma inv_cpu_task s i c c' t x x' :
  sched_inv s -> sd_cpus s !! i = Some c -> sd_tasks s !! t = Some x ->
  (forall u, u <> t -> cpu_ready u c' = cpu_ready u c /\ cpu_run u c' = cpu_run u c
    /\ cpu_dead u c' = cpu_dead u c /\ cpu_listed u c' = cpu_listed u c
    /\ cpu_poll u c' = cpu_poll u c /\ cpu_refs u c' = cpu_refs u c) ->
  task_ok (with_cpu i c' (put_task t x' s)) t x' ->
  current_ok c' ->
  (Nat.b2n (cpu_locked c') + pc_locked (cpu_pc c) = Nat.b2n (cpu_locked c) + pc_locked (cpu_pc c'))%nat ->
  sched_inv (with_cpu i c' (put_task t x' s)).
Proof.
  intros Hinv Hi Hx Hc Hok Hcur Hl.
  apply (inv_change s _ t x x'); [done|done|done|simpl; by rewrite length_insert| |done|].
  - intros u Hu. destruct (cpu_counts u i c c' _ Hi) as (?&?&?&?&?&?).
    destruct (Hc u Hu) as (?&?&?&?&?&?). open_counts. repeat split; lia.
  - apply (loop_ok_ext (with_cpu i c' s)); [done..|]. eapply loop_with_cpu; eauto using inv_loop.
Qed.

(** Evaluate [is_st] on known states. *)
Ltac st_eval :=
  repeat match goal with
  | |- context [is_st ?a ?b] =>
      let v := eval vm_compute in (is_st a b) in
      lazymatch v with 0%nat => idtac | 1%nat => idtac end; change (is_st a b) with v
  | H : context [is_st ?a ?b] |- _ =>
      let v := eval vm_compute in (is_st a b) in
      lazymatch v with 0%nat => idtac | 1%nat => idtac end; change (is_st a b) with v in H
  end.

(** The five states of a task, each with what it says of the counts. *)
Ltac st_cases x Hok :=
  let E := fresh "Est" in
  destruct Hok as [Hst Hrd Hrn Hdd Hrf Hpl Hls Had Hcp];
  assert (tk_state x = TS_BLOCKED \/ tk_state x = TS_READY \/ tk_state x = TS_RUNNING
          \/ tk_state x = TS_READY_RUNNING \/ tk_state x = TS_DEAD) as E
    by (clear -Hst; repeat (apply elem_of_cons in Hst as [Hst|Hst]; [tauto|]); by apply not_elem_of_nil in Hst);
  destruct E as [E|[E|[E|[E|E]]]]; rewrite E in *; st_eval; cbn [Nat.b2n] in *.

(** The fields of [task_ok] after a step, from the sums. *)
Ltac task_fields :=
  split; open_counts; open_cpu; open_agent; rewrite ?rq_put_occ, ?occ_cons, ?here_refl in *;
  cbn [tk_set_state tk_set_borrowed tk_set_refs tk_state tk_refs tk_borrowed tk_cpu tk_id] in *;
  repeat match goal with E : tk_state _ = _ |- _ => rewrite E in * end; st_eval;
  cbn [Nat.b2n] in *;
  [ first [ set_solver | done ] | lia .. | | rewrite ?length_insert; lia ];
  try lia;
  try (let Hadd := fresh "Hadd" in intros Hadd;
       match goal with Had : _ -> _ /\ _ |- _ => destruct Had; [lia|first [done|lia]] end).

(** The counts of task [t] around a step of CPU [i] that changes only it. *)
Ltac cpu_fields t i Hi :=
  match goal with |- task_ok (with_cpu _ ?c' _) _ _ =>
    destruct (cpu_counts t i _ c' _ Hi) as (?&?&?&?&?&?)
  end;
  destruct (cpu_counts_at t i _ _ Hi) as (?&?&?&?&?&?);
  task_fields.

(** The counts of the other tasks do not change. *)
Ltac cpu_others :=
  let u := fresh "u" in let Hu := fresh "Hu" in
  intros u Hu; open_cpu; rewrite ?rq_put_occ, ?(here_ne u _ Hu); repeat split; lia.

Lemma cpu_owned s i c t :
  sched_inv s -> sd_cpus s !! i = Some c -> (0 < cpu_refs t c)%nat ->
  exists x, sd_tasks s !! t = Some x /\ task_at s t = Ret x /\ task_ok s t x.
Proof.
  intros Hinv Hi H. apply owned; [done|]. pose proof (total_lookup (cpu_refs t) _ i c Hi).
  unfold refs_at. lia.
Qed.

(** The task CPU [i] is about to use, with its state. *)
Ltac cpu_known s i t Hinv Hi :=
  let x := fresh "x" in
  destruct (cpu_owned s i _ t Hinv Hi) as (x & Hx & Ha & Hok);
  [ open_cpu; rewrite here_refl; lia |];
  destruct (cpu_counts_at t i _ _ Hi) as (Hc1 & Hc2 & Hc3 & Hc4 & Hc5 & Hc6);
  open_cpu; rewrite here_refl in *;
  pose proof (owned_refs _ _ _ Hinv Hx) as Hge;
  pose proof (adding_owned t (sd_agents s)) as Hle;
  assert (Hnz : tk_refs x <> 0%nat) by (unfold refs_at in Hge; lia);
  rewrite ?Ha; cbn [mbind outcome_bind expect];
  let Hok' := fresh "Hok" in pose proof Hok as Hok'; st_cases x Hok';
  try (unfold run_at, ready_at, dead_at, refs_at in *; lia).

Ltac cpu_task s i t Hinv Hi :=
  unfold cpu_step, remove_and_enqueue_current; rewrite Hi; cbn [mbind option_bind outcome_bind cpu_pc cpu_current expect];
  cpu_known s i t Hinv Hi.

Ltac cpu_finish t i Hi :=
  eexists; split; [reflexivity|];
  eapply inv_cpu_task; [eassumption|eassumption|eassumption|cpu_others| |first [done | by eexists]|done];
  cpu_fields t i Hi.

(** The task a CPU is about to poll is not polled anywhere. *)
Lemma not_polled s i c t x :
  sched_inv s -> sd_cpus s !! i = Some c -> sd_tasks s !! t = Some x ->
  cpu_poll t c = 0%nat -> cpu_run t c = 1%nat -> tk_borrowed x = false.
Proof.
  intros Hinv Hi Hx Hp Hr. destruct (inv_task _ Hinv _ _ Hx) as [Hst _ Hrun _ _ Hpoll _ _ _].
  assert (total (cpu_poll t) (sd_cpus s) + 1 <= total (cpu_run t) (sd_cpus s))%nat as Hlt.
  { eapply total_le_at; [|exact Hi|lia]. intros j [rq lk cur pc] Hj.
    pose proof (loop_current _ (inv_loop _ Hinv) _ _ Hj) as Hc.
    destruct pc; unfold current_ok in Hc; simpl in *; try lia. subst cur. simpl. lia. }
  unfold run_at, poll_at in *. assert (is_st (tk_state x) TS_RUNNING + is_st (tk_state x) TS_READY_RUNNING <= 1)%nat.
  { unfold is_st. destruct (Z.eqb_spec (tk_state x) TS_RUNNING) as [->|]; [done|].
    destruct (_ =? _); simpl; lia. }
  destruct (tk_borrowed x); simpl in *; [lia|done].
Qed.

Section CpuSteps.
Context (s : Sched) (i : nat) (rq : list nat) (lk : bool) (Hinv : sched_inv s).

Lemma cpu_update_ok t r :
  sd_cpus s !! i = Some (mkCpu rq lk None (PcUpdate t)) ->
  cpu_step i s = Some r -> exists s', r = Ret s' /\ sched_inv s'.
Proof. intros Hi. cpu_task s i t Hinv Hi; intros [= <-]; cpu_finish t i Hi. Qed.

Lemma cpu_swap_ok t r :
  sd_cpus s !! i = Some (mkCpu rq lk None (PcSwap t)) ->
  cpu_step i s = Some r -> exists s', r = Ret s' /\ sched_inv s'.
Proof. intros Hi. cpu_task s i t Hinv Hi; intros [= <-]; cpu_finish t i Hi. Qed.

Lemma cpu_finish_ok t r :
  sd_cpus s !! i = Some (mkCpu rq lk (Some t) PcFinish) ->
  cpu_step i s = Some r -> exists s', r = Ret s' /\ sched_inv s'.
Proof. intros Hi. cpu_task s i t Hinv Hi; intros [= <-]; cpu_finish t i Hi. Qed.

Lemma cpu_leave_ok t r :
  sd_cpus s !! i = Some (mkCpu rq lk None (PcLeave t)) ->
  cpu_step i s = Some r -> exists s', r = Ret s' /\ sched_inv s'.
Proof.
  intros Hi. unfold arc_drop. cpu_task s i t Hinv Hi; unfold arc_drop; rewrite Ha; intros [= <-];
    cpu_finish t i Hi.
Qed.

Lemma cpu_borrow_ok t r :
  sd_cpus s !! i = Some (mkCpu rq lk (Some t) PcBorrow) ->
  cpu_step i s = Some r -> exists s', r = Ret s' /\ sched_inv s'.
Proof.
  intros Hi. cpu_task s i t Hinv Hi;
    rewrite (not_polled s i _ t x Hinv Hi Hx) in * by (simpl; rewrite ?here_refl; done);
    cbn [assert_ negb mbind outcome_bind]; unfold arc_clone;
    (rewrite (task_at_put t _ x) by done); cbn [mbind outcome_bind]; rewrite put_put;
    intros [= <-]; cpu_finish t i Hi.
Qed.

Lemma cpu_remove_ok t r :
  sd_cpus s !! i = Some (mkCpu rq lk (Some t) PcRemoveTask) ->
  cpu_step i s = Some r -> exists s', r = Ret s' /\ sched_inv s'.
Proof.
  intros Hi. cpu_task s i t Hinv Hi.
  assert (Hz : adding_at s t = 0%nat) by (destruct (adding_at s t); [done|destruct Had; [lia|done]]).
  rewrite Hz in Hls. unfold listed_at in Hls.
  destruct (remove_one_is t (sd_all s)) as [all Hall]; [unfold dead_at, refs_at in *; lia|].
  rewrite Hall. cbn [mbind outcome_bind expect]. unfold arc_drop, task_at.
  cbn [with_all sd_tasks]. fold (task_at s t). rewrite Ha. intros [= <-]. eexists. split; [reflexivity|].
  pose proof (remove_one_Some t t _ _ Hall) as Hocc. rewrite here_refl in Hocc.
  eapply (inv_change s _ t x); [done|done|reflexivity|simpl; by rewrite length_insert| | |].
  - intros u Hu. pose proof (remove_one_Some u t _ _ Hall) as Hoccu. rewrite here_ne in Hoccu by done.
    match goal with |- same_counts _ (with_cpu _ ?c' _) _ =>
      destruct (cpu_counts u i _ c' _ Hi) as (?&?&?&?&?&?) end.
    open_counts. open_cpu. rewrite (here_ne u t Hu) in *. repeat split; lia.
  - cpu_fields t i Hi.
  - apply (loop_ok_ext (with_cpu i (mkCpu rq lk (Some t) PcClear) s)); [done..|].
    eapply loop_with_cpu; [by apply inv_loop|exact Hi|by eexists|done].
Qed.

Lemma cpu_clear_ok t r :
  sd_cpus s !! i = Some (mkCpu rq lk (Some t) PcClear) ->
  cpu_step i s = Some r -> exists s', r = Ret s' /\ sched_inv s'.
Proof.
  intros Hi. cpu_task s i t Hinv Hi. intros [= <-]. rewrite <- (put_same t x s Hx).
  cpu_finish t i Hi.
Qed.

Lemma poll_end_ok ready r :
  poll_end i ready s = Some r -> exists s', r = Ret s' /\ sched_inv s'.
Proof.
  unfold poll_end. destruct (sd_cpus s !! i) as [[rq' lk' cur pc]|] eqn:Hi; [|done].
  pose proof (loop_current _ (inv_loop _ Hinv) _ _ Hi) as Hcur. destruct pc; try done.
  unfold current_ok in Hcur. cbn in Hcur. subst cur.
  cbn [mbind option_bind outcome_bind cpu_pc]. cpu_known s i t Hinv Hi;
    (destruct (tk_borrowed x); cbn [Nat.b2n] in Hpl; [|unfold poll_at in *; lia]);
    unfold arc_drop; (rewrite (task_at_put t _ x) by done); cbn [mbind outcome_bind];
    rewrite put_put; intros [= <-]; destruct ready; cpu_finish t i Hi.
Qed.
End CpuSteps.

Lemma cpu_step_ok s i r :
  sched_inv s -> cpu_step i s = Some r -> exists s', r = Ret s' /\ sched_inv s'.
Proof.
  intros Hinv Hstep. destruct (sd_cpus s !! i) as [[rq lk cur pc]|] eqn:Hi.
  2:{ unfold cpu_step, remove_and_enqueue_current in Hstep. by rewrite Hi in Hstep. }
  pose proof (loop_current _ (inv_loop _ Hinv) _ _ Hi) as Hcur. unfold current_ok in Hcur. cbn in Hcur.
  pose proof (loop_lock _ (inv_loop _ Hinv) _ _ Hi) as Hlock.
  destruct pc; try subst cur; try destruct Hcur as [t ->];
    eauto using cpu_update_ok, cpu_leave_ok, cpu_swap_ok, cpu_borrow_ok, cpu_finish_ok,
      cpu_remove_ok, cpu_clear_ok;
    unfold cpu_step, remove_and_enqueue_current in Hstep; rewrite Hi in Hstep; cbn -[rq_get rq_put] in Hstep, Hlock;
    repeat case_match; simplify_eq; (eexists; split; [reflexivity|]);
    (eapply inv_cpu_only; [done|exact Hi| |first [done | by eexists]|cbn; try destruct lk; cbn in *; lia]);
    intros u; open_cpu; rewrite ?rq_put_occ;
    try match goal with H : rq_get _ = Some _ |- _ => rewrite (rq_get_Some u _ _ _ H) end;
    repeat split; lia.
Qed.

(** A step of agent [i] from [a] to [a'] that changes task [t] from [x] to [x'],
    and puts or removes references to [t] in the tree and among the wakers. *)
Lemma inv_agent_task s s' i a a' t x x' :
  sched_inv s -> sd_agents s !! i = Some a -> sd_tasks s !! t = Some x ->
  sd_tasks s' = <[t := x']> (sd_tasks s) -> sd_cpus s' = sd_cpus s ->
  sd_agents s' = <[i := a']> (sd_agents s) ->
  (forall u, u <> t -> ag_ready u a' = ag_ready u a /\ ag_refs u a' = ag_refs u a
    /\ ag_adding u a' = ag_adding u a /\ occ u (sd_all s') = occ u (sd_all s)
    /\ occ u (sd_wakers s') = occ u (sd_wakers s)) ->
  task_ok s' t x' ->
  (forall j, ag_locked j a' = ag_locked j a) ->
  (forall c, ag_cpu a' = Some c -> (c < length (sd_cpus s))%nat) ->
  sched_inv s'.
Proof.
  intros Hinv Hi Hx Ht Hc Ha Hu Hok Hl Hq.
  apply (inv_change s _ t x x'); [done|done|done|by rewrite Hc| |done|].
  - intros u Hne. destruct (agent_counts u i a a' _ Hi) as (?&?&?).
    destruct (Hu u Hne) as (?&?&?&?&?). open_counts. rewrite Hc, Ha in *. repeat split; lia.
  - apply (loop_ok_ext (with_agent i a' s)); [done..|]. eapply loop_with_agent; eauto using inv_loop.
Qed.

(** The same for a step that also changes the lock or the queue of CPU [k]. *)
Lemma inv_agent_cpu s i a a' k c c' t x x' :
  sched_inv s -> sd_agents s !! i = Some a -> sd_cpus s !! k = Some c -> sd_tasks s !! t = Some x ->
  cpu_pc c' = cpu_pc c -> cpu_current c' = cpu_current c ->
  (forall u, u <> t -> ag_ready u a' = ag_ready u a /\ ag_refs u a' = ag_refs u a
    /\ ag_adding u a' = ag_adding u a /\ occ u (cpu_rq c') = occ u (cpu_rq c)) ->
  task_ok (with_agent i a' (with_cpu k c' (put_task t x' s))) t x' ->
  (Nat.b2n (cpu_locked c') + ag_locked k a = Nat.b2n (cpu_locked c) + ag_locked k a')%nat ->
  (forall j, j <> k -> ag_locked j a' = ag_locked j a) ->
  (forall q, ag_cpu a' = Some q -> (q < length (sd_cpus s))%nat) ->
  sched_inv (with_agent i a' (with_cpu k c' (put_task t x' s))).
Proof.
  intros Hinv Hi Hk Hx Hpc Hcur Hu Hok Hl Hj Hq.
  apply (inv_change s _ t x x'); [done|done|done|simpl; by rewrite length_insert| |done|].
  - intros u Hne. destruct (agent_counts u i a a' _ Hi) as (?&?&?).
    destruct (cpu_counts u k c c' _ Hk) as (?&?&?&?&?&?).
    destruct (Hu u Hne) as (?&?&?&?). destruct c, c'. simpl in Hpc, Hcur. subst.
    open_counts. open_cpu. repeat split; lia.
  - apply (loop_ok_ext (with_agent i a' (with_cpu k c' s))); [done..|].
    eapply loop_lock_agent; eauto using inv_loop.
Qed.

Lemma agent_owned s i a t :
  sched_inv s -> sd_agents s !! i = Some a -> (0 < ag_refs t a)%nat ->
  exists x, sd_tasks s !! t = Some x /\ task_at s t = Ret x /\ task_ok s t x.
Proof.
  intros Hinv Hi H. apply owned; [done|]. pose proof (total_lookup (ag_refs t) _ i a Hi).
  unfold refs_at. lia.
Qed.

(** The task of agent [i], with its state. *)
Ltac agent_known s i t Hinv Hi :=
  let x := fresh "x" in
  destruct (agent_owned s i _ t Hinv Hi) as (x & Hx & Ha & Hok);
  [ open_agent; rewrite here_refl; lia |];
  destruct (agent_counts_at t i _ _ Hi) as (Hc1 & Hc2 & Hc3);
  pose proof (adding_owned_at t i _ _ Hi) as Hc4;
  open_agent; rewrite here_refl in *;
  pose proof (owned_refs _ _ _ Hinv Hx) as Hge;
  pose proof (adding_owned t (sd_agents s)) as Hle;
  assert (Hnz : tk_refs x <> 0%nat) by (unfold refs_at in Hge; lia);
  rewrite ?Ha; cbn [mbind outcome_bind expect];
  let Hok' := fresh "Hok" in pose proof Hok as Hok'; st_cases x Hok';
  try (unfold run_at, ready_at, dead_at, refs_at in *; lia).

Ltac agent_others :=
  let u := fresh "u" in let Hu := fresh "Hu" in
  intros u Hu; cbn [sd_all sd_wakers with_agent with_wakers with_all put_task with_tasks cpu_rq cpu_set_rq];
  open_agent; rewrite ?rq_put_occ, ?occ_cons, ?(here_ne u _ Hu); repeat split; lia.

Ltac agent_fields t i Hi a' :=
  destruct (agent_counts t i _ a' _ Hi) as (?&?&?);
  task_fields.

Section AgentSteps.
Context (s : Sched) (i : nat) (Hinv : sched_inv s).

Lemma agent_add_ok t r :
  sd_agents s !! i = Some (AgAdd t) ->
  agent_step i s = Some r -> exists s', r = Ret s' /\ sched_inv s'.
Proof.
  intros Hi. unfold agent_step. rewrite Hi. cbn [mbind option_bind]. unfold arc_clone.
  agent_known s i t Hinv Hi; try (destruct Had; [unfold adding_at; lia|done]).
  cbn [sd_all put_task with_tasks].
  destruct Had as [Href _]; [unfold adding_at; lia|].
  assert (Hocc : occ t (sd_all s) = 0%nat) by (unfold refs_at, dead_at in *; lia).
  rewrite bool_decide_eq_false_2 by (rewrite occ_elem; lia). cbn [negb assert_ mbind outcome_bind].
  intros [= <-]. eexists. split; [reflexivity|].
  eapply inv_agent_task; [done|done|done|reflexivity..|agent_others| |done|done].
  agent_fields t i Hi (AgWake t false).
Qed.

Lemma agent_wake_ok t k r :
  sd_agents s !! i = Some (AgWake t k) -> agent_step i s = Some r ->
  (exists s', r = Ret s' /\ sched_inv s')
  \/ r = Panic /\ exists x, sd_tasks s !! t = Some x /\ tk_state x = TS_DEAD.
Proof.
  intros Hi. unfold agent_step. rewrite Hi. cbn [mbind option_bind].
  agent_known s i t Hinv Hi; try (intros [= <-]; right; by eauto);
    intros [= <-]; left; eexists; (split; [reflexivity|]);
    (eapply inv_agent_task; [done|done|done|reflexivity..|agent_others| |done|done]).
  - agent_fields t i Hi (AgLoad t k).
  - agent_fields t i Hi (AgEnd t k).
  - agent_fields t i Hi (AgEnd t k).
  - agent_fields t i Hi (AgEnd t k).
Qed.

Lemma agent_load_ok t k r :
  sd_agents s !! i = Some (AgLoad t k) ->
  agent_step i s = Some r -> exists s', r = Ret s' /\ sched_inv s'.
Proof.
  intros Hi. unfold agent_step. rewrite Hi. cbn [mbind option_bind].
  agent_known s i t Hinv Hi; intros [= <-]; eexists; (split; [reflexivity|]);
    (eapply (inv_agent_task s _ i _ (AgLock t k (tk_cpu x)) t x x);
      [done|done|done|by rewrite list_insert_id|reflexivity..|agent_others| |done|by intros ? [= <-]]).
  agent_fields t i Hi (AgLock t k (tk_cpu x)).
Qed.

(** The steps of an agent that change the lock or the queue of CPU [q]. *)
Lemma agent_cpu_there a q :
  sd_agents s !! i = Some a -> ag_cpu a = Some q ->
  exists rq lk cur pc, sd_cpus s !! q = Some (mkCpu rq lk cur pc)
    /\ Nat.b2n lk = (pc_locked pc + total (ag_locked q) (sd_agents s))%nat.
Proof.
  intros Hi Hq. destruct (lookup_lt_is_Some_2 (sd_cpus s) q) as [[rq lk cur pc] Hc].
  { by eapply (loop_agent _ (inv_loop _ Hinv)). }
  exists rq, lk, cur, pc. split; [done|]. exact (loop_lock _ (inv_loop _ Hinv) _ _ Hc).
Qed.

Ltac agent_cpu_case t i q Hi Hq :=
  let a' := match goal with |- sched_inv (with_agent _ ?a _) => a end in
  pose proof (total_lookup (ag_locked q) _ i _ Hi) as Hlk;
  open_agent; rewrite ?here_refl in Hlk;
  eapply inv_agent_cpu;
  [eassumption|exact Hi|exact Hq|eassumption|reflexivity|reflexivity|agent_others| | | |];
  [ match goal with |- task_ok (with_agent _ _ (with_cpu _ ?c' _)) _ _ =>
      destruct (cpu_counts t q _ c' _ Hq) as (?&?&?&?&?&?) end;
    agent_fields t i Hi a'
  | cbn; rewrite ?here_refl;
    repeat match goal with l : bool |- _ => destruct l; cbn in *; try lia end
  | intros j Hj; cbn; rewrite ?here_ne by done; done
  | try (intros ? [= <-]; by eapply lookup_lt_Some) ].

Lemma agent_lock_ok t k q r :
  sd_agents s !! i = Some (AgLock t k q) ->
  agent_step i s = Some r -> exists s', r = Ret s' /\ sched_inv s'.
Proof.
  intros Hi. unfold agent_step. rewrite Hi. cbn [mbind option_bind].
  destruct (agent_cpu_there _ q Hi eq_refl) as (rq & lk & cur & pc & Hq & Hl).
  rewrite Hq. cbn [cpu_locked]. destruct lk; [done|].
  intros [= <-]. eexists. split; [reflexivity|].
  agent_known s i t Hinv Hi. rewrite <- (put_same t x s Hx). agent_cpu_case t i q Hi Hq.
Qed.

Lemma agent_unlock_ok t k q r :
  sd_agents s !! i = Some (AgUnlock t k q) ->
  agent_step i s = Some r -> exists s', r = Ret s' /\ sched_inv s'.
Proof.
  intros Hi. unfold agent_step. rewrite Hi. cbn [mbind option_bind].
  destruct (agent_cpu_there _ q Hi eq_refl) as (rq & lk & cur & pc & Hq & Hl).
  rewrite Hq. intros [= <-]. eexists. split; [reflexivity|].
  agent_known s i t Hinv Hi; rewrite <- (put_same t x s Hx); agent_cpu_case t i q Hi Hq.
Qed.

Lemma agent_put_ok t k q r :
  sd_agents s !! i = Some (AgPut t k q) ->
  agent_step i s = Some r -> exists s', r = Ret s' /\ sched_inv s'.
Proof.
  intros Hi. unfold agent_step. rewrite Hi. cbn [mbind option_bind].
  destruct (agent_cpu_there _ q Hi eq_refl) as (rq & lk & cur & pc & Hq & Hl).
  unfold arc_clone. agent_known s i t Hinv Hi. cbn [sd_cpus put_task with_tasks]. rewrite Hq.
  intros [= <-]. eexists. split; [reflexivity|]. agent_cpu_case t i q Hi Hq.
Qed.

Lemma agent_check_ok t k q r :
  sd_agents s !! i = Some (AgCheck t k q) ->
  agent_step i s = Some r -> exists s', r = Ret s' /\ sched_inv s'.
Proof.
  intros Hi. unfold agent_step. rewrite Hi. cbn [mbind option_bind].
  destruct (agent_cpu_there _ q Hi eq_refl) as (rq & lk & cur & pc & Hq & Hl).
  agent_known s i t Hinv Hi. destruct (Nat.eqb q (tk_cpu x)).
  - intros [= <-]. eexists. split; [reflexivity|].
    eapply (inv_agent_task s _ i _ (AgPut t k q) t x x);
      [done|done|done|by rewrite list_insert_id|reflexivity..|agent_others| |done|].
    + agent_fields t i Hi (AgPut t k q).
    + intros ? [= <-]. by eapply lookup_lt_Some.
  - rewrite Hq. intros [= <-]. eexists. split; [reflexivity|]. rewrite <- (put_same t x s Hx).
    agent_cpu_case t i q Hi Hq.
Qed.

Lemma agent_end_ok t k r :
  sd_agents s !! i = Some (AgEnd t k) ->
  agent_step i s = Some r -> exists s', r = Ret s' /\ sched_inv s'.
Proof.
  intros Hi. unfold agent_step. rewrite Hi. cbn [mbind option_bind]. unfold arc_drop.
  agent_known s i t Hinv Hi; destruct k; intros [= <-]; eexists; (split; [reflexivity|]);
    (eapply inv_agent_task;
      [exact Hinv|exact Hi|exact Hx|first [by rewrite list_insert_id|reflexivity]|reflexivity..
      |agent_others| |done|done]);
    agent_fields t i Hi AgDone.
Qed.
End AgentSteps.

Lemma agent_step_ok s i r :
  sched_inv s -> agent_step i s = Some r ->
  (exists s', r = Ret s' /\ sched_inv s')
  \/ r = Panic /\ exists t k x, sd_agents s !! i = Some (AgWake t k)
        /\ sd_tasks s !! t = Some x /\ tk_state x = TS_DEAD.
Proof.
  intros Hinv Hstep. destruct (sd_agents s !! i) as [a|] eqn:Hi.
  2:{ unfold agent_step in Hstep. by rewrite Hi in Hstep. }
  destruct a; try (left; eauto using agent_add_ok, agent_load_ok, agent_lock_ok, agent_check_ok,
                   agent_put_ok, agent_unlock_ok, agent_end_ok; fail).
  - destruct (agent_wake_ok s i Hinv _ _ _ Hi Hstep) as [|(-> & x & Hx & Hd)]; [by left|].
    right. split; [done|]. by exists t, keep, x.
  - unfold agent_step in Hstep. by rewrite Hi in Hstep.
Qed.

