(* ===== verification/SchedRun.v ===== *)
(** * Runs of the scheduler

    The invariant holds in every reachable state; the theorems on wake-ups and
    on the order of the ready queues. *)

From S2P Require Import Prelude Sched SchedInv.

(** ** [spawn] and the code that holds wakers *)

Lemma total_snoc {A} (f : A -> nat) l x : total f (l ++ [x]) = (total f l + f x)%nat.
Proof. rewrite total_app. unfold total at 2. simpl. lia. Qed.

Lemma loop_new_agent s a :
  loop_ok s -> (forall j, ag_locked j a = 0%nat) -> ag_cpu a = None -> loop_ok (new_agent a s).
Proof.
  intros [H1 H2 H3] Hl Hc. split; simpl; [|done|].
  - intros j c Hj. rewrite total_snoc, Hl, (H1 j c Hj). lia.
  - intros j b c Hj Hb. apply lookup_snoc_Some in Hj as [[_ Hj]|[_ <-]]; [eauto|congruence].
Qed.

Lemma refs_zero s u :
  refs_at s u = 0%nat ->
  ready_at s u = 0%nat /\ run_at s u = 0%nat /\ dead_at s u = 0%nat /\ listed_at s u = 0%nat
  /\ poll_at s u = 0%nat /\ adding_at s u = 0%nat /\ occ u (sd_all s) = 0%nat.
Proof.
  intros H. unfold refs_at in H. unfold ready_at, run_at, dead_at, listed_at, poll_at, adding_at.
  pose proof (total_le (cpu_ready u) (cpu_refs u) (sd_cpus s)
    ltac:(intros [? ? ? []]; simpl; lia)).
  pose proof (total_le (cpu_run u) (cpu_refs u) (sd_cpus s) ltac:(intros [? ? ? []]; simpl; lia)).
  pose proof (total_le (cpu_dead u) (cpu_refs u) (sd_cpus s) ltac:(intros [? ? ? []]; simpl; lia)).
  pose proof (total_le (cpu_listed u) (cpu_refs u) (sd_cpus s) ltac:(intros [? ? ? []]; simpl; lia)).
  pose proof (total_le (cpu_poll u) (cpu_refs u) (sd_cpus s) ltac:(intros [? ? ? []]; simpl; lia)).
  pose proof (total_le (ag_ready u) (ag_refs u) (sd_agents s) ltac:(intros []; simpl; lia)).
  pose proof (adding_owned u (sd_agents s)). repeat split; lia.
Qed.

Lemma spawn_ok s cpu :
  sched_inv s -> (cpu < length (sd_cpus s))%nat -> sched_inv (spawn_new cpu s).
Proof.
  intros Hinv Hcpu. set (n := length (sd_tasks s)).
  assert (Hz : refs_at s n = 0%nat).
  { apply (inv_absent _ Hinv). apply lookup_ge_None. unfold n. lia. }
  assert (Hsame : forall u, u <> n -> same_counts s (spawn_new cpu s) u).
  { intros u Hu. open_counts. cbn [spawn_new sd_tasks sd_cpus sd_agents sd_all sd_wakers]. fold n. rewrite !total_snoc. simpl.
    rewrite (here_ne u n Hu). repeat split; lia. }
  split.
  - intros u x Hx. apply lookup_snoc_Some in Hx as [[Hlt Hx]|[-> <-]].
    + apply (task_ok_same s); [done|apply Hsame; unfold n; lia|by apply (inv_task _ Hinv)].
    + fold n. destruct (refs_zero _ _ Hz) as (?&?&?&?&?&?&?). open_counts. unfold spawn_new.
      split; open_counts; cbn [spawn_new sd_tasks sd_cpus sd_agents sd_all sd_wakers tk_state tk_refs tk_borrowed tk_cpu Nat.b2n];
        fold n; rewrite ?total_snoc; simpl; rewrite ?here_refl; st_eval;
        try lia. set_solver.
  - intros u Hu. unfold spawn_new in Hu. cbn in Hu. apply lookup_ge_None in Hu. rewrite length_app in Hu.
    simpl in Hu. destruct (Hsame u) as (_&_&_&_&_&_&E&_); [unfold n; lia|].
    rewrite E. apply (inv_absent _ Hinv), lookup_ge_None. lia.
  - apply (loop_ok_ext (new_agent (AgAdd n) s)); [done..|].
    apply loop_new_agent; [by apply inv_loop|done|done].
Qed.

(** A reference held outside the runtime is cloned or dropped. *)
Lemma inv_wakers s t x n w :
  sched_inv s -> sd_tasks s !! t = Some x -> (tk_state x <> TS_BLOCKED \/ 0 < occ t (sd_wakers s))%nat ->
  (forall u, u <> t -> occ u w = occ u (sd_wakers s)) ->
  (n + occ t (sd_wakers s) = tk_refs x + occ t w)%nat ->
  sched_inv (with_wakers w (put_task t (tk_set_refs n x) s)).
Proof.
  intros Hinv Hx Hst Hw Hn. pose proof (inv_task _ Hinv _ _ Hx) as Hok.
  eapply (inv_change s _ t x); [done|done|reflexivity|done| | |by apply (loop_ok_ext s), Hinv].
  - intros u Hu. specialize (Hw u Hu). open_counts. repeat split; lia.
  - pose proof (adding_owned t (sd_agents s)) as Hle.
    destruct Hok as [? ? ? ? ? ? ? Hadd ?]. split; open_counts; cbn [tk_set_refs tk_state tk_refs tk_borrowed tk_cpu];
      try done; try lia.
Qed.

Lemma waker_owned s t :
  sched_inv s -> (0 < occ t (sd_wakers s))%nat ->
  exists x, sd_tasks s !! t = Some x /\ task_at s t = Ret x /\ (refs_at s t <= tk_refs x)%nat.
Proof.
  intros Hinv Ht. destruct (owned s t) as (x & Hx & Ha & _); [done|unfold refs_at; lia|].
  exists x. eauto using owned_refs.
Qed.

(** A waker becomes a thread of control inside [wake] or [wake_by_ref]. *)
Lemma inv_new_wake s t k w :
  sched_inv s -> remove_one t (sd_wakers s) = Some w ->
  sched_inv (new_agent (AgWake t k) (with_wakers w s)).
Proof.
  intros Hinv Hw. apply (inv_same s); [done..| |].
  - intros u. pose proof (remove_one_Some u t _ _ Hw) as Hocc. open_counts. rewrite !total_snoc.
    simpl. repeat split; lia.
  - apply loop_new_agent; [by apply (loop_ok_ext s), Hinv|done|done].
Qed.

(** The future polled on CPU [i] clones its waker. *)
Lemma poll_clone_ok s i r :
  sched_inv s -> sched_step (ActPollClone i) s = Some r -> exists s', r = Ret s' /\ sched_inv s'.
Proof.
  intros Hinv. simpl. destruct (sd_cpus s !! i) as [[rq lk cur pc]|] eqn:Hi; [|done]. simpl.
  destruct pc; try done. intros [= <-]. unfold arc_clone.
  pose proof (loop_current _ (inv_loop _ Hinv) _ _ Hi) as Hcur. cbn in Hcur. subst cur.
  destruct (cpu_owned s i _ t Hinv Hi) as (x & Hx & -> & Hok); [simpl; rewrite here_refl; lia|].
  eexists. split; [reflexivity|]. apply inv_wakers; [done|done| |..].
  - left. intros Hb. pose proof (ok_run _ _ _ Hok) as Hrun. rewrite Hb in Hrun. st_eval.
    pose proof (total_lookup (cpu_run t) _ i _ Hi) as Hl. simpl in Hl. rewrite here_refl in Hl.
    unfold run_at in Hrun. lia.
  - intros u Hu. simpl. by rewrite occ_cons, here_ne.
  - simpl. rewrite occ_cons, here_refl. lia.
Qed.

(** Every step keeps the invariant; the only panic is the wake-up of a task that
    has finished. *)
Lemma sched_step_ok s a r :
  sched_inv s -> sched_step a s = Some r ->
  (exists s', r = Ret s' /\ sched_inv s')
  \/ r = Panic /\ exists i t k x, a = ActAgent i /\ sd_agents s !! i = Some (AgWake t k)
        /\ sd_tasks s !! t = Some x /\ tk_state x = TS_DEAD.
Proof.
  intros Hinv. destruct a as [cpu|i|i b|i|i|t|t|t|t]; simpl.
  - case_bool_decide as Hc; [|done]. intros [= <-]. left. eexists. split; [done|].
    apply spawn_ok; [done|by apply lookup_lt_is_Some_1].
  - intros Hs. left. by eapply cpu_step_ok.
  - intros Hs. left. by eapply poll_end_ok.
  - intros Hs. destruct (agent_step_ok s i r Hinv Hs) as [|(-> & t & k & x & H)]; [by left|].
    right. split; [done|]. by exists i, t, k, x.
  - intros Hs. left. by eapply poll_clone_ok.
  - case_bool_decide as Ht; [|done]. apply occ_elem in Ht. intros [= <-]. left. unfold arc_clone.
    destruct (waker_owned s t Hinv Ht) as (x & Hx & -> & Hr). eexists. split; [reflexivity|].
    apply inv_wakers; [done|done|by right| |].
    + intros u Hu. simpl. by rewrite occ_cons, here_ne.
    + simpl. rewrite occ_cons, here_refl. lia.
  - destruct (remove_one t (sd_wakers s)) as [w|] eqn:Hw; [|done]. intros [= <-]. left.
    pose proof (remove_one_Some t t _ _ Hw) as Hocc. rewrite here_refl in Hocc.
    destruct (waker_owned s t Hinv) as (x & Hx & Ha & Hr); [lia|].
    unfold arc_drop, task_at. cbn [with_wakers sd_tasks]. fold (task_at s t). rewrite Ha.
    eexists. split; [reflexivity|]. apply (inv_wakers s t x _ w); [done|done|right; lia| |].
    + intros u Hu. rewrite (remove_one_Some u t _ _ Hw), here_ne by done. done.
    + unfold refs_at in Hr. lia.
  - destruct (remove_one t (sd_wakers s)) as [w|] eqn:Hw; [|done]. intros [= <-]. left.
    eexists. split; [done|]. by apply inv_new_wake.
  - destruct (remove_one t (sd_wakers s)) as [w|] eqn:Hw; [|done]. intros [= <-]. left.
    eexists. split; [done|]. by apply inv_new_wake.
Qed.

(** ** Reachable states *)

Lemma init_ok ncpu : sched_inv (sched_init ncpu).
Proof.
  assert (Hz : forall f, f (mkCpu [] false None PcTop) = 0%nat ->
                 total f (replicate ncpu (mkCpu [] false None PcTop)) = 0%nat).
  { intros f Hf. apply total_zero. intros x Hx. apply elem_of_replicate in Hx as [-> _]. done. }
  split.
  - intros t x Hx. done.
  - intros t _. unfold refs_at. simpl. rewrite (Hz (cpu_refs t)) by done. done.
  - split; simpl.
    + intros i c Hc. apply lookup_replicate in Hc as [-> _]. done.
    + intros i c Hc. apply lookup_replicate in Hc as [-> _]. done.
    + intros i a c Ha. done.
Qed.

Lemma run_ok s l s' : sched_run s l s' -> sched_inv s -> sched_inv s'.
Proof.
  induction 1 as [|s a s' l s'' Hs _ IH]; intros Hinv; [done|]. apply IH.
  destruct (sched_step_ok s a _ Hinv Hs) as [(? & [= <-] & ?)|[? _]]; done.
Qed.

Lemma reachable_inv ncpu s : sched_reachable ncpu s -> sched_inv s.
Proof. intros [l Hl]. eapply run_ok; [done|apply init_ok]. Qed.

(** The CPU that polls a task, and the tasks in the queue of a CPU. *)
Definition polls (s : Sched) (i t : nat) : Prop :=
  exists c, sd_cpus s !! i = Some c /\ cpu_pc c = PcPoll t.
Definition queued (s : Sched) (i t : nat) : Prop :=
  exists c, sd_cpus s !! i = Some c /\ t ∈ cpu_rq c.

Lemma total_two {A} (f : A -> nat) l i j x y :
  l !! i = Some x -> l !! j = Some y -> i <> j -> (f x + f y <= total f l)%nat.
Proof.
  unfold total. revert i j. induction l as [|v l IH]; intros [|i] [|j] Hi Hj Hne; simplify_eq/=; try done.
  - pose proof (total_lookup f l j y Hj) as Hy. unfold total in Hy. lia.
  - pose proof (total_lookup f l i x Hi) as Hx. unfold total in Hx. lia.
  - specialize (IH i j Hi Hj ltac:(congruence)). lia.
Qed.

Lemma is_st_le st a b : a <> b -> (is_st st a + is_st st b <= 1)%nat.
Proof.
  intros Hab. unfold is_st. destruct (Z.eqb_spec st a), (Z.eqb_spec st b); subst; simpl; try lia.
Qed.

Lemma polled_once s i j t : sched_inv s -> polls s i t -> polls s j t -> i = j.
Proof.
  intros Hinv (c & Hi & Hc) (d & Hj & Hd). destruct (decide (i = j)) as [|Hne]; [done|exfalso].
  pose proof (total_two (cpu_run t) _ i j _ _ Hi Hj Hne) as Htwo.
  pose proof (loop_current _ (inv_loop _ Hinv) _ _ Hi) as Hci.
  pose proof (loop_current _ (inv_loop _ Hinv) _ _ Hj) as Hcj.
  destruct c as [rqi lki curi pci], d as [rqj lkj curj pcj]. simpl in Hc, Hd. subst pci pcj.
  cbn in Hci, Hcj. subst curi curj. simpl in Htwo. rewrite here_refl in Htwo.
  destruct (cpu_owned s i _ t Hinv Hi) as (x & _ & _ & Hok); [simpl; rewrite here_refl; lia|].
  pose proof (ok_run _ _ _ Hok) as Hr. unfold run_at in Hr.
  pose proof (is_st_le (tk_state x) TS_RUNNING TS_READY_RUNNING ltac:(done)). lia.
Qed.

Lemma queued_ready s i t :
  sched_inv s -> queued s i t ->
  ready_at s t = 1%nat /\ exists x, sd_tasks s !! t = Some x /\ tk_state x = TS_READY.
Proof.
  intros Hinv (c & Hi & Ht). apply occ_elem in Ht.
  destruct (cpu_owned s i c t Hinv Hi) as (x & Hx & _ & Hok); [destruct c; simpl in *; lia|].
  pose proof (ok_ready _ _ _ Hok) as Hr. unfold is_st in Hr.
  assert (0 < ready_at s t)%nat as Hpos.
  { pose proof (total_lookup (cpu_ready t) _ i _ Hi). destruct c. unfold ready_at. simpl in *. lia. }
  destruct (Z.eqb_spec (tk_state x) TS_READY); simpl in Hr; [|lia]. eauto.
Qed.

(** C5: in every interleaving of the scheduler loops of any number of CPUs with
    wakers and [spawn], no assertion of the scheduler fails, no task is polled by
    two CPUs at a time or enqueued twice, and no task is used after it was freed:
    the only panic there is comes from waking a task that has finished. *)
Theorem scheduler_safe ncpu s :
  sched_reachable ncpu s ->
  (forall a, sched_step a s = Some Panic ->
     exists i t k x, a = ActAgent i /\ sd_agents s !! i = Some (AgWake t k)
       /\ sd_tasks s !! t = Some x /\ tk_state x = TS_DEAD)
  /\ (forall i j t, polls s i t -> polls s j t -> i = j)
  /\ (forall i t, queued s i t ->
       ready_at s t = 1%nat /\ exists x, sd_tasks s !! t = Some x /\ tk_state x = TS_READY).
Proof.
  intros Hr. pose proof (reachable_inv _ _ Hr) as Hinv. repeat split.
  - intros a Ha. destruct (sched_step_ok s a _ Hinv Ha) as [(? & ? & _)|[_ H]]; [done|exact H].
  - intros i j t. by apply polled_once.
  - by eapply queued_ready.
  - by eapply queued_ready.
Qed.

(** ** Wake-ups are not lost *)

(** [a] is the step of a CPU that starts to run [t]: the swap to [RUNNING]. *)
Definition starts (t : nat) (a : SchedAct) (s : Sched) : bool :=
  match a with
  | ActCpu i =>
      match sd_cpus s !! i with
      | Some c => match cpu_pc c with PcSwap u => Nat.eqb t u | _ => false end
      | None => false
      end
  | _ => false
  end.

(** A run in which no CPU starts to run [t]. *)
Inductive quiet_run (t : nat) : Sched -> Sched -> Prop :=
| quiet_nil s : quiet_run t s s
| quiet_cons s a s' s'' :
    starts t a s = false -> sched_step a s = Some (Ret s') -> quiet_run t s' s'' ->
    quiet_run t s s''.

(** The task will run: it is marked ready, and in a queue or in the hand of
    somebody who puts it there, or it is the current task of a CPU that will put
    it back. *)
Definition will_run (s : Sched) (t : nat) : Prop :=
  exists x, sd_tasks s !! t = Some x /\ ts_is_ready (tk_state x) = true
    /\ (ready_at s t = 1%nat \/ run_at s t = 1%nat).

Definition ready_or_dead (st : Z) : bool := ts_is_ready st || (st =? TS_DEAD).

Lemma task_at_Ret s u x : task_at s u = Ret x -> sd_tasks s !! u = Some x.
Proof. unfold task_at. destruct (sd_tasks s !! u); simpl; [|done]. by destruct (Nat.eqb _ _); intros [= ->]. Qed.

(** The state of task [t] in [s'] comes from the one in [s] by relation [R], or
    is the same. *)
Definition moves (R : Z -> Z -> Prop) (t : nat) (s s' : Sched) : Prop :=
  forall x, sd_tasks s !! t = Some x ->
    exists x', sd_tasks s' !! t = Some x' /\ (tk_state x' = tk_state x \/ R (tk_state x) (tk_state x')).

Lemma moves_tasks R t s s' : sd_tasks s' = sd_tasks s -> moves R t s s'.
Proof. intros E x Hx. exists x. rewrite E. eauto. Qed.

Lemma moves_put (R : Z -> Z -> Prop) t u y y' s :
  sd_tasks s !! u = Some y -> (t = u -> tk_state y' = tk_state y \/ R (tk_state y) (tk_state y')) ->
  moves R t s (put_task u y' s).
Proof.
  intros Hy HR x Hx. unfold put_task, with_tasks. cbn [sd_tasks].
  destruct (decide (t = u)) as [->|Hne].
  - rewrite list_lookup_insert_eq by (by eapply lookup_lt_Some). assert (x = y) as -> by congruence.
    eauto.
  - rewrite list_lookup_insert_ne by done. eauto.
Qed.

Lemma moves_ext R t s s1 s2 : moves R t s s1 -> sd_tasks s2 = sd_tasks s1 -> moves R t s s2.
Proof. intros H E x Hx. rewrite E. by apply H. Qed.

Lemma moves_arc R t u s s0 s1 : (arc_clone u s0 = Ret s1 \/ arc_drop u s0 = Ret s1) ->
  moves R t s s0 -> moves R t s s1.
Proof.
  intros H Hm x Hx. destruct (Hm x Hx) as (x0 & Hx0 & HR).
  unfold arc_clone, arc_drop in H.
  destruct (task_at s0 u) as [y| |] eqn:Hy; [|by destruct H..]. apply task_at_Ret in Hy.
  assert (exists n, s1 = put_task u (tk_set_refs n y) s0) as [n ->].
  { destruct H as [H|H]; simpl in H; injection H as <-; eauto. }
  destruct (moves_put (fun _ _ => False) t u y (tk_set_refs n y) s0 Hy ltac:(by left) x0 Hx0)
    as (x1 & Hx1 & [E|[]]).
  exists x1. rewrite E. eauto.
Qed.

(** How the state of a task changes in one step. *)
Definition st_step (t : nat) (a : SchedAct) (s : Sched) (st st' : Z) : Prop :=
  (starts t a s = true /\ st' = TS_RUNNING) \/ wake_state st = Ret (Some st')
  \/ leave_state st = Ret (Some st') \/ st' = TS_DEAD.

Lemma ts_update_Ret f st st' r : ts_update f st = Ret (st', r) -> st' = st \/ f st = Ret (Some st').
Proof. unfold ts_update. destruct (f st) as [[]| |]; intros; simplify_eq; auto. Qed.

Ltac moves_plain := injection 1 as <-; apply moves_tasks; done.

Ltac moves_last H :=
  injection H as <-;
  match goal with E : _ = Ret ?s1 |- moves _ _ _ ?s2 =>
    lazymatch type of s1 with Sched => apply (moves_ext _ _ _ s1); [|done] end
  end.

Lemma cpu_step_moves t i s s' :
  cpu_step i s = Some (Ret s') -> moves (st_step t (ActCpu i) s) t s s'.
Proof.
  unfold cpu_step, remove_and_enqueue_current. destruct (sd_cpus s !! i) as [c|] eqn:Hi; [|done]. cbn [mbind option_bind].
  destruct (cpu_pc c) eqn:Hpc.
  all: try (repeat case_match; try done; moves_plain).
  all: intros [= H]; unbind H.
  - apply task_at_Ret in E. case_match. apply ts_update_Ret in E0.
    eapply moves_ext; [eapply (moves_put _ t _ a (tk_set_state z a)); [exact E|]|].
    + intros _. simpl. destruct E0; [by left|]. right. unfold st_step. tauto.
    + repeat case_match; simplify_eq; done.
  - moves_last H. eapply moves_arc; [eauto|by apply moves_tasks].
  - apply task_at_Ret in E. injection H as <-.
    eapply moves_ext; [eapply (moves_put _ t _ a (tk_set_state TS_RUNNING a)); [exact E|]|done].
    intros ->. right. left. simpl. rewrite Hi, Hpc. by rewrite Nat.eqb_refl.
  - apply task_at_Ret in E0. moves_last H.
    eapply moves_arc; [eauto|]. eapply (moves_put _ t _ a0); [exact E0|by left].
  - apply task_at_Ret in E0. injection H as <-.
    eapply moves_ext; [eapply (moves_put _ t _ a0 (tk_set_state TS_DEAD a0)); [exact E0|]|done].
    intros _. right. unfold st_step. simpl. tauto.
  - moves_last H. eapply moves_arc; [eauto|]. by apply moves_tasks.
Qed.

Lemma agent_step_moves t i s s' :
  agent_step i s = Some (Ret s') -> moves (st_step t (ActAgent i) s) t s s'.
Proof.
  unfold agent_step. destruct (sd_agents s !! i) as [a|] eqn:Hi; [|done]. cbn [mbind option_bind].
  destruct a.
  all: try (repeat case_match; try done; moves_plain).
  all: intros [= H]; try unbind H.
  - moves_last H. eapply moves_arc; [eauto|by apply moves_tasks].
  - apply task_at_Ret in E. case_match. apply ts_update_Ret in E0.
    eapply moves_ext; [eapply (moves_put _ t _ a (tk_set_state z a)); [exact E|]|].
    + intros _. simpl. destruct E0; [by left|]. right. unfold st_step. tauto.
    + repeat case_match; simplify_eq; done.
  - injection H as <-. by apply moves_tasks.
  - repeat case_match; simplify_eq; [by apply moves_tasks|]. unbind H. injection H as <-. by apply moves_tasks.
  - moves_last H. eapply moves_arc; [eauto|by apply moves_tasks].
  - injection H as <-. by apply moves_tasks.
  - destruct keep; [injection H as <-; by apply moves_tasks|]. unbind H.
    moves_last H. eapply moves_arc; [eauto|by apply moves_tasks].
Qed.

Lemma step_moves t a s s' :
  sched_step a s = Some (Ret s') -> moves (st_step t a s) t s s'.
Proof.
  destruct a as [cpu|i|i b|i|i|u|u|u|u]; simpl.
  - case_bool_decide; [|done]. intros [= <-] x Hx. exists x. split; [|by left]. by apply lookup_app_l_Some.
  - apply cpu_step_moves.
  - unfold poll_end. destruct (sd_cpus s !! i) as [c|]; [|done]. simpl. destruct (cpu_pc c); try done.
    intros [= H]. unbind H. apply task_at_Ret in E. moves_last H.
    eapply moves_arc; [eauto|]. eapply moves_put; [done|by left].
  - apply agent_step_moves.
  - destruct (sd_cpus s !! i) as [c|]; [|done]. simpl. destruct (cpu_pc c); try done.
    intros [= H]. unbind H. moves_last H. eapply moves_arc; [eauto|by apply moves_tasks].
  - case_bool_decide as Hb; [|done]. intros [= H]. unbind H. moves_last H.
    eapply moves_arc; [eauto|by apply moves_tasks].
  - destruct (remove_one u (sd_wakers s)); [|done]. intros [= H].
    eapply moves_arc; [eauto|by apply moves_tasks].
  - destruct (remove_one u (sd_wakers s)); [|done]. moves_plain.
  - destruct (remove_one u (sd_wakers s)); [|done]. moves_plain.
Qed.

(** The ready mark survives every step but the one that starts the task. *)
Lemma ready_kept t a s st st' :
  starts t a s = false -> st_step t a s st st' -> ready_or_dead st = true ->
  ready_or_dead st' = true.
Proof.
  intros Hs [[? _]|[H|[H| ->]]] Hr; [congruence| | |done].
  - unfold wake_state in H. repeat case_match; simplify_eq; done.
  - unfold leave_state in H. destruct (Z.eqb_spec st TS_READY_RUNNING); simplify_eq; [done|].
    destruct (Z.eqb_spec st TS_RUNNING) as [->|]; done.
Qed.

Lemma quiet_kept t s s' :
  quiet_run t s s' -> forall x, sd_tasks s !! t = Some x -> ready_or_dead (tk_state x) = true ->
  exists x', sd_tasks s' !! t = Some x' /\ ready_or_dead (tk_state x') = true.
Proof.
  induction 1 as [s|s a s' s'' Hq Hs _ IH]; intros x Hx Hr; [eauto|].
  destruct (step_moves t a s s' Hs x Hx) as (x' & Hx' & Hst).
  apply (IH x' Hx'). destruct Hst as [->|Hst]; [done|]. by eapply ready_kept.
Qed.

Lemma quiet_inv t s s' : quiet_run t s s' -> sched_inv s -> sched_inv s'.
Proof.
  induction 1 as [s|s a s' s'' Hq Hs _ IH]; intros Hinv; [done|]. apply IH.
  destruct (sched_step_ok s a _ Hinv Hs) as [(? & [= <-] & ?)|[? _]]; done.
Qed.

(** A task marked ready is somewhere it will run from. *)
Lemma ready_will_run s t x :
  sched_inv s -> sd_tasks s !! t = Some x -> ready_or_dead (tk_state x) = true ->
  tk_state x <> TS_DEAD -> will_run s t.
Proof.
  intros Hinv Hx Hr Hd. pose proof (inv_task _ Hinv _ _ Hx) as Hok. exists x. split; [done|].
  st_cases x Hok; try done; (split; [done|lia]).
Qed.

(** The step in which a waker updates the state word. *)
Lemma wake_marks s i t k s1 :
  sd_agents s !! i = Some (AgWake t k) -> agent_step i s = Some (Ret s1) ->
  exists x, sd_tasks s1 !! t = Some x /\ ready_or_dead (tk_state x) = true.
Proof.
  intros Hi. unfold agent_step. rewrite Hi. cbn [mbind option_bind]. intros [= H]. unbind H.
  apply task_at_Ret in E. destruct a0 as [st r].
  exists (tk_set_state st a). split.
  - assert (sd_tasks s1 = sd_tasks (put_task t (tk_set_state st a) s)) as ->
      by (repeat case_match; simplify_eq; done).
    simpl. by rewrite list_lookup_insert_eq by (by eapply lookup_lt_Some).
  - simpl. unfold ts_update, wake_state in E0. repeat case_match; simplify_eq; try done.
    match goal with H : _ || _ = true |- _ => apply orb_prop in H as [Hst|Hst] end;
      apply Z.eqb_eq in Hst; rewrite Hst; done.
Qed.

(** C6: a wake-up is not lost.  However the CPUs and the other wakers interleave
    after a waker has updated the state word of a task, until a CPU starts to run
    the task it is marked ready and is on its way to a queue, in one, or current
    on a CPU that puts it back; unless it has finished meanwhile. *)
Theorem wake_not_lost ncpu s i t k s1 s2 :
  sched_reachable ncpu s -> sd_agents s !! i = Some (AgWake t k) ->
  sched_step (ActAgent i) s = Some (Ret s1) -> quiet_run t s1 s2 ->
  will_run s2 t \/ exists x, sd_tasks s2 !! t = Some x /\ tk_state x = TS_DEAD.
Proof.
  intros Hr Hi Hs Hq. pose proof (reachable_inv _ _ Hr) as Hinv.
  assert (sched_inv s1) as Hinv1.
  { destruct (sched_step_ok s _ _ Hinv Hs) as [(? & [= <-] & ?)|[? _]]; done. }
  destruct (wake_marks _ _ _ _ _ Hi Hs) as (x & Hx & Hx1).
  destruct (quiet_kept _ _ _ Hq x Hx Hx1) as (x2 & Hx2 & Hm).
  destruct (decide (tk_state x2 = TS_DEAD)); [by eauto|]. left.
  eapply ready_will_run; eauto using quiet_inv.
Qed.

(** ** The ready queues are first in, first out *)

(** The task a step puts at the end of the queue of CPU [i], and the one a step
    takes from its front. *)
Definition enters (i : nat) (a : SchedAct) (s : Sched) : list nat :=
  match a with
  | ActCpu j =>
      match sd_cpus s !! j with
      | Some c => match cpu_pc c with PcEnqueue t => if Nat.eqb i j then [t] else [] | _ => [] end
      | None => []
      end
  | ActAgent j =>
      match sd_agents s !! j with Some (AgPut t _ q) => if Nat.eqb i q then [t] else [] | _ => [] end
  | _ => []
  end.
Definition leaves (i : nat) (a : SchedAct) (s : Sched) : list nat :=
  match a with
  | ActCpu j =>
      match sd_cpus s !! j with
      | Some c =>
          match cpu_pc c with
          | PcGet => if Nat.eqb i j then take 1 (cpu_rq c) else []
          | _ => []
          end
      | None => []
      end
  | _ => []
  end.

(** The tasks that enter and that leave along a run. *)
Fixpoint along (f : SchedAct -> Sched -> list nat) (l : list SchedAct) (s : Sched) : list nat :=
  match l with
  | [] => []
  | a :: l =>
      f a s ++ match sched_step a s with Some (Ret s') => along f l s' | _ => [] end
  end.

Definition rq_of (s : Sched) (i : nat) : list nat :=
  match sd_cpus s !! i with Some c => cpu_rq c | None => [] end.

Lemma rq_of_with_cpu s j c i :
  is_Some (sd_cpus s !! j) -> rq_of (with_cpu j c s) i = if Nat.eqb i j then cpu_rq c else rq_of s i.
Proof.
  intros Hj. unfold rq_of. simpl. destruct (Nat.eqb_spec i j) as [->|Hne].
  - by rewrite list_lookup_insert_eq by (by apply lookup_lt_is_Some_1).
  - by rewrite list_lookup_insert_ne.
Qed.

Lemma arc_cpus u s s1 : (arc_clone u s = Ret s1 \/ arc_drop u s = Ret s1) -> sd_cpus s1 = sd_cpus s.
Proof.
  unfold arc_clone, arc_drop. destruct (task_at s u); simpl; [|by intros [|]..].
  intros [[= <-]|[= <-]]; done.
Qed.

(** What a step of CPU [j] does to its queue. *)
Lemma cpu_step_cpus j s s' c :
  cpu_step j s = Some (Ret s') -> sd_cpus s !! j = Some c ->
  exists c', sd_cpus s' = <[j := c']> (sd_cpus s)
    /\ cpu_rq c' = match cpu_pc c with
                   | PcEnqueue t => rq_put (cpu_rq c) t
                   | PcGet => drop 1 (cpu_rq c)
                   | _ => cpu_rq c
                   end.
Proof.
  unfold cpu_step, remove_and_enqueue_current. intros Hs Hj. rewrite Hj in Hs. cbn [mbind option_bind] in Hs. destruct c as [rq lk cur pc].
  cbn [cpu_pc cpu_rq] in *. destruct pc; cbn [cpu_locked cpu_current cpu_pc cpu_rq] in Hs;
    try (repeat case_match; simplify_eq; eexists; split; [reflexivity|reflexivity]).
  - destruct cur; simplify_eq; (eexists; split; [reflexivity|reflexivity]).
  - injection Hs as H. unbind H. destruct a0 as [st [old|old]]; [|done].
    destruct (old =? _); injection H as <-; (eexists; split; reflexivity).
  - injection Hs as H. unbind H. injection H as <-.
    rewrite <- (arc_cpus _ _ _ (or_intror E)). eexists. split; reflexivity.
  - destruct rq; simpl in *; simplify_eq; (eexists; split; reflexivity).
  - injection Hs as H. unbind H. injection H as <-. eexists. split; reflexivity.
  - injection Hs as H. unbind H. injection H as <-.
    pose proof (arc_cpus _ _ _ (or_introl E2)) as Hc. eexists. simpl in Hc |- *. rewrite Hc. split; reflexivity.
  - done.
  - injection Hs as H. unbind H. injection H as <-. eexists. split; reflexivity.
  - injection Hs as H. unbind H. injection H as <-.
    pose proof (arc_cpus _ _ _ (or_intror E1)) as Hc. eexists. simpl in Hc |- *. rewrite Hc. split; reflexivity.
Qed.

Lemma rq_of_insert s s' j c' i :
  is_Some (sd_cpus s !! j) -> sd_cpus s' = <[j := c']> (sd_cpus s) ->
  rq_of s' i = if Nat.eqb i j then cpu_rq c' else rq_of s i.
Proof. intros Hj E. rewrite <- (rq_of_with_cpu s j c' i Hj). unfold rq_of. by rewrite E. Qed.

Lemma rq_of_ext s s' i : sd_cpus s' = sd_cpus s -> rq_of s' i = rq_of s i.
Proof. unfold rq_of. by intros ->. Qed.

Lemma cpu_step_fifo i j s s' :
  cpu_step j s = Some (Ret s') ->
  rq_of s i ++ enters i (ActCpu j) s = leaves i (ActCpu j) s ++ rq_of s' i.
Proof.
  intros Hs. unfold enters, leaves. destruct (sd_cpus s !! j) as [c|] eqn:Hj.
  2:{ unfold cpu_step, remove_and_enqueue_current in Hs. by rewrite Hj in Hs. }
  destruct (cpu_step_cpus j s s' c Hs Hj) as (c' & E & Hrq).
  rewrite (rq_of_insert s s' j c' i) by eauto. unfold rq_of.
  destruct (Nat.eqb_spec i j) as [->|Hne].
  - rewrite Hj, Hrq. destruct (cpu_pc c); simpl; rewrite ?app_nil_r; try done.
    by destruct (cpu_rq c).
  - destruct (cpu_pc c); simpl; by rewrite app_nil_r.
Qed.

(** What a step of an agent does to the queues. *)
Lemma agent_step_fifo i j s s' :
  agent_step j s = Some (Ret s') -> rq_of s i ++ enters i (ActAgent j) s = rq_of s' i.
Proof.
  unfold agent_step, enters. destruct (sd_agents s !! j) as [a|]; [|done]. cbn [mbind option_bind].
  assert (Hlock : forall q c b, sd_cpus s !! q = Some c ->
            rq_of (with_cpu q (cpu_set_locked b c) s) i = rq_of s i).
  { intros q c b Hq. rewrite rq_of_with_cpu by eauto. destruct (Nat.eqb_spec i q) as [->|]; [|done].
    unfold rq_of. rewrite Hq. by destruct c. }
  destruct a; rewrite ?app_nil_r; intros Hs.
  - injection Hs as H. unbind H. injection H as <-. symmetry. apply rq_of_ext. simpl.
    exact (arc_cpus _ _ _ (or_introl E)).
  - injection Hs as H. unbind H. destruct a0 as [st [old|old]]; repeat case_match; simplify_eq; done.
  - injection Hs as H. unbind H. by injection H as <-.
  - destruct (sd_cpus s !! c) as [cc|] eqn:Hc; [|done]. destruct (cpu_locked cc); [done|].
    injection Hs as <-. symmetry. exact (Hlock c cc true Hc).
  - injection Hs as H. unbind H. destruct (Nat.eqb c (tk_cpu a)); [by injection H as <-|].
    unbind H. injection H as <-. destruct (sd_cpus s !! c) as [cc|] eqn:Hc; [|done].
    injection E0 as <-. symmetry. exact (Hlock c cc false Hc).
  - injection Hs as H. unbind H. injection H as <-. pose proof (arc_cpus _ _ _ (or_introl E)) as Hcp.
    rewrite Hcp in E0. destruct (sd_cpus s !! c) as [cc|] eqn:Hc; [|done]. injection E0 as <-.
    symmetry. rewrite (rq_of_insert s _ c (cpu_set_rq (rq_put (cpu_rq cc) t) cc) i);
      [|by eauto|cbn [with_agent with_cpu sd_cpus]; by rewrite Hcp].
    destruct (Nat.eqb_spec i c) as [->|]; [|by rewrite app_nil_r].
    unfold rq_of. rewrite Hc. by destruct cc.
  - injection Hs as H. unbind H. injection H as <-. destruct (sd_cpus s !! c) as [cc|] eqn:Hc; [|done].
    injection E as <-. symmetry. exact (Hlock c cc false Hc).
  - destruct keep; [by injection Hs as <-|]. injection Hs as H. unbind H. injection H as <-.
    symmetry. apply rq_of_ext. simpl. exact (arc_cpus _ _ _ (or_intror E)).
  - done.
Qed.

Lemma poll_end_fifo i j b s s' : poll_end j b s = Some (Ret s') -> rq_of s' i = rq_of s i.
Proof.
  unfold poll_end. destruct (sd_cpus s !! j) as [c|] eqn:Hj; [|done]. simpl.
  destruct (cpu_pc c); try done. intros [= H]. unbind H. injection H as <-.
  pose proof (arc_cpus _ _ _ (or_intror E0)) as Hcp.
  rewrite (rq_of_insert s _ j (cpu_goto (if b then PcFinish else PcTop) c) i);
    [|by eauto|cbn [with_cpu sd_cpus]; by rewrite Hcp].
  destruct (Nat.eqb_spec i j) as [->|]; [|done]. unfold rq_of. rewrite Hj. by destruct c.
Qed.

Lemma step_fifo i a s s' :
  sched_step a s = Some (Ret s') -> rq_of s i ++ enters i a s = leaves i a s ++ rq_of s' i.
Proof.
  destruct a as [cpu|j|j b|j|j|u|u|u|u]; intros Hs;
    [|by apply cpu_step_fifo| |by apply agent_step_fifo|..];
    simpl in *; rewrite app_nil_r; symmetry; try (by eapply poll_end_fifo); apply rq_of_ext.
  - case_bool_decide; [|done]. by injection Hs as <-.
  - destruct (sd_cpus s !! j) as [c|]; [|done]. simpl in Hs. destruct (cpu_pc c); try done.
    injection Hs as H. unbind H. injection H as <-. exact (arc_cpus _ _ _ (or_introl E)).
  - case_bool_decide as Hb; [|done]. injection Hs as H. unbind H. injection H as <-.
    exact (arc_cpus _ _ _ (or_introl E)).
  - destruct (remove_one u (sd_wakers s)) as [w|]; [|done]. injection Hs as H.
    exact (arc_cpus _ _ _ (or_intror H)).
  - destruct (remove_one u (sd_wakers s)) as [w|]; [|done]. by injection Hs as <-.
  - destruct (remove_one u (sd_wakers s)) as [w|]; [|done]. by injection Hs as <-.
Qed.

(** The ready queue of a CPU is first in, first out over every run: what was
    in it, then what entered along the run, is what left along the run, then
    what is in it at the end.  So a task with [n] others before it is taken after
    exactly [n] others. *)
Theorem ready_queue_fifo i l s s' :
  sched_run s l s' ->
  rq_of s i ++ along (enters i) l s = along (leaves i) l s ++ rq_of s' i.
Proof.
  induction 1 as [s|s a s' l s'' Hs _ IH]; simpl; [by rewrite app_nil_r|].
  rewrite Hs, app_assoc, (step_fifo i a s s' Hs), <- !app_assoc. by rewrite IH.
Qed.

(** ** The scheduler does not get stuck *)

Lemma total_pos {A} (f : A -> nat) l :
  (0 < total f l)%nat -> exists i x, l !! i = Some x /\ (0 < f x)%nat.
Proof.
  unfold total. induction l as [|y l IH]; csimpl; [lia|]. intros H.
  destruct (decide (f y = 0)%nat) as [Hy|Hy].
  - destruct IH as (i & x & Hi & Hx); [lia|]. by exists (S i), x.
  - exists 0%nat, y. split; [done|lia].
Qed.

(** Who has the lock of a queue can go on. *)
Lemma holder_steps s j a i :
  sched_inv s -> sd_agents s !! j = Some a -> (0 < ag_locked i a)%nat ->
  ag_locked i a = 1%nat /\ exists s', agent_step j s = Some (Ret s').
Proof.
  intros Hinv Hj Hl. assert (exists r, agent_step j s = Some r) as [r Hr].
  { unfold agent_step. rewrite Hj. simpl. destruct a; simpl in Hl; try lia; eauto. }
  split; [destruct a; simpl in *; unfold here in *; try lia; case_match; lia|].
  destruct (agent_step_ok s j r Hinv Hr) as [(s' & -> & _)|(_ & t & k & x & Ha & _)]; [eauto|].
  rewrite Hj in Ha. injection Ha as ->. simpl in Hl. lia.
Qed.

(** A CPU in the scheduler loop always has a next step, except while it polls
    a future or while another thread has the lock of its queue; that thread is in
    [Task::rq] or [put] and can do its next step, so the lock is released. *)
Theorem scheduler_progress ncpu s i c :
  sched_reachable ncpu s -> sd_cpus s !! i = Some c ->
  (exists s', sched_step (ActCpu i) s = Some (Ret s'))
  \/ (exists t, cpu_pc c = PcPoll t)
  \/ (cpu_pc c = PcTop /\ exists j a s', sd_agents s !! j = Some a /\ ag_locked i a = 1%nat
       /\ sched_step (ActAgent j) s = Some (Ret s')).
Proof.
  intros Hr Hi. pose proof (reachable_inv _ _ Hr) as Hinv. simpl.
  destruct (cpu_step i s) as [r|] eqn:Hs.
  - left. destruct (cpu_step_ok s i r Hinv Hs) as (s' & -> & _). eauto.
  - right. unfold cpu_step, remove_and_enqueue_current in Hs. rewrite Hi in Hs. simpl in Hs. destruct (cpu_pc c) eqn:Hpc; try done.
    + right. split; [done|]. destruct (cpu_locked c) eqn:Hlk; [|done].
      pose proof (loop_lock _ (inv_loop _ Hinv) _ _ Hi) as Hl. rewrite Hlk, Hpc in Hl. simpl in Hl.
      destruct (total_pos (ag_locked i) (sd_agents s)) as (j & a & Hj & Ha); [lia|].
      destruct (holder_steps s j a i Hinv Hj Ha) as [H1 [s' Hs']]. by exists j, a, s'.
    + destruct (cpu_current c); done.
    + destruct (rq_get (cpu_rq c)) as [[]|]; done.
    + left. eauto.
Qed.

(** ** Finished tasks *)

(** A finished task is never freed: [enter] sets [CURRENT_TASK] to [None] without
    dropping the reference [Arc::into_raw] put there. *)
Lemma finished_task_leaks ncpu s t x :
  sched_reachable ncpu s -> sd_tasks s !! t = Some x -> tk_state x = TS_DEAD -> tk_refs x <> 0%nat.
Proof.
  intros Hr Hx Hd. pose proof (inv_task _ (reachable_inv _ _ Hr) _ _ Hx) as Hok.
  pose proof (ok_refs _ _ _ Hok) as Href. pose proof (ok_dead _ _ _ Hok) as Hdd.
  rewrite Hd in *. st_eval. unfold refs_at, dead_at in *.
  pose proof (total_le (cpu_dead t) (cpu_refs t) (sd_cpus s) ltac:(intros [? ? ? []]; simpl; lia)). lia.
Qed.

(** A run on one CPU: a task is spawned and started. *)
Definition demo_start : list SchedAct :=
  ActSpawn 0 :: replicate 8 (ActAgent 0) ++ replicate 7 (ActCpu 0).

(** Its future keeps a waker and ends; the waker is called later, which panics. *)
Lemma wake_finished_panics :
  sched_exec (demo_start ++ [ActPollClone 0; ActPollEnd 0 true] ++ replicate 3 (ActCpu 0)
              ++ [ActWake 0; ActAgent 1]) (sched_init 1) = Some Panic.
Proof. vm_compute. reflexivity. Qed.

(** A waker puts a task into the queue of a CPU that has just found it empty: the
    CPU halts with a task in its queue, until the next interrupt. *)
Lemma halt_with_ready_task :
  match sched_exec ([ActCpu 0; ActCpu 0; ActCpu 0; ActCpu 0; ActSpawn 0] ++ replicate 8 (ActAgent 0))
          (sched_init 1) with
  | Some (Ret s) => exists c, sd_cpus s !! 0%nat = Some c /\ cpu_pc c = PcHalt /\ cpu_rq c = [0%nat]
  | _ => False
  end.
Proof. vm_compute. eexists. done. Qed.

(** ** The theorems at work *)

Lemma exec_run l s s' : sched_exec l s = Some (Ret s') -> sched_run s l s'.
Proof.
  revert s. induction l as [|a l IH]; simpl; intros s H; [injection H as <-; constructor|].
  destruct (sched_step a s) as [[s1| |]|] eqn:E; try done. econstructor; [done|]. by apply IH.
Qed.

Definition demo_after (l : list SchedAct) : Sched :=
  match sched_exec l (sched_init 1) with Some (Ret s) => s | _ => sched_init 1 end.

Lemma demo_reachable l :
  (match sched_exec l (sched_init 1) with Some (Ret _) => true | _ => false end) = true ->
  sched_reachable 1 (demo_after l).
Proof.
  intros H. exists l. apply exec_run. unfold demo_after.
  destruct (sched_exec l (sched_init 1)) as [[s| |]|]; done.
Qed.

(** The task is polled and its waker is being called. *)
Definition demo_woken : list SchedAct := demo_start ++ [ActPollClone 0; ActWake 0].

Lemma scheduler_safe_witness :
  sched_reachable 1 (demo_after demo_woken)
  /\ (forall i j t, polls (demo_after demo_woken) i t -> polls (demo_after demo_woken) j t -> i = j).
Proof.
  assert (H : sched_reachable 1 (demo_after demo_woken)) by (apply demo_reachable; vm_compute; reflexivity).
  split; [exact H|]. exact (proj1 (proj2 (scheduler_safe 1 _ H))).
Defined.

Lemma wake_not_lost_witness :
  will_run (demo_after (demo_woken ++ [ActAgent 1; ActPollEnd 0 false])) 0
  \/ exists x, sd_tasks (demo_after (demo_woken ++ [ActAgent 1; ActPollEnd 0 false])) !! 0%nat = Some x
       /\ tk_state x = TS_DEAD.
Proof.
  apply (wake_not_lost 1 (demo_after demo_woken) 1 0 false (demo_after (demo_woken ++ [ActAgent 1]))).
  - apply demo_reachable. vm_compute. reflexivity.
  - vm_compute. reflexivity.
  - vm_compute. reflexivity.
  - apply (quiet_cons 0 _ (ActPollEnd 0 false)
             (demo_after (demo_woken ++ [ActAgent 1; ActPollEnd 0 false])));
      [reflexivity|vm_compute; reflexivity|constructor].
Defined.

Lemma ready_queue_fifo_witness :
  rq_of (sched_init 1) 0 ++ along (enters 0) demo_start (sched_init 1)
  = along (leaves 0) demo_start (sched_init 1) ++ rq_of (demo_after demo_start) 0.
Proof. apply ready_queue_fifo, exec_run. vm_compute. reflexivity. Defined.

Lemma scheduler_progress_witness :
  (exists s', sched_step (ActCpu 0) (demo_after (take 9 demo_start)) = Some (Ret s'))
  \/ (exists t, PcTop = PcPoll t)
  \/ (PcTop = PcTop /\ exists j a s', sd_agents (demo_after (take 9 demo_start)) !! j = Some a
       /\ ag_locked 0 a = 1%nat
       /\ sched_step (ActAgent j) (demo_after (take 9 demo_start)) = Some (Ret s')).
Proof.
  apply (scheduler_progress 1 (demo_after (take 9 demo_start)) 0 (mkCpu [0%nat] false None PcTop)).
  - apply demo_reachable. vm_compute. reflexivity.
  - vm_compute. reflexivity.
Defined.
