(* ===== verification/Executor.v ===== *)
(** * The executor of a task and the handle of its output
    (crates/dlutos_runtime/src/executor.rs, executor/output_handle.rs,
    [JoinHandle] of scheduler.rs)

    The future is code outside the runtime: a type of states with a poll
    function.  Handles live on a heap, so that the executor's weak reference and
    the joiner see the same one; a dropped handle is [None]. *)

From S2P Require Import Prelude.

Section Executor.
Context {F O : Type} (future_poll : F -> F * poll O).

(** ** [OutputHandle] *)

Inductive OutputState :=
| OutWaiting (waker : option nat)
| OutFinished (output : option O)
| OutTakenOut.

(** [OutputHandle::new]. *)
Definition output_new : OutputState := OutWaiting None.

Definition try_resolve (h : OutputState) : outcome (option O * OutputState) :=
  match h with
  | OutWaiting _ => Ret (None, h)
  | OutFinished (Some output) => Ret (Some output, OutTakenOut)
  | OutFinished None => Panic
  | OutTakenOut => Panic
  end.

Definition register_waiter (waker : nat) (h : OutputState) : outcome OutputState :=
  match h with
  | OutWaiting _ => Ret (OutWaiting (Some waker))
  | _ => Panic
  end.

(** The waker it wakes is returned with the new state. *)
Definition commit_output (output : O) (h : OutputState) : outcome (OutputState * option nat) :=
  match h with
  | OutWaiting waker => Ret (OutFinished (Some output), waker)
  | _ => Panic
  end.

(** ** [RealExecutor] and [Executor] *)

(** [output_handle] is a [Weak]: [None] is [Weak::new()], whose pointer is
    dangling and not null. *)
Record RealExecutor := mkRealExecutor { re_future : F; re_handle : option nat }.

Definition weak_is_null (w : option nat) : bool := false.

(** The heap of output handles. *)
Notation Handles := (gmap nat OutputState).

(** [Weak::upgrade]. *)
Definition weak_upgrade (hs : Handles) (w : option nat) : option (nat * OutputState) :=
  p ← w; h ← hs !! p; Some (p, h).

Definition real_poll (e : RealExecutor) (hs : Handles) :
    outcome (poll unit * RealExecutor * Handles * option nat) :=
  if weak_is_null (re_handle e) then Ret (Ready tt, e, hs, None)
  else
    match future_poll (re_future e) with
    | (f, Pending) => Ret (Pending, mkRealExecutor f (re_handle e), hs, None)
    | (f, Ready output) =>
        match weak_upgrade hs (re_handle e) with
        | Some (p, h) =>
            '(h', woken) ← commit_output output h;
            Ret (Ready tt, mkRealExecutor f None, <[p := h']> hs, woken)
        | None => Ret (Ready tt, mkRealExecutor f (re_handle e), hs, None)
        end
    end.

(** [Executor::new]: the handle is put at [p]. *)
Definition executor_new (f : F) (p : nat) (hs : Handles) : option RealExecutor * Handles :=
  (Some (mkRealExecutor f (Some p)), <[p := output_new]> hs).

Definition executor_poll (e : option RealExecutor) (hs : Handles) :
    outcome (poll unit * option RealExecutor * Handles * option nat) :=
  match e with
  | Some r =>
      '(res, r', hs', woken) ← real_poll r hs;
      match res with
      | Ready _ => Ret (Ready tt, None, hs', woken)
      | Pending => Ret (Pending, Some r', hs', woken)
      end
  | None => Ret (Ready tt, None, hs, None)
  end.

(** One round of the loop of [JoinHandle::join]: the output, or the handle and
    the waker that is left to register. *)
Definition join_round (p : nat) (waker : option nat) (hs : Handles) :
    outcome (option O * option nat * Handles) :=
  h ← expect (hs !! p);
  '(r, h') ← try_resolve h;
  match r with
  | Some output => Ret (Some output, waker, <[p := h']> hs)
  | None =>
      match waker with
      | Some w => h'' ← register_waiter w h'; Ret (None, None, <[p := h'']> hs)
      | None => Ret (None, None, hs)
      end
  end.

(** ** Running a future to its end *)

(** The future returns [output] at its [n+1]-st poll. *)
Fixpoint ready_after (n : nat) (f : F) (output : O) : Prop :=
  match n with
  | 0%nat => exists f', future_poll f = (f', Ready output)
  | S n => exists f', future_poll f = (f', Pending) /\ ready_after n f' output
  end.

(** The scheduler polls the executor until it is ready. *)
Fixpoint polls_of (n : nat) (e : option RealExecutor) (hs : Handles) :
    outcome (poll unit * option RealExecutor * Handles * option nat) :=
  match n with
  | 0%nat => executor_poll e hs
  | S n =>
      '(res, e', hs', _) ← executor_poll e hs;
      match res with
      | Ready _ => Panic
      | Pending => polls_of n e' hs'
      end
  end.

Lemma polls_of_finish n f output p hs waker :
  ready_after n f output -> hs !! p = Some (OutWaiting waker) ->
  polls_of n (Some (mkRealExecutor f (Some p))) hs
  = Ret (Ready tt, None, <[p := OutFinished (Some output)]> hs, waker).
Proof.
  revert f. induction n as [|n IH]; intros f; simpl.
  - intros [f' Hf] Hp. unfold executor_poll, real_poll. simpl. rewrite Hf. simpl. by rewrite Hp.
  - intros (f' & Hf & Hr) Hp. unfold executor_poll, real_poll. simpl. rewrite Hf. simpl. by apply IH.
Qed.

(** The executor of a future that ends is ready exactly when the future is: it
    commits the output once, wakes who has registered, and is ready from then on
    without polling the future again. *)
Lemma executor_commits n f output p hs waker :
  ready_after n f output ->
  let '(e, hs) := executor_new f p hs in
  exists hs1, join_round p (Some waker) hs = Ret (None, None, hs1)
    /\ exists hs2, polls_of n e hs1 = Ret (Ready tt, None, hs2, Some waker)
    /\ join_round p None hs2 = Ret (Some output, None, <[p := OutTakenOut]> hs2)
    /\ executor_poll None hs2 = Ret (Ready tt, None, hs2, None).
Proof.
  intros Hr. unfold executor_new, join_round, output_new. rewrite lookup_insert_eq. simpl.
  eexists. split; [reflexivity|]. rewrite insert_insert_eq.
  eexists. split; [apply polls_of_finish; [done|by rewrite lookup_insert_eq]|].
  rewrite !lookup_insert_eq. done.
Qed.

(** A future whose handle was dropped just ends. *)
Lemma executor_without_joiner n f output p hs :
  ready_after n f output -> hs !! p = None ->
  polls_of n (Some (mkRealExecutor f (Some p))) hs = Ret (Ready tt, None, hs, None).
Proof.
  revert f. induction n as [|n IH]; intros f; simpl.
  - intros [f' Hf] Hp. unfold executor_poll, real_poll. simpl. rewrite Hf. simpl. by rewrite Hp.
  - intros (f' & Hf & Hr) Hp. unfold executor_poll, real_poll. simpl. rewrite Hf. simpl. by apply IH.
Qed.
End Executor.

(** ** [Runtime::block_till_woken] *)

(** The future it returns: the function that stores the waker, until it is taken,
    and whether it has been polled.  [store] is what the function does to the
    caller's state. *)
Record BlockTillWoken (S : Type) := mkBlock { bw_set_waker : option (nat -> S -> S); bw_slept : bool }.
Arguments mkBlock {S}.
Arguments bw_set_waker {S}.
Arguments bw_slept {S}.

Definition block_till_woken {S} (set_waker : nat -> S -> S) : BlockTillWoken S :=
  mkBlock (Some set_waker) false.

Definition block_poll {S} (b : BlockTillWoken S) (waker : nat) (s : S) :
    outcome (poll unit * BlockTillWoken S * S) :=
  if bw_slept b then Ret (Ready tt, b, s)
  else
    set_waker ← expect (bw_set_waker b);
    Ret (Pending, mkBlock None true, set_waker waker s).

(** It stores the waker in its first poll, sleeps once, and never panics however
    often it is polled. *)
Lemma block_till_woken_sleeps_once {S} (set_waker : nat -> S -> S) w w' s :
  exists b, block_poll (block_till_woken set_waker) w s = Ret (Pending, b, set_waker w s)
    /\ block_poll b w' (set_waker w s) = Ret (Ready tt, b, set_waker w s).
Proof. eexists. split; reflexivity. Qed.
