(* ===== verification/Timer.v ===== *)
(** * Sleeping and the timer interrupt (src/kernel/timer.rs)

    A task sleeps by polling the future of [sleep]: under the lock of
    [SLEEPERS_LIST] its waker is put into the group of its wake-up tick, and
    [WAKEUP_TICK] is lowered to that tick.  The timer interrupt of CPU 0 counts
    the tick, reads [WAKEUP_TICK] without the lock and takes one group off the
    heap when it is due.  The polls of any number of tasks on other CPUs and the
    interrupt interleave; a step is one atomic access, one operation under the
    lock, or one wake-up.

    The heap of the standard library is a list whose [pop] takes a smallest
    element. *)

From S2P Require Import Prelude.

(** ** Ticks, instants and durations *)

Record Duration := mkDuration { du_secs : Z; du_nanos : Z }.

(** [Duration::new]: whole seconds of the second argument are carried over; the
    constructor panics when that overflows. *)
Definition duration_new (secs nanos : Z) : outcome Duration :=
  if nanos <? 1000000000 then Ret (mkDuration secs nanos)
  else
    let secs := secs + nanos / 1000000000 in
    if secs <? 2 ^ 64 then Ret (mkDuration secs (nanos mod 1000000000)) else Panic.

Definition as_millis (d : Duration) : Z := du_secs d * 1000 + du_nanos d / 1000000.

Definition in_secs (ticks : Z) : Z := ticks / 1000.
Definition in_msecs (ticks : Z) : Z := ticks.
Definition in_usecs (ticks : Z) : Z := ticks * 1000.
Definition in_nsecs (ticks : Z) : Z := ticks * 1000000.

Record Instant := mkInstant { secs_since_epoch : Z; nsecs_within : Z }.

(** [Instant::elapsed] when the clock shows [now]. *)
Definition elapsed (self now : Instant) : outcome Duration :=
  if nsecs_within now <? nsecs_within self then
    duration_new (wrap64 (secs_since_epoch now - secs_since_epoch self - 1))
                 (wrap32 (1000000000 + nsecs_within now - nsecs_within self))
  else
    duration_new (wrap64 (secs_since_epoch now - secs_since_epoch self))
                 (wrap32 (nsecs_within now - nsecs_within self)).

Definition to_millis (i : Instant) : Z :=
  wrap64 (wrap64 (secs_since_epoch i * 1000) + nsecs_within i / 1000000).

(** [Instant + Duration]. *)
Definition instant_add (self : Instant) (d : Duration) : Instant :=
  let nsecs := wrap32 (nsecs_within self + du_nanos d) in
  mkInstant (wrap64 (wrap64 (secs_since_epoch self + du_secs d) + nsecs / 1000000000))
            (nsecs mod 1000000000).

(** [should_reschedule]: the new [PREV_SCHED_TICK] and the answer. *)
Definition should_reschedule (prev_tick current_tick : Z) : Z * bool :=
  if 10 <=? in_msecs (wrap64 (current_tick - prev_tick)) then (current_tick, true) else (prev_tick, false).

(** ** The state *)

(** [Sleepers]: a wake-up tick and the wakers of those who wait for it. *)
Record Sleepers := mkSleepers { wakeup_tick : Z; sl_wakers : list nat }.

(** [BinaryHeap<Reverse<Sleepers>>]: [pop] and [peek]. *)
Fixpoint heap_pop (h : list Sleepers) : option (Sleepers * list Sleepers) :=
  match h with
  | [] => None
  | s :: h =>
      match heap_pop h with
      | None => Some (s, [])
      | Some (m, rest) => if wakeup_tick s <=? wakeup_tick m then Some (s, h) else Some (m, s :: rest)
      end
  end.
Definition heap_peek (h : list Sleepers) : option Sleepers := fst <$> heap_pop h.

(** Where a sleeping task is in the poll of its future. *)
Inductive SleepPc :=
| SlPending   (* not polled *)
| SlCheck     (* [Ticks::now() >= wakeup_tick] *)
| SlLock      (* [SLEEPERS_LIST.lock_irq()] *)
| SlInsert    (* the waker goes into its group *)
| SlUpdate    (* [WAKEUP_TICK] is compared and stored *)
| SlUnlock    (* the guard is dropped, [Poll::Pending] *)
| SlReady.    (* [Poll::Ready(())] *)

(** A call of [sleep]: its tick, its place, and whether its waker was called
    since the poll began. *)
Record Sleep := mkSleep { sl_tick : Z; sl_pc : SleepPc; sl_woken : bool }.

(** Where the timer interrupt is; [wakeup] is the tick it read first. *)
Inductive TimerPc :=
| TmIdle
| TmLoad (current_tick : Z)
| TmLock (wakeup : Z)
| TmPop (wakeup : Z)
| TmWake (wakeup : Z) (ws : list nat)
| TmReload (wakeup : Z)
| TmStore
| TmUnlock.

Inductive Owner := OwnTimer | OwnSleep (i : nat).

(** [TICKS], [WAKEUP_TICK], [SLEEPERS_LIST] with the owner of its lock, the
    interrupt and the tasks that sleep. *)
Record Timer := mkTimer {
  TICKS : Z;
  WAKEUP_TICK : Z;
  SLEEPERS_LIST : list Sleepers;
  tm_owner : option Owner;
  tm_pc : TimerPc;
  tm_sleeps : list Sleep;
}.

Definition set_pc (pc : TimerPc) (s : Timer) : Timer :=
  mkTimer (TICKS s) (WAKEUP_TICK s) (SLEEPERS_LIST s) (tm_owner s) pc (tm_sleeps s).
Definition set_owner (o : option Owner) (s : Timer) : Timer :=
  mkTimer (TICKS s) (WAKEUP_TICK s) (SLEEPERS_LIST s) o (tm_pc s) (tm_sleeps s).
Definition set_heap (h : list Sleepers) (s : Timer) : Timer :=
  mkTimer (TICKS s) (WAKEUP_TICK s) h (tm_owner s) (tm_pc s) (tm_sleeps s).
Definition set_wakeup (w : Z) (s : Timer) : Timer :=
  mkTimer (TICKS s) w (SLEEPERS_LIST s) (tm_owner s) (tm_pc s) (tm_sleeps s).
Definition set_ticks (t : Z) (s : Timer) : Timer :=
  mkTimer t (WAKEUP_TICK s) (SLEEPERS_LIST s) (tm_owner s) (tm_pc s) (tm_sleeps s).
Definition set_sleeps (l : list Sleep) (s : Timer) : Timer :=
  mkTimer (TICKS s) (WAKEUP_TICK s) (SLEEPERS_LIST s) (tm_owner s) (tm_pc s) l.

(** ** The steps *)

(** A waker is called. *)
Definition wake_sleep (i : nat) (l : list Sleep) : list Sleep :=
  match l !! i with
  | Some x => <[i := mkSleep (sl_tick x) (sl_pc x) true]> l
  | None => l
  end.

(** One step of [timer_interrupt] on CPU 0; [None] while it waits for the lock. *)
Definition timer_step (s : Timer) : option Timer :=
  match tm_pc s with
  | TmIdle =>
      let current_tick := wrap64 (TICKS s + 1) in
      Some (set_pc (TmLoad current_tick) (set_ticks current_tick s))
  | TmLoad current_tick =>
      if WAKEUP_TICK s <=? current_tick then Some (set_pc (TmLock (WAKEUP_TICK s)) s)
      else Some (set_pc TmIdle s)
  | TmLock wakeup =>
      match tm_owner s with
      | None => Some (set_pc (TmPop wakeup) (set_owner (Some OwnTimer) s))
      | Some _ => None
      end
  | TmPop wakeup =>
      match heap_pop (SLEEPERS_LIST s) with
      | None => Some (set_pc TmUnlock s)
      | Some (g, rest) => Some (set_pc (TmWake wakeup (sl_wakers g)) (set_heap rest s))
      end
  | TmWake wakeup [] => Some (set_pc (TmReload wakeup) s)
  | TmWake wakeup (w :: ws) =>
      Some (set_pc (TmWake wakeup ws) (set_sleeps (wake_sleep w (tm_sleeps s)) s))
  | TmReload wakeup =>
      if WAKEUP_TICK s =? wakeup then Some (set_pc TmStore s) else Some (set_pc TmUnlock s)
  | TmStore =>
      let w := match heap_peek (SLEEPERS_LIST s) with Some g => wakeup_tick g | None => usize_max end in
      Some (set_pc TmUnlock (set_wakeup w s))
  | TmUnlock => Some (set_pc TmIdle (set_owner None s))
  end.

(** The waker goes to the group of its tick, or into a new one. *)
Fixpoint heap_insert (tick : Z) (w : nat) (h : list Sleepers) : list Sleepers :=
  match h with
  | [] => [mkSleepers tick [w]]
  | g :: h => if wakeup_tick g =? tick then mkSleepers tick (sl_wakers g ++ [w]) :: h else g :: heap_insert tick w h
  end.

(** One step of the poll of the [i]-th sleep. *)
Definition sleep_step (i : nat) (s : Timer) : option Timer :=
  x ← tm_sleeps s !! i;
  let goto pc := set_sleeps (<[i := mkSleep (sl_tick x) pc (sl_woken x)]> (tm_sleeps s)) in
  match sl_pc x with
  | SlPending => Some (set_sleeps (<[i := mkSleep (sl_tick x) SlCheck false]> (tm_sleeps s)) s)
  | SlCheck => Some (goto (if sl_tick x <=? TICKS s then SlReady else SlLock) s)
  | SlLock =>
      match tm_owner s with
      | None => Some (goto SlInsert (set_owner (Some (OwnSleep i)) s))
      | Some _ => None
      end
  | SlInsert => Some (goto SlUpdate (set_heap (heap_insert (sl_tick x) i (SLEEPERS_LIST s)) s))
  | SlUpdate =>
      Some (goto SlUnlock (if sl_tick x <? WAKEUP_TICK s then set_wakeup (sl_tick x) s else s))
  | SlUnlock => Some (goto SlPending (set_owner None s))
  | SlReady => None
  end.

(** [sleep]: the tick is computed when the future is first polled. *)
Definition sleep_tick (now : Z) (d : Duration) : Z := wrap64 (now + wrap64 (as_millis d)).
Definition sleep_new (d : Duration) (s : Timer) : Timer :=
  set_sleeps (tm_sleeps s ++ [mkSleep (sleep_tick (TICKS s) d) SlCheck false]) s.

Inductive TimerAct := TaSleep (d : Duration) | TaPoll (i : nat) | TaTimer.

Definition timer_next (a : TimerAct) (s : Timer) : option Timer :=
  match a with
  | TaSleep d => Some (sleep_new d s)
  | TaPoll i => sleep_step i s
  | TaTimer => timer_step s
  end.

Definition timer_init : Timer := mkTimer 0 usize_max [] None TmIdle [].

Inductive timer_run : Timer -> list TimerAct -> Timer -> Prop :=
| timer_run_nil s : timer_run s [] s
| timer_run_cons s a s' l s'' : timer_next a s = Some s' -> timer_run s' l s'' -> timer_run s (a :: l) s''.

Definition timer_reachable (s : Timer) : Prop := exists l, timer_run timer_init l s.

(** ** Instants *)

Definition instant_ok (i : Instant) : Prop := is_u64 (secs_since_epoch i) /\ 0 <= nsecs_within i < 1000000000.
Definition duration_ok (d : Duration) : Prop := is_u64 (du_secs d) /\ 0 <= du_nanos d < 1000000000.

(** A duration added to an instant is the time that has elapsed since then. *)
Lemma elapsed_add i d :
  instant_ok i -> duration_ok d -> is_u64 (secs_since_epoch i + du_secs d + 1) ->
  instant_ok (instant_add i d) /\ elapsed i (instant_add i d) = Ret d.
Proof.
  intros [Hs Hn] [Hds Hdn] Hu. unfold is_u64 in *. unfold instant_add.
  rewrite (wrap32_small (nsecs_within i + du_nanos d)) by (unfold is_u32; lia).
  rewrite (wrap64_small (secs_since_epoch i + du_secs d)) by (unfold is_u64; lia).
  set (n := nsecs_within i + du_nanos d).
  pose proof (Z.div_mod n 1000000000 ltac:(lia)) as Hd. pose proof (Z.mod_pos_bound n 1000000000 ltac:(lia)) as Hm.
  assert (n / 1000000000 = 0 \/ n / 1000000000 = 1) as Hq by (unfold n in *; lia).
  rewrite (wrap64_small (secs_since_epoch i + du_secs d + n / 1000000000)) by (unfold is_u64; lia).
  split; [split; unfold is_u64; simpl; lia|]. unfold elapsed. cbn [nsecs_within secs_since_epoch].
  destruct d as [ds dn]; simpl in *. unfold duration_new. zcases; try (f_equal; f_equal).
  all: rewrite ?(wrap64_small (_ - _)), ?(wrap32_small (_ - _)) by (unfold is_u64, is_u32; lia); try lia.
  all: unfold n in *; rewrite ?(wrap32_small (_ - _)) in * by (unfold is_u32; lia); lia.
Qed.

(** ** The heap *)

Lemma heap_pop_perm h g rest : heap_pop h = Some (g, rest) -> h ≡ₚ g :: rest.
Proof.
  revert g rest. induction h as [|x h IH]; intros g rest; simpl; [done|].
  destruct (heap_pop h) as [[m r]|] eqn:E.
  - specialize (IH m r eq_refl). zcase; intros [= <- <-]; [done|]. rewrite IH. apply Permutation_swap.
  - intros [= <- <-]. destruct h as [|y h]; [done|]. simpl in E. destruct (heap_pop h) as [[]|]; [zcase_in E|]; done.
Qed.

Lemma heap_pop_min h g rest : heap_pop h = Some (g, rest) -> forall x, x ∈ h -> wakeup_tick g <= wakeup_tick x.
Proof.
  revert g rest. induction h as [|x h IH]; intros g rest; simpl; [done|].
  destruct (heap_pop h) as [[m r]|] eqn:E.
  - specialize (IH m r eq_refl). zcase; intros [= <- <-] y [->|Hy]%elem_of_cons; try lia.
    + specialize (IH y Hy). lia.
    + by apply IH.
  - intros [= <- <-] y [->|Hy]%elem_of_cons; [lia|]. destruct h as [|z h]; [by apply elem_of_nil in Hy|].
    simpl in E. destruct (heap_pop h) as [[]|]; [zcase_in E|]; done.
Qed.

Lemma heap_pop_None h : heap_pop h = None -> h = [].
Proof. destruct h as [|x h]; [done|]. simpl. destruct (heap_pop h) as [[]|]; [zcase|]; done. Qed.

(** The groups after an insertion: the waker is in the one of its tick, and every
    other one is as before. *)
Lemma heap_insert_ticks tick w h :
  wakeup_tick <$> heap_insert tick w h
  = if decide (tick ∈ wakeup_tick <$> h) then wakeup_tick <$> h else (wakeup_tick <$> h) ++ [tick].
Proof.
  induction h as [|g h IH]; [done|]. simpl. zcase.
  - subst. rewrite decide_True by set_solver. done.
  - csimpl. rewrite IH. destruct (decide (tick ∈ wakeup_tick <$> h)).
    + rewrite decide_True by set_solver. done.
    + rewrite decide_False by set_solver. done.
Qed.

Lemma heap_insert_elem tick w h x :
  x ∈ heap_insert tick w h ->
  x ∈ h \/ wakeup_tick x = tick /\ forall v, v ∈ sl_wakers x -> v = w \/ exists y, y ∈ h /\ wakeup_tick y = tick /\ v ∈ sl_wakers y.
Proof.
  induction h as [|g h IH]; simpl.
  - intros ->%list_elem_of_singleton. right. split; [done|]. intros v Hv. left. set_solver.
  - zcase.
    + intros [->|Hx]%elem_of_cons; [|set_solver]. right. split; [done|]. simpl. intros v [Hv|Hv]%elem_of_app; [right|left; set_solver].
      exists g. set_solver.
    + intros [->|Hx]%elem_of_cons; [set_solver|]. destruct (IH Hx) as [|[Ht Hv]]; [set_solver|]. right. split; [done|].
      intros v Hvx. destruct (Hv v Hvx) as [|(y & ? & ?)]; [by left|]. right. exists y. set_solver.
Qed.

Lemma heap_insert_in tick w h : exists x, x ∈ heap_insert tick w h /\ wakeup_tick x = tick /\ w ∈ sl_wakers x.
Proof.
  induction h as [|g h (x & ? & ? & ?)]; simpl; [eexists; split; [by apply list_elem_of_singleton|set_solver]|].
  zcase; [eexists; split; [by left|]; split; [done|]; set_solver|]. exists x. set_solver.
Qed.

Lemma heap_insert_keep tick w h y :
  y ∈ h -> exists x, x ∈ heap_insert tick w h /\ wakeup_tick x = wakeup_tick y /\ sl_wakers y ⊆ sl_wakers x.
Proof.
  induction h as [|g h IH]; [by intros ?%elem_of_nil|]. simpl. intros [->|Hy]%elem_of_cons; zcase.
  - eexists. split; [by left|]. split; [done|]. set_solver.
  - exists g. set_solver.
  - exists y. set_solver.
  - destruct (IH Hy) as (x & ? & ?). exists x. set_solver.
Qed.

(** ** The invariant *)

Definition timer_locked (pc : TimerPc) : bool :=
  match pc with TmPop _ | TmWake _ _ | TmReload _ | TmStore | TmUnlock => true | _ => false end.
Definition sleep_locked (pc : SleepPc) : bool :=
  match pc with SlInsert | SlUpdate | SlUnlock => true | _ => false end.
(** The waker is in the heap since the poll began. *)
Definition inserted (pc : SleepPc) : bool :=
  match pc with SlUpdate | SlUnlock | SlPending => true | _ => false end.

(** The task will be woken: its waker is in the group of its tick, or the
    interrupt is about to call it. *)
Definition covered (s : Timer) (i : nat) (tick : Z) : Prop :=
  (exists g, g ∈ SLEEPERS_LIST s /\ wakeup_tick g = tick /\ i ∈ sl_wakers g)
  \/ exists wk ws, tm_pc s = TmWake wk ws /\ i ∈ ws.

Record timer_inv (s : Timer) : Prop := {
  ti_nodup : NoDup (wakeup_tick <$> SLEEPERS_LIST s);
  ti_group g i : g ∈ SLEEPERS_LIST s -> i ∈ sl_wakers g ->
    exists x, tm_sleeps s !! i = Some x /\ sl_tick x = wakeup_tick g;
  ti_low g i : g ∈ SLEEPERS_LIST s -> i ∈ sl_wakers g ->
    WAKEUP_TICK s <= wakeup_tick g \/ exists x, tm_sleeps s !! i = Some x /\ sl_pc x = SlUpdate;
  ti_cover i x : tm_sleeps s !! i = Some x -> sl_woken x = false -> inserted (sl_pc x) = true -> covered s i (sl_tick x);
  ti_timer : timer_locked (tm_pc s) = true <-> tm_owner s = Some OwnTimer;
  ti_sleep i x : tm_sleeps s !! i = Some x -> (sleep_locked (sl_pc x) = true <-> tm_owner s = Some (OwnSleep i));
  ti_owner i : tm_owner s = Some (OwnSleep i) -> (i < length (tm_sleeps s))%nat;
}.

Lemma timer_init_inv : timer_inv timer_init.
Proof. split; simpl; try done; try constructor; set_solver. Qed.

(** Two states with the same heap and sleeps, when no wake-up is under way. *)
Lemma timer_inv_pc s t o pc :
  timer_inv s -> (forall wk ws, tm_pc s = TmWake wk ws -> ws = []) ->
  (timer_locked pc = true <-> o = Some OwnTimer) ->
  (forall i, o = Some (OwnSleep i) <-> tm_owner s = Some (OwnSleep i)) ->
  timer_inv (mkTimer t (WAKEUP_TICK s) (SLEEPERS_LIST s) o pc (tm_sleeps s)).
Proof.
  intros [H1 H2 H3 H4 H5 H6 H7] Hpc Ho Hs. split; simpl; try done.
  - intros i x Hx Hw Hi. left. destruct (H4 i x Hx Hw Hi) as [?|(wk & ws & E & Hws)]; [done|].
    rewrite (Hpc _ _ E) in Hws. by apply elem_of_nil in Hws.
  - intros i x Hx. by rewrite (H6 i x Hx), Hs.
  - intros i Ho'. apply H7. by apply Hs.
Qed.

(** The interrupt calls a waker. *)
Lemma timer_wake_inv s wk v ws :
  timer_inv s -> tm_pc s = TmWake wk (v :: ws) ->
  timer_inv (set_pc (TmWake wk ws) (set_sleeps (wake_sleep v (tm_sleeps s)) s)).
Proof.
  intros [H1 H2 H3 H4 H5 H6 H7] Hpc. rewrite Hpc in H5.
  assert (forall i x', wake_sleep v (tm_sleeps s) !! i = Some x' ->
    exists x, tm_sleeps s !! i = Some x /\ sl_tick x' = sl_tick x /\ sl_pc x' = sl_pc x
      /\ (sl_woken x' = false -> sl_woken x = false /\ i <> v)) as Hback.
  { intros i x'. unfold wake_sleep. destruct (tm_sleeps s !! v) as [y|] eqn:Hv; [|intros Hx; exists x'; naive_solver].
    intros [(-> & <- & _)|[Hne Hx]]%list_lookup_insert_Some; [exists y; naive_solver|exists x'; naive_solver]. }
  assert (forall i x, tm_sleeps s !! i = Some x ->
    exists x', wake_sleep v (tm_sleeps s) !! i = Some x' /\ sl_tick x' = sl_tick x /\ sl_pc x' = sl_pc x) as Hforth.
  { intros i x Hx. unfold wake_sleep. destruct (tm_sleeps s !! v) as [y|] eqn:Hv; [|eauto].
    destruct (decide (v = i)) as [->|]; [|rewrite list_lookup_insert_ne by done; eauto].
    rewrite list_lookup_insert_eq by (by eapply lookup_lt_Some). simplify_eq. eauto. }
  split; simpl; try done.
  - intros g i Hg Hi. destruct (H2 g i Hg Hi) as (x & Hx & Ht). destruct (Hforth i x Hx) as (x' & ? & ? & ?). exists x'. split; congruence.
  - intros g i Hg Hi. destruct (H3 g i Hg Hi) as [?|(x & Hx & Ht)]; [by left|right].
    destruct (Hforth i x Hx) as (x' & ? & ? & ?). exists x'. split; congruence.
  - intros i x' Hx Hw Hi. destruct (Hback i x' Hx) as (x & Hx0 & Ht & Hp & Hw0). destruct (Hw0 Hw) as [Hwf Hne].
    rewrite Ht. destruct (H4 i x Hx0 Hwf ltac:(congruence)) as [?|(? & ? & E & Hi')]; [by left|].
    right. rewrite Hpc in E. simplify_eq. eexists _, _. split; [done|]. set_solver.
  - intros i x' Hx. destruct (Hback i x' Hx) as (x & Hx0 & Ht & -> & _). by apply H6.
  - intros i Ho. specialize (H7 i Ho). unfold wake_sleep. destruct (tm_sleeps s !! v); [by rewrite length_insert|done].
Qed.

(** The steps of the timer interrupt. *)
Lemma timer_step_inv s s' : timer_inv s -> timer_step s = Some s' -> timer_inv s'.
Proof.
  intros Hinv. unfold timer_step. destruct (tm_pc s) as [|cur|wk|wk|wk [|v ws]|wk| |] eqn:Hpc;
    pose proof (ti_timer s Hinv) as Ht; rewrite Hpc in Ht; simpl in Ht.
  - intros [= <-]. apply (timer_inv_pc s); [done|intros; congruence|done|done].
  - zcase; intros [= <-]; apply (timer_inv_pc s); try done; intros; congruence.
  - destruct (tm_owner s) eqn:Ho; [done|]. intros [= <-]. apply (timer_inv_pc s); [done|intros; congruence|done|]. intros i. rewrite Ho. done.
  - assert (tm_owner s = Some OwnTimer) as Ho by (by apply Ht).
    destruct (heap_pop (SLEEPERS_LIST s)) as [[g r]|] eqn:E; intros [= <-].
    + pose proof (heap_pop_perm _ _ _ E) as Hp. destruct Hinv as [H1 H2 H3 H4 H5 H6 H7].
      assert (forall y, y ∈ r -> y ∈ SLEEPERS_LIST s) as Hr by (intros y ?; rewrite Hp; set_solver).
      split; simpl; try done; eauto.
      * rewrite Hp in H1. by apply NoDup_cons in H1 as [_ ?].
      * intros i x Hx Hw Hi. destruct (H4 i x Hx Hw Hi) as [(g' & Hg & Hgt & Hiw)|(? & ? & ? & ?)]; [|congruence].
        rewrite Hp in Hg. apply elem_of_cons in Hg as [->|Hg]; [right; by eexists _, _|left; eauto].
    + apply (timer_inv_pc s); [done|intros; congruence|done|done].
  - intros [= <-]. apply (timer_inv_pc s); [done|intros; congruence|done|done].
  - intros [= <-]. by apply timer_wake_inv.
  - zcase; intros [= <-]; apply (timer_inv_pc s); try done; intros; congruence.
  - intros [= <-]. apply (timer_inv_pc s (TICKS s) (tm_owner s) TmUnlock) in Hinv as Hinv'; [|intros; congruence|done|done].
    destruct Hinv' as [H1 H2 H3 H4 H5 H6 H7]. split; simpl; try done. intros g i Hg Hi. left.
    unfold heap_peek. destruct (heap_pop (SLEEPERS_LIST s)) as [[m r]|] eqn:E; simpl.
    + by eapply heap_pop_min.
    + apply heap_pop_None in E. rewrite E in Hg. by apply elem_of_nil in Hg.
  - intros [= <-]. assert (tm_owner s = Some OwnTimer) as Ho by (by apply Ht). apply (timer_inv_pc s); [done|intros; congruence|done|]. intros i. rewrite Ho. done.
Qed.

(** The sleep [i] moves to another place with the same heap. *)
Lemma sleep_goto_inv s i x pc b o :
  timer_inv s -> tm_sleeps s !! i = Some x -> sl_pc x <> SlUpdate ->
  (inserted pc = true -> b = false -> inserted (sl_pc x) = true /\ sl_woken x = false) ->
  (sleep_locked pc = true <-> o = Some (OwnSleep i)) ->
  (o = Some OwnTimer <-> tm_owner s = Some OwnTimer) ->
  (forall j, j <> i -> o = Some (OwnSleep j) <-> tm_owner s = Some (OwnSleep j)) ->
  timer_inv (mkTimer (TICKS s) (WAKEUP_TICK s) (SLEEPERS_LIST s) o (tm_pc s) (<[i := mkSleep (sl_tick x) pc b]> (tm_sleeps s))).
Proof.
  intros [H1 H2 H3 H4 H5 H6 H7] Hx Hup Hins Hlk Ht Ho. pose proof (lookup_lt_Some _ _ _ Hx) as Hlt. split; simpl; try done.
  - intros g j Hg Hj. destruct (H2 g j Hg Hj) as (y & Hy & ?). destruct (decide (i = j)) as [->|].
    + rewrite list_lookup_insert_eq by done. eexists. split; [done|]. by simplify_eq.
    + rewrite list_lookup_insert_ne by done. eauto.
  - intros g j Hg Hj. destruct (H3 g j Hg Hj) as [?|(y & Hy & Hp)]; [by left|right]. exists y. split; [|done].
    rewrite list_lookup_insert_ne; [done|]. intros ->. congruence.
  - intros j y [(-> & <- & _)|[Hne Hy]]%list_lookup_insert_Some; [|by apply H4]. simpl. intros Hb Hi.
    destruct (Hins Hi Hb). by apply (H4 j x).
  - by rewrite H5, Ht.
  - intros j y [(-> & <- & _)|[Hne Hy]]%list_lookup_insert_Some; [done|]. by rewrite (H6 j y Hy), Ho.
  - intros j Hj. rewrite length_insert. destruct (decide (j = i)) as [->|]; [done|]. apply H7. by apply Ho.
Qed.

(** The waker goes into its group. *)
Lemma sleep_insert_inv s i x :
  timer_inv s -> tm_sleeps s !! i = Some x -> sl_pc x = SlInsert ->
  timer_inv (set_sleeps (<[i := mkSleep (sl_tick x) SlUpdate (sl_woken x)]> (tm_sleeps s)) (set_heap (heap_insert (sl_tick x) i (SLEEPERS_LIST s)) s)).
Proof.
  intros Hinv Hx Hpc. pose proof (ti_sleep s Hinv i x Hx) as Hlk. pose proof (lookup_lt_Some _ _ _ Hx) as Hlt. rewrite Hpc in Hlk. simpl in Hlk. destruct Hinv as [H1 H2 H3 H4 H5 H6 H7]. split; simpl.
  - rewrite heap_insert_ticks. case_decide as Hin; [done|]. apply NoDup_app. split; [done|]. split; [set_solver|apply NoDup_singleton].
  - intros g j Hg Hj. assert (exists y, tm_sleeps s !! j = Some y /\ sl_tick y = wakeup_tick g) as (y & Hy & Hyt).
    { destruct (heap_insert_elem _ _ _ _ Hg) as [Hg0|[Ht Hv]]; [by apply H2|].
      destruct (Hv j Hj) as [->|(y & Hy & Hyt & Hjy)]; [exists x; naive_solver|]. rewrite Ht, <- Hyt. by apply (H2 y). }
    destruct (decide (i = j)) as [->|]; [|rewrite list_lookup_insert_ne by done; eauto].
    rewrite list_lookup_insert_eq by done. eexists. split; [done|]. by simplify_eq.
  - intros g j Hg Hj. destruct (decide (i = j)) as [->|Hne].
    { right. rewrite list_lookup_insert_eq by done. eauto. }
    rewrite list_lookup_insert_ne by done.
    destruct (heap_insert_elem _ _ _ _ Hg) as [Hg0|[Ht Hv]]; [by apply H3|].
    destruct (Hv j Hj) as [->|(y & Hy & Hyt & Hjy)]; [done|]. rewrite Ht, <- Hyt. by apply H3.
  - intros j y Hy Hw Hi. left. apply list_lookup_insert_Some in Hy as [(-> & <- & _)|[Hne Hy]].
    { apply heap_insert_in. }
    assert (tm_owner s = Some (OwnSleep i)) as Ho by (by apply Hlk).
    destruct (H4 j y Hy Hw Hi) as [(g & Hg & Hgt & Hjg)|(wk & ws & E & _)].
    + destruct (heap_insert_keep (sl_tick x) i _ _ Hg) as (g' & ? & ? & ?). exists g'. split; [done|]. split; [congruence|set_solver].
    + rewrite E in H5. simpl in H5. assert (tm_owner s = Some OwnTimer) by (by apply H5). congruence.
  - done.
  - intros j y [(-> & <- & _)|[Hne Hy]]%list_lookup_insert_Some; [done|]. by apply H6.
  - intros j Hj. rewrite length_insert. by apply H7.
Qed.

(** [WAKEUP_TICK] is lowered. *)
Lemma sleep_update_inv s i x :
  timer_inv s -> tm_sleeps s !! i = Some x -> sl_pc x = SlUpdate ->
  timer_inv (set_sleeps (<[i := mkSleep (sl_tick x) SlUnlock (sl_woken x)]> (tm_sleeps s))
               (if sl_tick x <? WAKEUP_TICK s then set_wakeup (sl_tick x) s else s)).
Proof.
  intros Hinv Hx Hpc. pose proof (ti_sleep s Hinv i x Hx) as Hlk. pose proof (lookup_lt_Some _ _ _ Hx) as Hlt. rewrite Hpc in Hlk. simpl in Hlk. destruct Hinv as [H1 H2 H3 H4 H5 H6 H7].
  set (w := if sl_tick x <? WAKEUP_TICK s then sl_tick x else WAKEUP_TICK s).
  assert (w <= WAKEUP_TICK s /\ w <= sl_tick x) as [Hw1 Hw2] by (unfold w; zcase; lia).
  replace (if sl_tick x <? WAKEUP_TICK s then set_wakeup (sl_tick x) s else s) with (set_wakeup w s).
  2:{ unfold w. destruct s; zcase; done. }
  split; simpl; try done.
  - intros g j Hg Hj. destruct (H2 g j Hg Hj) as (y & Hy & ?). destruct (decide (i = j)) as [->|].
    + rewrite list_lookup_insert_eq by done. eexists. split; [done|]. by simplify_eq.
    + rewrite list_lookup_insert_ne by done. eauto.
  - intros g j Hg Hj. destruct (decide (i = j)) as [->|Hne].
    { destruct (H2 g j Hg Hj) as (y & Hy & ?). simplify_eq. left. lia. }
    rewrite list_lookup_insert_ne by done. destruct (H3 g j Hg Hj); [left; lia|by right].
  - intros j y [(-> & <- & _)|[Hne Hy]]%list_lookup_insert_Some; [|by apply H4]. simpl. intros Hb _. apply (H4 j x); [done|done|by rewrite Hpc].
  - intros j y [(-> & <- & _)|[Hne Hy]]%list_lookup_insert_Some; [done|]. by apply H6.
  - intros j Hj. rewrite length_insert. by apply H7.
Qed.

(** The steps of a poll. *)
Lemma sleep_step_inv s i s' : timer_inv s -> sleep_step i s = Some s' -> timer_inv s'.
Proof.
  intros Hinv. unfold sleep_step. destruct (tm_sleeps s !! i) as [x|] eqn:Hx; [|done]. simpl.
  pose proof (ti_sleep s Hinv i x Hx) as Hlk. pose proof (lookup_lt_Some _ _ _ Hx) as Hlt. destruct (sl_pc x) eqn:Hpc; simpl in Hlk.
  - intros [= <-]. apply (sleep_goto_inv s); try done. congruence.
  - intros [= <-]. apply (sleep_goto_inv s); try done; [congruence|zcase; done|zcase; done].
  - destruct (tm_owner s) eqn:Ho; [done|]. intros [= <-]. apply (sleep_goto_inv s); try done; [congruence|by rewrite Ho|].
    intros j Hj. rewrite Ho. split; [|done]. intros [= ->]. done.
  - intros [= <-]. by apply sleep_insert_inv.
  - intros [= <-]. replace (tm_sleeps (if sl_tick x <? WAKEUP_TICK s then set_wakeup (sl_tick x) s else s)) with (tm_sleeps s) by (zcase; done).
    by apply sleep_update_inv.
  - intros [= <-]. assert (tm_owner s = Some (OwnSleep i)) as Ho by (by apply Hlk).
    apply (sleep_goto_inv s); try done; [congruence| |by rewrite Ho|]; [by rewrite Hpc|]. intros j Hj. rewrite Ho. split; [done|]. intros [= ->]. done.
  - done.
Qed.

Lemma timer_next_inv s a s' : timer_inv s -> timer_next a s = Some s' -> timer_inv s'.
Proof.
  destruct a as [d|i|]; simpl; [|apply sleep_step_inv|apply timer_step_inv].
  intros [H1 H2 H3 H4 H5 H6 H7] [= <-]. split; simpl; try done.
  - intros g i Hg Hi. destruct (H2 g i Hg Hi) as (x & Hx & ?). exists x. split; [by apply lookup_app_l_Some|done].
  - intros g i Hg Hi. destruct (H3 g i Hg Hi) as [?|(x & Hx & ?)]; [by left|right]. exists x. split; [by apply lookup_app_l_Some|done].
  - intros i x [[_ Hx]|[-> <-]]%lookup_snoc_Some; [by apply H4|done].
  - intros i x [[_ Hx]|[-> <-]]%lookup_snoc_Some; [by apply H6|]. simpl. split; [done|]. intros Ho. specialize (H7 _ Ho). lia.
  - intros i Ho. specialize (H7 i Ho). rewrite length_app. lia.
Qed.

Lemma timer_run_inv s l s' : timer_run s l s' -> timer_inv s -> timer_inv s'.
Proof. induction 1; eauto using timer_next_inv. Qed.

Lemma timer_reachable_inv s : timer_reachable s -> timer_inv s.
Proof. intros [l Hl]. eapply timer_run_inv; [done|apply timer_init_inv]. Qed.

(** ** Every sleeper is woken *)

(** The task has gone to sleep until [tick] and was not woken since. *)
Definition waits (s : Timer) (i : nat) (tick : Z) : Prop := tm_sleeps s !! i = Some (mkSleep tick SlPending false).

Definition about_to_insert (pc : SleepPc) : bool := match pc with SlLock | SlInsert => true | _ => false end.

(** How many groups can be taken off the heap before the one of [tick]: those
    with an earlier tick, and those that a poll under way may still add. *)
Definition earlier_groups (s : Timer) (tick : Z) : nat :=
  length (List.filter (fun g => wakeup_tick g <? tick) (SLEEPERS_LIST s)).
Definition earlier_polls (s : Timer) (tick : Z) : nat :=
  length (List.filter (fun x => about_to_insert (sl_pc x) && (sl_tick x <? tick)) (tm_sleeps s)).

(** The step that ends an interrupt. *)
Definition returns (a : TimerAct) (s : Timer) : bool :=
  match a, tm_pc s with
  | TaTimer, TmUnlock => true
  | TaTimer, TmLoad current_tick => current_tick <? WAKEUP_TICK s
  | _, _ => false
  end.

(** A run in which [i] waits for [tick] all the time and [n] interrupts end. *)
Inductive waiting_run (i : nat) (tick : Z) : Timer -> nat -> Timer -> Prop :=
| waiting_nil s : waits s i tick -> waiting_run i tick s 0 s
| waiting_cons s a s' n s'' :
    waits s i tick -> timer_next a s = Some s' -> waiting_run i tick s' n s'' ->
    waiting_run i tick s (Nat.b2n (returns a s) + n) s''.

(** The interrupt has taken its group, which is not the one of [i]. *)
Definition popped_other (s : Timer) (i : nat) : nat :=
  match tm_pc s with
  | TmWake _ ws => if bool_decide (i ∈ ws) then 0 else 1
  | TmReload _ | TmStore | TmUnlock => 1
  | _ => 0
  end.

Lemma filter_insert_b {A} (f : A -> bool) (l : list A) i x y :
  l !! i = Some x ->
  (length (List.filter f (<[i := y]> l)) + Nat.b2n (f x) = length (List.filter f l) + Nat.b2n (f y))%nat.
Proof.
  revert i. induction l as [|z l IH]; intros [|i] Hi; simplify_eq/=.
  - destruct (f x), (f y); simpl; lia.
  - specialize (IH i Hi). destruct (f z); simpl; lia.
Qed.

Lemma filter_length_perm {A} (f : A -> bool) (l k : list A) :
  l ≡ₚ k -> length (List.filter f l) = length (List.filter f k).
Proof. induction 1; simpl; repeat case_match; simpl; lia. Qed.

Lemma heap_insert_earlier t w h tick :
  (length (List.filter (fun g => (wakeup_tick g <? tick)%Z) (heap_insert t w h))
   <= length (List.filter (fun g => (wakeup_tick g <? tick)%Z) h) + Nat.b2n (t <? tick)%Z)%nat.
Proof.
  induction h as [|g h IH]; simpl; [destruct (t <? tick); simpl; lia|]. destruct (Z.eqb_spec (wakeup_tick g) t) as [<-|]; simpl.
  - destruct (wakeup_tick g <? tick); simpl; lia.
  - destruct (wakeup_tick g <? tick); simpl; lia.
Qed.

(** The group of a waiting task is in the heap unless the interrupt is calling
    its wakers, and [WAKEUP_TICK] is not later. *)
Lemma waits_in_heap s i tick :
  timer_inv s -> waits s i tick -> (forall wk ws, tm_pc s = TmWake wk ws -> i ∉ ws) ->
  WAKEUP_TICK s <= tick /\ exists g, g ∈ SLEEPERS_LIST s /\ wakeup_tick g = tick /\ i ∈ sl_wakers g.
Proof.
  intros Hinv Hw Hpc. destruct (ti_cover s Hinv i _ Hw) as [(g & Hg & Ht & Hi)|(wk & ws & E & Hi)]; [done|done| |by destruct (Hpc wk ws)].
  split; [|eauto]. simpl in Ht. destruct (ti_low s Hinv g i Hg Hi) as [?|(x & Hx & Hp)]; [lia|].
  unfold waits in Hw. rewrite Hw in Hx. simplify_eq.
Qed.

(** What can still be taken before the group of [i], and what is being taken. *)
Definition before (s : Timer) (i : nat) (tick : Z) : nat :=
  earlier_groups s tick + earlier_polls s tick + popped_other s i.

(** A poll does not add to it once [tick] has come. *)
Lemma poll_before s j s' i tick :
  tick <= TICKS s -> sleep_step j s = Some s' ->
  (before s' i tick <= before s i tick)%nat /\ TICKS s' = TICKS s /\ tm_pc s' = tm_pc s.
Proof.
  intros Ht. unfold sleep_step. destruct (tm_sleeps s !! j) as [x|] eqn:Hx; [|done]. simpl. unfold before, earlier_groups, earlier_polls.
  pose proof (fun y => filter_insert_b (fun x => about_to_insert (sl_pc x) && (sl_tick x <? tick)) _ j x y Hx) as HF. cbv beta in HF.
  destruct (sl_pc x) eqn:Hpc; simpl in HF; repeat match goal with |- context [match tm_owner s with _ => _ end] => destruct (tm_owner s) end; try done; intros [= <-]; simpl.
  all: repeat split; try (destruct (sl_tick x <? WAKEUP_TICK s)%Z; done).
  - specialize (HF (mkSleep (sl_tick x) SlCheck false)). simpl in HF. unfold popped_other. simpl. lia.
  - specialize (HF (mkSleep (sl_tick x) (if sl_tick x <=? TICKS s then SlReady else SlLock) (sl_woken x))). simpl in HF.
    unfold popped_other. simpl. destruct (Z.leb_spec (sl_tick x) (TICKS s)); simpl in HF; [lia|].
    destruct (Z.ltb_spec (sl_tick x) tick); [lia|]. simpl in HF. lia.
  - specialize (HF (mkSleep (sl_tick x) SlInsert (sl_woken x))). simpl in HF. unfold popped_other. simpl. lia.
  - specialize (HF (mkSleep (sl_tick x) SlUpdate (sl_woken x))). simpl in HF. unfold popped_other. simpl.
    pose proof (heap_insert_earlier (sl_tick x) j (SLEEPERS_LIST s) tick). lia.
  - specialize (HF (mkSleep (sl_tick x) SlUnlock (sl_woken x))). simpl in HF. unfold popped_other.
    destruct (sl_tick x <? WAKEUP_TICK s); simpl; lia.
  - specialize (HF (mkSleep (sl_tick x) SlPending (sl_woken x))). simpl in HF. unfold popped_other. simpl. lia.
Qed.

Lemma wake_sleep_polls v l tick :
  length (List.filter (fun x => about_to_insert (sl_pc x) && (sl_tick x <? tick)) (wake_sleep v l))
  = length (List.filter (fun x => about_to_insert (sl_pc x) && (sl_tick x <? tick)) l).
Proof.
  unfold wake_sleep. destruct (l !! v) as [x|] eqn:Hx; [|done].
  pose proof (filter_insert_b (fun x => about_to_insert (sl_pc x) && (sl_tick x <? tick)) l v x (mkSleep (sl_tick x) (sl_pc x) true) Hx) as HF.
  simpl in HF. lia.
Qed.

Definition idle (s : Timer) : Z := match tm_pc s with TmIdle => 1 | _ => 0 end.
Definition late (s : Timer) (tick : Z) : Prop := match tm_pc s with TmLoad cur => tick <= cur | _ => True end.

(** The interrupt takes the group of [i] or an earlier one. *)
Lemma pop_before s wk g r i tick :
  timer_inv s -> waits s i tick -> tm_pc s = TmPop wk -> heap_pop (SLEEPERS_LIST s) = Some (g, r) ->
  (before (set_pc (TmWake wk (sl_wakers g)) (set_heap r s)) i tick <= before s i tick)%nat.
Proof.
  intros Hinv Hw Hpc E. destruct (waits_in_heap s i tick Hinv Hw) as (_ & g' & Hg' & Ht & Hi); [intros; congruence|].
  pose proof (heap_pop_perm _ _ _ E) as Hp. pose proof (heap_pop_min _ _ _ E g' Hg') as Hmin.
  unfold before, earlier_groups, earlier_polls, popped_other. rewrite Hpc. simpl.
  rewrite (filter_length_perm _ _ _ Hp). simpl. destruct (Z.ltb_spec (wakeup_tick g) tick) as [Hlt|Hge]; simpl.
  - case_bool_decide; lia.
  - rewrite bool_decide_eq_true_2; [lia|]. assert (g' = g) as ->; [|done].
    pose proof (ti_nodup s Hinv) as Hnd. rewrite Hp in Hnd, Hg'. apply elem_of_cons in Hg' as [|Hg']; [done|exfalso].
    apply NoDup_cons in Hnd as [Hnin _]. apply Hnin. apply list_elem_of_fmap. exists g'. split; [lia|done].
Qed.

(** A step of the interrupt: an end of it has been paid for. *)
Lemma timer_before s s' i tick :
  timer_inv s -> waits s i tick -> waits s' i tick -> late s tick -> timer_step s = Some s' ->
  (Nat.b2n (returns TaTimer s) + before s' i tick <= before s i tick)%nat.
Proof.
  intros Hinv Hw Hw' Hl. unfold timer_step, late in *. destruct (tm_pc s) as [|cur|wk|wk|wk [|v ws]|wk| |] eqn:Hpc.
  1, 5, 8, 9: intros [= <-]; unfold returns, before, popped_other; rewrite Hpc; simpl; unfold earlier_groups, earlier_polls; simpl; lia.
  - destruct (waits_in_heap s i tick Hinv Hw) as (Hlow & _); [intros; congruence|].
    zcase; [|lia]. intros [= <-]. unfold returns, before, popped_other. rewrite Hpc. simpl. unfold earlier_groups, earlier_polls. simpl.
    destruct (Z.ltb_spec cur (WAKEUP_TICK s)); simpl; lia.
  - destruct (tm_owner s); [done|]. intros [= <-]. unfold returns, before, popped_other. rewrite Hpc. simpl. unfold earlier_groups, earlier_polls. simpl. lia.
  - destruct (heap_pop (SLEEPERS_LIST s)) as [[g r]|] eqn:E.
    + intros [= <-]. pose proof (pop_before s wk g r i tick Hinv Hw Hpc E). unfold returns. rewrite Hpc. simpl. lia.
    + apply heap_pop_None in E. destruct (waits_in_heap s i tick Hinv Hw) as (_ & g & Hg & _); [intros; congruence|].
      rewrite E in Hg. by apply elem_of_nil in Hg.
  - intros [= <-]. unfold returns, before, popped_other, earlier_groups, earlier_polls. rewrite Hpc. simpl. rewrite wake_sleep_polls.
    assert (i <> v) as Hne. { intros ->. unfold waits in *. simpl in Hw'. unfold wake_sleep in Hw'. rewrite Hw in Hw'.
      rewrite list_lookup_insert_eq in Hw' by (by eapply lookup_lt_Some). done. }
    case_bool_decide as H1; case_bool_decide as H2; try lia; exfalso; set_solver.
  - zcase; intros [= <-]; unfold returns, before, popped_other; rewrite Hpc; simpl; unfold earlier_groups, earlier_polls; simpl; lia.
Qed.

(** The tick counter along a step of the interrupt. *)
Lemma timer_ticks s s' tick n :
  late s tick -> tick <= TICKS s -> 0 <= TICKS s -> TICKS s + idle s + Z.of_nat n < 2 ^ 64 -> timer_step s = Some s' ->
  late s' tick /\ tick <= TICKS s' /\ 0 <= TICKS s' /\ TICKS s' + idle s' + Z.of_nat n <= TICKS s + idle s + Z.of_nat (Nat.b2n (returns TaTimer s) + n).
Proof.
  intros Hl Ht H0 Hn. unfold timer_step, late, idle, returns in *. destruct (tm_pc s) as [|cur|wk|wk|wk [|v ws]|wk| |] eqn:Hpc; simpl in *.
  1: intros [= <-]; simpl; rewrite wrap64_small by (unfold is_u64; lia); lia.
  all: repeat case_match; intros; simplify_eq/=; repeat split; try lia.
  destruct (Z.leb_spec (WAKEUP_TICK s) cur); [done|]. destruct (Z.ltb_spec cur (WAKEUP_TICK s)); simpl; lia.
Qed.

Lemma waiting_bound i tick s n s' :
  waiting_run i tick s n s' -> timer_inv s -> late s tick -> tick <= TICKS s -> 0 <= TICKS s -> TICKS s + idle s + Z.of_nat n < 2 ^ 64 ->
  (n <= before s i tick)%nat.
Proof.
  induction 1 as [s Hw|s a s' n s'' Hw Ha Hrun IH]; intros Hinv Hl Ht H0 Hn; [lia|].
  pose proof (timer_next_inv _ _ _ Hinv Ha) as Hinv'.
  assert (waits s' i tick) as Hw' by (by destruct Hrun). destruct a as [d|j|].
  - simpl in Ha. simplify_eq. simpl in *. specialize (IH Hinv' Hl Ht H0 Hn). unfold before, earlier_groups, earlier_polls, popped_other in *. simpl in *.
    rewrite list_filter_app_b in IH. simpl in IH. rewrite app_nil_r in IH. lia.
  - simpl in Ha. destruct (poll_before s j s' i tick Ht Ha) as (Hb & HT & HP). simpl.
    assert (late s' tick /\ idle s' = idle s) as [Hl' Hi'] by (unfold late, idle in *; by rewrite HP).
    specialize (IH Hinv' Hl'). rewrite HT, Hi' in IH. simpl in Hn. specialize (IH Ht H0 Hn). lia.
  - simpl in Ha. pose proof (timer_before s s' i tick Hinv Hw Hw' Hl Ha) as Hb.
    destruct (timer_ticks s s' tick n Hl Ht H0 ltac:(lia) Ha) as (Hl' & Ht' & H0' & Hn'). specialize (IH Hinv' Hl' Ht' H0' ltac:(lia)). lia.
Qed.

(** The owner of the lock can go on, so an interrupt or a poll that waits for it
    does not wait for ever. *)
Lemma timer_lock_released s :
  timer_inv s -> (exists s', timer_step s = Some s')
  \/ exists j s', tm_owner s = Some (OwnSleep j) /\ sleep_step j s = Some s'.
Proof.
  intros Hinv. unfold timer_step. destruct (tm_pc s) as [|cur|wk|wk|wk [|v ws]|wk| |] eqn:Hpc; try (left; repeat case_match; by eexists).
  destruct (tm_owner s) as [[|j]|] eqn:Ho; [|right|by left; eexists].
  - apply (ti_timer s Hinv) in Ho. by rewrite Hpc in Ho.
  - destruct (lookup_lt_is_Some_2 _ _ (ti_owner s Hinv j Ho)) as [x Hx]. pose proof (proj2 (ti_sleep s Hinv j x Hx) Ho) as Hl.
    exists j. unfold sleep_step. rewrite Hx. simpl. destruct (sl_pc x); simpl in Hl; try done; eauto.
Qed.

(** C7: no sleeper is forgotten.  In every interleaving of sleeping tasks with the
    timer interrupt, once the tick of a waiting task has come, it is woken before
    one more interrupt has ended than there are groups with an earlier tick, those
    that a poll under way may add included; and an interrupt that waits for the
    lock waits for a poll that can go on. *)
Theorem sleepers_woken s i tick n s' :
  timer_reachable s -> tm_pc s = TmIdle -> 0 <= TICKS s -> tick <= TICKS s -> TICKS s + Z.of_nat n + 1 < 2 ^ 64 ->
  waiting_run i tick s n s' ->
  (n <= earlier_groups s tick + earlier_polls s tick)%nat
  /\ ((exists s'', timer_step s' = Some s'') \/ exists j s'', tm_owner s' = Some (OwnSleep j) /\ sleep_step j s' = Some s'').
Proof.
  intros Hr Hpc H0 Ht Hn Hrun. pose proof (timer_reachable_inv s Hr) as Hinv. split.
  - pose proof (waiting_bound i tick s n s' Hrun Hinv) as HB. unfold late, idle, before, popped_other in HB. rewrite Hpc in HB.
    specialize (HB I Ht H0 ltac:(lia)). lia.
  - apply timer_lock_released. clear -Hinv Hrun. induction Hrun; eauto using timer_next_inv.
Qed.

Fixpoint timer_exec (l : list TimerAct) (s : Timer) : option Timer :=
  match l with [] => Some s | a :: l => timer_next a s ≫= timer_exec l end.

Lemma timer_exec_run l s s' : timer_exec l s = Some s' -> timer_run s l s'.
Proof.
  revert s. induction l as [|a l IH]; intros s; simpl; [intros [= ->]; constructor|].
  destruct (timer_next a s) as [s1|] eqn:E; [|done]. simpl. intros H. econstructor; eauto.
Qed.

(** Two tasks that sleep for one and two ticks are overtaken by two interrupts
    between their check and the lock; the second one waits one interrupt longer. *)
Definition demo_acts : list TimerAct :=
  [TaSleep (mkDuration 0 1000000); TaSleep (mkDuration 0 2000000); TaPoll 0; TaPoll 1;
   TaTimer; TaTimer; TaTimer; TaTimer;
   TaPoll 0; TaPoll 0; TaPoll 0; TaPoll 0; TaPoll 1; TaPoll 1; TaPoll 1; TaPoll 1].
Definition demo_timer : Timer := default timer_init (timer_exec demo_acts timer_init).

(** The run of [l] from [s] when [i] waits all along, with the number of
    interrupts that end in it. *)
Fixpoint waiting_exec (i : nat) (tick : Z) (l : list TimerAct) (s : Timer) : option nat :=
  match tm_sleeps s !! i with
  | Some (mkSleep t SlPending false) =>
      if t =? tick then
        match l with
        | [] => Some 0%nat
        | a :: l => s' ← timer_next a s; n ← waiting_exec i tick l s'; Some (Nat.b2n (returns a s) + n)%nat
        end
      else None
  | _ => None
  end.

Lemma waiting_exec_run i tick l s n : waiting_exec i tick l s = Some n -> exists s', waiting_run i tick s n s'.
Proof.
  revert s n. induction l as [|a l IH]; intros s n; simpl.
  all: destruct (tm_sleeps s !! i) as [[t [] []]|] eqn:Hi; try done; destruct (Z.eqb_spec t tick) as [->|]; try done.
  - intros [= <-]. exists s. by constructor.
  - destruct (timer_next a s) as [s1|] eqn:Ha; [|done]. simpl. destruct (waiting_exec i tick l s1) as [k|] eqn:Hk; [|done].
    intros [= <-]. destruct (IH s1 k Hk) as [s' Hs']. exists s'. by econstructor.
Qed.

Lemma sleepers_woken_witness :
  exists s', waiting_run 1 2 demo_timer 1 s' /\ (1 <= earlier_groups demo_timer 2 + earlier_polls demo_timer 2)%nat.
Proof.
  assert (exists s', waiting_run 1 2 demo_timer 1 s') as [s' Hs'].
  { apply (waiting_exec_run 1 2 (replicate 9 TaTimer)). vm_compute. reflexivity. }
  exists s'. split; [exact Hs'|]. apply (sleepers_woken demo_timer 1 2 1 s').
  - exists demo_acts. apply timer_exec_run. vm_compute. reflexivity.
  - vm_compute. reflexivity.
  - vm_compute. discriminate.
  - vm_compute. discriminate.
  - vm_compute. reflexivity.
  - exact Hs'.
Defined.

(** ** What does not sleep as long as asked *)

(** A sleep of less than a tick ends at once, since the part of a tick that has
    passed and the rest of the duration are both cut off. *)
Lemma short_sleep_returns now nanos :
  is_u64 now -> 0 <= nanos < 1000000 -> sleep_tick now (mkDuration 0 nanos) <= now.
Proof.
  intros Hn Hs. unfold sleep_tick, as_millis. simpl. rewrite (Z.div_small nanos) by lia.
  rewrite Z.add_0_r, (wrap64_small now) by done. lia.
Qed.

(** A sleep of 584 million years ends within half a second. *)
Lemma long_sleep_wraps : sleep_tick 0 (mkDuration 18446744073709552 0) = 384.
Proof. reflexivity. Qed.
