(* ===== verification/IntrusiveList.v ===== *)
(** * Intrusive lists

    Models crates/intrusive_list/src/lib.rs: doubly linked lists whose links are
    embedded in the elements.  The memory of all links is a map from addresses
    to links, and every operation is the sequence of pointer assignments of the
    source.  [seg] says which sequence of addresses a list head stands for; the
    theorems show that the pointer operations are the operations on sequences
    and leave all other lists alone, which is what the allocators rely on. *)

From S2P Require Import Prelude.

(** ** The links *)

Record Link := mkLink { lk_prev : option Z; lk_next : option Z }.

Definition link_new : Link := mkLink None None.

Notation LinkMem := (gmap Z Link).

Definition lk (m : LinkMem) (p : Z) : Link := default link_new (m !! p).

Definition set_prev (m : LinkMem) (p : Z) (v : option Z) : LinkMem := <[p := mkLink v (lk_next (lk m p))]> m.
Definition set_next (m : LinkMem) (p : Z) (v : option Z) : LinkMem := <[p := mkLink (lk_prev (lk m p)) v]> m.

(** [Link::insert]: [node] goes right after [self]. *)
Definition link_insert (m : LinkMem) (self node : Z) : LinkMem :=
  let m := match lk_next (lk m self) with Some next => set_prev m next (Some node) | None => m end in
  let m := set_next m node (lk_next (lk m self)) in
  let m := set_prev m node (Some self) in
  set_next m self (Some node).

(** [Link::remove]. *)
Definition link_remove (m : LinkMem) (self : Z) : LinkMem :=
  let m := match lk_next (lk m self) with Some next => set_prev m next (lk_prev (lk m self)) | None => m end in
  let m := match lk_prev (lk m self) with Some prev => set_next m prev (lk_next (lk m self)) | None => m end in
  let m := set_prev m self None in
  set_next m self None.

Definition link_next_of (m : LinkMem) (self : Z) : option Z := lk_next (lk m self).

(** ** [List]: the address of the head link and the number of elements *)

Record IList := mkIList { il_head : Z; il_count : Z }.

Definition ilist_insert (m : LinkMem) (l : IList) (node : Z) : LinkMem * IList :=
  (link_insert m (il_head l) node, mkIList (il_head l) (wrap64 (il_count l + 1))).

Definition ilist_remove (m : LinkMem) (l : IList) (node : Z) : LinkMem * IList :=
  (link_remove m node, mkIList (il_head l) (wrap64 (il_count l - 1))).

Definition ilist_pop (m : LinkMem) (l : IList) : option Z * LinkMem * IList :=
  match link_next_of m (il_head l) with
  | None => (None, m, l)
  | Some node => (Some node, link_remove m node, mkIList (il_head l) (wrap64 (il_count l - 1)))
  end.

Definition ilist_is_empty (l : IList) : bool := il_count l =? 0.

(** ** The sequence a list stands for *)

Fixpoint seg (m : LinkMem) (p : Z) (l : list Z) : Prop :=
  match l with
  | [] => lk_next (lk m p) = None
  | x :: l' => lk_next (lk m p) = Some x /\ lk_prev (lk m x) = Some p /\ seg m x l'
  end.

Definition list_repr (m : LinkMem) (il : IList) (l : list Z) : Prop :=
  NoDup (il_head il :: l) /\ seg m (il_head il) l /\ il_count il = Z.of_nat (length l).

(** ** Reading after writing *)

Lemma lk_set_prev m p v q : lk (set_prev m p v) q = if decide (q = p) then mkLink v (lk_next (lk m p)) else lk m q.
Proof.
  unfold set_prev, lk. destruct (decide (q = p)) as [->|]; [by rewrite lookup_insert_eq|].
  by rewrite lookup_insert_ne by done.
Qed.

Lemma lk_set_next m p v q : lk (set_next m p v) q = if decide (q = p) then mkLink (lk_prev (lk m p)) v else lk m q.
Proof.
  unfold set_next, lk. destruct (decide (q = p)) as [->|]; [by rewrite lookup_insert_eq|].
  by rewrite lookup_insert_ne by done.
Qed.

Ltac lk_simpl := repeat (rewrite lk_set_prev || rewrite lk_set_next); repeat case_decide; simplify_eq/=; try done.

(** The four pointers that an insertion writes. *)
Lemma link_insert_next m h n q :
  h <> n -> lk_next (lk m h) <> Some n ->
  lk_next (lk (link_insert m h n) q) = if decide (q = h) then Some n else if decide (q = n) then lk_next (lk m h) else lk_next (lk m q).
Proof.
  intros Hne Hnn. unfold link_insert. destruct (lk_next (lk m h)) as [nx|] eqn:E; lk_simpl.
Qed.

Lemma link_insert_prev m h n q :
  h <> n -> lk_next (lk m h) <> Some n -> lk_next (lk m h) <> Some h ->
  lk_prev (lk (link_insert m h n) q) =
    if decide (q = n) then Some h else if decide (lk_next (lk m h) = Some q) then Some n else lk_prev (lk m q).
Proof.
  intros Hne Hnn Hnh. unfold link_insert. destruct (lk_next (lk m h)) as [nx|] eqn:E; lk_simpl.
Qed.

Lemma link_remove_lk m x q :
  lk_prev (lk m x) <> Some x -> lk_next (lk m x) <> Some x ->
  lk (link_remove m x) q =
    if decide (q = x) then link_new
    else mkLink (if decide (lk_next (lk m x) = Some q) then lk_prev (lk m x) else lk_prev (lk m q))
                (if decide (lk_prev (lk m x) = Some q) then lk_next (lk m x) else lk_next (lk m q)).
Proof.
  intros Hp Hn. unfold link_remove.
  set (m1 := match lk_next (lk m x) with Some next => _ | None => _ end).
  assert (forall q, lk m1 q =
    if decide (lk_next (lk m x) = Some q) then mkLink (lk_prev (lk m x)) (lk_next (lk m q)) else lk m q) as H1.
  { intros q'. unfold m1. destruct (lk_next (lk m x)); lk_simpl. }
  assert (lk m1 x = lk m x) as Hx by (rewrite H1; by rewrite decide_False).
  cbv zeta. rewrite Hx. clearbody m1.
  set (m2 := match lk_prev (lk m x) with Some prev => _ | None => _ end).
  assert (forall q, lk m2 q =
    if decide (lk_prev (lk m x) = Some q) then mkLink (lk_prev (lk m1 q)) (lk_next (lk m x)) else lk m1 q) as H2.
  { intros q'. unfold m2. destruct (lk_prev (lk m x)); lk_simpl. }
  clearbody m2. rewrite lk_set_next, !lk_set_prev.
  destruct (decide (q = x)) as [->|Hq]; [by rewrite decide_True|].
  rewrite H2, H1. repeat case_decide; simpl; try done; by destruct (lk m q).
Qed.

(** ** The operations on sequences *)

Lemma seg_frame m m' p l :
  (forall q, q ∈ p :: l -> lk_next (lk m' q) = lk_next (lk m q)) ->
  (forall q, q ∈ l -> lk_prev (lk m' q) = lk_prev (lk m q)) -> seg m p l -> seg m' p l.
Proof.
  revert p. induction l as [|x l IH]; intros p Hn Hp; simpl.
  - rewrite Hn by set_solver. done.
  - intros (? & ? & ?). rewrite Hn, Hp by set_solver. split_and!; try done. apply IH; [| |done]; set_solver.
Qed.

Lemma default_last_cons {A} (p y : A) l : default p (last (y :: l)) = default y (last l).
Proof. rewrite last_cons. by destruct (last l). Qed.

(** The links around an element. *)
Lemma seg_middle m p l1 x l2 :
  seg m p (l1 ++ x :: l2) ->
  lk_prev (lk m x) = Some (default p (last l1)) /\ lk_next (lk m x) = head l2.
Proof.
  revert p. induction l1 as [|y l1 IH]; intros p; simpl.
  - intros (_ & ? & Hs). split; [done|]. destruct l2; simpl in *; [done|tauto].
  - intros (_ & _ & Hs). destruct (IH y Hs) as [-> ->]. split; [|done]. by rewrite default_last_cons.
Qed.

Lemma last_in {A} (p : A) l : default p (last l) ∈ p :: l.
Proof. induction l as [|x l IH] using rev_ind; [set_solver|]. rewrite last_snoc. set_solver. Qed.

Lemma head_in {A} (l : list A) x : head l = Some x -> x ∈ l.
Proof. destruct l; simpl; [done|]. intros [= ->]. set_solver. Qed.

Lemma link_insert_seg m h l n :
  NoDup (h :: l) -> n ∉ h :: l -> seg m h l -> seg (link_insert m h n) h (n :: l).
Proof.
  intros Hnd Hn Hs. assert (lk_next (lk m h) = head l) as Hh by (destruct l; simpl in *; [done|tauto]).
  assert (h <> n) by set_solver.
  assert (lk_next (lk m h) <> Some n) as Hnn by (rewrite Hh; intros ?%head_in; set_solver).
  assert (lk_next (lk m h) <> Some h) as Hnh.
  { rewrite Hh. intros ?%head_in. apply NoDup_cons in Hnd as [? _]. done. }
  simpl. rewrite link_insert_next, link_insert_prev by done. rewrite !decide_True by done.
  split; [done|]. split; [done|]. destruct l as [|x l]; simpl in *.
  - rewrite link_insert_next by done. rewrite decide_False, decide_True by done. done.
  - rewrite link_insert_next, link_insert_prev by done. rewrite Hh.
    rewrite (decide_False (P := n = h)), (decide_True (P := n = n)) by done.
    rewrite (decide_False (P := x = n)) by set_solver. rewrite decide_True by done.
    split; [done|]. split; [done|]. destruct Hs as (_ & _ & Hs).
    apply NoDup_cons in Hnd as [Hhl Hnd]. apply NoDup_cons in Hnd as [Hxl Hnd].
    eapply seg_frame; [| |exact Hs]; intros q Hq.
    + rewrite link_insert_next by done. rewrite !decide_False by set_solver. done.
    + rewrite link_insert_prev by done. rewrite Hh, !decide_False by set_solver. done.
Qed.

Lemma link_remove_seg m h l1 x l2 :
  NoDup (h :: l1 ++ x :: l2) -> seg m h (l1 ++ x :: l2) -> seg (link_remove m x) h (l1 ++ l2).
Proof.
  intros Hnd Hs. destruct (seg_middle m h l1 x l2 Hs) as [Hp Hn].
  assert (x ∉ h :: l1 ++ l2) as Hx.
  { rewrite app_comm_cons in Hnd |- *. apply NoDup_app in Hnd as (_ & Hd & Hnd). apply NoDup_cons in Hnd as [? _].
    rewrite elem_of_app. intros [Hin|Hin]; [|done]. by apply (Hd x Hin); set_solver. }
  assert (lk_prev (lk m x) <> Some x) as Hpx.
  { rewrite Hp. intros [= E]. pose proof (last_in h l1) as Hin. rewrite E in Hin. set_solver. }
  assert (lk_next (lk m x) <> Some x) as Hnx.
  { rewrite Hn. intros Hin%head_in. set_solver. }
  pose proof (fun q => link_remove_lk m x q Hpx Hnx) as Hlk. rewrite Hp, Hn in Hlk. clear Hpx Hnx Hp Hn.
  set (m' := link_remove m x) in *. clearbody m'. revert h Hnd Hs Hx Hlk.
  induction l1 as [|y l1 IH]; intros h Hnd Hs Hx Hlk; simpl in *.
  - destruct Hs as (_ & _ & Hs). apply NoDup_cons in Hnd as [Hh Hnd]. apply NoDup_cons in Hnd as [Hxl Hnd].
    destruct l2 as [|z l2]; simpl in *.
    + rewrite Hlk, decide_False by set_solver. by rewrite decide_True.
    + rewrite !Hlk. rewrite (decide_False (P := h = x)), (decide_False (P := z = x)) by set_solver. simpl.
      rewrite !decide_True by done. split; [done|]. split; [done|]. destruct Hs as (_ & _ & Hs).
      apply NoDup_cons in Hnd as [Hz Hnd].
      eapply seg_frame; [| |exact Hs]; intros q Hq; rewrite Hlk, decide_False by set_solver; simpl;
        rewrite decide_False; try done; intros [= ->]; set_solver.
  - destruct Hs as (H1 & H2 & Hs). apply NoDup_cons in Hnd as [Hh Hnd].
    assert (h <> default y (last l1)) as Hhl.
    { intros E. pose proof (last_in y l1) as Hin. rewrite <- E in Hin. set_solver. }
    assert (default h (last (y :: l1)) = default y (last l1)) as El by apply default_last_cons.
    rewrite El in Hlk. rewrite !Hlk.
    rewrite (decide_False (P := h = x)), (decide_False (P := y = x)) by set_solver. simpl.
    rewrite (decide_False (P := Some _ = Some h)) by congruence.
    rewrite (decide_False (P := head l2 = Some y)).
    2:{ intros Hin%head_in. apply NoDup_cons in Hnd as [? _]. set_solver. }
    split; [done|]. split; [done|]. apply IH; [done|done|set_solver|done].
Qed.

Lemma lk_cleared m x : lk (set_next (set_prev m x None) x None) x = link_new.
Proof. lk_simpl. Qed.

(** Lists that share no link. *)
Definition apart (il : IList) (l : list Z) (il' : IList) (l' : list Z) : Prop :=
  forall q, q ∈ il_head il :: l -> q ∉ il_head il' :: l'.

Lemma list_repr_frame m m' il l :
  (forall q, q ∈ il_head il :: l -> lk m' q = lk m q) -> list_repr m il l -> list_repr m' il l.
Proof.
  intros Hq (? & ? & ?). split_and!; try done.
  eapply seg_frame; [| |done]; intros q Hin; rewrite Hq by set_solver; done.
Qed.

Lemma link_insert_frame m h l n q :
  seg m h l -> q <> n -> q ∉ h :: l -> lk (link_insert m h n) q = lk m q.
Proof.
  intros Hs Hq Hql. assert (lk_next (lk m h) = head l) as Hh by (destruct l; simpl in *; [done|tauto]).
  unfold link_insert. rewrite Hh. destruct l as [|x l]; simpl; lk_simpl; set_solver.
Qed.

Lemma link_remove_frame m h l1 x l2 q :
  NoDup (h :: l1 ++ x :: l2) -> seg m h (l1 ++ x :: l2) -> q ∉ h :: l1 ++ x :: l2 -> lk (link_remove m x) q = lk m q.
Proof.
  intros Hnd Hs Hq. destruct (seg_middle m h l1 x l2 Hs) as [Hp Hn].
  assert (lk_next (lk m x) <> Some q) by (rewrite Hn; intros ?%head_in; set_solver).
  assert (lk_prev (lk m x) <> Some q).
  { rewrite Hp. intros [= E]. pose proof (last_in h l1) as Hin. rewrite E in Hin. set_solver. }
  assert (x <> q) by set_solver. unfold link_remove.
  destruct (lk_next (lk m x)) as [nx|] eqn:En; cbn zeta.
  - assert (lk_prev (lk (set_prev m nx (lk_prev (lk m x))) x) <> Some q) as Hp'.
    { rewrite lk_set_prev. by case_decide. }
    destruct (lk_prev (lk (set_prev m nx (lk_prev (lk m x))) x)); lk_simpl.
  - destruct (lk_prev (lk m x)); lk_simpl.
Qed.

(** C35: The pointer operations of the intrusive list are the operations on
    sequences: [insert] puts the node in front, [remove] takes out exactly the
    node wherever it is, [pop] takes the first one and reports an empty list as
    such; the counter stays the length, and a list that shares no link with
    this one is not touched. *)
Theorem ilist_refines m il l il' l' :
  list_repr m il l -> list_repr m il' l' -> apart il l il' l' -> Z.of_nat (length l) + 1 < 2 ^ 64 ->
  (forall n, n ∉ il_head il :: l -> n ∉ il_head il' :: l' ->
     let (m1, il1) := ilist_insert m il n in list_repr m1 il1 (n :: l) /\ list_repr m1 il' l') /\
  (forall l1 n l2, l = l1 ++ n :: l2 ->
     let (m1, il1) := ilist_remove m il n in
     list_repr m1 il1 (l1 ++ l2) /\ lk m1 n = link_new /\ list_repr m1 il' l') /\
  match ilist_pop m il with
  | (None, m1, il1) => l = [] /\ m1 = m /\ il1 = il
  | (Some n, m1, il1) => exists l2, l = n :: l2 /\ list_repr m1 il1 l2 /\ lk m1 n = link_new /\ list_repr m1 il' l'
  end.
Proof.
  intros (Hnd & Hs & Hc) Hr' Hap Hlen.
  assert (forall l1 n l2, l = l1 ++ n :: l2 -> list_repr (link_remove m n) (mkIList (il_head il) (wrap64 (il_count il - 1))) (l1 ++ l2) /\
    lk (link_remove m n) n = link_new /\ list_repr (link_remove m n) il' l') as Hrem.
  { intros l1 n l2 ->. split; [|split].
    - split; [|split]; simpl.
      + eapply sublist_NoDup; [exact Hnd|]. apply sublist_skip, sublist_app; [done|]. by apply sublist_cons.
      + by apply link_remove_seg.
      + rewrite Hc, !length_app, wrap64_small; simpl; [lia|]. unfold is_u64. rewrite length_app in *. simpl in *. lia.
    - apply lk_cleared.
    - eapply list_repr_frame; [|done]. intros q Hq. eapply link_remove_frame; [done..|].
      intros Hin. by apply (Hap q). }
  split; [|split].
  - intros n Hn Hn'. simpl. split.
    + split; [|split]; simpl; [|by apply link_insert_seg|].
      { apply NoDup_cons in Hnd as [? ?]. rewrite !NoDup_cons. set_solver. }
      rewrite Hc, wrap64_small; [lia|]. unfold is_u64. lia.
    + eapply list_repr_frame; [|done]. intros q Hq. eapply link_insert_frame; [done|set_solver|].
      intros Hin. by apply (Hap q).
  - intros l1 n l2 Hl. simpl. by apply Hrem.
  - unfold ilist_pop, link_next_of. destruct l as [|x l]; simpl in Hs.
    + by rewrite Hs.
    + destruct Hs as (-> & _). exists l. split; [done|]. by apply (Hrem [] x l).
Qed.

(** Two lists with heads 1 and 2; an element is put into the first. *)
Lemma ilist_refines_witness :
  let m := link_insert (link_insert (link_insert ∅ 1 10) 1 11) 2 20 in
  let '(o, m', il') := ilist_pop m (mkIList 1 2) in
  o = Some 11 /\ list_repr m' il' [10] /\ list_repr m' (mkIList 2 1) [20].
Proof.
  set (m := link_insert _ 2 20). cbv zeta.
  assert (list_repr m (mkIList 1 2) [11; 10]) as H1
    by (split; [by repeat (apply NoDup_cons; split; [set_solver|]); apply NoDup_nil|vm_compute; by split_and!]).
  assert (list_repr m (mkIList 2 1) [20]) as H2
    by (split; [by repeat (apply NoDup_cons; split; [set_solver|]); apply NoDup_nil|vm_compute; by split_and!]).
  pose proof (ilist_refines m (mkIList 1 2) [11; 10] (mkIList 2 1) [20] H1 H2
    ltac:(intros q; simpl; set_solver) ltac:(simpl; lia)) as (_ & _ & H).
  destruct (ilist_pop m (mkIList 1 2)) as [[[n|] m'] il']; [|by destruct H].
  destruct H as (l2 & [= <- <-] & ? & _ & ?). done.
Defined.
