(* ===== verification/Address.v ===== *)
(** * Addresses, page frame numbers and address ranges

    Models crates/dlutos_mm/src/address (addr.rs, addr_range.rs, paddr.rs,
    vaddr.rs), crates/dlutos_mm/src/paging/pfn.rs and src/kernel/mem/address.rs.

    An address ([VAddr], [PAddr]) and a frame number ([PFN]) are newtypes of
    [usize]: here a [Z], with the wrap-around of the additions and subtractions
    written out. *)

From S2P Require Import Prelude.

(** ** Page arithmetic: the trait [AddrOps] *)

Definition PAGE_SIZE : Z := 4096.
Definition PAGE_SIZE_BITS : Z := 12.

Definition addr_add (a n : Z) : Z := wrap64 (a + n).
Definition addr_sub (a n : Z) : Z := wrap64 (a - n).

(** Every call site passes a non-zero [size]; Rust panics on a zero one. *)
Definition offset_in (addr size : Z) : Z := addr mod size.
Definition is_aligned_to (addr size : Z) : bool := offset_in addr size =? 0.
Definition floor_to (addr size : Z) : Z := wrap64 (addr / size * size).
Definition ceil_to (addr size : Z) : Z := wrap64 (div_ceil addr size * size).

Definition page_offset (addr : Z) : Z := offset_in addr PAGE_SIZE.
Definition is_page_aligned (addr : Z) : bool := is_aligned_to addr PAGE_SIZE.
Definition floor (addr : Z) : Z := floor_to addr PAGE_SIZE.
Definition ceil (addr : Z) : Z := ceil_to addr PAGE_SIZE.

(** [impl From<PAddr> for PFN] and [impl From<PFN> for PAddr]. *)
Definition pfn_of_paddr (paddr : Z) : Z := Z.shiftr paddr PAGE_SIZE_BITS.
Definition paddr_of_pfn (pfn : Z) : Z := wrap64 (Z.shiftl pfn PAGE_SIZE_BITS).

(** ** [AddrRange<A>] *)

Record AddrRange := mkRange { start : Z; end_ : Z }.

#[export] Instance AddrRange_eq_dec : EqDecision AddrRange.
Proof. solve_decision. Defined.

(** [impl Ord for AddrRange].  The last test of the source is the only case
    left, so its [unreachable!()] has no counterpart. *)
Definition range_cmp (self other : AddrRange) : comparison :=
  if start self =? start other then Eq
  else if end_ self =? end_ other then
    if start self =? end_ self then Gt
    else if start other =? end_ other then Lt
    else Eq
  else if start self <? start other then
    if end_ other <? end_ self then Eq else Lt
  else
    if end_ self <? end_ other then Eq else Gt.

(** [impl PartialEq]: ranges are equal when [cmp] says so. *)
Definition range_eq (self other : AddrRange) : bool :=
  match range_cmp self other with Eq => true | _ => false end.

(** [impl From<A> for AddrRange<A>]. *)
Definition range_from (addr : Z) : AddrRange := mkRange addr addr.

Definition range_new (s e : Z) : outcome AddrRange :=
  if s <=? e then Ret (mkRange s e) else Panic.

Definition range_len (self : AddrRange) : Z := addr_sub (end_ self) (start self).

Definition shrink (self : AddrRange) (size : Z) : outcome AddrRange :=
  assert_ (size <=? range_len self);;
  range_new (start self) (addr_sub (end_ self) size).

Definition grow (self : AddrRange) (count : Z) : outcome AddrRange :=
  range_new (start self) (addr_add (end_ self) count).

(** The two (inclusive) bounds of [into_bounds]. *)
Definition into_bounds (self : AddrRange) : AddrRange * AddrRange :=
  if range_len self =? 0
  then (range_from (start self), range_from (start self))
  else (range_from (start self), range_from (addr_sub (end_ self) 1)).

Definition overlap_with (self other : AddrRange) : bool :=
  (start self <? end_ other) && (start other <? end_ self).

Definition split_at_checked (self : AddrRange) (at_ : Z)
  : outcome (option AddrRange * option AddrRange) :=
  if end_ self <=? at_ then Ret (Some self, None)
  else if at_ <=? start self then Ret (None, Some self)
  else l ← range_new (start self) at_;
       r ← range_new at_ (end_ self);
       Ret (Some l, Some r).

Definition split_at (self : AddrRange) (at_ : Z) : outcome (AddrRange * AddrRange) :=
  lr ← split_at_checked self at_;
  l ← expect lr.1;
  r ← expect lr.2;
  Ret (l, r).

Definition mask_with_checked (self mask : AddrRange)
  : outcome (option (option AddrRange * AddrRange * option AddrRange)) :=
  if (range_len mask =? 0) || negb (overlap_with self mask) then Ret None
  else
    lm ← (if (start self <? start mask) && (start mask <? end_ self)
          then '(l, r) ← split_at self (start mask); Ret (Some l, r)
          else Ret (None, self));
    mr ← (if end_ mask <? end_ self
          then '(l, r) ← split_at lm.2 (end_ mask); Ret (l, Some r)
          else Ret (lm.2, None));
    Ret (Some (lm.1, mr.1, mr.2)).

(** ** User and kernel halves: src/kernel/mem/address.rs *)

Definition USER_SPACE_MEMORY_TOP : Z := 0x800000000000.
Definition KERNEL_SPACE_MEMORY_BOTTOM : Z := 0xffff800000000000.

Definition vaddr_is_user (addr : Z) : bool := addr <? USER_SPACE_MEMORY_TOP.
Definition range_is_user (self : AddrRange) : bool :=
  negb ((USER_SPACE_MEMORY_TOP <? end_ self) || (USER_SPACE_MEMORY_TOP <=? start self)).
Definition range_is_kernel (self : AddrRange) : bool :=
  KERNEL_SPACE_MEMORY_BOTTOM <=? start self.

(** ** Well-formedness and the meaning of a range *)

(** A range that [range_new] can build. *)
Definition range_wf (r : AddrRange) : Prop :=
  0 <= start r /\ start r <= end_ r /\ end_ r < 2 ^ 64.

Definition range_nonempty (r : AddrRange) : Prop := range_wf r /\ start r < end_ r.

(** The addresses of a range, inclusive on the start and exclusive on the end. *)
Definition in_range (r : AddrRange) (a : Z) : Prop := start r <= a < end_ r.

Definition in_orange (o : option AddrRange) (a : Z) : Prop :=
  match o with Some r => in_range r a | None => False end.

Definition contains_range (r1 r2 : AddrRange) : Prop :=
  start r1 <= start r2 /\ end_ r2 <= end_ r1.

#[export] Instance in_range_dec r a : Decision (in_range r a).
Proof. unfold in_range. apply _. Defined.

Lemma range_len_wf r : range_wf r -> range_len r = end_ r - start r.
Proof.
  unfold range_wf, range_len, addr_sub. intros.
  apply wrap64_small. unfold is_u64. lia.
Qed.

Lemma PAGE_SIZE_eq : PAGE_SIZE = 4096. Proof. done. Qed.

(** A successful split cuts the range at the given point. *)
Lemma split_at_inside r p :
  range_wf r -> start r < p < end_ r ->
  split_at r p = Ret (mkRange (start r) p, mkRange p (end_ r)).
Proof.
  intros Hwf Hp. unfold split_at, split_at_checked, range_new.
  zcases; done.
Qed.

(** ** Page arithmetic *)

Lemma floor_to_spec a s :
  is_u64 a -> 0 < s < 2 ^ 64 ->
  floor_to a s <= a < floor_to a s + s /\ floor_to a s mod s = 0.
Proof.
  unfold floor_to, is_u64. intros Ha Hs.
  pose proof (Z.div_mod a s ltac:(lia)) as Hdm.
  pose proof (Z.mod_pos_bound a s ltac:(lia)).
  pose proof (Z.mod_le a s ltac:(lia) ltac:(lia)).
  rewrite wrap64_small by (unfold is_u64; lia).
  split; [lia|]. apply Z.mod_mul. lia.
Qed.

(** An aligned address is its own floor and ceiling. *)
Lemma floor_aligned a : is_u64 a -> a mod PAGE_SIZE = 0 -> floor a = a.
Proof.
  intros Ha Hm. unfold floor, floor_to, PAGE_SIZE, is_u64 in *.
  pose proof (Z.div_mod a 4096 ltac:(lia)).
  rewrite wrap64_small; unfold is_u64; lia.
Qed.

Lemma ceil_aligned a : is_u64 a -> a mod PAGE_SIZE = 0 -> ceil a = a.
Proof.
  intros Ha Hm. unfold ceil, ceil_to. rewrite div_ceil_exact by (done || lia).
  by apply wrap64_small.
Qed.

(** Away from the very top of the address space, [ceil] is the least page
    boundary not below the address. *)
Lemma ceil_spec a :
  0 <= a <= 2 ^ 64 - PAGE_SIZE ->
  a <= ceil a < a + PAGE_SIZE /\ ceil a mod PAGE_SIZE = 0.
Proof.
  unfold ceil, ceil_to, PAGE_SIZE. intros Ha.
  pose proof (div_ceil_spec a 4096 ltac:(lia) ltac:(lia)) as Hd.
  assert (div_ceil a 4096 * 4096 < 2 ^ 64) as Hlt.
  { assert (2 ^ 64 = 4503599627370496 * 4096) as -> by done.
    assert (a + 4096 <= 4503599627370496 * 4096) by lia. lia. }
  rewrite wrap64_small by (unfold is_u64; lia).
  split; [lia|]. apply Z.mod_mul. lia.
Qed.

Lemma floor_spec a :
  is_u64 a -> floor a <= a < floor a + PAGE_SIZE /\ floor a mod PAGE_SIZE = 0 /\ 0 <= floor a.
Proof.
  intros Ha. unfold floor.
  destruct (floor_to_spec a PAGE_SIZE Ha ltac:(unfold PAGE_SIZE; lia)) as [H1 H2].
  split; [exact H1|]. split; [exact H2|]. apply wrap64_range.
Qed.

#[export] Hint Resolve floor_aligned ceil_aligned : dlutos.

(** Converting a page-aligned physical address to a frame number and back. *)
Lemma pfn_paddr_roundtrip pfn :
  0 <= pfn < 2 ^ 52 -> pfn_of_paddr (paddr_of_pfn pfn) = pfn.
Proof.
  intros H. unfold pfn_of_paddr, paddr_of_pfn, PAGE_SIZE_BITS.
  rewrite Z.shiftl_mul_pow2 by lia. rewrite wrap64_small by (unfold is_u64; lia).
  rewrite Z.shiftr_div_pow2 by lia. apply Z.div_mul. lia.
Qed.

(** ** The order on ranges *)

(** Where a point lies with respect to a non-empty range. *)
Lemma range_cmp_point r a :
  range_nonempty r ->
  range_cmp r (range_from a) =
    if a <? start r then Gt else if a <? end_ r then Eq else Lt.
Proof.
  intros [Hwf Hne]. unfold range_cmp, range_from, range_wf in *. simpl.
  zcases; try lia; done.
Qed.

Lemma range_cmp_point_sym r a :
  range_nonempty r ->
  range_cmp (range_from a) r =
    if a <? start r then Lt else if a <? end_ r then Eq else Gt.
Proof.
  intros [Hwf Hne]. unfold range_cmp, range_from, range_wf in *. simpl.
  zcases; try lia; done.
Qed.

(** [cmp] of two disjoint non-empty ranges is their order in memory. *)
Lemma range_cmp_disjoint r1 r2 :
  range_nonempty r1 -> range_nonempty r2 -> end_ r1 <= start r2 ->
  range_cmp r1 r2 = Lt /\ range_cmp r2 r1 = Gt.
Proof.
  intros [? ?] [? ?] Hle. unfold range_cmp, range_wf in *.
  split; zcases; try lia; done.
Qed.

(** on non-empty ranges [cmp] is what the documentation of [AddrRange]
    says: equal exactly when one range contains the other, otherwise ordered
    by the start address; and the comparison with the reversed operands is the
    opposite one. *)
Theorem range_cmp_correct r1 r2 :
  range_nonempty r1 -> range_nonempty r2 ->
  (range_cmp r1 r2 = Eq <-> contains_range r1 r2 \/ contains_range r2 r1) /\
  (range_cmp r1 r2 = Lt <->
     ~ contains_range r1 r2 /\ ~ contains_range r2 r1 /\ start r1 < start r2) /\
  range_cmp r2 r1 = CompOpp (range_cmp r1 r2).
Proof.
  intros [? ?] [? ?]. unfold range_cmp, contains_range, range_wf in *.
  zcases; simpl; split_and!; try done; split; intros; try done; try lia;
    try (destruct_and?; lia).
Qed.

Lemma range_cmp_correct_witness :
  range_cmp (mkRange 0x1000 0x3000) (mkRange 0x2000 0x5000) = Lt /\
  range_nonempty (mkRange 0x1000 0x3000).
Proof.
  assert (range_nonempty (mkRange 0x1000 0x3000)) as H1
    by (unfold range_nonempty, range_wf; simpl; lia).
  assert (range_nonempty (mkRange 0x2000 0x5000)) as H2
    by (unfold range_nonempty, range_wf; simpl; lia).
  split; [|exact H1].
  apply (proj1 (proj2 (range_cmp_correct _ _ H1 H2))).
  unfold contains_range; simpl; lia.
Defined.

(** ** Masking *)

(** The shape of the result of [mask_with_checked] on an overlapping mask. *)
Lemma mask_with_checked_overlap r m :
  range_nonempty r -> range_nonempty m ->
  start r < end_ m -> start m < end_ r ->
  mask_with_checked r m =
    Ret (Some (if start r <? start m then Some (mkRange (start r) (start m)) else None,
               mkRange (Z.max (start r) (start m)) (Z.min (end_ r) (end_ m)),
               if end_ m <? end_ r then Some (mkRange (end_ m) (end_ r)) else None)).
Proof.
  intros [Hr ?] [Hm ?] H1 H2. unfold mask_with_checked.
  rewrite range_len_wf by done. unfold overlap_with.
  replace (end_ m - start m =? 0) with false by (symmetry; apply Z.eqb_neq; lia).
  replace (start r <? end_ m) with true by (symmetry; apply Z.ltb_lt; lia).
  replace (start m <? end_ r) with true by (symmetry; apply Z.ltb_lt; lia).
  simpl. rewrite andb_true_r. unfold range_wf in *.
  destruct (Z.ltb_spec (start r) (start m)); simpl.
  - rewrite split_at_inside by (unfold range_wf; lia). simpl.
    destruct (Z.ltb_spec (end_ m) (end_ r)); simpl.
    + rewrite split_at_inside by (unfold range_wf; simpl; lia). simpl.
      repeat f_equal; lia.
    + repeat f_equal; lia.
  - destruct (Z.ltb_spec (end_ m) (end_ r)); simpl.
    + rewrite split_at_inside by (unfold range_wf; simpl; lia). simpl.
      repeat f_equal; lia.
    + destruct r; simpl in *. repeat f_equal; lia.
Qed.

Lemma mask_with_checked_none r m :
  range_wf r -> range_wf m ->
  start m = end_ m \/ end_ m <= start r \/ end_ r <= start m ->
  mask_with_checked r m = Ret None.
Proof.
  intros Hr Hm H. unfold mask_with_checked. rewrite range_len_wf by done.
  unfold overlap_with. zcases; done || lia.
Qed.

(** [mask_with_checked] never panics on a non-empty range and a well-formed
    mask.  It answers [None] exactly when no address is shared; otherwise the
    middle part is the intersection and the left, middle and right parts
    partition the range, left below the mask and right above it. *)
Theorem mask_with_checked_correct r m :
  range_nonempty r -> range_wf m ->
  exists res, mask_with_checked r m = Ret res /\
    match res with
    | None => forall a, ~ (in_range r a /\ in_range m a)
    | Some (l, mid, rt) =>
        range_nonempty mid /\
        (forall a, in_range mid a <-> in_range r a /\ in_range m a) /\
        (forall a, in_orange l a <-> in_range r a /\ a < start m) /\
        (forall a, in_orange rt a <-> in_range r a /\ end_ m <= a) /\
        (forall lr, l = Some lr -> range_nonempty lr /\ start lr = start r /\ end_ lr = start mid) /\
        (forall rr, rt = Some rr -> range_nonempty rr /\ start rr = end_ mid /\ end_ rr = end_ r)
    end.
Proof.
  intros Hr Hm. pose proof Hr as [? ?].
  destruct (decide (start m < end_ m /\ start r < end_ m /\ start m < end_ r)) as [(?&?&?)|Hno].
  - eexists. split; [by apply mask_with_checked_overlap|].
    unfold range_nonempty, range_wf, in_range in *. simpl.
    split_and!; try lia; try (intros; zcases; unfold in_range; simpl; lia).
    + intros lr. zcases; intros; simplify_eq/=; lia.
    + intros rr. zcases; intros; simplify_eq/=; lia.
  - eexists. split.
    + apply mask_with_checked_none; try done. unfold range_wf in *. lia.
    + unfold in_range, range_wf in *. simpl. lia.
Qed.

Lemma mask_with_checked_correct_witness :
  exists res, mask_with_checked (mkRange 0x1000 0x8000) (mkRange 0x3000 0x5000) = Ret res /\
    res = Some (Some (mkRange 0x1000 0x3000), mkRange 0x3000 0x5000, Some (mkRange 0x5000 0x8000)).
Proof.
  destruct (mask_with_checked_correct (mkRange 0x1000 0x8000) (mkRange 0x3000 0x5000))
    as (res & Hres & _).
  - unfold range_nonempty, range_wf; simpl; lia.
  - unfold range_wf; simpl; lia.
  - exists res. split; [exact Hres|]. vm_compute in Hres. injection Hres as <-. reflexivity.
Defined.
