(* ===== verification/Buddy.v ===== *)
(** * The buddy allocator

    Models crates/buddy_allocator/src (free_area.rs, zone.rs, lib.rs) with the
    page descriptors of src/kernel/mem/page_alloc/raw_page.rs.

    The descriptors are a map from frame numbers to records (a frame without an
    entry has the all-zero descriptor).  A free list is the sequence of frame
    numbers its intrusive links stand for (IntrusiveList.v): [get_free_pages]
    pops the front, [add_pages] inserts at the front, [del_pages] removes the
    frame wherever it is.

    The specification is the set of free frames: allocation takes an aligned
    block out of it, freeing puts the block back, and no frame is ever in two
    free blocks. *)

From S2P Require Import Prelude Address.

(** ** Page descriptors *)

Definition RP_PRESENT : Z := Z.shiftl 1 0.
Definition RP_BUDDY : Z := Z.shiftl 1 2.
Definition RP_SLAB : Z := Z.shiftl 1 3.
Definition RP_DIRTY : Z := Z.shiftl 1 4.
Definition RP_FREE : Z := Z.shiftl 1 5.
Definition RP_LOCAL : Z := Z.shiftl 1 6.

Record RawPage := mkRaw { rp_order : Z; rp_flags : Z; rp_refcount : Z }.

(** [PageFlags::has], [set] and [clear]. *)
Definition flags_has (p : RawPage) (flag : Z) : bool := Z.land (rp_flags p) flag =? flag.
Definition flags_set (p : RawPage) (flag : Z) : RawPage :=
  mkRaw (rp_order p) (Z.lor (rp_flags p) flag) (rp_refcount p).
Definition flags_clear (p : RawPage) (flag : Z) : RawPage :=
  mkRaw (rp_order p) (Z.ldiff (rp_flags p) flag) (rp_refcount p).
Definition set_order (p : RawPage) (order : Z) : RawPage := mkRaw order (rp_flags p) (rp_refcount p).
Definition set_refcount (p : RawPage) (n : Z) : RawPage := mkRaw (rp_order p) (rp_flags p) n.

Definition is_present (p : RawPage) : bool := flags_has p RP_PRESENT.
Definition is_buddy (p : RawPage) : bool := flags_has p RP_BUDDY.
Definition is_free (p : RawPage) : bool := flags_has p RP_FREE.
Definition set_buddy (p : RawPage) : RawPage := flags_set p RP_BUDDY.
Definition set_free (p : RawPage) : RawPage := flags_set p RP_FREE.
Definition clear_buddy (p : RawPage) : RawPage := flags_clear p RP_BUDDY.
Definition clear_free (p : RawPage) : RawPage := flags_clear p RP_FREE.

(** ** Free areas and the zone *)

Definition MAX_ORDER : Z := 10.
Definition ZONE_AREAS : Z := MAX_ORDER + 1.

Record FreeArea := mkFree { fr_list : list Z; fr_count : Z }.

Record Zone := mkZone { zn_pages : gmap Z RawPage; zn_areas : list FreeArea }.

Definition zone_new (pages : gmap Z RawPage) : Zone := mkZone pages (replicate (Z.to_nat ZONE_AREAS) (mkFree [] 0)).

Definition page_of (z : Zone) (pfn : Z) : RawPage := default (mkRaw 0 0 0) (zn_pages z !! pfn).

(** Change one descriptor. *)
Definition upd_page (z : Zone) (pfn : Z) (f : RawPage -> RawPage) : Zone :=
  mkZone (<[pfn := f (page_of z pfn)]> (zn_pages z)) (zn_areas z).

(** [self.free_areas[order]]: the index is checked. *)
Definition area_at (z : Zone) (order : Z) : outcome FreeArea :=
  if order <? 0 then Panic else expect (zn_areas z !! Z.to_nat order).
Definition upd_area (z : Zone) (order : Z) (a : FreeArea) : Zone :=
  mkZone (zn_pages z) (<[Z.to_nat order := a]> (zn_areas z)).

Definition area_get_free_pages (z : Zone) (order : Z) : outcome (option Z * Zone) :=
  a ← area_at z order;
  match fr_list a with
  | [] => Ret (None, z)
  | pfn :: rest =>
      assert_ (negb (fr_count a =? 0));;
      Ret (Some pfn, upd_area z order (mkFree rest (wrap64 (fr_count a - 1))))
  end.

Definition add_pages (z : Zone) (order pfn : Z) : outcome Zone :=
  a ← area_at z order;
  Ret (upd_page (upd_area z order (mkFree (pfn :: fr_list a) (wrap64 (fr_count a + 1)))) pfn set_free).

Definition del_pages (z : Zone) (order pfn : Z) : outcome Zone :=
  a ← area_at z order;
  assert_ ((1 <=? fr_count a) && is_free (page_of z pfn));;
  Ret (upd_page (upd_area z order (mkFree (filter (fun q => q <> pfn) (fr_list a)) (wrap64 (fr_count a - 1))))
         pfn clear_free).

(** [expand]: [n] rounds are left, down from order [target_order + n]. *)
Fixpoint expand_loop (n : nat) (z : Zone) (pages_pfn offset target_order : Z) : outcome Zone :=
  match n with
  | O => Ret z
  | S n' =>
      let order := target_order + Z.of_nat n' in
      let offset := Z.shiftr offset 1 in
      let split := wrap64 (pages_pfn + offset) in
      let z := upd_page z split (fun p => set_buddy (set_order p order)) in
      z ← add_pages z order split;
      expand_loop n' z pages_pfn offset target_order
  end.

Definition expand (z : Zone) (pfn order target_order : Z) : outcome Zone :=
  expand_loop (Z.to_nat (order - target_order)) z pfn (Z.shiftl 1 order) target_order.

(** [Zone::get_free_pages]: the orders from [ZONE_AREAS - n] on are left. *)
Fixpoint get_free_loop (n : nat) (z : Zone) (order : Z) : outcome (option Z * Zone) :=
  match n with
  | O => Ret (None, z)
  | S n' =>
      let current_order := ZONE_AREAS - Z.of_nat n in
      '(o, z) ← area_get_free_pages z current_order;
      match o with
      | None => get_free_loop n' z order
      | Some pfn =>
          let z := upd_page z pfn (fun p => set_order p order) in
          z ← (if order <? current_order then expand z pfn current_order order else Ret z);
          assert_ (is_present (page_of z pfn));;
          assert_ (is_free (page_of z pfn));;
          Ret (Some pfn, z)
      end
  end.

Definition zone_get_free_pages (z : Zone) (order : Z) : outcome (option Z * Zone) :=
  get_free_loop (Z.to_nat (ZONE_AREAS - order)) z order.

Definition buddy_pfn (pfn order : Z) : Z := Z.lxor pfn (Z.shiftl 1 order).
Definition combined_pfn (pfn buddy : Z) : Z := Z.land pfn buddy.

Definition buddy_check (z : Zone) (pfn order : Z) : outcome bool :=
  let p := page_of z pfn in
  if negb (is_present p) then Ret false
  else if negb (is_free p) then Ret false
  else if negb (rp_order p =? order) then Ret false
  else assert_ (rp_refcount p =? 0);; Ret true.

(** The loop of [free_pages]; [n] is how far [current_order] is from the top. *)
Fixpoint free_loop (n : nat) (z : Zone) (pfn : Z) : outcome (Zone * Z * Z) :=
  let current_order := MAX_ORDER - Z.of_nat n in
  match n with
  | O => Ret (z, pfn, current_order)
  | S n' =>
      let buddy := buddy_pfn pfn current_order in
      ok ← buddy_check z buddy current_order;
      if ok : bool then
        let z := upd_page z pfn clear_buddy in
        let z := upd_page z buddy clear_buddy in
        z ← del_pages z current_order buddy;
        let pfn := combined_pfn pfn buddy in
        let z := upd_page z pfn set_buddy in
        free_loop n' z pfn
      else Ret (z, pfn, current_order)
  end.

Definition zone_free_pages (z : Zone) (pfn : Z) : outcome Zone :=
  let p := page_of z pfn in
  assert_ (rp_refcount p =? 0);;
  assert_ (is_present p);;
  assert_ (negb (is_free p));;
  '(z, pfn, order) ← (if rp_order p <? MAX_ORDER then free_loop (Z.to_nat (MAX_ORDER - rp_order p)) z pfn
                      else Ret (z, pfn, rp_order p));
  add_pages (upd_page z pfn (fun p => set_order p order)) order pfn.

(** The inner loop of [create_pages]: the largest order that fits. *)
Fixpoint fit_order (order : nat) (start_pfn end_pfn : Z) : outcome Z :=
  if end_pfn <? wrap64 (start_pfn + Z.shiftl 1 (Z.of_nat order)) then
    match order with
    | O => Panic   (** [order] would wrap around *)
    | S o => fit_order o start_pfn end_pfn
    end
  else Ret (Z.of_nat order).

(** Each round takes at least one page. *)
Fixpoint create_loop (fuel : nat) (z : Zone) (start_pfn end_pfn : Z) : outcome Zone :=
  if negb (start_pfn <? end_pfn) then Ret z
  else
    match fuel with
    | O => Panic
    | S n =>
        order ← fit_order (Z.to_nat (Z.min (trailing_zeros start_pfn) (ZONE_AREAS - 1))) start_pfn end_pfn;
        z ← add_pages (upd_page z start_pfn set_buddy) order start_pfn;
        create_loop n z (wrap64 (start_pfn + Z.shiftl 1 order)) end_pfn
    end.

Definition create_pages (z : Zone) (start_ end_ : Z) : outcome Zone :=
  let start_pfn := pfn_of_paddr (ceil start_) in
  let end_pfn := pfn_of_paddr (floor end_) in
  create_loop (Z.to_nat (end_pfn - start_pfn)) z start_pfn end_pfn.

(** ** [BuddyAllocator] *)

Definition buddy_alloc_order (z : Zone) (order : Z) : outcome (option Z * Zone) :=
  '(o, z) ← zone_get_free_pages z order;
  match o with
  | Some pfn =>
      Ret (Some pfn, upd_page z pfn (fun p => clear_free (set_refcount p (wrap64 (rp_refcount p + 1)))))
  | None => Ret (None, z)
  end.

Definition buddy_dealloc (z : Zone) (pfn : Z) : outcome Zone := zone_free_pages z pfn.

Definition buddy_has_management_over (z : Zone) (pfn : Z) : bool :=
  negb (is_free (page_of z pfn)) && is_buddy (page_of z pfn).

(** ** Flags *)

Lemma flags_has_bit p i : 0 <= i -> flags_has p (2 ^ i) = Z.testbit (rp_flags p) i.
Proof. apply bf_contains_testbit. Qed.

Lemma has_set p i j : 0 <= i -> 0 <= j -> flags_has (flags_set p (2 ^ j)) (2 ^ i) = flags_has p (2 ^ i) || (i =? j).
Proof.
  intros. rewrite !flags_has_bit by done. unfold flags_set. simpl.
  rewrite Z.lor_spec, Z.pow2_bits_eqb by done. by rewrite (Z.eqb_sym j i).
Qed.

Lemma has_clear p i j : 0 <= i -> 0 <= j -> flags_has (flags_clear p (2 ^ j)) (2 ^ i) = flags_has p (2 ^ i) && negb (i =? j).
Proof.
  intros. rewrite !flags_has_bit by done. unfold flags_clear. simpl.
  rewrite Z.ldiff_spec, Z.pow2_bits_eqb by done. by rewrite (Z.eqb_sym j i).
Qed.

Create Rewrite HintDb buddy_flags.

Ltac solve_flag :=
  intros; unfold is_free, is_buddy, is_present, set_free, set_buddy, clear_free, clear_buddy;
  change RP_PRESENT with (2 ^ 0); change RP_BUDDY with (2 ^ 2); change RP_FREE with (2 ^ 5);
  rewrite ?has_set, ?has_clear by lia; cbn [Z.eqb Pos.eqb negb]; by rewrite ?orb_true_r, ?orb_false_r, ?andb_true_r, ?andb_false_r.

Lemma is_free_set_free p : is_free (set_free p) = true.
Proof. solve_flag. Qed.
Lemma is_free_set_buddy p : is_free (set_buddy p) = is_free p.
Proof. solve_flag. Qed.
Lemma is_free_clear_free p : is_free (clear_free p) = false.
Proof. solve_flag. Qed.
Lemma is_free_clear_buddy p : is_free (clear_buddy p) = is_free p.
Proof. solve_flag. Qed.
Lemma is_buddy_set_free p : is_buddy (set_free p) = is_buddy p.
Proof. solve_flag. Qed.
Lemma is_buddy_set_buddy p : is_buddy (set_buddy p) = true.
Proof. solve_flag. Qed.
Lemma is_buddy_clear_free p : is_buddy (clear_free p) = is_buddy p.
Proof. solve_flag. Qed.
Lemma is_present_set_free p : is_present (set_free p) = is_present p.
Proof. solve_flag. Qed.
Lemma is_present_set_buddy p : is_present (set_buddy p) = is_present p.
Proof. solve_flag. Qed.
Lemma is_present_clear_free p : is_present (clear_free p) = is_present p.
Proof. solve_flag. Qed.
Lemma is_present_clear_buddy p : is_present (clear_buddy p) = is_present p.
Proof. solve_flag. Qed.

#[export] Hint Rewrite is_free_set_free is_free_set_buddy is_free_clear_free is_free_clear_buddy
  is_buddy_set_free is_buddy_set_buddy is_buddy_clear_free
  is_present_set_free is_present_set_buddy is_present_clear_free is_present_clear_buddy : buddy_flags.

(** ** Free blocks *)

Definition in_block (k p x : Z) : Prop := p <= x < p + 2 ^ k.

#[export] Instance in_block_dec k p x : Decision (in_block k p x).
Proof. unfold in_block. apply _. Defined.

(** [p] is in the free list of order [k]. *)
Definition fblock (z : Zone) (k p : Z) : Prop :=
  0 <= k <= MAX_ORDER /\ exists a, zn_areas z !! Z.to_nat k = Some a /\ p ∈ fr_list a.

(** The free frames. *)
Definition zfree (z : Zone) (x : Z) : Prop := exists k p, fblock z k p /\ in_block k p x.

(** The frames of an aligned block are there and nobody uses them. *)
Definition block_unused (z : Zone) (k p : Z) : Prop :=
  0 <= p /\ p mod 2 ^ k = 0 /\ p + 2 ^ k <= 2 ^ 52 /\
  forall x, in_block k p x -> is_present (page_of z x) = true /\ rp_refcount (page_of z x) = 0.

Definition head_ok (z : Zone) (k p : Z) : Prop :=
  is_free (page_of z p) = true /\ is_buddy (page_of z p) = true /\ 0 <= rp_order (page_of z p) <= k.

(** The zone is consistent, except that the frames in [h] may have a stale
    free flag. *)
Record zone_wf (h : Z -> Prop) (z : Zone) : Prop := {
  zw_len : length (zn_areas z) = Z.to_nat ZONE_AREAS;
  zw_area : forall i a, zn_areas z !! i = Some a -> NoDup (fr_list a) /\ fr_count a = Z.of_nat (length (fr_list a));
  zw_block : forall k p, fblock z k p -> block_unused z k p /\ head_ok z k p;
  zw_disj : forall k p k' p' x, fblock z k p -> fblock z k' p' -> in_block k p x -> in_block k' p' x -> k = k' /\ p = p';
  zw_free : forall p, is_free (page_of z p) = true -> h p \/ exists k, fblock z k p
}.

Definition no_hole : Z -> Prop := fun _ => False.

Lemma in_block_head k p : 0 <= k -> in_block k p p.
Proof. intros. unfold in_block. pose proof (Z.pow_pos_nonneg 2 k). lia. Qed.

Lemma page_of_upd z q f p : page_of (upd_page z q f) p = if decide (p = q) then f (page_of z q) else page_of z p.
Proof.
  unfold upd_page, page_of. simpl. destruct (decide (p = q)) as [->|]; [by rewrite lookup_insert_eq|].
  by rewrite lookup_insert_ne by done.
Qed.

Lemma page_of_upd_area z k a p : page_of (upd_area z k a) p = page_of z p.
Proof. done. Qed.

Lemma NoDup_below (l : list Z) n : NoDup l -> (forall x, x ∈ l -> 0 <= x < n) -> Z.of_nat (length l) <= Z.max 0 n.
Proof.
  intros Hnd Hl. assert (l ⊆+ seqZ 0 n) as Hs.
  { apply NoDup_submseteq; [done|]. intros x Hx. apply elem_of_seqZ. specialize (Hl x Hx). lia. }
  apply submseteq_length in Hs. rewrite length_seqZ in Hs. lia.
Qed.

Lemma area_at_ok h z k :
  zone_wf h z -> 0 <= k <= MAX_ORDER -> exists a, area_at z k = Ret a /\ zn_areas z !! Z.to_nat k = Some a.
Proof.
  intros Hwf Hk. unfold area_at. destruct (Z.ltb_spec k 0); [lia|].
  destruct (zn_areas z !! Z.to_nat k) as [a|] eqn:E; [by exists a|].
  apply lookup_ge_None in E. rewrite (zw_len _ _ Hwf) in E. unfold ZONE_AREAS, MAX_ORDER in *. lia.
Qed.

Lemma fblock_head_unique h z k k' p : zone_wf h z -> fblock z k p -> fblock z k' p -> k = k'.
Proof.
  intros Hwf H1 H2. destruct (zw_disj _ _ Hwf k p k' p p H1 H2) as [? _]; [..|done];
    apply in_block_head; [apply H1|apply H2].
Qed.

(** ** Changing the free lists *)

Lemma fblock_upd z z' k a' k' p :
  zn_areas z' = <[Z.to_nat k := a']> (zn_areas z) -> length (zn_areas z) = Z.to_nat ZONE_AREAS -> 0 <= k <= MAX_ORDER ->
  fblock z' k' p <-> (k' = k /\ p ∈ fr_list a') \/ (k' <> k /\ fblock z k' p).
Proof.
  intros Hz Hlen Hk. unfold fblock. rewrite Hz. destruct (decide (k' = k)) as [->|Hne].
  - rewrite list_lookup_insert_eq by (rewrite Hlen; unfold ZONE_AREAS, MAX_ORDER in *; lia). naive_solver.
  - split.
    + intros (? & a & Ha & Hp). rewrite list_lookup_insert_ne in Ha by lia. right. eauto.
    + intros [[? _]|(_ & ? & a & Ha & Hp)]; [done|]. split; [done|]. exists a.
      by rewrite list_lookup_insert_ne by lia.
Qed.

(** Taking a block off its list. *)
Lemma remove_block h h' z z' k b a :
  zone_wf h z -> fblock z k b -> zn_areas z !! Z.to_nat k = Some a ->
  zn_areas z' = <[Z.to_nat k := mkFree (filter (fun q => q <> b) (fr_list a)) (wrap64 (fr_count a - 1))]> (zn_areas z) ->
  (forall q, q <> b -> (exists k, fblock z k q) -> page_of z' q = page_of z q) ->
  (forall q, is_present (page_of z' q) = is_present (page_of z q) /\ rp_refcount (page_of z' q) = rp_refcount (page_of z q)) ->
  (forall q, is_free (page_of z' q) = true -> h' q \/ (q <> b /\ is_free (page_of z q) = true /\ ~ h q)) ->
  zone_wf h' z' /\ (forall k' p, fblock z' k' p <-> fblock z k' p /\ p <> b).
Proof.
  intros Hwf Hb Ha Hz Hpg Hpr Hfr. pose proof Hb as [Hk (a0 & Ha0 & Hba)]. simplify_eq.
  destruct (zw_area _ _ Hwf _ _ Ha) as [Hnd Hcnt].
  assert (forall k' p, fblock z' k' p <-> fblock z k' p /\ p <> b) as Hfb.
  { intros k' p. rewrite (fblock_upd z z' k _ k' p Hz (zw_len _ _ Hwf) Hk). simpl. rewrite list_elem_of_filter. split.
    - intros [(-> & Hne & Hin)|(Hne & Hf)]; [split; [|done]; split; [done|]; by exists a|]. split; [done|].
      intros ->. apply Hne. by eapply fblock_head_unique.
    - intros [Hf Hne]. destruct (decide (k' = k)) as [->|]; [left|by right]. destruct Hf as (_ & a' & Ha' & Hin).
      by simplify_eq. }
  split; [|done]. split.
  - rewrite Hz, length_insert. apply Hwf.
  - intros i a'. rewrite Hz, list_lookup_insert_Some. intros [(<- & <- & _)|(_ & Ha')]; [|by apply (zw_area _ _ Hwf i)].
    simpl. split; [by apply NoDup_filter|].
    assert (fr_list a ≡ₚ b :: filter (fun q => q <> b) (fr_list a)) as Hp.
    { apply NoDup_Permutation; [done|apply NoDup_cons; split; [rewrite list_elem_of_filter; naive_solver|by apply NoDup_filter]|].
      intros x. rewrite elem_of_cons, list_elem_of_filter. destruct (decide (x = b)); naive_solver. }
    apply Permutation_length in Hp. simpl in Hp. rewrite Hcnt, Hp.
    assert (Z.of_nat (length (fr_list a)) <= Z.max 0 (2 ^ 52)) as Hlt.
    { apply NoDup_below; [done|]. intros x Hx. assert (fblock z k x) as Hxb by (split; [done|]; by exists a).
      destruct (zw_block _ _ Hwf _ _ Hxb) as ((? & _ & ? & _) & _). pose proof (Z.pow_pos_nonneg 2 k). lia. }
    rewrite wrap64_small; [lia|]. unfold is_u64. lia.
  - intros k' p [Hf Hne]%Hfb. destruct (zw_block _ _ Hwf _ _ Hf) as ((? & ? & ? & Hx) & Hh). split.
    + split_and!; try done. intros x Hin. destruct (Hpr x) as [-> ->]. by apply Hx.
    + unfold head_ok. rewrite Hpg by eauto. done.
  - intros k1 p1 k2 p2 x [H1 _]%Hfb [H2 _]%Hfb. by apply (zw_disj _ _ Hwf).
  - intros p Hp. destruct (Hfr p Hp) as [?|(Hne & Hf & Hnh)]; [by left|].
    destruct (zw_free _ _ Hwf p Hf) as [?|[k' Hk']]; [done|]. right. exists k'. by apply Hfb.
Qed.

(** Changing a descriptor that heads no free block. *)
Lemma upd_page_wf h z q f :
  zone_wf h z -> (forall k, ~ fblock z k q) ->
  is_present (f (page_of z q)) = is_present (page_of z q) ->
  (is_free (f (page_of z q)) = true -> h q) ->
  (rp_refcount (f (page_of z q)) = rp_refcount (page_of z q) \/ ~ zfree z q) ->
  zone_wf h (upd_page z q f).
Proof.
  intros Hwf Hnb Hpr Hfr Href. split.
  - apply Hwf.
  - apply Hwf.
  - intros k p Hf. change (fblock z k p) in Hf. destruct (zw_block _ _ Hwf _ _ Hf) as ((? & ? & ? & Hx) & Hh). split.
    + split_and!; try done. intros x Hin. rewrite page_of_upd. destruct (decide (x = q)) as [->|]; [|by apply Hx].
      rewrite Hpr. destruct (Hx q Hin) as [? ?]. split; [done|]. destruct Href as [-> |Hnf]; [done|].
      exfalso. apply Hnf. by exists k, p.
    + unfold head_ok. rewrite page_of_upd, decide_False; [done|]. intros ->. by eapply Hnb.
  - apply Hwf.
  - intros p. rewrite page_of_upd. destruct (decide (p = q)) as [->|]; [|apply Hwf]. intros ?. left. auto.
Qed.

(** Putting an unused block on a list. *)
Lemma add_block h z k p :
  zone_wf h z -> 0 <= k <= MAX_ORDER -> block_unused z k p ->
  is_buddy (page_of z p) = true -> 0 <= rp_order (page_of z p) <= k ->
  (forall x, in_block k p x -> ~ zfree z x) ->
  exists z', add_pages z k p = Ret z' /\ zone_wf h z' /\
    (forall k' p', fblock z' k' p' <-> fblock z k' p' \/ (k' = k /\ p' = p)) /\
    (forall q, page_of z' q = if decide (q = p) then set_free (page_of z p) else page_of z q).
Proof.
  intros Hwf Hk Hun Hbud Hord Hdis. unfold add_pages.
  destruct (area_at_ok h z k Hwf Hk) as (a & -> & Ha). cbn [mbind outcome_bind]. eexists. split; [done|].
  set (z' := upd_page _ _ _).
  assert (forall q, page_of z' q = if decide (q = p) then set_free (page_of z p) else page_of z q) as Hpg
    by (intros q; unfold z'; rewrite page_of_upd; done).
  assert (forall k' p', fblock z' k' p' <-> fblock z k' p' \/ (k' = k /\ p' = p)) as Hfb.
  { intros k' p'. rewrite (fblock_upd z z' k (mkFree (p :: fr_list a) (wrap64 (fr_count a + 1))) k' p' eq_refl (zw_len _ _ Hwf) Hk).
    simpl. rewrite elem_of_cons. split.
    - intros [(-> & [->|Hin])|(_ & ?)]; [by right| |by left]. left. split; [done|]. by exists a.
    - intros [Hf|[-> ->]]; [|by left; split; [done|left]]. destruct (decide (k' = k)) as [->|]; [|by right].
      left. destruct Hf as (_ & a' & Ha' & Hin). simplify_eq. split; [done|by right]. }
  split; [|by split]. pose proof (in_block_head k p ltac:(lia)) as Hhd.
  assert (p ∉ fr_list a) as Hnin.
  { intros Hin. apply (Hdis p Hhd). exists k, p. split; [|done]. split; [done|]. by exists a. }
  destruct (zw_area _ _ Hwf _ _ Ha) as [Hnd Hcnt]. split.
  - unfold z'. simpl. rewrite length_insert. apply Hwf.
  - intros i a'. unfold z'. simpl. rewrite list_lookup_insert_Some.
    intros [(<- & <- & _)|(_ & Ha')]; [|by apply (zw_area _ _ Hwf i)].
    simpl. split; [by apply NoDup_cons|].
    assert (Z.of_nat (length (fr_list a)) <= Z.max 0 (2 ^ 52)) as Hlt.
    { apply NoDup_below; [done|]. intros x Hx. assert (fblock z k x) as Hxb by (split; [done|]; by exists a).
      destruct (zw_block _ _ Hwf _ _ Hxb) as ((? & _ & ? & _) & _). pose proof (Z.pow_pos_nonneg 2 k). lia. }
    rewrite Hcnt, wrap64_small; [lia|]. unfold is_u64. lia.
  - assert (forall k' p', block_unused z k' p' -> block_unused z' k' p') as Hunz.
    { intros k' p' (? & ? & ? & Hx). split_and!; try done. intros x Hin. rewrite Hpg.
      destruct (decide (x = p)) as [->|]; [|by apply Hx]. autorewrite with buddy_flags. by apply Hx. }
    intros k' p' [Hf|[-> ->]]%Hfb.
    + destruct (zw_block _ _ Hwf _ _ Hf) as (Hu & Hh). split; [by apply Hunz|].
      unfold head_ok. rewrite Hpg, decide_False; [done|]. intros ->. apply (Hdis p Hhd). exists k', p.
      split; [done|]. apply in_block_head. apply Hf.
    + split; [by apply Hunz|]. unfold head_ok. rewrite Hpg, decide_True by done. autorewrite with buddy_flags. done.
  - intros k1 p1 k2 p2 x [H1|[-> ->]]%Hfb [H2|[-> ->]]%Hfb Hi1 Hi2.
    + by apply (zw_disj _ _ Hwf _ _ _ _ x).
    + exfalso. apply (Hdis x Hi2). by exists k1, p1.
    + exfalso. apply (Hdis x Hi1). by exists k2, p2.
    + done.
  - intros q. rewrite Hpg. destruct (decide (q = p)) as [->|].
    + intros _. right. exists k. apply Hfb. by right.
    + intros [?|[k' ?]]%(zw_free _ _ Hwf); [by left|]. right. exists k'. apply Hfb. by left.
Qed.

Lemma zfree_remove h z z' k b x :
  zone_wf h z -> fblock z k b -> (forall k' p, fblock z' k' p <-> fblock z k' p /\ p <> b) ->
  zfree z' x <-> zfree z x /\ ~ in_block k b x.
Proof.
  intros Hwf Hb Hfb. split.
  - intros (k' & p & [Hf Hne]%Hfb & Hin). split; [by exists k', p|]. intros Hin'.
    destruct (zw_disj _ _ Hwf k' p k b x) as [_ ?]; done.
  - intros [(k' & p & Hf & Hin) Hnin]. exists k', p. split; [|done]. apply Hfb. split; [done|]. intros ->.
    apply Hnin. by replace k with k' by (by eapply fblock_head_unique).
Qed.

Lemma zfree_add z z' k p x :
  (forall k' p', fblock z' k' p' <-> fblock z k' p' \/ (k' = k /\ p' = p)) ->
  zfree z' x <-> zfree z x \/ in_block k p x.
Proof.
  intros Hfb. split.
  - intros (k' & p' & [Hf|[-> ->]]%Hfb & Hin); [left; by exists k', p'|by right].
  - intros [(k' & p' & Hf & Hin)|Hin]; [exists k', p'|exists k, p]; (split; [|done]); apply Hfb; auto.
Qed.

(** ** Allocation *)

Lemma pop_ok z k :
  zone_wf no_hole z -> 0 <= k <= MAX_ORDER ->
  exists o z1, area_get_free_pages z k = Ret (o, z1) /\
    match o with
    | None => z1 = z /\ forall p, ~ fblock z k p
    | Some p => fblock z k p /\ zone_wf (eq p) z1 /\ (forall k' q, fblock z1 k' q <-> fblock z k' q /\ q <> p) /\
        forall q, page_of z1 q = page_of z q
    end.
Proof.
  intros Hwf Hk. unfold area_get_free_pages. destruct (area_at_ok _ z k Hwf Hk) as (a & -> & Ha). cbn [mbind outcome_bind].
  destruct (zw_area _ _ Hwf _ _ Ha) as [Hnd Hcnt]. destruct (fr_list a) as [|p rest] eqn:El.
  - exists None, z. split; [done|]. split; [done|]. intros p (_ & a' & Ha' & Hin). simplify_eq.
    rewrite El in Hin. by apply elem_of_nil in Hin.
  - rewrite Hcnt. destruct (Z.eqb_spec (Z.of_nat (length (p :: rest))) 0); [simpl in *; lia|]. cbn [negb assert_ mbind outcome_bind].
    assert (fblock z k p) as Hf by (split; [done|]; exists a; rewrite El; split; [done|set_solver]).
    eexists (Some p), _. split; [done|]. split; [done|]. apply NoDup_cons in Hnd as [Hnin Hnd].
    assert (filter (fun q => q <> p) (p :: rest) = rest) as Hfil.
    { rewrite filter_cons_False by naive_solver. clear -Hnin. induction rest as [|y rest IH]; [done|].
      rewrite filter_cons_True by set_solver. f_equal. apply IH. set_solver. }
    destruct (remove_block no_hole (eq p) z (upd_area z k (mkFree rest (wrap64 (Z.of_nat (length (p :: rest)) - 1)))) k p a)
      as [Hwf1 Hfb]; [done|done|done| |done|done| |done].
    + simpl. rewrite El, Hfil. by rewrite Hcnt.
    + intros q Hq. change (is_free (page_of z q) = true) in Hq. destruct (decide (p = q)); [by left|right].
      split; [done|]. by split; [|intros []].
Qed.

Lemma mod_pow_add p j k : 0 <= j <= k -> p mod 2 ^ k = 0 -> (p + 2 ^ j) mod 2 ^ j = 0 /\ p mod 2 ^ j = 0.
Proof.
  intros Hjk Hp. assert (p mod 2 ^ j = 0) as Hj.
  { apply Z.mod_divide in Hp; [|lia]. apply Z.mod_divide; [lia|]. destruct Hp as [c ->].
    exists (c * 2 ^ (k - j)). rewrite <- Z.mul_assoc, <- Z.pow_add_r by lia. do 2 f_equal. lia. }
  split; [|done]. rewrite <- Zplus_mod_idemp_r, Z_mod_same_full, Z.add_0_r. done.
Qed.

(** [expand] puts the upper halves back, largest first. *)
Lemma expand_loop_ok n z p target :
  zone_wf (eq p) z -> 0 <= target -> target + Z.of_nat n <= MAX_ORDER ->
  block_unused z (target + Z.of_nat n) p ->
  (forall x, in_block (target + Z.of_nat n) p x -> ~ zfree z x) ->
  exists z', expand_loop n z p (2 ^ (target + Z.of_nat n)) target = Ret z' /\ zone_wf (eq p) z' /\
    page_of z' p = page_of z p /\ (forall k q, fblock z k q -> fblock z' k q) /\
    (forall x, rp_refcount (page_of z' x) = rp_refcount (page_of z x) /\ is_present (page_of z' x) = is_present (page_of z x)) /\
    (forall x, ~ in_block (target + Z.of_nat n) p x -> page_of z' x = page_of z x) /\
    forall x, zfree z' x <-> zfree z x \/ p + 2 ^ target <= x < p + 2 ^ (target + Z.of_nat n).
Proof.
  revert z. induction n as [|n IH]; intros z Hwf Ht Hn Hun Hdis; cbn [expand_loop].
  { exists z. rewrite Z.add_0_r. split_and!; try done. intros x. split; [by left|]. intros [?|?]; [done|lia]. }
  replace (target + Z.of_nat (S n)) with (target + Z.of_nat n + 1) in * by lia.
  set (k := target + Z.of_nat n) in *.
  assert (2 ^ (k + 1) = 2 ^ k + 2 ^ k) as Hpow by (rewrite Z.pow_add_r by lia; lia).
  pose proof (Z.pow_pos_nonneg 2 k ltac:(lia) ltac:(lia)) as Hpos.
  destruct Hun as (Hp0 & Hal & Hb & Hx).
  destruct (mod_pow_add p k (k + 1) ltac:(lia) Hal) as [Hal1 Hal2].
  assert (Z.shiftr (2 ^ (k + 1)) 1 = 2 ^ k) as ->.
  { rewrite Z.shiftr_div_pow2 by lia. rewrite Hpow. change (2 ^ 1) with 2.
    replace (2 ^ k + 2 ^ k) with (2 ^ k * 2) by lia. by rewrite Z.div_mul. }
  assert (wrap64 (p + 2 ^ k) = p + 2 ^ k) as -> by (apply wrap64_small; unfold is_u64; lia).
  set (s := p + 2 ^ k). set (f := fun pg => set_buddy (set_order pg k)).
  assert (in_block (k + 1) p s) as Hs by (unfold in_block, s; lia).
  assert (forall k', ~ fblock z k' s) as Hnb.
  { intros k' Hf. apply (Hdis s Hs). exists k', s. split; [done|]. apply in_block_head, Hf. }
  assert (is_free (page_of z s) = false) as Hnf.
  { destruct (is_free (page_of z s)) eqn:E; [|done]. destruct (zw_free _ _ Hwf s E) as [He|[k' Hk']].
    - unfold s in He. lia.
    - by apply Hnb in Hk'. }
  assert (forall q, is_present (page_of (upd_page z s f) q) = is_present (page_of z q) /\
    rp_refcount (page_of (upd_page z s f) q) = rp_refcount (page_of z q)) as Hsame.
  { intros q. rewrite page_of_upd. destruct (decide (q = s)) as [->|]; [|done]. unfold f.
    autorewrite with buddy_flags. done. }
  assert (zone_wf (eq p) (upd_page z s f)) as Hwf1.
  { apply upd_page_wf; [done|done| | |by left]; unfold f; autorewrite with buddy_flags; [done|].
    change (is_free (set_order (page_of z s) k)) with (is_free (page_of z s)). by rewrite Hnf. }
  destruct (add_block (eq p) (upd_page z s f) k s Hwf1 ltac:(lia)) as (z2 & -> & Hwf2 & Hfb & Hpg).
  { split_and!; [unfold s; lia|done|unfold s; lia|]. intros x Hin. destruct (Hsame x) as [-> ->]. apply Hx.
    unfold in_block, s in *. lia. }
  { rewrite page_of_upd, decide_True by done. unfold f. by autorewrite with buddy_flags. }
  { rewrite page_of_upd, decide_True by done. simpl. lia. }
  { intros x Hin. change (~ zfree z x). apply Hdis. unfold in_block, s in *. lia. }
  cbn [mbind outcome_bind].
  assert (forall q, rp_refcount (page_of z2 q) = rp_refcount (page_of z q) /\ is_present (page_of z2 q) = is_present (page_of z q)) as Hsame2.
  { intros q. rewrite Hpg. destruct (Hsame q) as [<- <-]. destruct (decide (q = s)) as [->|]; [|done].
    by autorewrite with buddy_flags. }
  assert (forall x, zfree z2 x <-> zfree z x \/ in_block k s x) as Hz2 by (intros x; by apply zfree_add).
  destruct (IH z2 Hwf2 Ht) as (z' & -> & Hwf' & Hpp & Hkeep & Href & Hfrm & Hfree).
  { lia. }
  { split_and!; [done|done|lia|]. intros x Hin. destruct (Hsame2 x) as [-> ->]. destruct (Hx x) as [? ?]; [unfold in_block in *; lia|done]. }
  { intros x Hin [Hf|Hin2]%Hz2; [by apply (Hdis x); [unfold in_block in *; lia|]|]. unfold in_block, s in *. lia. }
  exists z'. split; [done|]. split; [done|].
  split; [rewrite Hpp, Hpg, decide_False by (unfold s; lia); rewrite page_of_upd, decide_False by (unfold s; lia); done|].
  split; [intros k' q Hf; apply Hkeep, Hfb; by left|].
  split; [intros x; destruct (Href x) as [-> ->]; apply Hsame2|].
  split.
  { intros x Hnin. assert (x <> s) by (intros ->; by apply Hnin).
    rewrite Hfrm, Hpg, decide_False, page_of_upd, decide_False; [done|done|done|].
    unfold in_block in *. fold k. lia. }
  assert (2 ^ target <= 2 ^ k) as Hle by (apply Z.pow_le_mono_r; lia).
  intros x. rewrite Hfree, Hz2. unfold in_block, s. fold k. split.
  - intros [[?|?]|?]; [by left|right; lia|right; lia].
  - intros [?|?]; [by left; left|]. destruct (decide (x < p + 2 ^ k)); [right; lia|left; right; lia].
Qed.

(** What a successful allocation returns. *)
Definition allocated (z z' : Zone) (order p : Z) : Prop :=
  0 <= p /\ p mod 2 ^ order = 0 /\ p + 2 ^ order <= 2 ^ 52 /\
  (forall x, in_block order p x -> zfree z x) /\
  (forall x, zfree z' x <-> zfree z x /\ ~ in_block order p x) /\
  (forall x, in_block order p x -> is_present (page_of z' x) = true) /\
  (forall x, rp_refcount (page_of z' x) = if decide (x = p) then 1 else rp_refcount (page_of z x)) /\
  rp_order (page_of z' p) = order /\ is_buddy (page_of z' p) = true /\ is_free (page_of z' p) = false /\
  forall x, ~ zfree z x -> page_of z' x = page_of z x.

Lemma get_free_loop_ok n z order :
  zone_wf no_hole z -> 0 <= order -> order <= ZONE_AREAS - Z.of_nat n ->
  (forall k p, order <= k < ZONE_AREAS - Z.of_nat n -> ~ fblock z k p) ->
  exists o z1, get_free_loop n z order = Ret (o, z1) /\
    match o with
    | None => z1 = z /\ forall k p, order <= k -> ~ fblock z k p
    | Some p => exists k, order <= k /\ fblock z k p /\ zone_wf (eq p) z1 /\ (forall q, ~ fblock z1 q p) /\
        rp_order (page_of z1 p) = order /\ is_buddy (page_of z1 p) = true /\
        (forall x, zfree z1 x <-> zfree z x /\ ~ in_block order p x) /\
        (forall x, rp_refcount (page_of z1 x) = rp_refcount (page_of z x) /\ is_present (page_of z1 x) = is_present (page_of z x)) /\
        (forall x, ~ zfree z x -> page_of z1 x = page_of z x)
    end.
Proof.
  intros Hwf Ho. induction n as [|n IH]; intros Hle Hnone; cbn [get_free_loop].
  { exists None, z. split; [done|]. split; [done|]. intros k p Hk Hf. pose proof Hf as [Hkb _].
    apply (Hnone k p); [unfold ZONE_AREAS in *; lia|done]. }
  set (cur := ZONE_AREAS - Z.of_nat (S n)) in *.
  destruct (pop_ok z cur Hwf) as (o & z1 & -> & Hpop); [unfold cur, ZONE_AREAS, MAX_ORDER in *; lia|].
  cbn [mbind outcome_bind]. destruct o as [p|].
  2:{ destruct Hpop as [-> Hno]. apply IH; [unfold cur in *; lia|]. intros k p Hk.
      destruct (decide (k = cur)) as [->|]; [apply Hno|]. apply Hnone. unfold cur in *. lia. }
  destruct Hpop as (Hf & Hwf1 & Hfb & Hpg). destruct (zw_block _ _ Hwf _ _ Hf) as ((Hp0 & Hal & Hb & Hx) & Hfr & Hbud & Hord).
  assert (forall x, zfree z1 x <-> zfree z x /\ ~ in_block cur p x) as Hz1 by (intros x; by eapply zfree_remove).
  assert (0 <= cur <= MAX_ORDER) as Hcur by apply Hf.
  set (z2 := upd_page z1 p (fun pg => set_order pg order)).
  assert (forall k, ~ fblock z1 k p) as Hnb by (intros k [_ ?]%Hfb; done).
  assert (zone_wf (eq p) z2) as Hwf2 by (apply upd_page_wf; [done|done|done|done|by left]).
  assert (forall x, rp_refcount (page_of z2 x) = rp_refcount (page_of z x) /\
    is_present (page_of z2 x) = is_present (page_of z x) /\ is_free (page_of z2 x) = is_free (page_of z x) /\
    is_buddy (page_of z2 x) = is_buddy (page_of z x)) as Hsame.
  { intros x. unfold z2. rewrite page_of_upd, !Hpg. by destruct (decide (x = p)) as [->|]. }
  assert (rp_order (page_of z2 p) = order) as Hord2 by (unfold z2; rewrite page_of_upd, decide_True by done; done).
  assert (in_block cur p p) as Hpp by (apply in_block_head; lia).
  assert (exists z3, (if order <? cur then expand z2 p cur order else Ret z2) = Ret z3 /\ zone_wf (eq p) z3 /\
    page_of z3 p = page_of z2 p /\ (forall x, rp_refcount (page_of z3 x) = rp_refcount (page_of z2 x) /\ is_present (page_of z3 x) = is_present (page_of z2 x)) /\
    (forall x, ~ in_block cur p x -> page_of z3 x = page_of z2 x) /\
    (forall x, zfree z3 x <-> zfree z1 x \/ p + 2 ^ order <= x < p + 2 ^ cur)) as (z3 & -> & Hwf3 & Hp3 & Hs3 & Hfrm & Hz3).
  { destruct (Z.ltb_spec order cur) as [Hlt|Hge].
    - unfold expand. rewrite Z.shiftl_1_l.
      destruct (expand_loop_ok (Z.to_nat (cur - order)) z2 p order Hwf2 Ho) as (z3 & He & ? & ? & ? & ? & ? & ?);
        rewrite ?Z2Nat.id by lia; replace (order + (cur - order)) with cur by lia; [lia| | |].
      + split_and!; try done. intros x Hin. destruct (Hsame x) as (-> & -> & _). by apply Hx.
      + intros x Hin. change (~ zfree z1 x). rewrite Hz1. tauto.
      + rewrite Z2Nat.id in * by lia. replace (order + (cur - order)) with cur in * by lia. exists z3. by split_and!.
    - exists z2. split_and!; try done. intros x. replace order with cur by lia. split; [by left|]. intros [?|?]; [done|lia]. }
  cbn [mbind outcome_bind]. rewrite Hp3. destruct (Hsame p) as (_ & -> & -> & _).
  destruct (Hx p Hpp) as [-> _]. rewrite Hfr. cbn [assert_ mbind outcome_bind].
  assert (2 ^ order <= 2 ^ cur) as Hpw by (apply Z.pow_le_mono_r; lia).
  exists (Some p), z3. split; [done|]. exists cur. split_and!; try done.
  - intros k Hk. assert (zfree z3 p) as Hzp by (exists k, p; split; [done|]; apply in_block_head, Hk).
    pose proof (Z.pow_pos_nonneg 2 order ltac:(lia) ltac:(lia)).
    apply Hz3 in Hzp as [Hzp|?]; [apply Hz1 in Hzp; tauto|lia].
  - by rewrite Hp3.
  - rewrite Hp3. by destruct (Hsame p) as (_ & _ & _ & ->).
  - intros x. rewrite Hz3, Hz1. unfold in_block. split.
    + intros [[? ?]|?]; [split; [done|lia]|]. split; [|lia]. exists cur, p. split; [done|].
      pose proof (Z.pow_pos_nonneg 2 order ltac:(lia) ltac:(lia)). unfold in_block. lia.
    + intros [? ?]. destruct (decide (p <= x < p + 2 ^ cur)); [right; lia|by left].
  - intros x. destruct (Hs3 x) as [-> ->]. destruct (Hsame x) as (-> & -> & _). done.
  - intros x Hnz. assert (~ in_block cur p x) as Hnin by (intros ?; apply Hnz; by exists cur, p).
    rewrite Hfrm by done. unfold z2. rewrite page_of_upd, decide_False, Hpg; [done|]. by intros ->.
Qed.

Lemma buddy_alloc_ok z order :
  zone_wf no_hole z -> 0 <= order <= MAX_ORDER ->
  exists o z', buddy_alloc_order z order = Ret (o, z') /\ zone_wf no_hole z' /\
    match o with
    | Some p => allocated z z' order p
    | None => z' = z /\ forall k p, order <= k -> ~ fblock z k p
    end.
Proof.
  intros Hwf Ho. unfold buddy_alloc_order, zone_get_free_pages.
  destruct (get_free_loop_ok (Z.to_nat (ZONE_AREAS - order)) z order Hwf) as (o & z1 & -> & Hres).
  { lia. }
  { unfold ZONE_AREAS in *. lia. }
  { intros k p Hk. unfold ZONE_AREAS in *. lia. }
  cbn [mbind outcome_bind]. destruct o as [p|].
  2:{ exists None, z1. destruct Hres as [-> ?]. by split_and!. }
  destruct Hres as (k & Hk & Hf & Hwf1 & Hnb & Hord & Hbud & Hz & Hsame & Hfrm).
  destruct (zw_block _ _ Hwf _ _ Hf) as ((Hp0 & Hal & Hb & Hx) & _).
  assert (2 ^ order <= 2 ^ k) as Hpw by (apply Z.pow_le_mono_r; lia).
  set (f := fun pg => clear_free (set_refcount pg (wrap64 (rp_refcount pg + 1)))).
  assert (in_block k p p) as Hpp by (apply in_block_head, Hf).
  assert (rp_refcount (page_of z1 p) = 0) as Hr0 by (destruct (Hsame p) as [-> _]; by apply Hx).
  assert (forall x, in_block order p x -> in_block k p x) as Hsub by (unfold in_block; intros; lia).
  exists (Some p), (upd_page z1 p f). split; [done|]. split.
  - assert (zone_wf (eq p) (upd_page z1 p f)) as Hw.
    { apply upd_page_wf; [done|done| | |]; unfold f; autorewrite with buddy_flags; [done|done|].
      right. rewrite Hz. intros [_ Hn]. apply Hn, in_block_head. lia. }
    split; try apply Hw. intros q Hq. destruct (zw_free _ _ Hw q Hq) as [<-|?]; [|by right].
    rewrite page_of_upd, decide_True in Hq by done. unfold f in Hq. autorewrite with buddy_flags in Hq. done.
  - split_and!; [done|destruct (mod_pow_add p order k) as [_ ?]; [lia|done|done]|lia|..].
    + intros x Hin. exists k, p. split; [done|]. by apply Hsub.
    + done.
    + intros x Hin. rewrite page_of_upd. destruct (Hsame x) as [_ Hpr]. destruct (Hx x (Hsub x Hin)) as [Hpx _].
      destruct (decide (x = p)) as [->|]; unfold f; autorewrite with buddy_flags; [|congruence].
      change (is_present (set_refcount (page_of z1 p) (wrap64 (rp_refcount (page_of z1 p) + 1)))) with (is_present (page_of z1 p)). congruence.
    + intros x. rewrite page_of_upd. destruct (decide (x = p)) as [->|]; [|apply Hsame]. simpl. by rewrite Hr0.
    + rewrite page_of_upd, decide_True by done. done.
    + rewrite page_of_upd, decide_True by done. unfold f. autorewrite with buddy_flags. done.
    + rewrite page_of_upd, decide_True by done. unfold f. by autorewrite with buddy_flags.
    + intros x Hnz. rewrite page_of_upd, decide_False; [by apply Hfrm|]. intros ->. apply Hnz. by exists k, p.
Qed.

(** C24: An allocation of order [k] returns a block of [2^k] frames, aligned to
    its size, all of them free before and present; exactly these frames leave
    the free set, the first one has one reference and the block is marked as in
    use, and the free lists stay consistent.  It fails only if no free block of
    that order or a larger one exists.  No assertion fails. *)
Theorem buddy_alloc_correct z order :
  zone_wf no_hole z -> 0 <= order <= MAX_ORDER ->
  exists o z', buddy_alloc_order z order = Ret (o, z') /\ zone_wf no_hole z' /\
    match o with
    | Some p => allocated z z' order p
    | None => z' = z /\ forall k p, order <= k -> ~ fblock z k p
    end.
Proof. apply buddy_alloc_ok. Qed.

(** ** Freeing *)

Lemma even_xor r : Z.lxor (2 * r) 1 = 2 * r + 1 /\ Z.lxor (2 * r + 1) 1 = 2 * r /\ Z.land (2 * r) (2 * r + 1) = 2 * r.
Proof.
  assert (Z.land (2 * r) 1 = 0) as Hl.
  { rewrite Z.land_ones with (n := 1) by lia. change (2 ^ 1) with 2. rewrite Z.mul_comm. by apply Z.mod_mul. }
  assert (2 * r + 1 = Z.lxor (2 * r) 1) as Hx by (by apply Z.add_nocarry_lxor).
  split; [done|]. split.
  - by rewrite Hx, Z.lxor_assoc, Z.lxor_nilpotent, Z.lxor_0_r.
  - rewrite Hx, Z.lxor_lor by done. apply Z.bits_inj'. intros i Hi. rewrite Z.land_spec, Z.lor_spec.
    by destruct (Z.testbit (2 * r) i), (Z.testbit 1 i).
Qed.

(** The buddy of an aligned block is its neighbour, and the two together are an
    aligned block of the next order. *)
Lemma buddy_spec p c :
  0 <= p -> 0 <= c -> p mod 2 ^ c = 0 ->
  let b := buddy_pfn p c in
  (b = p + 2 ^ c /\ combined_pfn p b = p /\ p mod 2 ^ (c + 1) = 0) \/
  (b = p - 2 ^ c /\ combined_pfn p b = b /\ b mod 2 ^ (c + 1) = 0).
Proof.
  intros Hp Hc Hal. apply Z.mod_divide in Hal as [q ->]; [|lia]. unfold buddy_pfn, combined_pfn.
  rewrite <- (Z.shiftl_mul_pow2 q) by done. rewrite <- Z.shiftl_lxor, <- Z.shiftl_land, !Z.shiftl_mul_pow2 by done.
  assert (2 ^ (c + 1) = 2 * 2 ^ c) as Hpow by (rewrite Z.pow_add_r by lia; lia). rewrite Hpow.
  destruct (Z.Even_or_Odd q) as [[r ->]|[r ->]]; destruct (even_xor r) as (H1 & H2 & H3).
  - left. rewrite H1, H3. split; [lia|]. split; [done|]. apply Z.mod_divide; [lia|]. exists r. lia.
  - right. rewrite H2, Z.land_comm, H3. split; [lia|]. split; [done|]. apply Z.mod_divide; [lia|]. exists r. lia.
Qed.

(** A block in use: its frames are present, unreferenced and not free. *)
Definition block_held (z : Zone) (k p : Z) : Prop :=
  block_unused z k p /\ is_buddy (page_of z p) = true /\ forall x, in_block k p x -> ~ zfree z x.

Lemma held_not_free z k p : zone_wf no_hole z -> 0 <= k -> block_held z k p -> is_free (page_of z p) = false.
Proof.
  intros Hwf Hk (_ & _ & Hdis). destruct (is_free (page_of z p)) eqn:E; [|done].
  destruct (zw_free _ _ Hwf p E) as [[]|[k' Hk']]. exfalso. apply (Hdis p); [by apply in_block_head|].
  exists k', p. split; [done|]. apply in_block_head, Hk'.
Qed.

(** If the buddy passes the check, it is a free block of the same order. *)
Lemma buddy_check_ok z p c :
  zone_wf no_hole z -> 0 <= c <= MAX_ORDER -> block_held z c p ->
  exists b, buddy_check z (buddy_pfn p c) c = Ret b /\ (b = true -> fblock z c (buddy_pfn p c)).
Proof.
  intros Hwf Hc ((Hp & Hal & _) & _ & Hdis). unfold buddy_check. set (b := buddy_pfn p c).
  destruct (is_present (page_of z b)); [|by exists false]. cbn [negb].
  destruct (is_free (page_of z b)) eqn:Hf; [|by exists false]. cbn [negb].
  destruct (Z.eqb_spec (rp_order (page_of z b)) c) as [Ho|]; [|by exists false]. cbn [negb].
  destruct (zw_free _ _ Hwf b Hf) as [[]|[k Hk]].
  destruct (zw_block _ _ Hwf _ _ Hk) as ((Hb0 & Hbal & Hbb & Hx) & _ & _ & Hord).
  destruct (Hx b (in_block_head k b ltac:(apply Hk))) as [_ ->]. rewrite Z.eqb_refl. cbn [assert_ mbind outcome_bind].
  exists true. split; [done|]. intros _. destruct (decide (k = c)) as [<-|Hne]; [done|exfalso].
  destruct (buddy_spec p c Hp ltac:(lia) Hal) as [(Hb & _ & Hpal)|(Hb & _ & Hba)]; fold b in Hb.
  - (* the buddy would be aligned to a larger power than it is *)
    assert (b mod 2 ^ (c + 1) = 2 ^ c) as Hm.
    { rewrite Hb, <- Zplus_mod_idemp_l, Hpal. apply Z.mod_small.
      pose proof (Z.pow_lt_mono_r 2 c (c + 1)). pose proof (Z.pow_pos_nonneg 2 c). lia. }
    destruct (mod_pow_add b (c + 1) k ltac:(lia) Hbal) as [_ Hm']. pose proof (Z.pow_pos_nonneg 2 c). lia.
  - apply (Hdis p); [apply in_block_head; lia|]. exists k, b. split; [done|]. unfold in_block.
    assert (2 ^ (c + 1) <= 2 ^ k) by (apply Z.pow_le_mono_r; lia).
    assert (2 ^ (c + 1) = 2 ^ c + 2 ^ c) by (rewrite Z.pow_add_r by lia; lia).
    pose proof (Z.pow_pos_nonneg 2 c). lia.
Qed.

(** One round of coalescing. *)
Lemma merge_ok z p c :
  zone_wf no_hole z -> 0 <= c < MAX_ORDER -> block_held z c p -> fblock z c (buddy_pfn p c) ->
  let b := buddy_pfn p c in
  exists z1, del_pages (upd_page (upd_page z p clear_buddy) b clear_buddy) c b = Ret z1 /\
    let z' := upd_page z1 (combined_pfn p b) set_buddy in
    zone_wf no_hole z' /\ block_held z' (c + 1) (combined_pfn p b) /\
    (forall x, zfree z' x \/ in_block (c + 1) (combined_pfn p b) x <-> zfree z x \/ in_block c p x) /\
    forall x, ~ zfree z x -> ~ in_block c p x -> page_of z' x = page_of z x.
Proof.
  intros Hwf Hc Hheld Hf b. pose proof (held_not_free z c p Hwf ltac:(lia) Hheld) as Hpf.
  destruct Hheld as ((Hp & Hal & Hpb & Hx) & Hbud & Hdis).
  destruct (zw_block _ _ Hwf _ _ Hf) as ((Hb0 & Hbal & Hbb & Hbx) & Hbf & _). fold b in Hb0, Hbal, Hbb, Hbx, Hbf.
  assert (p <> b) as Hpne by (intros E; rewrite <- E in Hbf; congruence).
  pose proof Hf as (_ & a & Ha & Hin). fold b in Hin.
  destruct (zw_area _ _ Hwf _ _ Ha) as [Hnd Hcnt].
  set (z0 := upd_page (upd_page z p clear_buddy) b clear_buddy). unfold del_pages, area_at.
  destruct (Z.ltb_spec c 0); [lia|]. change (zn_areas z0) with (zn_areas z). rewrite Ha. cbn [expect mbind outcome_bind].
  assert (1 <= fr_count a) as Hc1 by (rewrite Hcnt; destruct (fr_list a); [by apply elem_of_nil in Hin|simpl; lia]).
  assert (is_free (page_of z0 b) = true) as Hbf0.
  { unfold z0. rewrite !page_of_upd, decide_True, decide_False by congruence. by autorewrite with buddy_flags. }
  destruct (Z.leb_spec 1 (fr_count a)); [|lia]. rewrite Hbf0. cbn [andb assert_ mbind outcome_bind].
  eexists. split; [done|]. set (z1 := upd_page _ b clear_free). set (m := combined_pfn p b). set (z' := upd_page z1 m set_buddy).
  pose proof (Z.pow_pos_nonneg 2 c ltac:(lia) ltac:(lia)) as Hpos.
  assert (2 ^ (c + 1) = 2 ^ c + 2 ^ c) as Hpow by (rewrite Z.pow_add_r by lia; lia).
  pose proof (buddy_spec p c Hp ltac:(lia) Hal) as Hspec. cbv zeta in Hspec. fold b in Hspec. fold m in Hspec.
  assert (m = p \/ m = b) as Hm by tauto.
  assert (forall x, in_block (c + 1) m x <-> in_block c p x \/ in_block c b x) as Hblk.
  { intros x. unfold in_block. destruct Hspec as [(-> & -> & _)|(Hb & -> & _)]; lia. }
  assert (forall q, page_of z' q = page_of z q \/
    (q = p \/ q = b) /\ is_present (page_of z' q) = is_present (page_of z q) /\
    rp_refcount (page_of z' q) = rp_refcount (page_of z q) /\ is_free (page_of z' q) = false) as Hpg.
  { intros q. unfold z', z1, z0. rewrite !page_of_upd, !page_of_upd_area, !page_of_upd.
    destruct (decide (q = b)) as [->|Hqb]; [|destruct (decide (q = p)) as [->|Hqp]].
    - right. split; [by right|]. repeat case_decide; simplify_eq; try congruence; autorewrite with buddy_flags; done.
    - right. split; [by left|]. repeat case_decide; simplify_eq; try congruence; autorewrite with buddy_flags; done.
    - left. rewrite !decide_False by naive_solver. done. }
  destruct (remove_block no_hole no_hole z z' c b a Hwf Hf Ha) as [Hwf' Hfb].
  { done. }
  { intros q Hq [k Hk]. destruct (Hpg q) as [?|([-> | ->] & _)]; [done| |done].
    exfalso. apply (Hdis p); [by apply in_block_head|]. exists k, p. split; [done|]. apply in_block_head, Hk. }
  { intros q. destruct (Hpg q) as [->|(_ & -> & -> & _)]; done. }
  { intros q Hq. right. destruct (Hpg q) as [E|(_ & _ & _ & E)]; [|congruence]. rewrite E in Hq.
    split; [|by split; [|intros []]]. intros ->. destruct (Hpg b) as [E'|(_ & _ & _ & E')]; [|rewrite E in E'; congruence].
    assert (is_free (page_of z' b) = false) as Hnf.
    { unfold z'. rewrite page_of_upd. unfold z1. rewrite !page_of_upd.
      destruct (decide (b = m)) as [<-|]; [rewrite decide_True by done|rewrite decide_True by done];
        autorewrite with buddy_flags; done. }
    congruence. }
  split; [done|].
  assert (forall x, zfree z' x <-> zfree z x /\ ~ in_block c b x) as Hz' by (intros x; by eapply zfree_remove).
  split; [|split].
  - split; [|split].
    + split; [destruct Hm as [-> | ->]; done|].
      split; [destruct Hspec as [(_ & -> & ?)|(_ & -> & ?)]; done|].
      split; [destruct Hspec as [(? & -> & _)|(? & -> & _)]; lia|].
      intros x Hxb. assert (is_present (page_of z x) = true /\ rp_refcount (page_of z x) = 0) as [? ?].
      { apply Hblk in Hxb as [?|?]; [by apply Hx|by apply Hbx]. }
      destruct (Hpg x) as [->|(_ & -> & -> & _)]; done.
    + unfold z'. rewrite page_of_upd, decide_True by done. by autorewrite with buddy_flags.
    + intros x [Hxp|Hxb]%Hblk Hzf; apply Hz' in Hzf as [Hzf Hn]; [|done]. by apply (Hdis x).
  - intros x. rewrite Hz', Hblk. split.
    + intros [[? _]|[?|?]]; [by left|by right|left]. exists c, b. by split.
    + intros [Hzf|?]; [|by right; left]. destruct (decide (in_block c b x)); [by right; right|by left].
  - intros x Hnz Hnp. destruct (Hpg x) as [?|([-> | ->] & _)]; [done| |].
    + exfalso. apply Hnp, in_block_head. lia.
    + exfalso. apply Hnz. exists c, b. split; [done|]. apply in_block_head. lia.
Qed.

Lemma free_loop_ok n z p :
  zone_wf no_hole z -> (n <= Z.to_nat MAX_ORDER)%nat -> block_held z (MAX_ORDER - Z.of_nat n) p ->
  exists z' p' k, free_loop n z p = Ret (z', p', k) /\ zone_wf no_hole z' /\ MAX_ORDER - Z.of_nat n <= k <= MAX_ORDER /\
    block_held z' k p' /\
    (forall x, zfree z' x \/ in_block k p' x <-> zfree z x \/ in_block (MAX_ORDER - Z.of_nat n) p x) /\
    forall x, ~ zfree z x -> ~ in_block (MAX_ORDER - Z.of_nat n) p x -> page_of z' x = page_of z x.
Proof.
  revert z p. induction n as [|n IH]; intros z p Hwf Hn Hheld; cbn [free_loop].
  { exists z, p, (MAX_ORDER - Z.of_nat 0). split; [done|]. split; [done|]. split; [lia|]. by split_and!. }
  set (c := MAX_ORDER - Z.of_nat (S n)) in *.
  assert (0 <= c < MAX_ORDER) as Hc by (unfold c, MAX_ORDER in *; lia).
  destruct (buddy_check_ok z p c Hwf ltac:(lia) Hheld) as (b & -> & Hb). cbn [mbind outcome_bind].
  destruct b; [|exists z, p, c; split; [done|]; split; [done|]; split; [lia|]; by split_and!].
  destruct (merge_ok z p c Hwf Hc Hheld (Hb eq_refl)) as (z1 & -> & Hwf1 & Hheld1 & Hun & Hfrm). cbn [mbind outcome_bind].
  assert (c + 1 = MAX_ORDER - Z.of_nat n) as Hc1 by (unfold c; lia). rewrite Hc1 in Hheld1, Hun.
  destruct (IH _ _ Hwf1 ltac:(lia) Hheld1) as (z' & p' & k & -> & Hwf' & Hk & Hheld' & Hun' & Hfrm').
  exists z', p', k. split; [done|]. split; [done|]. split; [lia|]. split; [done|].
  split; [intros x; by rewrite Hun', Hun|]. intros x Hnz Hnb.
  pose proof (Hun x) as Hx. rewrite Hfrm', Hfrm; [done|done|done| |]; tauto.
Qed.

Lemma buddy_dealloc_ok z p :
  zone_wf no_hole z -> 0 <= rp_order (page_of z p) <= MAX_ORDER ->
  block_held z (rp_order (page_of z p)) p ->
  exists z', buddy_dealloc z p = Ret z' /\ zone_wf no_hole z' /\
    (forall x, zfree z' x <-> zfree z x \/ in_block (rp_order (page_of z p)) p x) /\
    forall x, ~ zfree z x -> ~ in_block (rp_order (page_of z p)) p x -> page_of z' x = page_of z x.
Proof.
  intros Hwf Ho Hheld. unfold buddy_dealloc, zone_free_pages.
  set (k := rp_order (page_of z p)) in *. pose proof (held_not_free z k p Hwf ltac:(lia) Hheld) as Hnf.
  pose proof Hheld as ((_ & _ & _ & Hx) & _). destruct (Hx p) as [Hpr Href]; [apply in_block_head; lia|].
  rewrite Href, Hpr, Hnf. cbn [Z.eqb negb assert_ mbind outcome_bind].
  assert (exists z1 p1 k1, (if k <? MAX_ORDER then free_loop (Z.to_nat (MAX_ORDER - k)) z p else Ret (z, p, k)) = Ret (z1, p1, k1) /\
    zone_wf no_hole z1 /\ 0 <= k1 <= MAX_ORDER /\ block_held z1 k1 p1 /\
    (forall x, zfree z1 x \/ in_block k1 p1 x <-> zfree z x \/ in_block k p x) /\
    forall x, ~ zfree z x -> ~ in_block k p x -> page_of z1 x = page_of z x) as (z1 & p1 & k1 & -> & Hwf1 & Hk1 & Hheld1 & Hun & Hfrm).
  { destruct (Z.ltb_spec k MAX_ORDER).
    - destruct (free_loop_ok (Z.to_nat (MAX_ORDER - k)) z p Hwf) as (z1 & p1 & k1 & He & ? & ? & ? & ? & ?);
        rewrite ?Z2Nat.id in * by lia; replace (MAX_ORDER - (MAX_ORDER - k)) with k in * by lia; [lia|done|].
      exists z1, p1, k1. split; [done|]. split; [done|]. split; [lia|]. by split_and!.
    - exists z, p, k. split; [done|]; split; [done|]; split; [lia|]; by split_and!. }
  cbn [mbind outcome_bind]. pose proof (held_not_free z1 k1 p1 Hwf1 ltac:(lia) Hheld1) as Hnf1.
  destruct Hheld1 as ((H1 & H2 & H3 & H4) & Hbud & Hdis). set (f := fun pg => set_order pg k1).
  assert (forall q, is_present (page_of (upd_page z1 p1 f) q) = is_present (page_of z1 q) /\
    rp_refcount (page_of (upd_page z1 p1 f) q) = rp_refcount (page_of z1 q) /\
    is_buddy (page_of (upd_page z1 p1 f) q) = is_buddy (page_of z1 q)) as Hsame.
  { intros q. rewrite page_of_upd. by destruct (decide (q = p1)) as [->|]. }
  destruct (add_block no_hole (upd_page z1 p1 f) k1 p1) as (z2 & -> & Hwf2 & Hfb & Hpg2).
  - apply upd_page_wf; [done| |done| |by left].
    + intros k' Hk'. apply (Hdis p1); [apply in_block_head; lia|]. exists k', p1. split; [done|]. apply in_block_head, Hk'.
    + unfold f. change (is_free (set_order (page_of z1 p1) k1)) with (is_free (page_of z1 p1)). by rewrite Hnf1.
  - done.
  - split_and!; try done. intros x Hin. destruct (Hsame x) as (-> & -> & _). by apply H4.
  - by destruct (Hsame p1) as (_ & _ & ->).
  - rewrite page_of_upd, decide_True by done. simpl. lia.
  - done.
  - exists z2. split; [done|]. split; [done|]. split.
    + intros x. rewrite (zfree_add _ _ _ _ x Hfb). change (zfree (upd_page z1 p1 f) x) with (zfree z1 x). apply Hun.
    + intros x Hnz Hnb. assert (x <> p1) as Hxp.
      { intros ->. pose proof (in_block_head k1 p1 ltac:(lia)) as Hh. specialize (Hun p1). tauto. }
      rewrite Hpg2, decide_False, page_of_upd, decide_False by done. by apply Hfrm.
Qed.


(** ** Handing memory to the allocator *)

Lemma fit_order_ok o s e :
  0 <= s < e -> e <= 2 ^ 52 -> (o <= 10)%nat ->
  exists k, fit_order o s e = Ret k /\ 0 <= k <= Z.of_nat o /\ s + 2 ^ k <= e.
Proof.
  intros Hs He. induction o as [|o IH]; intros Ho; cbn [fit_order]; rewrite Z.shiftl_1_l.
  - rewrite wrap64_small by (unfold is_u64; simpl; lia). destruct (Z.ltb_spec e (s + 2 ^ Z.of_nat 0)) as [Hlt|Hge]; [simpl in Hlt; lia|].
    exists 0. simpl in *. split; [done|]. split; [lia|]. lia.
  - assert (2 ^ Z.of_nat (S o) <= 2 ^ 10) by (apply Z.pow_le_mono_r; lia).
    pose proof (Z.pow_pos_nonneg 2 (Z.of_nat (S o)) ltac:(lia) ltac:(lia)).
    rewrite wrap64_small by (unfold is_u64; lia).
    destruct (Z.ltb_spec e (s + 2 ^ Z.of_nat (S o))).
    + destruct (IH ltac:(lia)) as (k & ? & ? & ?). exists k. split; [done|]. split; [lia|done].
    + exists (Z.of_nat (S o)). split; [done|]. split; [lia|lia].
Qed.

Lemma trailing_zeros_aligned s k : 0 <= s -> 0 <= k <= trailing_zeros s -> s mod 2 ^ k = 0.
Proof.
  intros Hs Hk. destruct (decide (s = 0)) as [->|]; [by apply Z.mod_0_l; lia|].
  apply (mod_pow_add s k (trailing_zeros s)); [lia|]. apply Z.mod_divide; [pose proof (Z.pow_pos_nonneg 2 (trailing_zeros s)); lia|].
  apply trailing_zeros_divide. lia.
Qed.

(** Fresh descriptors of a range of memory. *)
Definition fresh_range (z : Zone) (s e : Z) : Prop :=
  forall x, s <= x < e -> is_present (page_of z x) = true /\ rp_refcount (page_of z x) = 0 /\
    rp_order (page_of z x) = 0 /\ is_free (page_of z x) = false /\ ~ zfree z x.

Lemma create_loop_ok fuel z s e :
  zone_wf no_hole z -> 0 <= s -> e <= 2 ^ 52 -> fresh_range z s e -> e - s <= Z.of_nat fuel ->
  exists z', create_loop fuel z s e = Ret z' /\ zone_wf no_hole z' /\ forall x, zfree z' x <-> zfree z x \/ s <= x < e.
Proof.
  revert z s. induction fuel as [|n IH]; intros z s Hwf Hs He Hfresh Hfuel; cbn [create_loop];
    (destruct (Z.ltb_spec s e) as [Hlt|Hge]; cbn [negb];
      [|exists z; split; [done|]; split; [done|]; intros x; split; [by left|]; intros [?|?]; [done|lia]]).
  { lia. }
  set (o := Z.to_nat _).
  destruct (fit_order_ok o s e) as (k & -> & Hk & Hfit); [lia|done|unfold o, ZONE_AREAS, MAX_ORDER; lia|].
  cbn [mbind outcome_bind]. rewrite Z.shiftl_1_l.
  pose proof (Z.pow_pos_nonneg 2 k ltac:(lia) ltac:(lia)) as Hpos.
  assert (wrap64 (s + 2 ^ k) = s + 2 ^ k) as -> by (apply wrap64_small; unfold is_u64; lia).
  assert (0 <= k <= MAX_ORDER /\ k <= trailing_zeros s) as [Hk1 Hk2].
  { pose proof (trailing_zeros_nonneg s). unfold o, ZONE_AREAS, MAX_ORDER in *. lia. }
  destruct (Hfresh s ltac:(lia)) as (_ & _ & Hord & Hnf & Hnz).
  assert (forall k', ~ fblock z k' s) as Hnb.
  { intros k' Hk'. apply Hnz. exists k', s. split; [done|]. apply in_block_head, Hk'. }
  assert (forall q, is_present (page_of (upd_page z s set_buddy) q) = is_present (page_of z q) /\
    rp_refcount (page_of (upd_page z s set_buddy) q) = rp_refcount (page_of z q) /\
    rp_order (page_of (upd_page z s set_buddy) q) = rp_order (page_of z q)) as Hsame.
  { intros q. rewrite page_of_upd. destruct (decide (q = s)) as [->|]; [|done]. by autorewrite with buddy_flags. }
  destruct (add_block no_hole (upd_page z s set_buddy) k s) as (z1 & -> & Hwf1 & Hfb & Hpg).
  - apply upd_page_wf; [done|done| | |by left]; autorewrite with buddy_flags; [done|]. by rewrite Hnf.
  - done.
  - split_and!; [done|apply trailing_zeros_aligned; [done|lia]|lia|]. intros x Hin. destruct (Hsame x) as (-> & -> & _).
    unfold in_block in Hin. destruct (Hfresh x ltac:(lia)) as (? & ? & _). done.
  - rewrite page_of_upd, decide_True by done. by autorewrite with buddy_flags.
  - destruct (Hsame s) as (_ & _ & ->). lia.
  - intros x Hin. change (~ zfree z x). unfold in_block in Hin. by destruct (Hfresh x ltac:(lia)) as (_ & _ & _ & _ & ?).
  - cbn [mbind outcome_bind].
    assert (forall x, zfree z1 x <-> zfree z x \/ in_block k s x) as Hz1 by (intros x; by apply zfree_add).
    destruct (IH z1 (s + 2 ^ k) Hwf1) as (z' & -> & Hwf' & Hz'); [lia|done| |lia|].
    + intros x Hin. rewrite Hz1, Hpg, decide_False, page_of_upd, decide_False by lia.
      destruct (Hfresh x ltac:(lia)) as (? & ? & ? & ? & ?). split_and!; try done. unfold in_block.
      intros [?|?]; [done|lia].
    + exists z'. split; [done|]. split; [done|]. intros x. rewrite Hz', Hz1. unfold in_block.
      split; [intros [[?|?]|?]; [by left|right; lia|right; lia]|].
      intros [?|?]; [by left; left|]. destruct (decide (x < s + 2 ^ k)); [left; right; lia|right; lia].
Qed.

(** Giving a range of fresh memory to the allocator makes exactly the whole
    frames inside the range free, cut into aligned blocks; the loop ends. *)
Theorem create_pages_correct z s e :
  zone_wf no_hole z -> 0 <= s -> s <= 2 ^ 64 - PAGE_SIZE -> 0 <= e < 2 ^ 64 ->
  let s' := pfn_of_paddr (ceil s) in
  let e' := pfn_of_paddr (floor e) in
  fresh_range z s' e' ->
  exists z', create_pages z s e = Ret z' /\ zone_wf no_hole z' /\ forall x, zfree z' x <-> zfree z x \/ s' <= x < e'.
Proof.
  intros Hwf Hs Hs2 He s' e' Hfresh. unfold create_pages. fold s' e'.
  assert (0 <= ceil s < 2 ^ 64) as Hc by apply wrap64_range.
  assert (0 <= floor e < 2 ^ 64) as Hf by apply wrap64_range.
  assert (0 <= s' /\ e' <= 2 ^ 52) as [? ?].
  { unfold s', e', pfn_of_paddr, PAGE_SIZE_BITS. rewrite !Z.shiftr_div_pow2 by lia.
    split; [apply Z.div_pos; lia|]. assert (floor e / 2 ^ 12 < 2 ^ 52); [|lia]. apply Z.div_lt_upper_bound; lia. }
  apply create_loop_ok; [done|done|done|done|lia].
Qed.

(** ** Witnesses: sixteen frames from frame 16 on *)

Definition demo_pages : gmap Z RawPage := list_to_map ((fun x => (x, mkRaw 0 5 0)) <$> seqZ 16 16).

Lemma zone_new_no_block pages k p : ~ fblock (zone_new pages) k p.
Proof.
  intros (_ & a & Ha & Hin). apply lookup_replicate in Ha as [-> _]. by apply elem_of_nil in Hin.
Qed.

Lemma zone_new_no_free pages x : ~ zfree (zone_new pages) x.
Proof. intros (k & p & Hf & _). by eapply zone_new_no_block. Qed.

Lemma zone_new_wf pages :
  (forall p, is_free (page_of (zone_new pages) p) = false) -> zone_wf no_hole (zone_new pages).
Proof.
  intros Hnf. split.
  - done.
  - intros i a [-> _]%lookup_replicate. split; [apply NoDup_nil; done|done].
  - intros k p Hf. by apply zone_new_no_block in Hf.
  - intros k p k' p' x Hf. by apply zone_new_no_block in Hf.
  - intros p. by rewrite Hnf.
Qed.

Lemma demo_page x :
  page_of (zone_new demo_pages) x = if decide (16 <= x < 32) then mkRaw 0 5 0 else mkRaw 0 0 0.
Proof.
  unfold page_of. simpl. destruct (decide (16 <= x < 32)) as [Hx|Hx].
  - assert (demo_pages !! x = Some (mkRaw 0 5 0)) as ->; [|done]. apply elem_of_list_to_map_1.
    + rewrite <- list_fmap_compose. apply NoDup_fmap; [by intros ? ?|apply NoDup_seqZ].
    + apply list_elem_of_fmap. exists x. split; [done|]. apply elem_of_seqZ. lia.
  - assert (demo_pages !! x = None) as ->; [|done]. apply not_elem_of_list_to_map_1.
    rewrite <- list_fmap_compose. intros (y & -> & Hy%elem_of_seqZ)%list_elem_of_fmap. simpl in Hx. lia.
Qed.

Lemma demo_zone_fresh : zone_wf no_hole (zone_new demo_pages) /\ fresh_range (zone_new demo_pages) 16 32.
Proof.
  split.
  - apply zone_new_wf. intros p. rewrite demo_page. by destruct (decide _).
  - intros x Hx. rewrite demo_page, decide_True by done. split_and!; try done. apply zone_new_no_free.
Qed.

Lemma create_pages_correct_witness :
  exists z, create_pages (zone_new demo_pages) 0xff80 0x20080 = Ret z /\ zfree z 16 /\ zfree z 31 /\ ~ zfree z 32.
Proof.
  destruct demo_zone_fresh as [Hwf Hfr].
  destruct (create_pages_correct (zone_new demo_pages) 0xff80 0x20080 Hwf ltac:(lia) ltac:(vm_compute; discriminate)
    ltac:(lia) Hfr) as (z & Hz & _ & Hfree).
  exists z. split; [exact Hz|]. change (pfn_of_paddr (ceil 0xff80)) with 16 in Hfree.
  change (pfn_of_paddr (floor 0x20080)) with 32 in Hfree. rewrite !Hfree.
  split; [right; lia|]. split; [right; lia|]. intros [H|H]; [by apply zone_new_no_free in H|lia].
Defined.

Definition demo_zone : Zone :=
  match create_loop 16 (zone_new demo_pages) 16 32 with Ret z => z | _ => zone_new ∅ end.

Lemma demo_zone_wf : zone_wf no_hole demo_zone.
Proof.
  destruct demo_zone_fresh as [Hwf Hfr]. unfold demo_zone.
  by destruct (create_loop_ok 16 (zone_new demo_pages) 16 32 Hwf ltac:(lia) ltac:(lia) Hfr ltac:(lia)) as (z & -> & ? & _).
Qed.

Lemma buddy_alloc_correct_witness :
  exists z', buddy_alloc_order demo_zone 1 = Ret (Some 16, z') /\ ~ zfree z' 17 /\ rp_refcount (page_of z' 16) = 1.
Proof.
  destruct (buddy_alloc_correct demo_zone 1 demo_zone_wf ltac:(unfold MAX_ORDER; lia)) as (o & z' & Ha & _ & Hres).
  assert (match buddy_alloc_order demo_zone 1 with Ret (o, _) => o = Some 16 | _ => False end) as Ho by (vm_compute; reflexivity).
  rewrite Ha in Ho. subst o. exists z'. split; [exact Ha|]. destruct Hres as (_ & _ & _ & _ & Hf & _ & Hr & _).
  split; [rewrite Hf; intros [_ H]; apply H; unfold in_block; simpl; lia|exact (Hr 16)].
Defined.

