(* ===== verification/PageAlloc.v ===== *)
(** * The page allocator

    Models src/kernel/mem/page_alloc.rs: the per-CPU caches of small blocks in
    front of the buddy allocator, and [GlobalPageAlloc].  The state is the zone
    of the buddy allocator and the caches of the running CPU; preemption is
    disabled around every use of a cache. *)

From S2P Require Import Prelude Address Buddy.

Definition COSTLY_ORDER : Z := 3.
Definition BATCH_SIZE : Z := 64.

(** [PerCpuPageAlloc] and the buddy allocator behind it. *)
Record PageAllocState := mkPA { pa_zone : Zone; pa_batch : Z; pa_lists : list (list Z) }.

Definition percpu_new (z : Zone) : PageAllocState := mkPA z BATCH_SIZE (replicate (Z.to_nat (COSTLY_ORDER + 1)) []).

Definition set_zone (s : PageAllocState) (z : Zone) : PageAllocState := mkPA z (pa_batch s) (pa_lists s).

Definition local_at (s : PageAllocState) (order : Z) : outcome (list Z) :=
  if order <? 0 then Panic else expect (pa_lists s !! Z.to_nat order).
Definition set_local (s : PageAllocState) (order : Z) (l : list Z) : PageAllocState :=
  mkPA (pa_zone s) (pa_batch s) (<[Z.to_nat order := l]> (pa_lists s)).

Definition insert_free_pages (s : PageAllocState) (pfn order : Z) : outcome PageAllocState :=
  l ← local_at s order;
  Ret (set_local s order (pfn :: l)).

Definition local_get_free_pages (s : PageAllocState) (order : Z) : outcome (option Z * PageAllocState) :=
  l ← local_at s order;
  match l with
  | [] => Ret (None, s)
  | pfn :: l => Ret (Some pfn, set_local s order l)
  end.

(** The loop that fills a cache from the buddy allocator. *)
Fixpoint refill (n : nat) (s : PageAllocState) (order : Z) : outcome PageAllocState :=
  match n with
  | O => Ret s
  | S n' =>
      '(o, z) ← buddy_alloc_order (pa_zone s) order;
      match o with
      | Some pfn =>
          s ← insert_free_pages (set_zone s (upd_page z pfn (fun p => flags_set p RP_LOCAL))) pfn order;
          refill n' s order
      | None => Ret (set_zone s z)
      end
  end.

Definition percpu_alloc_order (s : PageAllocState) (order : Z) : outcome (option Z * PageAllocState) :=
  assert_ (order <=? COSTLY_ORDER);;
  '(o, s) ← local_get_free_pages s order;
  match o with
  | Some pfn => Ret (Some pfn, s)
  | None =>
      s ← refill (Z.to_nat (Z.shiftr (pa_batch s) order)) s order;
      local_get_free_pages s order
  end.

Definition percpu_free_pages (s : PageAllocState) (pfn order : Z) : outcome PageAllocState :=
  let p := page_of (pa_zone s) pfn in
  assert_ (rp_order p =? order);;
  assert_ (rp_refcount p =? 0);;
  insert_free_pages (set_zone s (upd_page (pa_zone s) pfn (fun p => set_refcount p 1))) pfn order.

(** [GlobalPageAlloc]. *)
Definition global_alloc_order (s : PageAllocState) (order : Z) : outcome (option Z * PageAllocState) :=
  if COSTLY_ORDER <? order then
    '(o, z) ← buddy_alloc_order (pa_zone s) order; Ret (o, set_zone s z)
  else percpu_alloc_order s order.

Definition global_dealloc (s : PageAllocState) (pfn : Z) : outcome PageAllocState :=
  let order := rp_order (page_of (pa_zone s) pfn) in
  if COSTLY_ORDER <? order then z ← buddy_dealloc (pa_zone s) pfn; Ret (set_zone s z)
  else percpu_free_pages s pfn order.

Definition global_has_management_over (s : PageAllocState) (pfn : Z) : bool :=
  buddy_has_management_over (pa_zone s) pfn &&
  ((COSTLY_ORDER <? rp_order (page_of (pa_zone s) pfn)) || flags_has (page_of (pa_zone s) pfn) RP_LOCAL).

(** [mark_present], as the number of pages left. *)
Fixpoint mark_loop (n : nat) (z : Zone) (pfn : Z) : Zone :=
  match n with
  | O => z
  | S n' => mark_loop n' (upd_page z pfn (fun p => flags_set p RP_PRESENT)) (pfn + 1)
  end.

Definition mark_present (z : Zone) (range : AddrRange) : Zone :=
  let pfn := pfn_of_paddr (ceil (start range)) in
  let end_pfn := pfn_of_paddr (floor (end_ range)) in
  mark_loop (Z.to_nat (end_pfn - pfn)) z pfn.

(** ** The specification *)

Definition lblock (s : PageAllocState) (k p : Z) : Prop :=
  0 <= k <= COSTLY_ORDER /\ exists l, pa_lists s !! Z.to_nat k = Some l /\ p ∈ l.

(** The frames that no one uses: free in the zone or cached. *)
Definition reserved (s : PageAllocState) (x : Z) : Prop :=
  zfree (pa_zone s) x \/ exists k p, lblock s k p /\ in_block k p x.

(** A block handed out: the head carries one reference and the order. *)
Definition block_out (z : Zone) (k p : Z) : Prop :=
  0 <= p /\ p mod 2 ^ k = 0 /\ p + 2 ^ k <= 2 ^ 52 /\
  (forall x, in_block k p x -> is_present (page_of z x) = true /\
     rp_refcount (page_of z x) = if decide (x = p) then 1 else 0) /\
  rp_order (page_of z p) = k /\ is_buddy (page_of z p) = true /\ is_free (page_of z p) = false /\
  (k <= COSTLY_ORDER -> flags_has (page_of z p) RP_LOCAL = true).

Record pa_wf (s : PageAllocState) : Prop := {
  pw_zone : zone_wf no_hole (pa_zone s);
  pw_batch : pa_batch s = BATCH_SIZE;
  pw_len : length (pa_lists s) = Z.to_nat (COSTLY_ORDER + 1);
  pw_nodup : forall i l, pa_lists s !! i = Some l -> NoDup l;
  pw_block : forall k p, lblock s k p -> block_out (pa_zone s) k p;
  pw_apart : forall k p x, lblock s k p -> in_block k p x -> ~ zfree (pa_zone s) x;
  pw_disj : forall k p k' p' x, lblock s k p -> lblock s k' p' -> in_block k p x -> in_block k' p' x -> k = k' /\ p = p'
}.

(** ** Lemmas on the caches *)

Lemma local_at_ok s k : pa_wf s -> 0 <= k <= COSTLY_ORDER -> exists l, local_at s k = Ret l /\ pa_lists s !! Z.to_nat k = Some l.
Proof.
  intros Hwf Hk. unfold local_at. destruct (Z.ltb_spec k 0); [lia|].
  destruct (pa_lists s !! Z.to_nat k) as [l|] eqn:E; [by exists l|].
  apply lookup_ge_None in E. rewrite (pw_len _ Hwf) in E. unfold COSTLY_ORDER in *. lia.
Qed.

Lemma lblock_upd s k l k' p :
  length (pa_lists s) = Z.to_nat (COSTLY_ORDER + 1) -> 0 <= k <= COSTLY_ORDER ->
  lblock (set_local s k l) k' p <-> (k' = k /\ p ∈ l) \/ (k' <> k /\ lblock s k' p).
Proof.
  intros Hlen Hk. unfold lblock, set_local. simpl. destruct (decide (k' = k)) as [->|Hne].
  - rewrite list_lookup_insert_eq by (rewrite Hlen; unfold COSTLY_ORDER in *; lia). naive_solver.
  - split.
    + intros (? & a & Ha & Hp). rewrite list_lookup_insert_ne in Ha by lia. right. eauto.
    + intros [[? _]|(_ & ? & a & Ha & Hp)]; [done|]. split; [done|]. exists a.
      by rewrite list_lookup_insert_ne by lia.
Qed.

Lemma lblock_head_unique s k k' p : pa_wf s -> lblock s k p -> lblock s k' p -> k = k'.
Proof.
  intros Hwf H1 H2. destruct (pw_disj _ Hwf k p k' p p H1 H2) as [? _]; [..|done];
    apply in_block_head; [apply H1|apply H2].
Qed.

Lemma block_out_same z z' k p :
  0 <= k -> (forall x, in_block k p x -> page_of z' x = page_of z x) -> block_out z k p -> block_out z' k p.
Proof.
  intros Hk Hsame (H1 & H2 & H3 & H4 & H5). split; [done|]. split; [done|]. split; [done|].
  rewrite (Hsame p) by (by apply in_block_head). split; [|done]. intros x Hx. rewrite Hsame by done. by apply H4.
Qed.

(** Taking the front of a cache. *)
Lemma local_pop_ok s k :
  pa_wf s -> 0 <= k <= COSTLY_ORDER ->
  exists o s', local_get_free_pages s k = Ret (o, s') /\
    match o with
    | None => s' = s /\ forall p, ~ lblock s k p
    | Some p => lblock s k p /\ pa_wf s' /\ pa_zone s' = pa_zone s /\
        forall x, reserved s' x <-> reserved s x /\ ~ in_block k p x
    end.
Proof.
  intros Hwf Hk. unfold local_get_free_pages. destruct (local_at_ok s k Hwf Hk) as (l & -> & Hl). cbn [mbind outcome_bind].
  destruct l as [|p l].
  - exists None, s. split; [done|]. split; [done|]. intros p (_ & l & Hl' & Hin). simplify_eq. by apply elem_of_nil in Hin.
  - eexists (Some p), _. split; [done|].
    assert (lblock s k p) as Hp by (split; [done|]; exists (p :: l); split; [done|set_solver]).
    pose proof (pw_nodup _ Hwf _ _ Hl) as [Hnin Hnd]%NoDup_cons.
    assert (forall k' q, lblock (set_local s k l) k' q <-> lblock s k' q /\ q <> p) as Hfb.
    { intros k' q. rewrite lblock_upd by (apply Hwf || done). split.
      - intros [(-> & Hin)|(Hne & Hq)].
        + split; [split; [done|]; exists (p :: l); split; [done|set_solver]|]. by intros ->.
        + split; [done|]. intros ->. apply Hne. by eapply lblock_head_unique.
      - intros [Hq Hne]. destruct (decide (k' = k)) as [->|]; [left|by right]. destruct Hq as (_ & l' & Hl' & Hin).
        simplify_eq. split; [done|]. set_solver. }
    split; [done|]. split; [|split; [done|]].
    + split; simpl.
      * apply Hwf.
      * apply Hwf.
      * rewrite length_insert. apply Hwf.
      * intros i l'. rewrite list_lookup_insert_Some. intros [(<- & <- & _)|(_ & ?)]; [done|by eapply (pw_nodup _ Hwf)].
      * intros k' q [? _]%Hfb. by apply (pw_block _ Hwf).
      * intros k' q x [? _]%Hfb. by apply (pw_apart _ Hwf).
      * intros k1 p1 k2 p2 x [? _]%Hfb [? _]%Hfb. by apply (pw_disj _ Hwf).
    + intros x. unfold reserved. simpl. split.
      * intros [Hz|(k' & q & [Hq Hne]%Hfb & Hin)].
        -- split; [by left|]. intros Hin. by eapply (pw_apart _ Hwf k p x).
        -- split; [right; by exists k', q|]. intros Hin'. by destruct (pw_disj _ Hwf k' q k p x) as [_ ?].
      * intros [[Hz|(k' & q & Hq & Hin)] Hnin']; [by left|]. right. exists k', q. split; [|done]. apply Hfb.
        split; [done|]. intros ->. apply Hnin'. by replace k with k' by (by eapply lblock_head_unique).
Qed.

(** The zone may change where it was free. *)
Lemma set_zone_wf s z :
  pa_wf s -> zone_wf no_hole z -> (forall x, zfree z x -> zfree (pa_zone s) x) ->
  (forall x, ~ zfree (pa_zone s) x -> page_of z x = page_of (pa_zone s) x) -> pa_wf (set_zone s z).
Proof.
  intros Hwf Hz Hsub Hsame. split; simpl; try apply Hwf.
  - done.
  - intros k p Hp. change (lblock s k p) in Hp. apply (block_out_same (pa_zone s)); [apply Hp| |by apply (pw_block _ Hwf)].
    intros x Hx. apply Hsame. by apply (pw_apart _ Hwf k p).
  - intros k p x Hp Hx Hzf. by apply (pw_apart _ Hwf k p x Hp Hx), Hsub.
Qed.

(** Putting a block into a cache. *)
Lemma local_insert_ok s k p :
  pa_wf s -> 0 <= k <= COSTLY_ORDER -> block_out (pa_zone s) k p -> (forall x, in_block k p x -> ~ reserved s x) ->
  exists s', insert_free_pages s p k = Ret s' /\ pa_wf s' /\ pa_zone s' = pa_zone s /\
    (forall k' q, lblock s' k' q <-> lblock s k' q \/ (k' = k /\ q = p)) /\
    forall x, reserved s' x <-> reserved s x \/ in_block k p x.
Proof.
  intros Hwf Hk Hout Hdis. unfold insert_free_pages. destruct (local_at_ok s k Hwf Hk) as (l & -> & Hl). cbn [mbind outcome_bind].
  eexists. split; [done|].
  assert (forall k' q, lblock (set_local s k (p :: l)) k' q <-> lblock s k' q \/ (k' = k /\ q = p)) as Hfb.
  { intros k' q. rewrite lblock_upd by (apply Hwf || done). rewrite elem_of_cons. split.
    - intros [(-> & [->|Hin])|(_ & ?)]; [by right| |by left]. left. split; [done|]. by exists l.
    - intros [Hq|[-> ->]]; [|by left; split; [|left]]. destruct (decide (k' = k)) as [->|]; [|by right].
      left. destruct Hq as (_ & l' & Hl' & Hin). simplify_eq. split; [done|by right]. }
  assert (in_block k p p) as Hpp by (apply in_block_head; lia).
  split; [|split; [done|split; [done|]]].
  - split; simpl.
    + apply Hwf.
    + apply Hwf.
    + rewrite length_insert. apply Hwf.
    + intros i l'. rewrite list_lookup_insert_Some. intros [(<- & <- & _)|(_ & ?)]; [|by eapply (pw_nodup _ Hwf)].
      apply NoDup_cons. split; [|by eapply (pw_nodup _ Hwf)]. intros Hin. apply (Hdis p Hpp). right.
      exists k, p. split; [|done]. split; [done|]. by exists l.
    + intros k' q [?|[-> ->]]%Hfb; [by apply (pw_block _ Hwf)|done].
    + intros k' q x [?|[-> ->]]%Hfb Hx; [by apply (pw_apart _ Hwf k' q)|]. intros Hz. apply (Hdis x Hx). by left.
    + intros k1 p1 k2 p2 x [H1|[-> ->]]%Hfb [H2|[-> ->]]%Hfb Hx1 Hx2.
      * by apply (pw_disj _ Hwf _ _ _ _ x).
      * exfalso. apply (Hdis x Hx2). right. by exists k1, p1.
      * exfalso. apply (Hdis x Hx1). right. by exists k2, p2.
      * done.
  - intros x. unfold reserved. simpl. split.
    + intros [?|(k' & q & [?|[-> ->]]%Hfb & ?)]; [by left; left|left; right; by exists k', q|by right].
    + intros [[?|(k' & q & ? & ?)]|?]; [by left|right; exists k', q; rewrite Hfb; auto|right; exists k, p; rewrite Hfb; auto].
Qed.

Lemma set_local_flags pg : 
  is_free (flags_set pg RP_LOCAL) = is_free pg /\ is_buddy (flags_set pg RP_LOCAL) = is_buddy pg /\
  is_present (flags_set pg RP_LOCAL) = is_present pg /\ flags_has (flags_set pg RP_LOCAL) RP_LOCAL = true.
Proof.
  unfold is_free, is_buddy, is_present. change RP_LOCAL with (2 ^ 6). change RP_PRESENT with (2 ^ 0).
  change RP_BUDDY with (2 ^ 2). change RP_FREE with (2 ^ 5). rewrite !has_set by lia. cbn [Z.eqb Pos.eqb].
  by rewrite !orb_false_r, orb_true_r.
Qed.

(** One round of [refill]. *)
Lemma refill_step s z k p :
  pa_wf s -> 0 <= k <= COSTLY_ORDER -> zone_wf no_hole z -> allocated (pa_zone s) z k p ->
  exists s', insert_free_pages (set_zone s (upd_page z p (fun pg => flags_set pg RP_LOCAL))) p k = Ret s' /\
    pa_wf s' /\ (forall k' q, lblock s' k' q <-> lblock s k' q \/ (k' = k /\ q = p)) /\
    (forall x, reserved s' x <-> reserved s x) /\
    (forall x, ~ zfree (pa_zone s) x -> page_of (pa_zone s') x = page_of (pa_zone s) x) /\
    (forall x, zfree (pa_zone s') x -> zfree (pa_zone s) x).
Proof.
  intros Hwf Hk Hz (Hp0 & Hal & Hb & Hin & Hzf & Hpr & Href & Hord & Hbud & Hfr & Hfrm).
  set (f := fun pg => flags_set pg RP_LOCAL). set (z2 := upd_page z p f).
  assert (in_block k p p) as Hpp by (apply in_block_head; lia).
  assert (~ zfree z p) as Hnzp by (rewrite Hzf; tauto).
  assert (forall x, page_of z2 x = if decide (x = p) then f (page_of z p) else page_of z x) as Hpg
    by (intros x; apply page_of_upd).
  destruct (set_local_flags (page_of z p)) as (Hl1 & Hl2 & Hl3 & Hl4).
  assert (zone_wf no_hole z2) as Hz2.
  { apply upd_page_wf; [done| | | |by left]; unfold f; rewrite ?Hl1, ?Hl3, ?Hfr; try done.
    intros k' Hk'. apply Hnzp. exists k', p. split; [done|]. apply in_block_head, Hk'. }
  assert (pa_wf (set_zone s z2)) as Hwf2.
  { apply set_zone_wf; [done|done| |].
    - intros x Hx. change (zfree z x) in Hx. by apply Hzf in Hx as [? _].
    - intros x Hnx. rewrite Hpg, decide_False; [by apply Hfrm|]. intros ->. by apply Hnx, Hin. }
  destruct (local_insert_ok (set_zone s z2) k p Hwf2 Hk) as (s' & -> & Hwf' & Hsz & Hlb & Hres).
  { simpl. split; [done|]. split; [done|]. split; [done|].
    rewrite (Hpg p), decide_True by done. unfold f at 1 2 3 4. rewrite Hl1, Hl2, Hl4. split; [|done].
    intros x Hx. rewrite Hpg. destruct (decide (x = p)) as [->|Hne].
    - unfold f. rewrite Hl3. split; [by apply Hpr|]. simpl. by rewrite Href, decide_True.
    - split; [by apply Hpr|]. rewrite Href, decide_False by done.
      destruct (Hin x Hx) as (k' & p' & Hf & Hx'). destruct (zw_block _ _ (pw_zone _ Hwf) _ _ Hf) as ((_ & _ & _ & Hu) & _).
      by apply Hu. }
  { intros x Hx [Hzx|(k' & q & Hq & Hqx)].
    - change (zfree z x) in Hzx. apply Hzf in Hzx. tauto.
    - change (lblock s k' q) in Hq. by apply (pw_apart _ Hwf k' q x Hq Hqx), Hin. }
  exists s'. split; [done|]. split; [done|]. split; [done|]. rewrite Hsz. split; [|split].
  - intros x. rewrite Hres. unfold reserved. simpl. change (zfree z2 x) with (zfree z x). rewrite Hzf. split.
    + intros [[[? _]|Hl]|Hx]; [by left|by right|]. left. by apply Hin.
    + intros [?|Hl]; [|by left; right]. destruct (decide (in_block k p x)); [by right|by left; left].
  - intros x Hnx. simpl. rewrite Hpg, decide_False; [by apply Hfrm|]. intros ->. by apply Hnx, Hin.
  - simpl. intros x Hx. change (zfree z x) in Hx. by apply Hzf in Hx as [? _].
Qed.

Lemma refill_ok n s k :
  pa_wf s -> 0 <= k <= COSTLY_ORDER ->
  exists s', refill n s k = Ret s' /\ pa_wf s' /\ (forall x, reserved s' x <-> reserved s x) /\
    (forall x, ~ zfree (pa_zone s) x -> page_of (pa_zone s') x = page_of (pa_zone s) x) /\
    (forall p, lblock s k p -> lblock s' k p) /\
    ((0 < n)%nat -> (exists p, lblock s' k p) \/ forall k' p, k <= k' -> ~ fblock (pa_zone s) k' p).
Proof.
  revert s. induction n as [|n IH]; intros s Hwf Hk; cbn [refill].
  { exists s. split_and!; try done. lia. }
  destruct (buddy_alloc_ok (pa_zone s) k (pw_zone _ Hwf)) as (o & z & -> & Hz & Ho);
    [unfold COSTLY_ORDER, MAX_ORDER in *; lia|]. cbn [mbind outcome_bind]. destruct o as [p|].
  2:{ destruct Ho as [-> Hno]. exists s. replace (set_zone s (pa_zone s)) with s by (by destruct s).
      split_and!; try done. by right. }
  destruct (refill_step s z k p Hwf Hk Hz Ho) as (s1 & -> & Hwf1 & Hlb & Hres1 & Hfrm1 & Hsub1). cbn [mbind outcome_bind].
  destruct (IH s1 Hwf1 Hk) as (s2 & -> & Hwf2 & Hres2 & Hfrm2 & Hkeep & _).
  exists s2. split; [done|]. split; [done|]. split; [intros x; by rewrite Hres2|]. split.
  - intros x Hnx. rewrite Hfrm2, Hfrm1 by auto. done.
  - split; [intros q Hq; apply Hkeep, Hlb; by left|]. intros _. left. exists p. apply Hkeep, Hlb. by right.
Qed.

(** ** The page allocator *)

(** C31: The page allocator hands out a block that nobody else has: for every
    order up to the maximum, the block returned is aligned, present, was in
    none of the used frames, and leaves the reserve (the zone and the caches
    together) exactly; its head has one reference and its order, the allocator
    recognises it as its own, and no descriptor of a used frame changes.  It
    fails only when neither the cache nor the zone has a block left. *)
Theorem page_alloc_correct s order :
  pa_wf s -> 0 <= order <= MAX_ORDER ->
  exists o s', global_alloc_order s order = Ret (o, s') /\ pa_wf s' /\
    match o with
    | Some p => block_out (pa_zone s') order p /\ global_has_management_over s' p = true /\
        (forall x, in_block order p x -> reserved s x) /\
        (forall x, reserved s' x <-> reserved s x /\ ~ in_block order p x) /\
        (forall x, ~ reserved s x -> page_of (pa_zone s') x = page_of (pa_zone s) x)
    | None => (forall k p, order <= k -> ~ fblock (pa_zone s) k p) /\ (forall p, ~ lblock s order p)
    end.
Proof.
  intros Hwf Ho. unfold global_alloc_order. destruct (Z.ltb_spec COSTLY_ORDER order) as [Hbig|Hsmall].
  - destruct (buddy_alloc_ok (pa_zone s) order (pw_zone _ Hwf) Ho) as (o & z & -> & Hz & Hres). cbn [mbind outcome_bind].
    exists o, (set_zone s z). split; [done|]. destruct o as [p|].
    2:{ destruct Hres as [-> Hno]. split; [by destruct s|]. split; [done|]. intros p [? _]. lia. }
    destruct Hres as (Hp0 & Hal & Hb & Hin & Hzf & Hpr & Href & Hord & Hbud & Hfr & Hfrm).
    split; [apply set_zone_wf; [done|done| |done]; intros x Hx; by apply Hzf in Hx as [? _]|].
    split.
    { split_and!; try done; [|lia]. intros x Hx. split; [by apply Hpr|]. rewrite Href. destruct (decide (x = p)); [done|].
      destruct (Hin x Hx) as (k' & p' & Hf & Hx'). destruct (zw_block _ _ (pw_zone _ Hwf) _ _ Hf) as ((_ & _ & _ & Hu) & _).
      by apply Hu. }
    split; [|split; [|split]].
    + unfold global_has_management_over, buddy_has_management_over. simpl. rewrite Hfr, Hbud, Hord.
      by destruct (Z.ltb_spec COSTLY_ORDER order); [|lia].
    + intros x Hx. left. by apply Hin.
    + intros x. unfold reserved. simpl. rewrite Hzf. split.
      * intros [[? ?]|(k & q & Hq & Hx)]; [split; [by left|done]|]. split; [right; by exists k, q|]. intros Hx'.
        by apply (pw_apart _ Hwf k q x Hq Hx), Hin.
      * intros [[?|?] ?]; [by left|by right].
    + intros x Hnr. apply Hfrm. intros ?. apply Hnr. by left.
  - unfold percpu_alloc_order. destruct (Z.leb_spec order COSTLY_ORDER); [|lia]. cbn [assert_ mbind outcome_bind].
    assert (forall s0 p, pa_wf s0 -> lblock s0 order p -> forall s', pa_zone s' = pa_zone s0 ->
      block_out (pa_zone s') order p /\ global_has_management_over s' p = true) as Hgood.
    { intros s0 p Hw Hl s' Hs'. rewrite Hs'. pose proof (pw_block _ Hw _ _ Hl) as Hout. split; [done|].
      destruct Hout as (_ & _ & _ & _ & Hord & Hbud & Hfr & Hloc).
      unfold global_has_management_over, buddy_has_management_over. rewrite Hs', Hfr, Hbud, Hloc by done.
      by rewrite orb_true_r. }
    destruct (local_pop_ok s order Hwf ltac:(lia)) as (o & s1 & -> & Hpop). cbn [mbind outcome_bind]. destruct o as [p|].
    + destruct Hpop as (Hl & Hwf1 & Hz1 & Hr1). exists (Some p), s1. split; [done|]. split; [done|].
      destruct (Hgood s p Hwf Hl s1 Hz1) as [? ?]. split; [done|]. split; [done|]. split; [|split; [done|by rewrite Hz1]].
      intros x Hx. right. by exists order, p.
    + destruct Hpop as [-> Hnone].
      destruct (refill_ok (Z.to_nat (Z.shiftr (pa_batch s) order)) s order Hwf ltac:(lia))
        as (s2 & -> & Hwf2 & Hres2 & Hfrm2 & _ & Hgot). cbn [mbind outcome_bind].
      assert (0 < Z.to_nat (Z.shiftr (pa_batch s) order))%nat as Hpos.
      { rewrite (pw_batch _ Hwf), Z.shiftr_div_pow2 by lia. unfold COSTLY_ORDER in *.
        assert (order = 0 \/ order = 1 \/ order = 2 \/ order = 3) as [-> |[-> |[-> | ->]]] by lia; vm_compute; lia. }
      destruct (local_pop_ok s2 order Hwf2 ltac:(lia)) as (o & s3 & -> & Hpop). exists o, s3. split; [done|].
      destruct o as [p|].
      * destruct Hpop as (Hl & Hwf3 & Hz3 & Hr3). split; [done|]. destruct (Hgood s2 p Hwf2 Hl s3 Hz3) as [? ?].
        split; [done|]. split; [done|]. split; [|split].
        -- intros x Hx. apply Hres2. right. by exists order, p.
        -- intros x. by rewrite Hr3, Hres2.
        -- intros x Hnr. rewrite Hz3. apply Hfrm2. intros ?. apply Hnr. by left.
      * destruct Hpop as [-> Hno]. split; [done|]. split; [|done].
        destruct (Hgot Hpos) as [[p Hp]|?]; [|done]. by apply Hno in Hp.
Qed.

(** A block that is to be given back: its last reference is gone. *)
Definition block_returned (s : PageAllocState) (k p : Z) : Prop :=
  rp_order (page_of (pa_zone s) p) = k /\ block_unused (pa_zone s) k p /\ is_buddy (page_of (pa_zone s) p) = true /\
  (k <= COSTLY_ORDER -> flags_has (page_of (pa_zone s) p) RP_LOCAL = true) /\
  forall x, in_block k p x -> ~ reserved s x.

Lemma returned_not_free s k p : pa_wf s -> 0 <= k -> block_returned s k p -> is_free (page_of (pa_zone s) p) = false.
Proof.
  intros Hwf Hk (_ & Hun & Hbud & _ & Hdis). apply (held_not_free _ k); [apply Hwf|done|].
  split; [done|]. split; [done|]. intros x Hx Hz. apply (Hdis x Hx). by left.
Qed.

(** Giving a block back returns exactly its frames to the reserve and keeps
    every used descriptor outside the block; no assertion fails. *)
Theorem page_dealloc_correct s k p :
  pa_wf s -> 0 <= k <= MAX_ORDER -> block_returned s k p ->
  exists s', global_dealloc s p = Ret s' /\ pa_wf s' /\
    (forall x, reserved s' x <-> reserved s x \/ in_block k p x) /\
    (forall x, ~ reserved s x -> ~ in_block k p x -> page_of (pa_zone s') x = page_of (pa_zone s) x).
Proof.
  intros Hwf Hk Hret. pose proof (returned_not_free s k p Hwf ltac:(lia) Hret) as Hnf.
  destruct Hret as (Hord & Hun & Hbud & Hloc & Hdis). unfold global_dealloc. rewrite Hord.
  assert (in_block k p p) as Hpp by (apply in_block_head; lia).
  destruct (Z.ltb_spec COSTLY_ORDER k) as [Hbig|Hsmall].
  - destruct (buddy_dealloc_ok (pa_zone s) p (pw_zone _ Hwf)) as (z & -> & Hz & Hzf & Hfrm); rewrite ?Hord; [done| |].
    { split; [done|]. split; [done|]. intros x Hx Hzx. apply (Hdis x Hx). by left. }
    rewrite Hord in Hzf, Hfrm. cbn [mbind outcome_bind]. exists (set_zone s z). split; [done|]. split; [|split].
    + split; simpl; try apply Hwf; [done| |].
      * intros k' q Hq. change (lblock s k' q) in Hq. apply (block_out_same (pa_zone s)); [apply Hq| |by apply (pw_block _ Hwf)].
        intros x Hx. apply Hfrm; [by apply (pw_apart _ Hwf k' q)|]. intros Hx'. apply (Hdis x Hx'). right. by exists k', q.
      * intros k' q x Hq Hx Hzx. change (lblock s k' q) in Hq. apply Hzf in Hzx as [Hzx|Hx'].
        -- by apply (pw_apart _ Hwf k' q x).
        -- apply (Hdis x Hx'). right. by exists k', q.
    + intros x. unfold reserved. simpl. rewrite Hzf. change (lblock (set_zone s z)) with (lblock s). tauto.
    + intros x Hnr Hnb. simpl. apply Hfrm; [|done]. intros ?. apply Hnr. by left.
  - unfold percpu_free_pages. rewrite Hord, Z.eqb_refl. cbn [assert_ mbind outcome_bind].
    destruct Hun as (Hp0 & Hal & Hb & Hu). destruct (Hu p Hpp) as [Hpr Href]. rewrite Href. cbn [Z.eqb assert_ mbind outcome_bind].
    set (f := fun pg => set_refcount pg 1). set (z := upd_page (pa_zone s) p f).
    assert (~ zfree (pa_zone s) p) as Hnz by (intros ?; apply (Hdis p Hpp); by left).
    assert (forall x, page_of z x = if decide (x = p) then f (page_of (pa_zone s) p) else page_of (pa_zone s) x) as Hpg
      by (intros x; apply page_of_upd).
    assert (zone_wf no_hole z) as Hz.
    { apply upd_page_wf; [apply Hwf| |done| |by right].
      - intros k' Hk'. apply Hnz. exists k', p. split; [done|]. apply in_block_head, Hk'.
      - unfold f. change (is_free (set_refcount (page_of (pa_zone s) p) 1)) with (is_free (page_of (pa_zone s) p)). by rewrite Hnf. }
    assert (pa_wf (set_zone s z)) as Hwf1.
    { split; simpl; try apply Hwf; [done|].
      intros k' q Hq. change (lblock s k' q) in Hq. apply (block_out_same (pa_zone s)); [apply Hq| |by apply (pw_block _ Hwf)].
      intros x Hx. rewrite Hpg, decide_False; [done|]. intros ->. apply (Hdis p Hpp). right. by exists k', q. }
    destruct (local_insert_ok (set_zone s z) k p Hwf1 ltac:(lia)) as (s' & -> & Hwf' & Hsz & _ & Hres').
    + simpl. split; [done|]. split; [done|]. split; [done|].
      split; [|rewrite (Hpg p), decide_True by done; split_and!; done].
      intros x Hx. rewrite Hpg. destruct (decide (x = p)) as [->|]; [done|]. by apply Hu.
    + done.
    + exists s'. split; [done|]. split; [done|]. split; [exact Hres'|]. intros x Hnr Hnb. rewrite Hsz. simpl.
      rewrite Hpg, decide_False; [done|]. by intros ->.
Qed.

(** ** Witnesses *)

Lemma percpu_new_no_block z k p : ~ lblock (percpu_new z) k p.
Proof. intros (_ & l & Hl & Hin). apply lookup_replicate in Hl as [-> _]. by apply elem_of_nil in Hin. Qed.

Lemma percpu_new_wf z : zone_wf no_hole z -> pa_wf (percpu_new z).
Proof.
  intros Hz. split; try done.
  - intros i l [-> _]%lookup_replicate. by apply NoDup_nil.
  - intros k p Hp. by apply percpu_new_no_block in Hp.
  - intros k p x Hp. by apply percpu_new_no_block in Hp.
  - intros k p k' p' x Hp. by apply percpu_new_no_block in Hp.
Qed.

Lemma page_alloc_correct_witness :
  exists p s', global_alloc_order (percpu_new demo_zone) 1 = Ret (Some p, s') /\ reserved (percpu_new demo_zone) p /\ ~ reserved s' p.
Proof.
  destruct (page_alloc_correct (percpu_new demo_zone) 1 (percpu_new_wf _ demo_zone_wf) ltac:(unfold MAX_ORDER; lia))
    as (o & s' & Ha & _ & Hres).
  assert (match global_alloc_order (percpu_new demo_zone) 1 with Ret (Some _, _) => True | _ => False end) as Ho
    by (vm_compute; exact I).
  rewrite Ha in Ho. destruct o as [p|]; [|destruct Ho]. exists p, s'. split; [exact Ha|].
  destruct Hres as (_ & _ & Hin & Hr & _). assert (in_block 1 p p) as Hp by (apply in_block_head; lia).
  split; [by apply Hin|]. rewrite Hr. tauto.
Defined.

(** Frame 20 comes back while nothing is free. *)
Definition demo_returned : PageAllocState :=
  percpu_new (upd_page (zone_new demo_pages) 20 (fun p => flags_set p RP_LOCAL)).

Lemma demo_returned_page x :
  page_of (pa_zone demo_returned) x = if decide (x = 20) then mkRaw 0 69 0 else page_of (zone_new demo_pages) x.
Proof. unfold demo_returned. simpl. rewrite page_of_upd. destruct (decide (x = 20)); [|done]. by rewrite demo_page. Qed.

Lemma page_dealloc_correct_witness :
  exists s', global_dealloc demo_returned 20 = Ret s' /\ reserved s' 20 /\ ~ reserved s' 21.
Proof.
  assert (forall x, ~ zfree (pa_zone demo_returned) x) as Hnz by (intros x; apply (zone_new_no_free demo_pages x)).
  assert (forall x, ~ reserved demo_returned x) as Hnr.
  { intros x [H|(k & p & H & _)]; [by apply Hnz in H|by apply percpu_new_no_block in H]. }
  destruct (page_dealloc_correct demo_returned 0 20) as (s' & Hd & _ & Hr & _).
  - apply percpu_new_wf. apply upd_page_wf; [apply demo_zone_fresh|intros k; apply zone_new_no_block| | |by left]; by rewrite demo_page.
  - unfold MAX_ORDER. lia.
  - split; [by rewrite demo_returned_page|]. split; [|rewrite demo_returned_page; split_and!; done].
    split_and!; try done. intros x [H1 H2]. change (2 ^ 0) with 1 in H2. replace x with 20 by lia. by rewrite demo_returned_page.
  - exists s'. split; [exact Hd|]. rewrite !Hr. unfold in_block. change (2 ^ 0) with 1.
    split; [right; lia|]. intros [H|H]; [by apply Hnr in H|lia].
Defined.
