(* ===== verification/PageTable.v ===== *)
(** * Page table entries and page tables

    Models crates/dlutos_hal/src/arch/riscv64/mm.rs (the Sv48 entries) and
    crates/dlutos_mm/src/page_table/ (levels, the entry iterator, page tables).

    The memory of the page tables is a store [PtMem]: for each table page its
    entries (an entry that was never written reads as 0) and the page frames the
    page allocator will hand out.  The main theorem says that walking a range
    of user pages with the iterator and updating every entry it yields is the
    same as updating a plain map from pages to entries. *)

From S2P Require Import Prelude Address.

(** ** Entries *)

(** [PageAttribute]. *)
Definition PG_PRESENT : Z := 1.
Definition PG_READ : Z := 2.
Definition PG_WRITE : Z := 4.
Definition PG_EXECUTE : Z := 8.
Definition PG_USER : Z := 16.
Definition PG_ACCESSED : Z := 32.
Definition PG_DIRTY : Z := 64.
Definition PG_GLOBAL : Z := 128.
Definition PG_COPY_ON_WRITE : Z := 256.
Definition PG_MAPPED : Z := 512.
Definition PG_ANONYMOUS : Z := 1024.
Definition PG_HUGE : Z := 2048.

(** [TableAttribute]. *)
Definition TB_PRESENT : Z := 1.
Definition TB_USER : Z := 2.
Definition TB_ACCESSED : Z := 4.
Definition TB_GLOBAL : Z := 8.

Definition PA_V : Z := Z.shiftl 1 0.
Definition PA_R : Z := Z.shiftl 1 1.
Definition PA_W : Z := Z.shiftl 1 2.
Definition PA_X : Z := Z.shiftl 1 3.
Definition PA_U : Z := Z.shiftl 1 4.
Definition PA_G : Z := Z.shiftl 1 5.
Definition PA_A : Z := Z.shiftl 1 6.
Definition PA_D : Z := Z.shiftl 1 7.
Definition PA_COW : Z := Z.shiftl 1 8.
Definition PA_MMAP : Z := Z.shiftl 1 9.
Definition PA_SHIFT : Z := 10.
Definition PA_FLAGS_MASK : Z := 0x3ff.

(** [PTE64::set], [PTE64::get]; an entry is its 64 bits. *)
Definition pte_set (pfn attr : Z) : Z := Z.lor (wrap64 (Z.shiftl pfn PA_SHIFT)) attr.
Definition pte_get (pte : Z) : Z * Z := (Z.shiftr pte PA_SHIFT, Z.land pte PA_FLAGS_MASK).
Definition pte_pfn (pte : Z) : Z := (pte_get pte).1.
Definition pte_attr (pte : Z) : Z := (pte_get pte).2.
Definition pte_null : Z := 0.
(** [PTE::take]: what was there, and what is left. *)
Definition pte_take (pte : Z) : (Z * Z) * Z := (pte_get pte, pte_set 0 pte_null).
Definition pte_set_attr (pte attr : Z) : Z := pte_set (pte_pfn pte) attr.

(** Raise flag [to] where bit [from] of the other representation is set. *)
Definition move_flag (x from to : Z) (acc : Z) : Z :=
  if negb (Z.land x from =? 0) then Z.lor acc to else acc.

Definition as_table_attr (raw : Z) : option Z :=
  let table_attr := move_flag raw PA_V TB_PRESENT 0 in
  if bf_contains table_attr TB_PRESENT && negb (Z.land raw (Z.lor PA_R (Z.lor PA_W PA_X)) =? 0)
  then None
  else Some (move_flag raw PA_A TB_ACCESSED
               (move_flag raw PA_U TB_USER (move_flag raw PA_G TB_GLOBAL table_attr))).

Definition as_page_attr (raw : Z) : option Z :=
  let page_attr := move_flag raw PA_V PG_PRESENT 0 in
  if bf_contains page_attr PG_PRESENT && (Z.land raw (Z.lor PA_R (Z.lor PA_W PA_X)) =? 0)
  then None
  else Some (move_flag raw PA_MMAP PG_MAPPED
               (move_flag raw PA_COW PG_COPY_ON_WRITE
               (move_flag raw PA_G PG_GLOBAL
               (move_flag raw PA_D PG_DIRTY
               (move_flag raw PA_A PG_ACCESSED
               (move_flag raw PA_U PG_USER
               (move_flag raw PA_X PG_EXECUTE
               (move_flag raw PA_W PG_WRITE
               (move_flag raw PA_R PG_READ page_attr))))))))).

(** [From<PageAttribute>]: any other flag is [unreachable!]. *)
Definition from_page_attr (a : Z) : outcome Z :=
  assert_ (0 <=? a);;
  assert_ (a <? PG_HUGE);;
  Ret (move_flag a PG_MAPPED PA_MMAP
        (move_flag a PG_COPY_ON_WRITE PA_COW
        (move_flag a PG_GLOBAL PA_G
        (move_flag a PG_DIRTY PA_D
        (move_flag a PG_ACCESSED PA_A
        (move_flag a PG_USER PA_U
        (move_flag a PG_EXECUTE PA_X
        (move_flag a PG_WRITE PA_W
        (move_flag a PG_READ PA_R
        (move_flag a PG_PRESENT PA_V 0)))))))))).

Definition from_table_attr (a : Z) : outcome Z :=
  assert_ (0 <=? a);;
  assert_ (a <? 16);;
  Ret (move_flag a TB_GLOBAL PA_G (move_flag a TB_PRESENT PA_V 0)).

(** ** Levels *)

Record PageTableLevel := mkLevel { nth_bit : Z; level_len : Z }.

Definition level_page_size (l : PageTableLevel) : Z := Z.shiftl 1 (nth_bit l).
Definition max_index (l : PageTableLevel) : Z := Z.shiftl 1 (level_len l) - 1.
Definition index_of (l : PageTableLevel) (vaddr : Z) : Z :=
  Z.land (Z.shiftr vaddr (nth_bit l)) (Z.shiftl 1 (level_len l) - 1) mod 2 ^ 16.

(** [PagingModeSv48::LEVELS]. *)
Definition LEVELS : list PageTableLevel :=
  [mkLevel 39 9; mkLevel 30 9; mkLevel 21 9; mkLevel 12 9].

(** ** The memory of page tables *)

Record PtMem := mkPtMem {
  pt_tables : gmap Z (gmap Z Z);
  pt_free : list Z
}.

Definition pt_entry (m : PtMem) (table idx : Z) : Z :=
  default 0 (t ← pt_tables m !! table; t !! idx).

Definition pt_store (m : PtMem) (table idx v : Z) : PtMem :=
  mkPtMem (<[table := <[idx := v]> (default ∅ (pt_tables m !! table))]> (pt_tables m)) (pt_free m).

(** [Page::alloc_in] followed by [write_bytes(0, 1)]. *)
Definition alloc_zeroed (m : PtMem) : outcome (Z * PtMem) :=
  match pt_free m with
  | [] => Panic
  | p :: free => Ret (p, mkPtMem (<[p := ∅]> (pt_tables m)) free)
  end.

(** ** The entry iterator *)

(** [K::page_table_attributes()]. *)
Definition user_table_attributes : Z := Z.lor TB_PRESENT TB_USER.
Definition kernel_table_attributes : Z := Z.lor TB_PRESENT TB_GLOBAL.

Definition get_page_table (k_attr : Z) (m : PtMem) (table idx : Z) : outcome (Z * PtMem) :=
  let pte := pt_entry m table idx in
  attr ← expect (as_table_attr (pte_attr pte));
  if bf_contains attr TB_PRESENT then Ret (pte_pfn pte, m)
  else
    '(page, m) ← alloc_zeroed m;
    raw ← from_table_attr k_attr;
    Ret (page, pt_store m table idx (pte_set page raw)).

Record PageTableIterator := mkIter {
  it_levels : list PageTableLevel;
  it_remaining : Z;
  it_indicies : list Z;
  it_tables : list (option Z)
}.

(** The loop of [parse_tables_starting_from], over the levels still to parse. *)
Fixpoint parse_loop (k_attr : Z) (m : PtMem) (indicies : list Z) (tables : list (option Z))
    (todo : list nat) : outcome (list (option Z) * PtMem) :=
  match todo with
  | [] => Ret (tables, m)
  | idx :: todo =>
      pt_idx ← expect (indicies !! idx);
      parent ← expect (tables !! idx);
      parent_table ← expect parent;
      '(child, m) ← get_page_table k_attr m parent_table pt_idx;
      parse_loop k_attr m indicies (<[S idx := Some child]> tables) todo
  end.

Definition parse_tables_starting_from (k_attr : Z) (m : PtMem) (it : PageTableIterator) (idx_level : nat)
  : outcome (PageTableIterator * PtMem) :=
  '(tables, m) ← parse_loop k_attr m (it_indicies it) (it_tables it)
                   (seq idx_level (length (it_levels it) - 1 - idx_level));
  Ret (mkIter (it_levels it) (it_remaining it) (it_indicies it) tables, m).

Definition with_levels (k_attr : Z) (m : PtMem) (page_table : Z) (range : AddrRange)
    (levels : list PageTableLevel) : outcome (PageTableIterator * PtMem) :=
  let s := floor (start range) in
  let e := ceil (end_ range) in
  last_level ← expect (last levels);
  let me := mkIter levels (addr_sub e s / level_page_size last_level)
              ((fun l => index_of l s) <$> levels)
              (Some page_table :: replicate 7 None) in
  parse_tables_starting_from k_attr m me 0.

(** The last level whose index is not at its maximum. *)
Fixpoint level_to_bump (levels : list PageTableLevel) (indicies : list Z) (i : nat) : option nat :=
  match levels, indicies with
  | l :: levels, idx :: indicies =>
      match level_to_bump levels indicies (S i) with
      | Some j => Some j
      | None => if idx =? max_index l then None else Some i
      end
  | _, _ => None
  end.

(** [Iterator::next]: the slot it yields is a table and an index. *)
Definition iter_next (k_attr : Z) (m : PtMem) (it : PageTableIterator)
  : outcome (option (Z * Z) * PageTableIterator * PtMem) :=
  if it_remaining it =? 0 then Ret (None, it, m)
  else
    let table_level := (length (it_levels it) - 1)%nat in
    table ← expect (it_tables it !! table_level);
    table ← expect table;
    idx ← expect (it_indicies it !! table_level);
    lvl ← expect (level_to_bump (it_levels it) (it_indicies it) 0);
    let indicies := take lvl (it_indicies it)
                      ++ [default 0 (it_indicies it !! lvl) + 1]
                      ++ replicate (table_level - lvl) 0 in
    '(it, m) ← parse_tables_starting_from k_attr m
                 (mkIter (it_levels it) (it_remaining it - 1) indicies (it_tables it)) lvl;
    Ret (Some (table, idx), it, m).

(** A [for pte in iter] loop: [body] gets the entry and a state, and gives the
    new entry and state. *)
Fixpoint iter_loop {St} (fuel : nat) (k_attr : Z) (m : PtMem) (it : PageTableIterator)
    (body : Z -> St -> Z * St) (s : St) : outcome (PtMem * St) :=
  match fuel with
  | O => Panic
  | S n =>
      '(slot, it, m) ← iter_next k_attr m it;
      match slot with
      | None => Ret (m, s)
      | Some (table, idx) =>
          let (pte, s) := body (pt_entry m table idx) s in
          iter_loop n k_attr (pt_store m table idx pte) it body s
      end
  end.

(** [for pte in page_table.iter_user(range)]; one round per entry and one to end. *)
Definition iter_user {St} (m : PtMem) (root : Z) (range : AddrRange)
    (body : Z -> St -> Z * St) (s : St) : outcome (PtMem * St) :=
  '(it, m) ← with_levels user_table_attributes m root range LEVELS;
  iter_loop (S (Z.to_nat (it_remaining it))) user_table_attributes m it body s.

(** ** Page tables *)

(** [PageTable::clone_in]: the root table is copied and its first half cleared. *)
Definition clone_in (m : PtMem) (root : Z) : outcome (Z * PtMem) :=
  match pt_free m with
  | [] => Panic
  | p :: free =>
      let m := mkPtMem (<[p := default ∅ (pt_tables m !! root)]> (pt_tables m)) free in
      level0 ← expect (head LEVELS);
      Ret (p, foldl (fun m idx => pt_store m p idx (pte_take (pt_entry m p idx)).2) m
                (seqZ 0 (max_index level0 / 2 + 1)))
  end.

(** [drop_page_table_recursive]: the pages it frees, and the memory. *)
Fixpoint drop_page_table_recursive (m : PtMem) (table : Z) (levels : list PageTableLevel)
  : list Z * PtMem :=
  match levels with
  | [] => ([], m)
  | level :: remaining_levels =>
      match remaining_levels with
      | [] => ([], m)
      | _ =>
          foldl (fun '(freed, m) i =>
                   let '((pfn, attr), pte) := pte_take (pt_entry m table i) in
                   let m := pt_store m table i pte in
                   match as_table_attr attr with
                   | None => (freed, m)
                   | Some attr =>
                       if negb (bf_contains attr (Z.lor TB_PRESENT TB_USER)) then (freed, m)
                       else
                         let (f, m) := drop_page_table_recursive m pfn remaining_levels in
                         (freed ++ f ++ [pfn], m)
                   end)
                ([], m) (seqZ 0 (max_index level + 1))
      end
  end.

(** ** Entries: round trips *)

Lemma forallb_seqZ (P : Z -> bool) n :
  forallb P (seqZ 0 n) = true -> forall x, 0 <= x < n -> P x = true.
Proof.
  intros H x Hx. rewrite forallb_forall in H. apply H, list_elem_of_In, elem_of_seqZ. lia.
Qed.

Lemma lor_shiftl_small p a : 0 <= p -> 0 <= a < 1024 -> Z.lor (Z.shiftl p 10) a = p * 1024 + a.
Proof.
  intros Hp Ha. assert (Z.land (Z.shiftl p 10) a = 0) as Hl.
  { apply Z.bits_inj'. intros n Hn. rewrite Z.land_spec, Z.bits_0, Z.shiftl_spec by done.
    destruct (Z.ltb_spec n 10).
    - rewrite Z.testbit_neg_r by lia. done.
    - assert (Z.testbit a n = false) as ->; [|apply andb_false_r].
      destruct (decide (a = 0)) as [->|]; [apply Z.bits_0|]. apply Z.bits_above_log2; [lia|].
      apply Z.lt_le_trans with 10; [|done]. apply Z.log2_lt_pow2; lia. }
  rewrite <- Z.lxor_lor, <- Z.add_nocarry_lxor by done. rewrite Z.shiftl_mul_pow2; lia.
Qed.

Lemma pte_get_set pfn attr :
  0 <= pfn < 2 ^ 54 -> 0 <= attr < 1024 -> pte_get (pte_set pfn attr) = (pfn, attr).
Proof.
  intros Hp Ha. unfold pte_get, pte_set, PA_SHIFT.
  rewrite wrap64_small by (unfold is_u64; rewrite Z.shiftl_mul_pow2; lia).
  rewrite lor_shiftl_small by lia. f_equal.
  - rewrite Z.shiftr_div_pow2 by lia. change (2 ^ 10) with 1024. rewrite Z.div_add_l by lia.
    rewrite Z.div_small; lia.
  - change PA_FLAGS_MASK with (Z.ones 10). rewrite Z.land_ones by lia. change (2 ^ 10) with 1024.
    rewrite Z.add_comm, Z.mod_add by lia. apply Z.mod_small. lia.
Qed.

(** The flags that have a bit in an entry. *)
Definition hw_attr (a : Z) : Prop := 0 <= a < 1024.

Definition leaf_valid (a : Z) : bool :=
  negb (bf_contains a PG_PRESENT && negb (bf_intersects a (Z.lor PG_READ (Z.lor PG_WRITE PG_EXECUTE)))).

Lemma page_attr_roundtrip a :
  hw_attr a -> exists raw, from_page_attr a = Ret raw /\ hw_attr raw /\
    as_page_attr raw = if leaf_valid a then Some a else None.
Proof.
  intros Ha.
  assert (match from_page_attr a with
          | Ret raw => (0 <=? raw) && (raw <? 1024) &&
              bool_decide (as_page_attr raw = if leaf_valid a then Some a else None)
          | _ => false end = true) as Hc.
  { revert a Ha. unfold hw_attr. apply forallb_seqZ. vm_compute. reflexivity. }
  destruct (from_page_attr a) as [raw| |]; [|done..]. exists raw.
  rewrite !andb_true_iff, Z.leb_le, Z.ltb_lt, bool_decide_eq_true in Hc. unfold hw_attr. naive_solver.
Qed.

(** What is stored in a page table entry is what is read back: for every
    frame number of up to 54 bits and every combination of the hardware flags,
    a leaf that is present keeps its flags provided it can be read, written or
    executed, and otherwise it is not a leaf at all. *)
Theorem pte_roundtrip pfn a :
  0 <= pfn < 2 ^ 54 -> 0 <= a < 1024 ->
  exists raw, from_page_attr a = Ret raw /\
    pte_pfn (pte_set pfn raw) = pfn /\
    as_page_attr (pte_attr (pte_set pfn raw)) = if leaf_valid a then Some a else None.
Proof.
  intros Hp Ha. destruct (page_attr_roundtrip a Ha) as (raw & Hf & Hr & Has).
  exists raw. unfold pte_pfn, pte_attr. rewrite pte_get_set by done. by split_and!.
Qed.

Lemma pte_roundtrip_witness :
  exists raw, from_page_attr (Z.lor PG_PRESENT PG_READ) = Ret raw /\
    as_page_attr (pte_attr (pte_set 0x80400 raw)) = Some 3.
Proof.
  destruct (pte_roundtrip 0x80400 (Z.lor PG_PRESENT PG_READ)) as (raw & Hf & _ & Ha).
  - lia.
  - change (Z.lor PG_PRESENT PG_READ) with 3. lia.
  - exists raw. split; [exact Hf|]. rewrite Ha. reflexivity.
Defined.

(** ** Tables as a tree

    [own] gives each table the path (the indices from the root) that leads to
    it.  A path leads to one table, so a table has one parent. *)

(** A present entry of a table that is not a leaf. *)
Definition table_present (pte : Z) : bool :=
  match as_table_attr (pte_attr pte) with
  | Some a => bf_contains a TB_PRESENT
  | None => false
  end.

(** The indices below a table at path [p] that belong to user space. *)
Definition user_index (path : list Z) (i : Z) : Prop :=
  0 <= i < 512 /\ (path = [] -> i < 256).

Definition pt_wf (m : PtMem) (own : gmap Z (list Z)) (root : Z) : Prop :=
  own !! root = Some [] /\
  (forall t path i, own !! t = Some path -> (length path < 3)%nat -> user_index path i ->
     as_table_attr (pte_attr (pt_entry m t i)) <> None /\
     (table_present (pt_entry m t i) = true ->
      own !! pte_pfn (pt_entry m t i) = Some (path ++ [i]))) /\
  NoDup (pt_free m) /\
  (forall p, p ∈ pt_free m -> own !! p = None /\ 0 <= p < 2 ^ 54).

(** The entry that the tables reach along some indices, 0 where a table is
    missing: this is the walk the hardware does. *)
Fixpoint pt_view (m : PtMem) (t : Z) (ix : list Z) : Z :=
  match ix with
  | [] => 0
  | i :: ix' =>
      match ix' with
      | [] => pt_entry m t i
      | _ => if table_present (pt_entry m t i) then pt_view m (pte_pfn (pt_entry m t i)) ix' else 0
      end
  end.

Lemma pt_entry_store m t i v t' i' :
  pt_entry (pt_store m t i v) t' i' = if decide (t = t' /\ i = i') then v else pt_entry m t' i'.
Proof.
  unfold pt_entry, pt_store. simpl. destruct (decide (t = t')) as [<-|Ht].
  - rewrite lookup_insert_eq. simpl. destruct (decide (i = i')) as [<-|Hi].
    + rewrite decide_True by done. by rewrite lookup_insert_eq.
    + rewrite decide_False by naive_solver. rewrite lookup_insert_ne by done.
      by destruct (pt_tables m !! t).
  - rewrite decide_False by naive_solver. by rewrite lookup_insert_ne.
Qed.

Lemma pt_entry_new m p free t i :
  pt_entry (mkPtMem (<[p := ∅]> (pt_tables m)) free) t i = if decide (p = t) then 0 else pt_entry m t i.
Proof.
  unfold pt_entry. simpl. rewrite lookup_insert. case_decide; [|done]. simpl. by rewrite lookup_empty.
Qed.

Lemma table_present_0 : table_present 0 = false.
Proof. reflexivity. Qed.

(** The entry a new user table gets. *)
Lemma new_table_entry page :
  0 <= page < 2 ^ 54 ->
  exists raw, from_table_attr user_table_attributes = Ret raw /\
    pte_pfn (pte_set page raw) = page /\ table_present (pte_set page raw) = true /\
    as_table_attr (pte_attr (pte_set page raw)) <> None.
Proof.
  intros Hp. eexists. split; [reflexivity|]. unfold table_present, pte_pfn, pte_attr.
  rewrite pte_get_set; [|done|vm_compute; by split]. by split_and!.
Qed.

Lemma pt_view_cons m t i j ix :
  pt_view m t (i :: j :: ix) =
  if table_present (pt_entry m t i) then pt_view m (pte_pfn (pt_entry m t i)) (j :: ix) else 0.
Proof. done. Qed.

Lemma pt_view_zero m t ix : (forall i, pt_entry m t i = 0) -> pt_view m t ix = 0.
Proof.
  intros Hz. destruct ix as [|i [|j ix]]; simpl; [done|apply Hz|]. by rewrite Hz.
Qed.

(** Indices that can follow path [path]. *)
Definition user_indices (path ix : list Z) : Prop :=
  Forall (fun i => 0 <= i < 512) ix /\ (path = [] -> forall i, head ix = Some i -> i < 256) /\
  (length path + length ix = 4)%nat.

Lemma user_indices_cons path i ix :
  user_indices path (i :: ix) -> user_index path i /\ user_indices (path ++ [i]) ix.
Proof.
  intros (Hf & Hh & Hl). apply Forall_cons in Hf as [Hi Hf]. split; [split; naive_solver|].
  split_and!; [done| |rewrite length_app; simpl in *; lia].
  intros Hp. by destruct path.
Qed.

(** Hanging a table of zeroes below an empty entry changes no walk. *)
Lemma view_extend m m' own root t path idx :
  pt_wf m own root -> own !! t = Some path -> (length path < 3)%nat ->
  table_present (pt_entry m t idx) = false ->
  (forall q i, is_Some (own !! q) -> ~ (q = t /\ i = idx) -> pt_entry m' q i = pt_entry m q i) ->
  (forall i, pt_entry m' (pte_pfn (pt_entry m' t idx)) i = 0) ->
  forall ix q qpath, own !! q = Some qpath -> user_indices qpath ix -> pt_view m' q ix = pt_view m q ix.
Proof.
  intros (_ & Hcl & _) Ht Hlen Hnp Hsame Hzero. induction ix as [|i ix IH]; intros q qpath Hq Hix; [done|].
  pose proof Hix as (_ & _ & Hl). apply user_indices_cons in Hix as [Hi Hix].
  destruct (decide (q = t /\ i = idx)) as [[-> ->]|Hne].
  - simplify_eq. destruct ix as [|j ix]; [simpl in Hl; lia|].
    rewrite !pt_view_cons, Hnp. destruct (table_present (pt_entry m' t idx)); [|done]. by apply pt_view_zero.
  - specialize (Hsame q i ltac:(eauto) Hne). destruct ix as [|j ix]; [done|].
    rewrite !pt_view_cons, Hsame. destruct (table_present (pt_entry m q i)) eqn:Ep; [|done].
    eapply IH; [|exact Hix]. apply (Hcl q qpath i); try done. simpl in Hl. lia.
Qed.

(** What one step of the walk does to the memory: nothing, or a new table of
    zeroes below the entry. *)
Definition pt_extends (m m' : PtMem) (own own' : gmap Z (list Z)) : Prop :=
  own ⊆ own' /\
  (forall q i, is_Some (own !! q) -> table_present (pt_entry m q i) = true -> pt_entry m' q i = pt_entry m q i) /\
  (forall q qpath ix, own !! q = Some qpath -> user_indices qpath ix -> pt_view m' q ix = pt_view m q ix).

Lemma new_table_ok m own root t path idx page free raw :
  pt_wf m own root -> own !! t = Some path -> (length path < 3)%nat -> user_index path idx ->
  table_present (pt_entry m t idx) = false -> pt_free m = page :: free ->
  from_table_attr user_table_attributes = Ret raw ->
  let m' := pt_store (mkPtMem (<[page := ∅]> (pt_tables m)) free) t idx (pte_set page raw) in
  let own' := <[page := path ++ [idx]]> own in
  pt_wf m' own' root /\ pt_extends m m' own own' /\ own' !! page = Some (path ++ [idx]) /\
  table_present (pt_entry m' t idx) = true /\ pte_pfn (pt_entry m' t idx) = page.
Proof.
  intros Hwf Ht Hlen Hidx Hnp Efree Hraw m' own'. pose proof Hwf as (Hroot & Hcl & Hnd & Hfree).
  destruct (Hfree page) as [Hown Hbound]; [rewrite Efree; set_solver|].
  destruct (new_table_entry page Hbound) as (raw' & Hraw' & Hpfn & Hpres & Hattr).
  assert (raw' = raw) as -> by congruence.
  assert (forall q i, pt_entry m' q i =
            if decide (t = q /\ idx = i) then pte_set page raw else if decide (page = q) then 0 else pt_entry m q i) as He.
  { intros q i. subst m'. rewrite pt_entry_store, pt_entry_new. done. }
  assert (forall q, is_Some (own !! q) -> page <> q) as Hpq by (intros q [? ?] ->; congruence).
  assert (pt_entry m' t idx = pte_set page raw) as Het by (rewrite He, decide_True; done).
  assert (own ⊆ own') as Hsub by (by apply insert_subseteq).
  split; [|split; [|rewrite Het; split; [by apply lookup_insert_eq|by split]]].
  - split_and!; try done.
    + by apply (lookup_weaken own).
    + intros q qpath i Hq Hql Hi. rewrite He. case_decide as Hd.
      * destruct Hd as [-> ->]. split; [done|]. intros _. rewrite Hpfn. subst own'.
        rewrite lookup_insert_ne in Hq by (apply Hpq; eauto). simplify_eq. by rewrite lookup_insert_eq.
      * subst own'. apply lookup_insert_Some in Hq as [[<- <-]|[Hpq' Hq]].
        -- rewrite decide_True by done. split; [done|]. by rewrite table_present_0.
        -- rewrite decide_False by done. destruct (Hcl q qpath i Hq Hql Hi) as [H1 H2].
           split; [done|]. intros Hp. eapply lookup_weaken; [by apply H2|done].
    + simpl. rewrite Efree in Hnd. by apply NoDup_cons in Hnd as [_ ?].
    + simpl. intros p Hp. destruct (Hfree p) as [Hpo Hpb]; [rewrite Efree; set_solver|].
      split; [|done]. subst own'. rewrite lookup_insert_ne; [done|]. intros ->.
      rewrite Efree in Hnd. by apply NoDup_cons in Hnd as [? _].
  - split_and!; [done| |].
    + intros q i Hq Hp. rewrite He. case_decide as Hd; [destruct Hd as [-> ->]; congruence|].
      rewrite decide_False; [done|]. by apply Hpq.
    + intros q qpath ix. apply (view_extend m m' own root t path idx); [done|done|done|done| |].
      * intros q' i Hq' Hne. rewrite He. rewrite !decide_False; [done|by apply Hpq|naive_solver].
      * intros i. rewrite Het, Hpfn, He. rewrite decide_False, decide_True; [done|done|].
        intros [Htp _]. apply (Hpq t); eauto.
Qed.

Lemma pt_extends_refl m own : pt_extends m m own own.
Proof. by split_and!. Qed.

Lemma pt_extends_trans m1 m2 m3 o1 o2 o3 :
  pt_extends m1 m2 o1 o2 -> pt_extends m2 m3 o2 o3 -> pt_extends m1 m3 o1 o3.
Proof.
  intros (Hs1 & He1 & Hv1) (Hs2 & He2 & Hv2).
  assert (forall q p, o1 !! q = Some p -> o2 !! q = Some p) as Hw
    by (intros; eapply lookup_weaken; done).
  split_and!.
  - by transitivity o2.
  - intros q i [p Hq] Hp. rewrite He2; [by apply He1; eauto|by eauto|]. rewrite He1; eauto.
  - intros q qpath ix Hq Hix. rewrite (Hv2 q qpath ix) by eauto. eauto.
Qed.

Lemma get_page_table_ok m own root t path idx :
  pt_wf m own root -> own !! t = Some path -> (length path < 3)%nat -> user_index path idx ->
  pt_free m <> [] ->
  exists child m' own', get_page_table user_table_attributes m t idx = Ret (child, m') /\
    pt_wf m' own' root /\ pt_extends m m' own own' /\ own' !! child = Some (path ++ [idx]) /\
    table_present (pt_entry m' t idx) = true /\ pte_pfn (pt_entry m' t idx) = child /\
    (length (pt_free m) <= S (length (pt_free m')))%nat.
Proof.
  intros Hwf Ht Hlen Hidx Hne. pose proof Hwf as (_ & Hcl & _ & Hfree). unfold get_page_table.
  destruct (Hcl t path idx Ht Hlen Hidx) as [Hsome Hpres].
  destruct (as_table_attr (pte_attr (pt_entry m t idx))) as [attr|] eqn:Ea; [|done].
  cbn [expect mbind outcome_bind].
  assert (table_present (pt_entry m t idx) = bf_contains attr TB_PRESENT) as Htp
    by (unfold table_present; by rewrite Ea).
  destruct (bf_contains attr TB_PRESENT) eqn:Ec.
  { eexists _, m, own. split_and!; try done; eauto using pt_extends_refl. }
  unfold alloc_zeroed. destruct (pt_free m) as [|page free] eqn:Ef; [done|]. cbn [mbind outcome_bind].
  destruct (new_table_entry page) as (raw & Hraw & _); [apply Hfree; set_solver|].
  rewrite Hraw. cbn [mbind outcome_bind].
  destruct (new_table_ok m own root t path idx page free raw) as (? & ? & ? & ? & ?); try done.
  eexists _, _, _. by split_and!.
Qed.

(** ** The iterator follows the walk *)

Definition page_indices (n : Z) : list Z := (fun l => index_of l (n * PAGE_SIZE)) <$> LEVELS.

Lemma index_of_div b n :
  0 <= n -> 0 <= b -> index_of (mkLevel b 9) n = n / 2 ^ b mod 512.
Proof.
  intros Hn Hb. unfold index_of. simpl. rewrite Z.shiftr_div_pow2 by done.
  change (Z.shiftl 1 9 - 1) with (Z.ones 9). rewrite Z.land_ones by lia.
  change (2 ^ 9) with 512. apply Z.mod_small.
  pose proof (Z.mod_pos_bound (n / 2 ^ b) 512). change (2 ^ 16) with 65536. lia.
Qed.

Lemma page_indices_digits a b c d :
  0 <= a < 512 -> 0 <= b < 512 -> 0 <= c < 512 -> 0 <= d < 512 ->
  page_indices (((a * 512 + b) * 512 + c) * 512 + d) = [a; b; c; d].
Proof.
  intros. unfold page_indices, LEVELS, PAGE_SIZE. simpl.
  rewrite !index_of_div by lia.
  set (n := (((a * 512 + b) * 512 + c) * 512 + d) * 4096).
  assert (n / 2 ^ 12 = ((a * 512 + b) * 512 + c) * 512 + d) as E0
    by (apply Z.div_mul; done).
  assert (n / 2 ^ 21 = (a * 512 + b) * 512 + c) as E1.
  { change (2 ^ 21) with (2 ^ 12 * 512). rewrite <- Z.div_div, E0 by lia.
    rewrite Z.div_add_l, Z.div_small by lia. lia. }
  assert (n / 2 ^ 30 = a * 512 + b) as E2.
  { change (2 ^ 30) with (2 ^ 21 * 512). rewrite <- Z.div_div, E1 by lia.
    rewrite Z.div_add_l, Z.div_small by lia. lia. }
  assert (n / 2 ^ 39 = a) as E3.
  { change (2 ^ 39) with (2 ^ 30 * 512). rewrite <- Z.div_div, E2 by lia.
    rewrite Z.div_add_l, Z.div_small by lia. lia. }
  rewrite E0, E1, E2, E3. repeat f_equal; rewrite ?(Z.add_comm _ b), ?(Z.add_comm _ c), ?(Z.add_comm _ d), ?Z.mod_add by lia; apply Z.mod_small; lia.
Qed.

(** The pages of the user half, page number [n] below [2 ^ 35]. *)
Lemma digits n : 0 <= n < 2 ^ 35 -> exists a b c d,
  0 <= a < 256 /\ 0 <= b < 512 /\ 0 <= c < 512 /\ 0 <= d < 512 /\
  n = ((a * 512 + b) * 512 + c) * 512 + d.
Proof.
  intros Hn. exists (n / 512 / 512 / 512), (n / 512 / 512 mod 512), (n / 512 mod 512), (n mod 512).
  pose proof (Z.div_mod n 512). pose proof (Z.div_mod (n / 512) 512). pose proof (Z.div_mod (n / 512 / 512) 512).
  pose proof (Z.mod_pos_bound n 512). pose proof (Z.mod_pos_bound (n / 512) 512).
  pose proof (Z.mod_pos_bound (n / 512 / 512) 512). change (2 ^ 35) with (256 * 512 * 512 * 512) in Hn.
  lia.
Qed.

Lemma page_indices_inj n n' :
  0 <= n < 2 ^ 35 -> 0 <= n' < 2 ^ 35 -> page_indices n = page_indices n' -> n = n'.
Proof.
  intros (a & b & c & d & ? & ? & ? & ? & ->)%digits (a' & b' & c' & d' & ? & ? & ? & ? & ->)%digits.
  rewrite !page_indices_digits by lia. by intros [= -> -> -> ->].
Qed.

Lemma page_indices_user n : 0 <= n < 2 ^ 35 -> user_indices [] (page_indices n).
Proof.
  intros (a & b & c & d & ? & ? & ? & ? & ->)%digits. rewrite page_indices_digits by lia.
  split_and!; [repeat constructor; lia|simpl; intros _ i [= <-]; lia|done].
Qed.

(** Moving to the next page: the level that is bumped, and its indices. *)
Lemma next_page_indices n :
  0 <= n -> n + 1 < 2 ^ 35 ->
  exists lvl, level_to_bump LEVELS (page_indices n) 0 = Some lvl /\ (lvl <= 3)%nat /\
    take lvl (page_indices n) ++ [default 0 (page_indices n !! lvl) + 1] ++ replicate (3 - lvl) 0
      = page_indices (n + 1) /\
    take lvl (page_indices (n + 1)) = take lvl (page_indices n).
Proof.
  intros H0 Hn. destruct (digits n) as (a & b & c & d & ? & ? & ? & ? & ->); [lia|].
  change (2 ^ 35) with (256 * 512 * 512 * 512) in Hn.
  rewrite page_indices_digits by lia. unfold LEVELS. cbn [level_to_bump].
  assert (forall b, max_index (mkLevel b 9) = 511) as Hmax by done. rewrite !Hmax.
  destruct (Z.eqb_spec d 511) as [->|]; [destruct (Z.eqb_spec c 511) as [->|];
    [destruct (Z.eqb_spec b 511) as [->|]; [destruct (Z.eqb_spec a 511) as [->|]; [lia|]|]|]|].
  - exists 0%nat. replace (((a * 512 + 511) * 512 + 511) * 512 + 511 + 1)
      with ((((a + 1) * 512 + 0) * 512 + 0) * 512 + 0) by lia.
    rewrite page_indices_digits by lia. split_and!; [reflexivity|lia|reflexivity|reflexivity].
  - exists 1%nat. replace (((a * 512 + b) * 512 + 511) * 512 + 511 + 1)
      with (((a * 512 + (b + 1)) * 512 + 0) * 512 + 0) by lia.
    rewrite page_indices_digits by lia. split_and!; [reflexivity|lia|reflexivity|reflexivity].
  - exists 2%nat. replace (((a * 512 + b) * 512 + c) * 512 + 511 + 1)
      with (((a * 512 + b) * 512 + (c + 1)) * 512 + 0) by lia.
    rewrite page_indices_digits by lia. split_and!; [reflexivity|lia|reflexivity|reflexivity].
  - exists 3%nat. replace (((a * 512 + b) * 512 + c) * 512 + d + 1)
      with (((a * 512 + b) * 512 + c) * 512 + (d + 1)) by lia.
    rewrite page_indices_digits by lia. split_and!; [reflexivity|lia|reflexivity|reflexivity].
Qed.

(** The tables the iterator holds, down to level [k], are those of the walk
    along [idx]. *)
Definition path_ok (m : PtMem) (own : gmap Z (list Z)) (root : Z) (idx : list Z)
    (tables : list (option Z)) (k : nat) : Prop :=
  length tables = 8%nat /\ tables !! 0%nat = Some (Some root) /\
  (forall j, (j <= k)%nat -> exists t, tables !! j = Some (Some t) /\ own !! t = Some (take j idx)) /\
  (forall j t i, (j < k)%nat -> tables !! j = Some (Some t) -> idx !! j = Some i ->
     table_present (pt_entry m t i) = true /\
     tables !! S j = Some (Some (pte_pfn (pt_entry m t i)))).

Lemma path_ok_extends m m' own own' root idx tables k :
  pt_extends m m' own own' -> path_ok m own root idx tables k -> path_ok m' own' root idx tables k.
Proof.
  intros (Hsub & He & _) (Hl & Hr & Ho & Hp). split_and!; try done.
  - intros j Hj. destruct (Ho j Hj) as (t & Ht & Hot). exists t. split; [done|].
    by eapply lookup_weaken.
  - intros j t i Hj Ht Hi. destruct (Hp j t i Hj Ht Hi) as [Hpr Hs].
    destruct (Ho j) as (t' & Ht' & Hot); [lia|]. simplify_eq. rewrite He; eauto.
Qed.

Lemma user_indices_at idx j i :
  user_indices [] idx -> (j < 3)%nat -> idx !! j = Some i -> user_index (take j idx) i.
Proof.
  intros (Hf & Hh & Hl) Hj Hi. split.
  - by eapply Forall_lookup in Hf.
  - intros Hn. destruct j; [|destruct idx; simpl in *; [done|done]].
    apply Hh; [done|]. by destruct idx.
Qed.

Lemma parse_loop_ok d k m own root idx tables :
  (k + d = 3)%nat -> pt_wf m own root -> user_indices [] idx -> path_ok m own root idx tables k ->
  (d <= length (pt_free m))%nat ->
  exists tables' m' own',
    parse_loop user_table_attributes m idx tables (seq k d) = Ret (tables', m') /\
    pt_wf m' own' root /\ pt_extends m m' own own' /\ path_ok m' own' root idx tables' 3 /\
    (length (pt_free m) <= d + length (pt_free m'))%nat.
Proof.
  revert k m own tables. induction d as [|d IH]; intros k m own tables Hkd Hwf Hix Hpath Hfree.
  { assert (k = 3%nat) as -> by lia. simpl. exists tables, m, own.
    split; [done|]. split; [done|]. split; [apply pt_extends_refl|]. split; [done|lia]. }
  pose proof Hpath as (Hl8 & Hroot & Ho & Hp). pose proof Hix as (_ & _ & Hl4). simpl in Hl4.
  destruct (lookup_lt_is_Some_2 idx k) as [i Hi]; [lia|].
  destruct (Ho k) as (t & Ht & Hot); [lia|].
  assert (length (take k idx) = k) as Hlk by (rewrite length_take; lia).
  destruct (get_page_table_ok m own root t (take k idx) i)
    as (child & m1 & own1 & Hg & Hwf1 & Hext1 & Hoc & Hpr & Hpfn & Hfr); try done; [lia| | |].
  { apply user_indices_at; [done|lia|done]. }
  { intros Hn. rewrite Hn in Hfree. simpl in Hfree. lia. }
  destruct (IH (S k) m1 own1 (<[S k := Some child]> tables)) as (tables' & m2 & own2 & Hl & Hwf2 & Hext2 & Hp2 & Hf2);
    [lia|done|done| |lia|].
  - apply (path_ok_extends m m1 own own1) in Hpath as (_ & _ & Ho1 & Hp1); [|done].
    split_and!; [by rewrite length_insert|by rewrite list_lookup_insert_ne|..].
    + intros j Hj. destruct (decide (j = S k)) as [->|].
      * exists child. rewrite list_lookup_insert_eq by lia. split; [done|].
        by rewrite Hoc, (take_S_r idx k i).
      * rewrite list_lookup_insert_ne by lia. apply Ho1. lia.
    + intros j t' i' Hj. rewrite list_lookup_insert_ne by lia. intros Ht' Hi'.
      destruct (decide (j = k)) as [->|].
      * simplify_eq. split; [done|]. rewrite list_lookup_insert_eq by lia. done.
      * rewrite list_lookup_insert_ne by lia. apply Hp1; [lia|done|done].
  - simpl. rewrite Hi, Ht. cbn [expect mbind outcome_bind]. rewrite Hg. cbn [mbind outcome_bind].
    exists tables', m2, own2. split; [done|]. split; [done|].
    split; [by eapply pt_extends_trans|]. split; [done|lia].
Qed.

(** Only the indices above the level matter. *)
Lemma path_ok_indices m own root idx idx' tables k lvl :
  path_ok m own root idx tables k -> (lvl <= k)%nat -> take lvl idx' = take lvl idx ->
  path_ok m own root idx' tables lvl.
Proof.
  intros (H8 & Hr & Ho & Hp) Hle Ht.
  assert (forall j, (j <= lvl)%nat -> take j idx' = take j idx) as Htj.
  { intros j Hj. replace j with (j `min` lvl)%nat by lia. by rewrite <- !take_take, Ht. }
  split_and!; [done|done| |].
  - intros j Hj. destruct (Ho j) as (q & Hq & Hoq); [lia|]. exists q. split; [done|]. by rewrite Htj.
  - intros j t i Hj Hjt Hi. apply Hp; [lia|done|].
    rewrite <- (lookup_take_lt _ lvl) by lia. rewrite <- Ht. by rewrite lookup_take_lt by lia.
Qed.

(** The walk reaches the entry of the last table. *)
Lemma path_view m own root a b c d tables t :
  path_ok m own root [a; b; c; d] tables 3 -> tables !! 3%nat = Some (Some t) ->
  pt_view m root [a; b; c; d] = pt_entry m t d.
Proof.
  intros (_ & Hr & Ho & Hp) Ht.
  destruct (Hp 0%nat root a) as [P0 E0]; [lia|done|done|].
  destruct (Hp 1%nat _ b ltac:(lia) E0 eq_refl) as [P1 E1].
  destruct (Hp 2%nat _ c ltac:(lia) E1 eq_refl) as [P2 E2]. simplify_eq.
  by rewrite pt_view_cons, P0, pt_view_cons, P1, pt_view_cons, P2.
Qed.

(** ** Writing a leaf entry *)

Lemma leaf_store_wf m own root t path i v :
  pt_wf m own root -> own !! t = Some path -> length path = 3%nat ->
  pt_wf (pt_store m t i v) own root.
Proof.
  intros (Hr & Hcl & Hnd & Hf) Ht Hl. split_and!; try done.
  intros q qpath j Hq Hql Hj. rewrite pt_entry_store. rewrite decide_False; [by apply Hcl|].
  intros [-> _]. simplify_eq. lia.
Qed.

Lemma leaf_store_other m own root t path i v :
  pt_wf m own root -> own !! t = Some path -> length path = 3%nat ->
  forall ix q qpath, own !! q = Some qpath -> user_indices qpath ix -> qpath ++ ix <> path ++ [i] ->
  pt_view (pt_store m t i v) q ix = pt_view m q ix.
Proof.
  intros (_ & Hcl & _) Ht Hl. induction ix as [|j ix IH]; intros q qpath Hq Hix Hne; [done|].
  pose proof Hix as (_ & _ & Hlen). apply user_indices_cons in Hix as [Hj Hix].
  destruct ix as [|j' ix].
  - simpl. rewrite pt_entry_store. rewrite decide_False; [done|]. intros [-> ->]. by simplify_eq.
  - rewrite !pt_view_cons, pt_entry_store, decide_False.
    2:{ intros [-> _]. simplify_eq. simpl in Hlen. lia. }
    destruct (table_present (pt_entry m q j)) eqn:Ep; [|done].
    apply (IH _ (qpath ++ [j])); [|done|by rewrite <- app_assoc].
    apply Hcl; try done. simpl in Hlen. lia.
Qed.

Lemma path_ok_leaf_store m own root idx tables t path i v :
  own !! t = Some path -> length path = 3%nat -> length idx = 4%nat ->
  path_ok m own root idx tables 3 -> path_ok (pt_store m t i v) own root idx tables 3.
Proof.
  intros Ht Hl Hl4 (H8 & Hr & Ho & Hp). split_and!; try done.
  intros j q k Hj Hq Hk. rewrite pt_entry_store, decide_False; [by apply Hp|].
  intros [-> _]. destruct (Ho j) as (q' & Hq' & Hoq); [lia|]. simplify_eq.
  rewrite length_take in Hl. lia.
Qed.

(** ** A page table is a map from pages to entries *)

(** The abstract loop: update the entries of pages [n], [n + 1], ... *)
Fixpoint map_pages {St} (pt : gmap Z Z) (n : Z) (k : nat) (body : Z -> St -> Z * St) (s : St)
  : gmap Z Z * St :=
  match k with
  | O => (pt, s)
  | S k' => let (v, s) := body (default 0 (pt !! n)) s in map_pages (<[n := v]> pt) (n + 1) k' body s
  end.

Definition pt_repr (m : PtMem) (root : Z) (pt : gmap Z Z) : Prop :=
  forall n, 0 <= n < 2 ^ 35 -> pt_view m root (page_indices n) = default 0 (pt !! n).

(** One round: the slot is the one the walk reaches, and the iterator has moved on. *)
Lemma iter_next_ok k m own root it n pt :
  pt_wf m own root -> 0 <= n -> n + 1 < 2 ^ 35 ->
  it_levels it = LEVELS -> it_remaining it = Z.of_nat (S k) -> it_indicies it = page_indices n ->
  path_ok m own root (page_indices n) (it_tables it) 3 ->
  (3 <= length (pt_free m))%nat -> pt_repr m root pt ->
  exists t i path it' m' own', iter_next user_table_attributes m it = Ret (Some (t, i), it', m') /\
    own' !! t = Some path /\ length path = 3%nat /\ page_indices n = path ++ [i] /\
    it_tables it !! 3%nat = Some (Some t) /\ pt_entry m' t i = default 0 (pt !! n) /\
    pt_wf m' own' root /\ pt_repr m' root pt /\
    it_levels it' = LEVELS /\ it_remaining it' = Z.of_nat k /\ it_indicies it' = page_indices (n + 1) /\
    path_ok m' own' root (page_indices n) (it_tables it) 3 /\
    path_ok m' own' root (page_indices (n + 1)) (it_tables it') 3 /\
    (length (pt_free m) <= 3 + length (pt_free m'))%nat.
Proof.
  intros Hwf H0 Hn Hlv Hrem Hidx Hpath Hfree Hrepr.
  destruct (next_page_indices n) as (lvl & Hlvl & Hle & Hnew & Htake); [lia|lia|].
  pose proof (page_indices_user (n + 1) ltac:(lia)) as Hu1.
  pose proof Hpath as (H8 & Hr & Ho & Hp). destruct (Ho 3%nat) as (t & Ht & Hot); [lia|].
  destruct (digits n) as (a & b & c & d & ? & ? & ? & ? & Hd); [lia|].
  assert (page_indices n = [a; b; c; d]) as Hix by (subst n; apply page_indices_digits; lia).
  pose proof (path_ok_indices _ _ _ _ _ _ _ lvl Hpath ltac:(lia) Htake) as Hpath1.
  destruct (parse_loop_ok (3 - lvl) lvl m own root (page_indices (n + 1)) (it_tables it))
    as (tables' & m' & own' & Hl & Hwf' & Hext & Hp' & Hf'); try done; [lia|lia|].
  pose proof (path_ok_extends _ _ _ _ _ _ _ _ Hext Hpath) as Hpath'.
  assert (own' !! t = Some [a; b; c]) as Hot'.
  { destruct Hext as [Hsub _]. eapply lookup_weaken; [|exact Hsub]. by rewrite Hot, Hix. }
  assert (pt_repr m' root pt) as Hrepr'.
  { intros p Hpp. rewrite <- (Hrepr p Hpp). destruct Hext as (_ & _ & Hv).
    apply (Hv root []); [apply Hwf|by apply page_indices_user]. }
  eexists t, d, [a; b; c], _, m', own'. split.
  { unfold iter_next. rewrite Hrem. destruct (Z.eqb_spec (Z.of_nat (S k)) 0); [lia|].
    assert (page_indices n !! 3%nat = Some d) as Hd3 by (by rewrite Hix).
    rewrite Hlv, Hidx. change (length LEVELS - 1)%nat with 3%nat.
    rewrite Ht. cbn [expect mbind outcome_bind]. rewrite Hd3, Hlvl. cbn [expect mbind outcome_bind].
    unfold parse_tables_starting_from. cbn [it_indicies it_tables it_levels].
    change (length LEVELS - 1)%nat with 3%nat. rewrite Hnew.
    rewrite Hl. cbn [mbind outcome_bind]. reflexivity. }
  split; [done|]. split; [done|]. split; [done|]. split; [done|]. split.
  { rewrite <- (Hrepr' n) by lia. rewrite Hix. symmetry.
    rewrite Hix in Hpath'. by apply (path_view m' own' root a b c d (it_tables it)). }
  cbn [it_levels it_remaining it_indicies it_tables]. split_and!; try done; lia.
Qed.

(** Writing the slot of page [n] updates the map at [n]. *)
Lemma leaf_store_repr m own root t path i v n tables pt :
  pt_wf m own root -> own !! t = Some path -> length path = 3%nat ->
  0 <= n < 2 ^ 35 -> page_indices n = path ++ [i] ->
  path_ok m own root (page_indices n) tables 3 -> tables !! 3%nat = Some (Some t) ->
  pt_repr m root pt -> pt_repr (pt_store m t i v) root (<[n := v]> pt).
Proof.
  intros Hwf Ht Hl Hn Hix Hpath Ht3 Hrepr p Hp. rewrite lookup_insert. case_decide as Hd.
  - subst p. destruct path as [|a [|b [|c [|]]]]; try done. cbn [app] in Hix.
    apply (path_ok_leaf_store m own root (page_indices n) tables t [a; b; c] i v) in Hpath;
      [|done|done|by rewrite Hix]. rewrite Hix in *.
    rewrite (path_view _ own root a b c i tables t Hpath Ht3), pt_entry_store. by rewrite decide_True.
  - rewrite <- (Hrepr p Hp). apply (leaf_store_other m own root t path i v Hwf Ht Hl (page_indices p) root []).
    + apply Hwf.
    + by apply page_indices_user.
    + rewrite <- Hix. cbn [app]. intros He. apply Hd. symmetry.
      exact (page_indices_inj p n Hp Hn He).
Qed.

Lemma iter_loop_ok {St} (body : Z -> St -> Z * St) k m own root it n pt s :
  pt_wf m own root -> 0 <= n -> n + Z.of_nat k < 2 ^ 35 ->
  it_levels it = LEVELS -> it_remaining it = Z.of_nat k -> it_indicies it = page_indices n ->
  path_ok m own root (page_indices n) (it_tables it) 3 ->
  (3 * k <= length (pt_free m))%nat -> pt_repr m root pt ->
  exists m' own', iter_loop (S k) user_table_attributes m it body s = Ret (m', (map_pages pt n k body s).2) /\
    pt_wf m' own' root /\ pt_repr m' root (map_pages pt n k body s).1.
Proof.
  revert m own it n pt s.
  induction k as [|k IH]; intros m own it n pt s Hwf H0 Hn Hlv Hrem Hidx Hpath Hfree Hrepr.
  { exists m, own. simpl. unfold iter_next. rewrite Hrem. done. }
  destruct (iter_next_ok k m own root it n pt)
    as (t & i & path & it' & m1 & own1 & Hnx & Ht & Hlp & Hix & Ht3 & Hent & Hwf1 & Hr1 & Hlv' & Hrem' & Hidx'
        & Hp1 & Hp1' & Hf1); try done; [lia|lia|].
  remember (S k) as fuel. cbn [iter_loop map_pages]. rewrite Hnx. cbn [mbind outcome_bind]. rewrite Hent.
  subst fuel. cbn [map_pages]. destruct (body (default 0 (pt !! n)) s) as [v s'].
  apply (IH _ own1); try done; try lia.
  - by eapply leaf_store_wf.
  - by eapply path_ok_leaf_store.
  - simpl. lia.
  - eapply leaf_store_repr; try done. lia.
Qed.

(** The pages of a range. *)
Definition range_first (range : AddrRange) : Z := floor (start range) / PAGE_SIZE.
Definition range_pages (range : AddrRange) : nat :=
  Z.to_nat ((ceil (end_ range) - floor (start range)) / PAGE_SIZE).

(** The loop over the entries of a range, on the map. *)
Definition pt_iter {St} (pt : gmap Z Z) (range : AddrRange) (body : Z -> St -> Z * St) (s : St)
  : gmap Z Z * St :=
  map_pages pt (range_first range) (range_pages range) body s.

Lemma with_levels_ok m own root range :
  pt_wf m own root -> range_wf range -> end_ range <= 2 ^ 47 - PAGE_SIZE ->
  (3 <= length (pt_free m))%nat ->
  exists it m' own', with_levels user_table_attributes m root range LEVELS = Ret (it, m') /\
    it_levels it = LEVELS /\ it_remaining it = Z.of_nat (range_pages range) /\
    it_indicies it = page_indices (range_first range) /\
    pt_wf m' own' root /\ pt_extends m m' own own' /\
    path_ok m' own' root (page_indices (range_first range)) (it_tables it) 3 /\
    (length (pt_free m) <= 3 + length (pt_free m'))%nat /\
    0 <= range_first range /\ range_first range + Z.of_nat (range_pages range) < 2 ^ 35.
Proof.
  intros Hwf Hr He Hfree. unfold range_wf in Hr. pose proof PAGE_SIZE_eq as Hps.
  destruct (floor_spec (start range)) as (Hf1 & Hf2 & Hf3); [unfold is_u64; lia|].
  destruct (ceil_spec (end_ range)) as (Hc1 & Hc2); [lia|].
  set (s := floor (start range)) in *. set (e := ceil (end_ range)) in *.
  assert (s = PAGE_SIZE * (s / PAGE_SIZE)) as Hs by (apply Z.div_exact; [lia|done]).
  assert (e = PAGE_SIZE * (e / PAGE_SIZE)) as Hee by (apply Z.div_exact; [lia|done]).
  assert ((e - s) / PAGE_SIZE = e / PAGE_SIZE - s / PAGE_SIZE) as Hd.
  { rewrite Hs at 1. rewrite Hee at 1. rewrite <- Z.mul_sub_distr_l, Z.mul_comm. apply Z.div_mul. lia. }
  assert (0 <= s / PAGE_SIZE <= e / PAGE_SIZE) as Hle by (rewrite Hps in *; lia).
  assert (range_first range + Z.of_nat (range_pages range) < 2 ^ 35) as Hlt.
  { unfold range_first, range_pages. fold s e. rewrite Hd, Z2Nat.id by lia. rewrite Hps in *. lia. }
  assert (0 <= range_first range) as H0 by (unfold range_first; fold s; lia).
  pose proof (page_indices_user (range_first range) ltac:(lia)) as Hu.
  unfold with_levels. fold s e. cbn [last LEVELS expect mbind outcome_bind].
  assert (path_ok m own root (page_indices (range_first range)) (Some root :: replicate 7 None) 0) as Hp0.
  { split_and!; [done|done| |intros; lia]. intros j Hj. assert (j = 0%nat) as -> by lia.
    exists root. split; [done|]. apply Hwf. }
  destruct (parse_loop_ok 3 0 m own root _ _ eq_refl Hwf Hu Hp0 Hfree)
    as (tables & m' & own' & Hl & Hwf' & Hext & Hp' & Hf').
  assert ((fun l => index_of l s) <$> LEVELS = page_indices (range_first range)) as Hi.
  { unfold page_indices, range_first. fold s. by rewrite Z.mul_comm, <- Hs. }
  unfold parse_tables_starting_from. cbn [it_indicies it_tables it_levels]. rewrite Hi.
  change (length LEVELS - 1 - 0)%nat with 3%nat. rewrite Hl. cbn [mbind outcome_bind].
  eexists _, m', own'. split; [reflexivity|]. cbn [it_levels it_remaining it_indicies it_tables].
  split; [done|]. split.
  { unfold range_pages. fold s e. rewrite Z2Nat.id by (rewrite Hd; lia). unfold addr_sub, level_page_size.
    simpl nth_bit. rewrite wrap64_small by (unfold is_u64; lia). done. }
  split; [done|]. split; [done|]. split; [done|]. split; [done|]. split; [lia|].
  by split.
Qed.

(** C23: The multi-level page table is a map from pages to entries.  Looping
    over the entries of a user range with the iterator, and rewriting each one,
    visits the entry the hardware walk reaches for every page of the range, in
    order and once, leaves the entry of every other user page as it was, and
    keeps the tables a tree.  The range must leave the last user page alone
    (the iterator looks one page ahead) and three free pages per entry are
    enough for the tables it has to add. *)
Theorem iter_user_refines {St} (m : PtMem) own root range (body : Z -> St -> Z * St) (s : St) pt :
  pt_wf m own root -> pt_repr m root pt ->
  range_wf range -> end_ range <= 2 ^ 47 - PAGE_SIZE ->
  (3 + 3 * range_pages range <= length (pt_free m))%nat ->
  exists m' own', iter_user m root range body s = Ret (m', (pt_iter pt range body s).2) /\
    pt_wf m' own' root /\ pt_repr m' root (pt_iter pt range body s).1.
Proof.
  intros Hwf Hrepr Hr He Hfree.
  destruct (with_levels_ok m own root range Hwf Hr He ltac:(lia))
    as (it & m1 & own1 & Hw & Hlv & Hrem & Hidx & Hwf1 & Hext & Hp & Hf & H0 & Hlt).
  unfold iter_user. rewrite Hw. cbn [mbind outcome_bind]. rewrite Hrem, Nat2Z.id.
  apply (iter_loop_ok body (range_pages range) m1 own1); try done; [lia|].
  intros n Hn. rewrite <- (Hrepr n Hn). destruct Hext as (_ & _ & Hv).
  apply (Hv root []); [apply Hwf|by apply page_indices_user].
Qed.

(** The empty user half: no entry of the root is set below index 256. *)
Lemma pt_empty_wf m root :
  (forall i, 0 <= i < 256 -> pt_entry m root i = 0) -> NoDup (pt_free m) ->
  (forall p, p ∈ pt_free m -> p <> root /\ 0 <= p < 2 ^ 54) ->
  pt_wf m {[root := []]} root /\ pt_repr m root ∅.
Proof.
  intros Hz Hnd Hf. split.
  - split_and!; [by apply lookup_singleton_eq| |done|].
    + intros t path i [<- <-]%lookup_singleton_Some _ [Hi Hlt]. rewrite Hz by auto with lia.
      split; [done|]. by rewrite table_present_0.
    + intros p Hp. destruct (Hf p Hp) as [Hne Hb]. split; [|done]. by apply lookup_singleton_ne.
  - intros n (a & b & c & d & ? & ? & ? & ? & ->)%digits. rewrite page_indices_digits by lia.
    rewrite pt_view_cons, Hz by lia. by rewrite table_present_0, lookup_empty.
Qed.

Lemma pt_entry_clear m p l t i :
  pt_entry (foldl (fun m idx => pt_store m p idx (pte_take (pt_entry m p idx)).2) m l) t i =
  if decide (p = t /\ i ∈ l) then 0 else pt_entry m t i.
Proof.
  revert m. induction l as [|j l IH]; intros m; simpl.
  - rewrite decide_False; [done|]. intros [_ Hi]. by apply elem_of_nil in Hi.
  - rewrite IH, pt_entry_store. change (pte_set 0 pte_null) with 0.
    repeat case_decide; try done; set_solver.
Qed.

Lemma pt_free_clear m p l :
  pt_free (foldl (fun m idx => pt_store m p idx (pte_take (pt_entry m p idx)).2) m l) = pt_free m.
Proof. revert m. induction l as [|j l IH]; intros m; simpl; [done|]. by rewrite IH. Qed.

(** A new address space starts with no user mapping and the kernel's half:
    after [clone_in], every user page of the new table is empty, its entries for
    the kernel half are those of the table cloned, and no other table changed. *)
Theorem clone_in_correct m root p free :
  pt_free m = p :: free -> p <> root -> NoDup (pt_free m) ->
  (forall q, q ∈ pt_free m -> 0 <= q < 2 ^ 54) ->
  exists m', clone_in m root = Ret (p, m') /\ pt_wf m' {[p := []]} p /\ pt_repr m' p ∅ /\
    (forall i, 256 <= i -> pt_entry m' p i = pt_entry m root i) /\
    (forall t i, t <> p -> pt_entry m' t i = pt_entry m t i).
Proof.
  intros Hf Hne Hnd Hb. unfold clone_in. rewrite Hf. cbn [expect head LEVELS mbind outcome_bind].
  change (max_index _ / 2 + 1) with 256.
  set (m0 := mkPtMem (<[p := default ∅ (pt_tables m !! root)]> (pt_tables m)) free).
  assert (forall t i, pt_entry m0 t i = pt_entry m (if decide (p = t) then root else t) i) as H0.
  { intros t i. unfold pt_entry, m0. simpl. rewrite lookup_insert. case_decide; [|done].
    simpl. by destruct (pt_tables m !! root). }
  eexists. split; [done|]. rewrite Hf in Hnd. apply NoDup_cons in Hnd as [Hp Hnd].
  pose proof (pt_free_clear m0 p (seqZ 0 256)) as Hfree'.
  pose proof (pt_entry_clear m0 p (seqZ 0 256)) as He.
  match type of Hfree' with pt_free ?x = _ => set (m' := x) in * end. clearbody m'.
  destruct (pt_empty_wf m' p) as [Hwf Hrepr].
  - intros i Hi. rewrite He, decide_True; [done|]. split; [done|]. apply elem_of_seqZ. lia.
  - by rewrite Hfree'.
  - rewrite Hfree'. simpl. intros q Hq. split; [by intros ->|]. apply Hb. rewrite Hf.
    apply elem_of_cons. by right.
  - split_and!; try done.
    + intros i Hi. rewrite He, decide_False, H0, decide_True; [done|done|].
      intros [_ Hin%elem_of_seqZ]. lia.
    + intros t i Ht. rewrite He, decide_False by (by intros [<- _]). rewrite H0, decide_False by congruence. done.
Qed.

(** ** Witnesses *)

Definition demo_mem : PtMem := mkPtMem ∅ (seqZ 100 20).

Lemma demo_mem_wf : pt_wf demo_mem {[1 := []]} 1 /\ pt_repr demo_mem 1 ∅.
Proof.
  apply pt_empty_wf; [done|apply NoDup_seqZ|].
  intros p Hp%elem_of_seqZ. lia.
Qed.

(** Pages 1 and 2 get frames 7 and 8. *)
Definition demo_body (pte s : Z) : Z * Z := (pte_set s 1, s + 1).

Lemma iter_user_refines_witness :
  exists m', iter_user demo_mem 1 (mkRange 0x1000 0x3000) demo_body 7 = Ret (m', 9) /\
    pt_view m' 1 (page_indices 2) = pte_set 8 1.
Proof.
  destruct demo_mem_wf as [Hwf Hrepr].
  destruct (iter_user_refines demo_mem _ 1 (mkRange 0x1000 0x3000) demo_body 7 ∅ Hwf Hrepr)
    as (m' & own' & Hi & _ & Hr').
  - unfold range_wf. simpl. lia.
  - unfold PAGE_SIZE. simpl. lia.
  - vm_compute. lia.
  - exists m'. split; [rewrite Hi; vm_compute; reflexivity|].
    rewrite (Hr' 2) by lia. vm_compute. reflexivity.
Defined.

Lemma clone_in_correct_witness :
  exists m', clone_in demo_mem 1 = Ret (100, m') /\ pt_view m' 100 (page_indices 5) = 0.
Proof.
  destruct (clone_in_correct demo_mem 1 100 (seqZ 101 19)) as (m' & Hc & _ & Hr & _).
  - reflexivity.
  - lia.
  - apply NoDup_seqZ.
  - intros q Hq%elem_of_seqZ. lia.
  - exists m'. split; [exact Hc|]. rewrite (Hr 5) by lia. reflexivity.
Defined.

(** ** Where the code departs from its intent *)

(** [From<TableAttribute>] drops [USER], so the tables made for user space do
    not pass the test of [drop_page_table_recursive] and are never freed: after
    mapping one page, three table pages were taken and none is given back. *)
Theorem user_tables_leak :
  match iter_user demo_mem 1 (mkRange 0x1000 0x2000) demo_body 7 with
  | Ret (m', _) => length (pt_free m') = 17%nat /\ (drop_page_table_recursive m' 1 LEVELS).1 = []
  | _ => False
  end.
Proof. vm_compute. by split. Qed.
