(* ===== verification/MmArea.v ===== *)
(** * Memory areas and page faults in an area

    Models src/kernel/mem/mm_area.rs, src/kernel/mem/mm_list/mapping.rs and the
    reference counting of crates/dlutos_mm/src/paging/page.rs.

    [Phys] is the state of the page frames: the reference count of each
    allocated page (a page without one is free), the bytes of each page, and
    the frames the allocator will hand out.  A [Page] is its frame number. *)

From S2P Require Import Prelude Address PageTable.

(** ** Pages *)

Record Phys := mkPhys {
  ph_refs : gmap Z Z;
  ph_data : gmap Z (list Z);
  ph_free : list Z;
  ph_empty : Z   (** [EMPTY_PAGE] *)
}.

Definition page_bytes (ph : Phys) (pfn : Z) : list Z := default [] (ph_data ph !! pfn).

Definition set_refs (ph : Phys) (m : gmap Z Z) : Phys :=
  mkPhys m (ph_data ph) (ph_free ph) (ph_empty ph).
Definition set_data (ph : Phys) (pfn : Z) (d : list Z) : Phys :=
  mkPhys (ph_refs ph) (<[pfn := d]> (ph_data ph)) (ph_free ph) (ph_empty ph).

(** [Page::from_raw]: the allocator must manage the page. *)
Definition page_from_raw (ph : Phys) (pfn : Z) : outcome Z :=
  match ph_refs ph !! pfn with Some _ => Ret pfn | None => Panic end.

Definition page_clone (ph : Phys) (pfn : Z) : outcome Phys :=
  c ← expect (ph_refs ph !! pfn);
  Ret (set_refs ph (<[pfn := c + 1]> (ph_refs ph))).

(** [Drop for Page]: the last reference gives the page back. *)
Definition page_drop (ph : Phys) (pfn : Z) : outcome Phys :=
  c ← expect (ph_refs ph !! pfn);
  if c =? 0 then Panic
  else if c =? 1 then
    Ret (mkPhys (delete pfn (ph_refs ph)) (ph_data ph) (ph_free ph ++ [pfn]) (ph_empty ph))
  else Ret (set_refs ph (<[pfn := c - 1]> (ph_refs ph))).

Fixpoint pages_drop (ph : Phys) (l : list Z) : outcome Phys :=
  match l with
  | [] => Ret ph
  | pfn :: l' => ph ← page_drop ph pfn; pages_drop ph l'
  end.

Definition is_exclusive (ph : Phys) (pfn : Z) : bool :=
  match ph_refs ph !! pfn with Some c => c =? 1 | None => false end.

(** [Page::alloc]: the contents are whatever the frame held. *)
Definition page_alloc (ph : Phys) : outcome (Z * Phys) :=
  match ph_free ph with
  | [] => Panic
  | p :: free => Ret (p, mkPhys (<[p := 1]> (ph_refs ph)) (ph_data ph) free (ph_empty ph))
  end.

Definition zero_page : list Z := replicate 4096 0.

(** [Page::zeroed]. *)
Definition page_zeroed (ph : Phys) : outcome (Z * Phys) :=
  '(p, ph) ← page_alloc ph;
  Ret (p, set_data ph p zero_page).

(** ** Mappings *)

Record Permission := mkPerm { p_read : bool; p_write : bool; p_execute : bool }.

#[export] Instance Permission_eq_dec : EqDecision Permission.
Proof. solve_decision. Defined.

(** [FileMapping]; a file is its inode number. *)
Record FileMapping := mkFileMapping { fm_file : Z; fm_offset : Z; fm_length : Z }.

#[export] Instance FileMapping_eq_dec : EqDecision FileMapping.
Proof. solve_decision. Defined.

Inductive Mapping :=
| Anonymous
| MFile (m : FileMapping).

#[export] Instance Mapping_eq_dec : EqDecision Mapping.
Proof. solve_decision. Defined.

Definition file_mapping_new (file offset length : Z) : outcome FileMapping :=
  assert_ (Z.land offset (PAGE_SIZE - 1) =? 0);;
  Ret (mkFileMapping file offset length).

Definition file_mapping_offset (m : FileMapping) (offset : Z) : outcome FileMapping :=
  if fm_length m <=? offset then file_mapping_new (fm_file m) (wrap64 (fm_offset m + fm_length m)) 0
  else file_mapping_new (fm_file m) (wrap64 (fm_offset m + offset)) (wrap64 (fm_length m - offset)).

(** ** Areas *)

Record MMArea := mkArea {
  ma_range : AddrRange;
  ma_mapping : Mapping;
  ma_permission : Permission;
  ma_shared : bool
}.

Definition area_grow (a : MMArea) (count : Z) : outcome MMArea :=
  r ← grow (ma_range a) count;
  Ret (mkArea r (ma_mapping a) (ma_permission a) (ma_shared a)).

Definition area_split (a : MMArea) (at_ : Z) : outcome (option MMArea * option MMArea) :=
  assert_ (is_page_aligned at_);;
  match range_cmp (ma_range a) (range_from at_) with
  | Lt => Ret (Some a, None)
  | Gt => Ret (None, Some a)
  | Eq =>
      let diff := addr_sub at_ (start (ma_range a)) in
      if diff =? 0 then Ret (None, Some a)
      else
        right_range ← range_new at_ (end_ (ma_range a));
        mapping ← match ma_mapping a with
                  | Anonymous => Ret Anonymous
                  | MFile m => m ← file_mapping_offset m diff; Ret (MFile m)
                  end;
        let right_area := mkArea right_range mapping (ma_permission a) (ma_shared a) in
        new_range ← shrink (ma_range a) (addr_sub (end_ (ma_range a)) at_);
        Ret (Some (mkArea new_range (ma_mapping a) (ma_permission a) (ma_shared a)), Some right_area)
  end.

(** [handle_cow]: the frame and the flags after the fault. *)
Definition handle_cow (a : MMArea) (ph : Phys) (pfn attr : Z) : outcome (Z * Z * Phys) :=
  assert_ (bf_contains attr PG_COPY_ON_WRITE);;
  let attr := bf_set (bf_remove attr PG_COPY_ON_WRITE) PG_WRITE (p_write (ma_permission a)) in
  page ← page_from_raw ph pfn;
  if is_exclusive ph page then Ret (pfn, attr, ph)
  else
    '(new_page, ph) ←
      (if pfn =? ph_empty ph then page_zeroed ph
       else
         '(new_page, ph) ← page_alloc ph;
         Ret (new_page, set_data ph new_page (page_bytes ph page)));
    let attr := bf_remove attr PG_ACCESSED in
    ph ← page_drop ph page;
    Ret (new_page, attr, ph).

(** The page cache of a file: [None] when the file has none, otherwise what
    [with_page] finds at an offset (the frame of the cached page, [None] beyond
    the end of the file, or an error). *)
Definition PageCaches := Z -> option (Z -> outcome (option Z)).

(** A zeroed page that starts with [cnt] bytes of [page]. *)
Definition private_copy (ph : Phys) (page cnt : Z) : outcome (Z * Phys) :=
  '(new_page, ph) ← page_zeroed ph;
  Ret (new_page, set_data ph new_page
         (take (Z.to_nat cnt) (page_bytes ph page) ++ drop (Z.to_nat cnt) zero_page)).

(** [handle_mmap]; the last component is the cache page marked dirty. *)
Definition handle_mmap (pc : PageCaches) (a : MMArea) (ph : Phys) (attr offset : Z) (write : bool)
  : outcome (Z * Z * Phys * option Z) :=
  match ma_mapping a with
  | Anonymous => Panic
  | MFile m =>
      assert_ (offset <? fm_length m);;
      page_cache ← expect (pc (fm_file m));
      let file_offset := wrap64 (fm_offset m + offset) in
      let cnt_to_read := Z.min (fm_length m - offset) 0x1000 in
      found ← page_cache file_offset;
      page ← ok_or found EINVAL;
      '(pfn, attr, ph, dirty) ←
        (if negb write then
           if ma_shared a then
             ph ← page_clone ph page;
             if p_write (ma_permission a) then Ret (page, bf_insert attr PG_WRITE, ph, Some page)
             else Ret (page, attr, ph, None)
           else
             '(pfn, ph) ←
               (if p_write (ma_permission a) || (cnt_to_read <? PAGE_SIZE) then private_copy ph page cnt_to_read
                else ph ← page_clone ph page; Ret (page, ph));
             Ret (pfn, (if p_write (ma_permission a) then bf_insert attr PG_COPY_ON_WRITE else attr), ph, None)
         else
           if ma_shared a then
             ph ← page_clone ph page; Ret (page, bf_insert attr PG_WRITE, ph, Some page)
           else
             '(pfn, ph) ← private_copy ph page cnt_to_read;
             Ret (pfn, bf_insert attr PG_WRITE, ph, None));
      Ret (pfn, bf_remove (bf_insert attr PG_PRESENT) PG_MAPPED, ph, dirty)
  end.

(** [MMArea::handle]: the new entry and the page marked dirty, or the error
    (what [handle_cow] did to the pages before it stays). *)
Inductive HandleResult :=
| HandleOk (pte : Z) (ph : Phys) (dirty : option Z)
| HandleErr (e : Z) (ph : Phys).

Definition area_handle (pc : PageCaches) (a : MMArea) (ph : Phys) (pte offset : Z) (write : bool)
  : outcome HandleResult :=
  attr ← expect (as_page_attr (pte_attr pte));
  let pfn := pte_pfn pte in
  '(pfn, attr, ph) ← (if bf_contains attr PG_COPY_ON_WRITE then handle_cow a ph pfn attr
                      else Ret (pfn, attr, ph));
  match (if bf_contains attr PG_MAPPED then handle_mmap pc a ph attr offset write
         else Ret (pfn, attr, ph, None)) with
  | Panic => Panic
  | Err e => Ret (HandleErr e ph)
  | Ret (pfn, attr, ph, dirty) =>
      let attr := bf_insert attr PG_ACCESSED in
      let attr := if write then bf_insert attr PG_DIRTY else attr in
      raw ← from_page_attr attr;
      Ret (HandleOk (pte_set pfn raw) ph dirty)
  end.

(** ** Splitting an area *)

(** The page mapping of a file reaches every page of the range. *)
Definition mapping_ok (r : AddrRange) (m : Mapping) : Prop :=
  match m with
  | Anonymous => True
  | MFile m => 0 <= fm_offset m /\ fm_offset m mod PAGE_SIZE = 0 /\
      fm_offset m + (end_ r - start r) < 2 ^ 64 /\
      end_ r - start r - PAGE_SIZE < fm_length m < 2 ^ 64
  end.

Definition area_ok (a : MMArea) : Prop :=
  range_nonempty (ma_range a) /\ start (ma_range a) mod PAGE_SIZE = 0 /\
  end_ (ma_range a) mod PAGE_SIZE = 0 /\ mapping_ok (ma_range a) (ma_mapping a).

(** What backs an address: nothing but zeroes, or a file, an offset in it, and
    the number of bytes from there on that belong to the mapping. *)
Definition backing (a : MMArea) (addr : Z) : option (Z * Z * Z) :=
  match ma_mapping a with
  | Anonymous => None
  | MFile m => Some (fm_file m, fm_offset m + (addr - start (ma_range a)),
                     fm_length m - (addr - start (ma_range a)))
  end.

(** What the process sees at an address of the area. *)
Definition area_attr (a : MMArea) (addr : Z) : Permission * bool * option (Z * Z * Z) :=
  (ma_permission a, ma_shared a, backing a addr).

Lemma land_page_mask x : 0 <= x -> Z.land x (PAGE_SIZE - 1) = x mod PAGE_SIZE.
Proof. intros. change (PAGE_SIZE - 1) with (Z.ones 12). by rewrite Z.land_ones. Qed.

Lemma file_mapping_new_ok f o l :
  0 <= o -> o mod PAGE_SIZE = 0 -> file_mapping_new f o l = Ret (mkFileMapping f o l).
Proof. intros. unfold file_mapping_new. rewrite land_page_mask by done. by rewrite H0. Qed.

Definition set_range (a : MMArea) (r : AddrRange) : MMArea :=
  mkArea r (ma_mapping a) (ma_permission a) (ma_shared a).

(** The part of an area from [at_] on. *)
Definition area_right (a : MMArea) (at_ : Z) : MMArea :=
  let diff := at_ - start (ma_range a) in
  mkArea (mkRange at_ (end_ (ma_range a)))
    (match ma_mapping a with
     | Anonymous => Anonymous
     | MFile m => MFile (mkFileMapping (fm_file m) (fm_offset m + diff) (fm_length m - diff))
     end)
    (ma_permission a) (ma_shared a).

Lemma mod_sub_aligned a b : a mod PAGE_SIZE = 0 -> b mod PAGE_SIZE = 0 -> (a - b) mod PAGE_SIZE = 0.
Proof. intros Ha Hb. by rewrite Zminus_mod, Ha, Hb. Qed.

Lemma mod_add_aligned a b : a mod PAGE_SIZE = 0 -> b mod PAGE_SIZE = 0 -> (a + b) mod PAGE_SIZE = 0.
Proof. intros Ha Hb. by rewrite Zplus_mod, Ha, Hb. Qed.

Lemma aligned_gap a b : a mod PAGE_SIZE = 0 -> b mod PAGE_SIZE = 0 -> a < b -> a + PAGE_SIZE <= b.
Proof.
  intros Ha Hb Hlt. pose proof PAGE_SIZE_eq. rewrite H in *.
  pose proof (Z.div_mod a 4096). pose proof (Z.div_mod b 4096). lia.
Qed.

Lemma area_split_inside a at_ :
  area_ok a -> at_ mod PAGE_SIZE = 0 -> start (ma_range a) < at_ < end_ (ma_range a) ->
  area_split a at_ = Ret (Some (set_range a (mkRange (start (ma_range a)) at_)), Some (area_right a at_)) /\
  area_ok (set_range a (mkRange (start (ma_range a)) at_)) /\ area_ok (area_right a at_).
Proof.
  intros (Hne & Hs & He & Hm) Hat Hin. pose proof Hne as [[? [? ?]] ?]. pose proof PAGE_SIZE_eq as Hps.
  pose proof (aligned_gap at_ (end_ (ma_range a)) Hat He ltac:(lia)) as Hgap.
  split.
  - unfold area_split, is_page_aligned, is_aligned_to, offset_in. rewrite Hat. cbn [Z.eqb assert_ mbind outcome_bind].
    rewrite range_cmp_point by done. destruct (Z.ltb_spec at_ (start (ma_range a))); [lia|].
    destruct (Z.ltb_spec at_ (end_ (ma_range a))); [|lia].
    assert (addr_sub at_ (start (ma_range a)) = at_ - start (ma_range a)) as ->
      by (apply wrap64_small; unfold is_u64; lia).
    destruct (Z.eqb_spec (at_ - start (ma_range a)) 0); [lia|].
    assert (addr_sub (end_ (ma_range a)) at_ = end_ (ma_range a) - at_) as ->
      by (apply wrap64_small; unfold is_u64; lia).
    unfold range_new, shrink, range_len. destruct (Z.leb_spec at_ (end_ (ma_range a))); [|lia].
    cbn [assert_ mbind outcome_bind].
    assert (addr_sub (end_ (ma_range a)) (start (ma_range a)) = end_ (ma_range a) - start (ma_range a)) as ->
      by (apply wrap64_small; unfold is_u64; lia).
    destruct (Z.leb_spec (end_ (ma_range a) - at_) (end_ (ma_range a) - start (ma_range a))); [|lia].
    assert (addr_sub (end_ (ma_range a)) (end_ (ma_range a) - at_) = at_) as ->
      by (unfold addr_sub; rewrite wrap64_small; unfold is_u64; lia).
    unfold range_new. destruct (Z.leb_spec (start (ma_range a)) at_); [|lia].
    unfold area_right, set_range. destruct (ma_mapping a) as [|m] eqn:Em; [done|]. simpl in Hm.
    unfold file_mapping_offset. destruct (Z.leb_spec (fm_length m) (at_ - start (ma_range a))); [lia|].
    rewrite !wrap64_small by (unfold is_u64; lia).
    rewrite file_mapping_new_ok; [|lia|apply mod_add_aligned; [tauto|by apply mod_sub_aligned]].
    done.
  - pose proof (aligned_gap (start (ma_range a)) at_ Hs Hat ltac:(lia)).
    split; (split_and!; [split; [unfold range_wf|]; simpl; lia|done|done|]); simpl.
    + destruct (ma_mapping a); simpl in *; [done|]. split_and!; try tauto; lia.
    + destruct (ma_mapping a) as [|m]; simpl in *; [done|]. destruct Hm as (? & ? & ? & ?).
      split_and!; try lia. apply mod_add_aligned; [done|]. by apply mod_sub_aligned.
Qed.

Lemma area_right_attr a at_ addr : area_attr (area_right a at_) addr = area_attr a addr.
Proof.
  unfold area_attr, area_right, backing. simpl. destruct (ma_mapping a); simpl; [done|].
  do 2 f_equal. apply pair_equal_spec. split; [apply pair_equal_spec; split; [done|]|]; lia.
Qed.

Lemma set_range_attr a e addr :
  area_attr (set_range a (mkRange (start (ma_range a)) e)) addr = area_attr a addr.
Proof. done. Qed.

(** ** Copy on write *)

(** The frames the allocator has are not in use, and the empty page is zero. *)
Definition phys_ok (ph : Phys) : Prop :=
  (forall p, p ∈ ph_free ph -> ph_refs ph !! p = None /\ 0 <= p < 2 ^ 54) /\
  (forall p c, ph_refs ph !! p = Some c -> 1 <= c /\ 0 <= p < 2 ^ 54) /\
  page_bytes ph (ph_empty ph) = zero_page.

Definition cow_flags (a : MMArea) (attr : Z) : Z :=
  bf_set (bf_remove attr PG_COPY_ON_WRITE) PG_WRITE (p_write (ma_permission a)).

(** A copy-on-write fault leaves a page of our own with the same bytes; every
    other page keeps its bytes, and the shared page loses our reference. *)
Lemma handle_cow_ok a ph pfn attr c :
  phys_ok ph -> ph_refs ph !! pfn = Some c -> ph_free ph <> [] ->
  bf_contains attr PG_COPY_ON_WRITE = true ->
  exists pfn' attr' ph', handle_cow a ph pfn attr = Ret (pfn', attr', ph') /\
    attr' = (if c =? 1 then cow_flags a attr else bf_remove (cow_flags a attr) PG_ACCESSED) /\
    is_exclusive ph' pfn' = true /\ page_bytes ph' pfn' = page_bytes ph pfn /\
    (forall q, is_Some (ph_refs ph !! q) -> q <> pfn -> ph_refs ph' !! q = ph_refs ph !! q) /\
    (forall q, is_Some (ph_refs ph !! q) -> page_bytes ph' q = page_bytes ph q) /\
    (pfn' <> pfn -> ph_refs ph' !! pfn = Some (c - 1) /\ ph_refs ph !! pfn' = None) /\
    0 <= pfn' < 2 ^ 54.
Proof.
  intros (Hfree & Hrefs & Hempty) Hc Hne Hcow. unfold handle_cow. rewrite Hcow. cbn [assert_ mbind outcome_bind].
  unfold page_from_raw. rewrite Hc. cbn [mbind outcome_bind]. unfold is_exclusive at 1. rewrite Hc.
  destruct (Hrefs pfn c Hc) as [Hc1 Hb].
  destruct (Z.eqb_spec c 1) as [->|Hc1'].
  { exists pfn. eexists _, ph. split; [done|]. split; [done|]. unfold is_exclusive. rewrite Hc.
    split_and!; try done; lia. }
  destruct (ph_free ph) as [|p free] eqn:Ef; [done|].
  destruct (Hfree p) as [Hp Hpb]; [set_solver|].
  assert (p <> pfn) as Hpp by congruence.
  set (ph1 := mkPhys (<[p := 1]> (ph_refs ph)) (<[p := page_bytes ph pfn]> (ph_data ph)) free (ph_empty ph)).
  assert ((if pfn =? ph_empty ph then page_zeroed ph
           else '(new_page, ph) ← page_alloc ph; Ret (new_page, set_data ph new_page (page_bytes ph pfn)))
          = Ret (p, ph1)) as ->.
  { unfold page_zeroed, page_alloc. rewrite Ef. destruct (Z.eqb_spec pfn (ph_empty ph)) as [->|]; [|done].
    subst ph1. rewrite Hempty. done. }
  cbn [mbind outcome_bind]. unfold page_drop, ph1. cbn [ph_refs].
  rewrite lookup_insert_ne by done. rewrite Hc. cbn [expect mbind outcome_bind].
  destruct (Z.eqb_spec c 0); [lia|]. destruct (Z.eqb_spec c 1); [lia|]. cbn [mbind outcome_bind].
  eexists p, _, _. split; [done|]. split; [done|]. unfold is_exclusive, page_bytes. simpl.
  split_and!; try done.
  - rewrite lookup_insert_ne, lookup_insert_eq by done. done.
  - by rewrite lookup_insert_eq.
  - intros q [x Hq] Hqn. rewrite !lookup_insert_ne by congruence. done.
  - intros q [x Hq]. rewrite lookup_insert_ne by congruence. done.
  - intros _. by rewrite lookup_insert_eq.
  - apply Hpb.
  - apply Hpb.
Qed.

(** The flags [handle] stores for a copy-on-write page. *)
Definition cow_result (w excl write : bool) (attr : Z) : Z :=
  let attr := bf_set (bf_remove attr PG_COPY_ON_WRITE) PG_WRITE w in
  let attr := if excl then attr else bf_remove attr PG_ACCESSED in
  let attr := bf_insert attr PG_ACCESSED in
  if write then bf_insert attr PG_DIRTY else attr.

Definition cow_page (attr : Z) : bool :=
  bf_contains attr (Z.lor PG_PRESENT (Z.lor PG_READ PG_COPY_ON_WRITE)) && negb (bf_contains attr PG_MAPPED).

Definition cow_result_ok (w excl write : bool) (attr : Z) : bool :=
  let r := cow_result w excl write attr in
  (0 <=? r) && (r <? 1024) && leaf_valid r && bf_contains r PG_PRESENT &&
  negb (bf_contains r PG_COPY_ON_WRITE) && Bool.eqb (bf_contains r PG_WRITE) w &&
  Bool.eqb (bf_contains r PG_USER) (bf_contains attr PG_USER).

Lemma cow_result_spec w excl write attr :
  hw_attr attr -> cow_page attr = true ->
  bf_contains attr PG_COPY_ON_WRITE = true /\
  bf_contains (if excl : bool then bf_set (bf_remove attr PG_COPY_ON_WRITE) PG_WRITE w
               else bf_remove (bf_set (bf_remove attr PG_COPY_ON_WRITE) PG_WRITE w) PG_ACCESSED) PG_MAPPED = false /\
  cow_result_ok w excl write attr = true.
Proof.
  intros Ha Hc.
  assert (implb (cow_page attr)
    (bf_contains attr PG_COPY_ON_WRITE &&
     negb (bf_contains (if excl : bool then bf_set (bf_remove attr PG_COPY_ON_WRITE) PG_WRITE w
               else bf_remove (bf_set (bf_remove attr PG_COPY_ON_WRITE) PG_WRITE w) PG_ACCESSED) PG_MAPPED) &&
     cow_result_ok w excl write attr) = true) as Hall.
  { clear Hc. revert attr Ha. unfold hw_attr. apply forallb_seqZ.
    destruct w, excl, write; vm_compute; reflexivity. }
  rewrite Hc in Hall. simpl in Hall. rewrite !andb_true_iff, negb_true_iff in Hall. tauto.
Qed.

(** The copy-on-write fault on the entry. *)
Lemma cow_fault_ok pc a ph pfn attr raw c offset write :
  phys_ok ph -> ph_refs ph !! pfn = Some c -> ph_free ph <> [] ->
  hw_attr attr -> cow_page attr = true -> from_page_attr attr = Ret raw ->
  exists pte' ph' attr', area_handle pc a ph (pte_set pfn raw) offset write = Ret (HandleOk pte' ph' None) /\
    as_page_attr (pte_attr pte') = Some attr' /\
    bf_contains attr' PG_PRESENT = true /\ bf_contains attr' PG_COPY_ON_WRITE = false /\
    bf_contains attr' PG_WRITE = p_write (ma_permission a) /\
    is_exclusive ph' (pte_pfn pte') = true /\
    page_bytes ph' (pte_pfn pte') = page_bytes ph pfn /\
    (forall q, is_Some (ph_refs ph !! q) -> page_bytes ph' q = page_bytes ph q) /\
    (forall q, is_Some (ph_refs ph !! q) -> q <> pfn -> ph_refs ph' !! q = ph_refs ph !! q) /\
    (pte_pfn pte' <> pfn -> ph_refs ph' !! pfn = Some (c - 1)).
Proof.
  intros Hph Hc Hfree Ha Hcow Hraw. pose proof Hph as (_ & Hrefs & _). destruct (Hrefs pfn c Hc) as [_ Hpfn].
  destruct (page_attr_roundtrip attr Ha) as (raw' & Hr' & Hrb & Has). simplify_eq.
  assert (raw' = raw) as -> by congruence.
  assert (leaf_valid attr = true) as Hlv.
  { assert (implb (cow_page attr) (leaf_valid attr) = true) as Hi
      by (clear -Ha; revert attr Ha; unfold hw_attr; apply forallb_seqZ; vm_compute; reflexivity).
    by rewrite Hcow in Hi. }
  rewrite Hlv in Has.
  destruct (cow_result_spec (p_write (ma_permission a)) (c =? 1) write attr Ha Hcow) as (Hcc & Hnm & Hres).
  destruct (handle_cow_ok a ph pfn attr c Hph Hc Hfree Hcc)
    as (pfn' & attr' & ph' & Hh & Hattr' & Hex & Hby & Hrf & Hdt & Hold & Hb').
  unfold area_handle, pte_attr, pte_pfn. rewrite pte_get_set by done. cbn [fst snd]. rewrite Has.
  cbn [expect mbind outcome_bind]. rewrite Hcc, Hh. cbn [mbind outcome_bind].
  replace (bf_contains attr' PG_MAPPED) with false by (rewrite Hattr'; unfold cow_flags; by destruct (c =? 1)).
  cbn [mbind outcome_bind].
  assert ((if write then bf_insert (bf_insert attr' PG_ACCESSED) PG_DIRTY else bf_insert attr' PG_ACCESSED)
          = cow_result (p_write (ma_permission a)) (c =? 1) write attr) as ->
    by (rewrite Hattr'; unfold cow_result, cow_flags; by destruct (c =? 1), write).
  unfold cow_result_ok in Hres. set (r := cow_result _ _ _ _) in *. clearbody r.
  rewrite !andb_true_iff, negb_true_iff, Z.leb_le, Z.ltb_lt, !eqb_true_iff in Hres.
  destruct Hres as ((((((H0 & H1) & H2) & H3) & H4) & H5) & H6).
  destruct (page_attr_roundtrip r (conj H0 H1)) as (raw2 & Hf2 & Hb2 & Has2). rewrite Hf2. cbn [mbind outcome_bind].
  eexists _, ph', r. split; [done|]. rewrite pte_get_set by done. cbn [fst snd]. rewrite H2 in Has2.
  split_and!; try done. intros Hne. by apply Hold.
Qed.

(** Three processes share the empty page; one of them touches it. *)
Definition demo_phys : Phys := mkPhys {[5 := 3]} {[5 := zero_page]} [9] 5.

Lemma demo_phys_ok : phys_ok demo_phys.
Proof.
  split_and!.
  - intros p [->|Hp%elem_of_nil]%elem_of_cons; [|done]. simpl.
    split; [by apply lookup_singleton_ne|lia].
  - unfold demo_phys. cbn [ph_refs]. intros p c [<- <-]%lookup_singleton_Some. lia.
  - unfold page_bytes. simpl. by rewrite lookup_singleton_eq.
Qed.

Definition demo_area : MMArea := mkArea (mkRange 0x1000 0x2000) Anonymous (mkPerm true true false) false.
