(* ===== verification/MmList.v ===== *)
(** * Address spaces

    Models src/kernel/mem/mm_list.rs, src/kernel/mem/mm_list/page_fault.rs and
    the memory system calls of src/kernel/syscall/mm.rs.

    An address space is its ordered set of areas, its program break and its
    page table, here the map from pages to entries that PageTable.v shows the
    real one to be.  The areas are kept in a [BTreeSet] ordered by
    [AddrRange::cmp]; a set is the list of its elements and a search compares
    the key with them from the left, as a node of the tree does.

    The reference specification is [mm_lookup]: what an address is mapped to. *)

From Stdlib Require Import Sorted.
From S2P Require Import Prelude Address PageTable MmArea.

(** ** [BTreeSet<MMArea>] *)

(** The place of the key, and whether an equal element is there. *)
Fixpoint bt_search (key : AddrRange) (l : list MMArea) : nat * bool :=
  match l with
  | [] => (0%nat, false)
  | a :: l' =>
      match range_cmp key (ma_range a) with
      | Gt => let (i, found) := bt_search key l' in (S i, found)
      | Eq => (0%nat, true)
      | Lt => (0%nat, false)
      end
  end.

Definition areas_get (key : AddrRange) (l : list MMArea) : option MMArea :=
  let (i, found) := bt_search key l in if found then l !! i else None.

(** [insert] does not replace an equal element. *)
Definition areas_insert (a : MMArea) (l : list MMArea) : list MMArea :=
  let (i, found) := bt_search (ma_range a) l in
  if found then l else take i l ++ [a] ++ drop i l.

(** [range(lo..=hi)]. *)
Definition areas_range (lo hi : AddrRange) (l : list MMArea) : outcome (list MMArea) :=
  match range_cmp lo hi with
  | Gt => Panic
  | _ =>
      let (i, _) := bt_search lo l in
      let (j, found) := bt_search hi l in
      Ret (take ((if found then S j else j) - i) (drop i l))
  end.

(** ** [AreasList] *)

Definition overlapping_addr (l : list MMArea) (addr : Z) : option MMArea := areas_get (range_from addr) l.

Definition check_overlapping_addr (l : list MMArea) (addr : Z) : bool :=
  vaddr_is_user addr && match overlapping_addr l addr with None => true | Some _ => false end.

Definition overlapping_range (l : list MMArea) (range : AddrRange) : outcome (list MMArea) :=
  let (lo, hi) := into_bounds range in areas_range lo hi l.

Definition check_overlapping_range (l : list MMArea) (range : AddrRange) : outcome bool :=
  if range_is_user range then
    os ← overlapping_range l range;
    Ret (match os with [] => true | _ => false end)
  else Ret false.

(** ** [MMListLocked] *)

Record MMList := mkMM {
  mm_areas : list MMArea;
  mm_break_start : option AddrRange;
  mm_break_pos : option Z;
  mm_pt : gmap Z Z
}.

Definition set_areas (mm : MMList) (l : list MMArea) (pt : gmap Z Z) : MMList :=
  mkMM l (mm_break_start mm) (mm_break_pos mm) pt.

Definition random_start : Z := 0x1234000.

(** The loop of [find_available]; it runs at most once per area and once more. *)
Fixpoint find_available_loop (fuel : nat) (l : list MMArea) (range : AddrRange) (len : Z) : outcome (option Z) :=
  match fuel with
  | O => Panic
  | S n =>
      if negb (range_is_user range) then Ret None
      else
        os ← overlapping_range l range;
        match last os with
        | None => Ret (Some (start range))
        | Some area =>
            range ← grow (range_from (ceil (end_ (ma_range area)))) len;
            find_available_loop n l range len
        end
  end.

Definition mm_find_available (mm : MMList) (hint len : Z) : outcome (option Z) :=
  let len := wrap64 (div_ceil len PAGE_SIZE * PAGE_SIZE) in
  let hint := if hint =? 0 then random_start else floor hint in
  range ← grow (range_from hint) len;
  find_available_loop (S (length (mm_areas mm))) (mm_areas mm) range len.

(** ** [MMListInner] *)

Definition MAPPED_GLOBAL : Z := Z.lor PG_MAPPED PG_GLOBAL.

(** The page behind an entry that was taken, when the address space owns it. *)
Definition taken_page (pfn_attr : Z * Z) : option Z :=
  attr ← as_page_attr pfn_attr.2;
  if negb (bf_contains attr PG_PRESENT) || bf_contains attr MAPPED_GLOBAL then None
  else Some pfn_attr.1.

(** The loop over the entries of the unmapped part of an area: it collects the
    pages (to be freed later, or dropped at once for a shared area). *)
Definition unmap_pte (pte : Z) (pages : list Z) : Z * list Z :=
  let (pfn_attr, pte) := pte_take pte in
  match taken_page pfn_attr with
  | Some pfn => (pte, pages ++ [pfn])
  | None => (pte, pages)
  end.

Record UnmapState := mkUnmap {
  um_left : option MMArea;
  um_right : option MMArea;
  um_free : list Z;
  um_dropped : list Z;
  um_pt : gmap Z Z
}.

Definition is_none {A} (o : option A) : bool := match o with None => true | Some _ => false end.

(** The closure given to [retain]: whether the area stays, and the state. *)
Definition unmap_area (range_to_unmap : AddrRange) (a : MMArea) (s : UnmapState) : outcome (bool * UnmapState) :=
  masked ← mask_with_checked (ma_range a) range_to_unmap;
  match masked with
  | None => Ret (true, s)
  | Some (left_part, mid, right_part) =>
      let '(pt, free, dropped) :=
        if ma_shared a then
          let (pt, d) := pt_iter (um_pt s) mid unmap_pte (um_dropped s) in (pt, um_free s, d)
        else
          let (pt, f) := pt_iter (um_pt s) mid unmap_pte (um_free s) in (pt, f, um_dropped s) in
      match left_part, right_part with
      | None, None => Ret (false, mkUnmap (um_left s) (um_right s) free dropped pt)
      | Some l, None =>
          assert_ (is_none (um_left s));;
          '(l, _) ← area_split a (end_ l);
          l ← expect l;
          Ret (false, mkUnmap (Some l) (um_right s) free dropped pt)
      | None, Some r =>
          assert_ (is_none (um_right s));;
          '(_, r) ← area_split a (start r);
          r ← expect r;
          Ret (false, mkUnmap (um_left s) (Some r) free dropped pt)
      | Some l, Some r =>
          assert_ (is_none (um_left s));;
          assert_ (is_none (um_right s));;
          '(l, m) ← area_split a (end_ l);
          l ← expect l;
          m ← expect m;
          '(_, r) ← area_split m (start r);
          r ← expect r;
          Ret (false, mkUnmap (Some l) (Some r) free dropped pt)
      end
  end.

Fixpoint areas_retain (range : AddrRange) (l : list MMArea) (s : UnmapState) : outcome (list MMArea * UnmapState) :=
  match l with
  | [] => Ret ([], s)
  | a :: l' =>
      '(keep, s) ← unmap_area range a s;
      '(rest, s) ← areas_retain range l' s;
      Ret ((if keep : bool then a :: rest else rest), s)
  end.

Definition insert_opt (o : option MMArea) (l : list MMArea) : list MMArea :=
  match o with Some a => areas_insert a l | None => l end.

(** [MMListInner::unmap]: the pages to free and the pages dropped on the way. *)
Definition inner_unmap (mm : MMList) (start_ len : Z) : outcome (MMList * list Z * list Z) :=
  assert_ (floor start_ =? start_);;
  let e := ceil (addr_add start_ len) in
  range_to_unmap ← range_new start_ e;
  if negb (range_is_user range_to_unmap) then Err EINVAL
  else
    '(areas, s) ← areas_retain range_to_unmap (mm_areas mm) (mkUnmap None None [] [] (mm_pt mm));
    let areas := insert_opt (um_right s) (insert_opt (um_left s) areas) in
    Ret (set_areas mm areas (um_pt s), um_free s, um_dropped s).

(** What [protect] does to the flags of an entry. *)
Definition protect_attr (perm : Permission) (page_attr : Z) : Z :=
  if negb (p_read perm) && negb (p_write perm) && negb (p_execute perm) then
    bf_remove page_attr (Z.lor PG_PRESENT (Z.lor PG_READ (Z.lor PG_WRITE PG_EXECUTE)))
  else
    let page_attr := bf_set page_attr PG_READ (p_read perm) in
    let page_attr := if negb (bf_contains page_attr PG_COPY_ON_WRITE)
                     then bf_set page_attr PG_WRITE (p_write perm) else page_attr in
    bf_set page_attr PG_EXECUTE (p_execute perm).

(** What it does to the entry; [None] stands for the panic. *)
Definition protect_pte (perm : Permission) (pte : Z) : option Z :=
  page_attr ← as_page_attr (pte_attr pte);
  match from_page_attr (protect_attr perm page_attr) with
  | Ret raw => Some (pte_set_attr pte raw)
  | _ => None
  end.

Definition protect_body (perm : Permission) (pte : Z) (ok : bool) : Z * bool :=
  match protect_pte perm pte with Some pte => (pte, ok) | None => (pte, false) end.

Definition set_permission (a : MMArea) (perm : Permission) : MMArea :=
  mkArea (ma_range a) (ma_mapping a) perm (ma_shared a).

(** One area of the loop of [protect]. *)
Definition protect_area (range : AddrRange) (perm : Permission) (a : MMArea)
    (areas : list MMArea) (pt : gmap Z Z) (found : bool) : outcome (list MMArea * gmap Z Z * bool) :=
  masked ← mask_with_checked (ma_range a) range;
  match masked with
  | None => Ret (areas_insert a areas, pt, found)
  | Some (left_part, mid, right_part) =>
      '(areas, a) ← match left_part with
                    | None => Ret (areas, a)
                    | Some l =>
                        '(l, r) ← area_split a (end_ l);
                        l ← expect l; r ← expect r;
                        Ret (areas_insert l areas, r)
                    end;
      '(areas, a) ← match right_part with
                    | None => Ret (areas, a)
                    | Some r =>
                        '(l, r) ← area_split a (start r);
                        l ← expect l; r ← expect r;
                        Ret (areas_insert r areas, l)
                    end;
      let (pt, ok) := pt_iter pt mid (protect_body perm) true in
      assert_ ok;;
      Ret (areas_insert (set_permission a perm) areas, pt, true)
  end.

Fixpoint protect_loop (range : AddrRange) (perm : Permission) (old : list MMArea)
    (areas : list MMArea) (pt : gmap Z Z) (found : bool) : outcome (list MMArea * gmap Z Z * bool) :=
  match old with
  | [] => Ret (areas, pt, found)
  | a :: old =>
      '(areas, pt, found) ← protect_area range perm a areas pt found;
      protect_loop range perm old areas pt found
  end.

Definition inner_protect (mm : MMList) (start_ len : Z) (perm : Permission) : outcome MMList :=
  assert_ (floor start_ =? start_);;
  assert_ (negb (len =? 0));;
  let e := ceil (addr_add start_ len) in
  range_to_protect ← range_new start_ e;
  if negb (range_is_user range_to_protect) then Err EINVAL
  else
    '(areas, pt, found) ← protect_loop range_to_protect perm (mm_areas mm) [] (mm_pt mm) false;
    if negb found then Err ENOMEM else Ret (set_areas mm areas pt).

(** [PTEExt::set_anonymous] and [PTEExt::set_mapped]; each takes a reference to
    the empty page. *)
Definition anonymous_attr (execute : bool) : Z :=
  bf_set (Z.lor PG_PRESENT (Z.lor PG_READ (Z.lor PG_USER PG_COPY_ON_WRITE))) PG_EXECUTE execute.
Definition mapped_attr (execute : bool) : Z :=
  bf_set (Z.lor PG_READ (Z.lor PG_USER PG_MAPPED)) PG_EXECUTE execute.

Definition fresh_pte (empty attr : Z) : Z :=
  match from_page_attr attr with Ret raw => pte_set empty raw | _ => 0 end.

Definition mapping_pte (empty : Z) (mapping : Mapping) (perm : Permission) : Z :=
  fresh_pte empty (match mapping with
                   | Anonymous => anonymous_attr (p_execute perm)
                   | MFile _ => mapped_attr (p_execute perm)
                   end).

(** [MMListInner::mmap]; the second component counts the references taken. *)
Definition inner_mmap (empty : Z) (mm : MMList) (at_ len : Z) (mapping : Mapping) (perm : Permission)
    (is_shared : bool) : outcome (MMList * nat) :=
  assert_ (floor at_ =? at_);;
  assert_ (Z.land len (PAGE_SIZE - 1) =? 0);;
  range ← range_new at_ (addr_add at_ len);
  no_overlap ← check_overlapping_range (mm_areas mm) range;
  if ((len =? 0) && negb (check_overlapping_addr (mm_areas mm) at_)) || negb no_overlap then Err EEXIST
  else
    let (pt, n) := pt_iter (mm_pt mm) range (fun _ n => (mapping_pte empty mapping perm, S n)) 0%nat in
    Ret (set_areas mm (areas_insert (mkArea range mapping perm is_shared) (mm_areas mm)) pt, n).

(** ** [MMList] *)

(** [flush_user_tlbs]: [current] says whether the CPU uses this page table.
    Flushing other CPUs is [todo!()]. *)
Definition flush_user_tlbs (user_count : Z) (current : bool) : outcome unit :=
  if user_count =? 0 then Ret tt
  else if user_count =? 1 then (if current then Ret tt else Panic)
  else Panic.

Definition mm_new : MMList := mkMM [] None None ∅.

Definition mm_unmap (user_count : Z) (current : bool) (ph : Phys) (mm : MMList) (start_ len : Z)
  : outcome (MMList * Phys) :=
  '(mm, pages_to_free, dropped) ← inner_unmap mm start_ len;
  ph ← pages_drop ph dropped;
  flush_user_tlbs user_count current;;
  ph ← pages_drop ph pages_to_free;
  Ret (mm, ph).

Definition mm_protect (user_count : Z) (current : bool) (mm : MMList) (start_ len : Z) (perm : Permission)
  : outcome MMList :=
  mm ← inner_protect mm start_ len perm;
  flush_user_tlbs user_count current;;
  Ret mm.

(** The references to the empty page that [n] new entries hold. *)
Definition add_empty_refs (ph : Phys) (n : nat) : Phys :=
  set_refs ph (alter (fun c => c + Z.of_nat n) (ph_empty ph) (ph_refs ph)).

Definition mm_mmap (ph : Phys) (mm : MMList) (at_ len : Z) (mapping : Mapping) (perm : Permission)
    (is_shared : bool) : outcome (MMList * Phys) :=
  '(mm, n) ← inner_mmap (ph_empty ph) mm at_ len mapping perm is_shared;
  Ret (mm, add_empty_refs ph n).

Definition mmap_fixed (ph : Phys) (mm : MMList) (at_ len : Z) (mapping : Mapping) (perm : Permission)
    (is_shared : bool) : outcome (Z * MMList * Phys) :=
  '(mm, ph) ← mm_mmap ph mm at_ len mapping perm is_shared;
  Ret (at_, mm, ph).

Definition mmap_found (ph : Phys) (mm : MMList) (hint len : Z) (mapping : Mapping) (perm : Permission)
    (is_shared : bool) : outcome (Z * MMList * Phys) :=
  found ← mm_find_available mm hint len;
  at_ ← ok_or found ENOMEM;
  mmap_fixed ph mm at_ len mapping perm is_shared.

Definition mmap_hint (ph : Phys) (mm : MMList) (hint len : Z) (mapping : Mapping) (perm : Permission)
    (is_shared : bool) : outcome (Z * MMList * Phys) :=
  if hint =? 0 then mmap_found ph mm hint len mapping perm is_shared
  else
    match mm_mmap ph mm hint len mapping perm is_shared with
    | Ret (mm, ph) => Ret (hint, mm, ph)
    | Err e => if e =? EEXIST then mmap_found ph mm hint len mapping perm is_shared else Err e
    | Panic => Panic
    end.

Definition set_break (ph : Phys) (mm : MMList) (pos : option Z) : outcome (Z * MMList * Phys) :=
  assert_ (negb (is_none (mm_break_start mm)) && negb (is_none (mm_break_pos mm)));;
  current_break ← expect (mm_break_pos mm);
  match pos with
  | None => Ret (current_break, mm, ph)
  | Some pos =>
      let pos := ceil pos in
      if pos <? current_break then Ret (current_break, mm, ph)
      else
        range ← range_new current_break pos;
        no_overlap ← check_overlapping_range (mm_areas mm) range;
        if negb no_overlap then Ret (current_break, mm, ph)
        else
          let mm := mkMM (mm_areas mm) (mm_break_start mm) (Some pos) (mm_pt mm) in
          match mmap_fixed ph mm current_break (addr_sub pos current_break) Anonymous
                  (mkPerm true true false) false with
          | Ret (_, mm, ph) => Ret (pos, mm, ph)
          | _ => Panic
          end
  end.

Definition register_break (mm : MMList) (start_ : Z) : outcome MMList :=
  assert_ (is_none (mm_break_start mm) && is_none (mm_break_pos mm));;
  Ret (mkMM (mm_areas mm) (Some (range_from start_)) (Some start_) (mm_pt mm)).

(** ** Forking an address space *)

(** [PTEExt::set_copy_on_write]: the child's entry, the parent's entry. *)
Definition set_copy_on_write (ph : Phys) (to from : Z) : outcome (Z * Z * Phys) :=
  from_attr ← expect (as_page_attr (pte_attr from));
  if negb (bf_intersects from_attr (Z.lor PG_PRESENT PG_MAPPED)) then Ret (to, from, ph)
  else
    let from_attr := bf_remove from_attr (Z.lor PG_WRITE PG_DIRTY) in
    let from_attr := bf_insert from_attr PG_COPY_ON_WRITE in
    ph ← page_clone ph (pte_pfn from);
    to_raw ← from_page_attr (bf_remove from_attr PG_ACCESSED);
    from_raw ← from_page_attr from_attr;
    Ret (pte_set (pte_pfn from) to_raw, pte_set_attr from from_raw, ph).

(** The entry [set_copied] gives the child of a shared area. *)
Definition set_copied (ph : Phys) (from : Z) : outcome (Z * Phys) :=
  let (pfn, attr) := pte_get from in
  ph ← page_clone ph pfn;
  Ret (pte_set pfn attr, ph).

(** The loop over the entries of one area, in both page tables. *)
Fixpoint clone_pages (shared : bool) (ph : Phys) (to from : gmap Z Z) (n : Z) (k : nat)
  : outcome (gmap Z Z * gmap Z Z * Phys) :=
  match k with
  | O => Ret (to, from, ph)
  | S k' =>
      let e := default 0 (from !! n) in
      if shared then
        '(t, ph) ← set_copied ph e;
        clone_pages shared ph (<[n := t]> to) from (n + 1) k'
      else
        '(t, f, ph) ← set_copy_on_write ph (default 0 (to !! n)) e;
        clone_pages shared ph (<[n := t]> to) (<[n := f]> from) (n + 1) k'
  end.

Fixpoint clone_areas (ph : Phys) (to from : gmap Z Z) (l : list MMArea) : outcome (gmap Z Z * gmap Z Z * Phys) :=
  match l with
  | [] => Ret (to, from, ph)
  | a :: l' =>
      '(to, from, ph) ← clone_pages (ma_shared a) ph to from (range_first (ma_range a)) (range_pages (ma_range a));
      clone_areas ph to from l'
  end.

(** [new_cloned]: the parent (its entries are now copy-on-write) and the child. *)
Definition mm_new_cloned (user_count : Z) (current : bool) (ph : Phys) (mm : MMList)
  : outcome (MMList * MMList * Phys) :=
  '(to, from, ph) ← clone_areas ph ∅ (mm_pt mm) (mm_areas mm);
  flush_user_tlbs user_count current;;
  Ret (set_areas mm (mm_areas mm) from,
       mkMM (mm_areas mm) (mm_break_start mm) (mm_break_pos mm) to, ph).

(** [activate] and [deactivate]: the number of CPUs using the address space. *)
Definition mm_activate (user_count : Z) : Z := wrap64 (user_count + 1).
Definition mm_deactivate (user_count : Z) : outcome Z :=
  assert_ (negb (user_count =? 0));; Ret (wrap64 (user_count - 1)).

(** ** Page faults *)

Definition PF_Read : Z := 2.
Definition PF_Write : Z := 4.
Definition PF_InstructionFetch : Z := 8.

Inductive FaultResult :=
| FaultFixed (mm : MMList) (ph : Phys)
| FaultSIGBUS (ph : Phys)
| FaultSIGSEGV.

Definition handle_user_page_fault (pc : PageCaches) (ph : Phys) (mm : MMList) (addr error : Z)
  : outcome FaultResult :=
  match areas_get (range_from addr) (mm_areas mm) with
  | None => Ret (FaultSIGBUS ph)
  | Some area =>
      if bf_contains error PF_Read && negb (p_read (ma_permission area)) then Ret FaultSIGSEGV
      else if bf_contains error PF_Write && negb (p_write (ma_permission area)) then Ret FaultSIGSEGV
      else if bf_contains error PF_InstructionFetch && negb (p_execute (ma_permission area)) then Ret FaultSIGSEGV
      else
        let page := floor addr / PAGE_SIZE in
        match area_handle pc area ph (default 0 (mm_pt mm !! page))
                (addr_sub (floor addr) (start (ma_range area))) (bf_contains error PF_Write) with
        | Ret (HandleOk pte ph _) =>
            Ret (FaultFixed (set_areas mm (mm_areas mm) (<[page := pte]> (mm_pt mm))) ph)
        | Ret (HandleErr _ ph) => Ret (FaultSIGBUS ph)
        | Err e => Err e
        | Panic => Panic
        end
  end.

(** The fix-up table of the kernel: start, length and where to go on. *)
Record FixEntry := mkFix { fx_start : Z; fx_length : Z; fx_jump : Z }.

Fixpoint try_page_fault_fix (entries : list FixEntry) (pc : Z) : outcome Z :=
  match entries with
  | [] => Panic
  | e :: entries =>
      if (fx_start e <=? pc) && (pc <? wrap64 (fx_start e + fx_length e)) then Ret (fx_jump e)
      else try_page_fault_fix entries pc
  end.

(** [None] as the new program counter: go on where the fault was. *)
Definition handle_kernel_page_fault (entries : list FixEntry) (pc : PageCaches) (ph : Phys) (mm : MMList)
    (fault_pc addr error : Z) : outcome (option Z * MMList * Phys) :=
  match areas_get (range_from addr) (mm_areas mm) with
  | None => j ← try_page_fault_fix entries fault_pc; Ret (Some j, mm, ph)
  | Some area =>
      let page := floor addr / PAGE_SIZE in
      match area_handle pc area ph (default 0 (mm_pt mm !! page))
              (addr_sub (floor addr) (start (ma_range area))) (bf_contains error PF_Write) with
      | Ret (HandleOk pte ph _) => Ret (None, set_areas mm (mm_areas mm) (<[page := pte]> (mm_pt mm)), ph)
      | Ret (HandleErr _ ph) => j ← try_page_fault_fix entries fault_pc; Ret (Some j, mm, ph)
      | Err e => Err e
      | Panic => Panic
      end
  end.

(** ** System calls

    [align_up] is [AlignExt::align_up] of the align_ext crate at the page size. *)

Section syscalls.
Context (align_up : Z -> Z).

Definition MAP_SHARED : Z := 0x01.
Definition MAP_FIXED : Z := 0x10.
Definition MAP_ANONYMOUS : Z := 0x20.
Definition PROT_READ : Z := 0x01.
Definition PROT_WRITE : Z := 0x02.
Definition PROT_EXEC : Z := 0x04.

Definition prot_permission (prot : Z) : Permission :=
  mkPerm (bf_contains prot PROT_READ) (bf_contains prot PROT_WRITE) (bf_contains prot PROT_EXEC).

(** [shm_area] and [fd_inode] are the inode of a new shared area and the inode
    behind the descriptor. *)
Definition do_mmap2 (user_count : Z) (current : bool) (shm_area : Z) (fd_inode : outcome Z)
    (ph : Phys) (mm : MMList) (addr len prot flags pgoffset : Z) : outcome (Z * MMList * Phys) :=
  if negb (is_page_aligned addr) || negb (pgoffset mod PAGE_SIZE =? 0) || (len =? 0) then Err EINVAL
  else
    let len := align_up len in
    let is_shared := bf_contains flags MAP_SHARED in
    mapping ← (if bf_contains flags MAP_ANONYMOUS then
                 if negb (pgoffset =? 0) then Err EINVAL
                 else if negb is_shared then Ret Anonymous
                 else m ← file_mapping_new shm_area 0 len; Ret (MFile m)
               else
                 file ← fd_inode;
                 m ← file_mapping_new file pgoffset len; Ret (MFile m));
    let permission := prot_permission prot in
    if bf_contains flags MAP_FIXED then
      '(mm, ph) ← mm_unmap user_count current ph mm addr len;
      mmap_fixed ph mm addr len mapping permission is_shared
    else mmap_hint ph mm addr len mapping permission is_shared.

Definition sys_munmap (user_count : Z) (current : bool) (ph : Phys) (mm : MMList) (addr len : Z)
  : outcome (MMList * Phys) :=
  if negb (is_page_aligned addr) || (len =? 0) then Err EINVAL
  else mm_unmap user_count current ph mm addr (align_up len).

Definition sys_mprotect (user_count : Z) (current : bool) (mm : MMList) (addr len prot : Z) : outcome MMList :=
  if negb (is_page_aligned addr) || (len =? 0) then Err EINVAL
  else mm_protect user_count current mm addr (align_up len) (prot_permission prot).
End syscalls.

Definition sys_brk (ph : Phys) (mm : MMList) (addr : Z) : outcome (Z * MMList * Phys) :=
  set_break ph mm (if addr =? 0 then None else Some addr).

(** ** The specification *)

Definition in_area (a : MMArea) (addr : Z) : Prop := in_range (ma_range a) addr.

Definition area_before (a b : MMArea) : Prop := end_ (ma_range a) <= start (ma_range b).

(** The areas are in order, apart from each other, and in user space. *)
Definition areas_wf (l : list MMArea) : Prop :=
  StronglySorted area_before l /\ Forall area_ok l /\
  Forall (fun a => end_ (ma_range a) <= USER_SPACE_MEMORY_TOP) l.

Definition find_area (l : list MMArea) (addr : Z) : option MMArea :=
  List.find (fun a => (start (ma_range a) <=? addr) && (addr <? end_ (ma_range a))) l.

(** What an address is mapped to: the permissions, whether it is shared, and
    the part of a file behind it. *)
Definition mm_lookup (mm : MMList) (addr : Z) : option (Permission * bool * option (Z * Z * Z)) :=
  (fun a => area_attr a addr) <$> find_area (mm_areas mm) addr.

Definition overlaps (r : AddrRange) (a : MMArea) : Prop :=
  start (ma_range a) < end_ r /\ start r < end_ (ma_range a).

#[export] Instance overlaps_dec r a : Decision (overlaps r a).
Proof. unfold overlaps. apply _. Defined.

(** ** The ordered set *)

Lemma areas_wf_cons a l :
  areas_wf (a :: l) <->
  areas_wf l /\ Forall (area_before a) l /\ area_ok a /\ end_ (ma_range a) <= USER_SPACE_MEMORY_TOP.
Proof.
  unfold areas_wf. rewrite !Forall_cons. split.
  - intros (Hs & [] & []). inversion Hs; subst. by split_and!.
  - intros ((Hs & ? & ?) & ? & ? & ?). split_and!; try done. by constructor.
Qed.

Lemma areas_wf_app l1 l2 :
  areas_wf (l1 ++ l2) <-> areas_wf l1 /\ areas_wf l2 /\ (forall a b, a ∈ l1 -> b ∈ l2 -> area_before a b).
Proof.
  induction l1 as [|x l1 IH]; simpl.
  - split; [intros; split_and!; try done; [by repeat constructor|set_solver]|tauto].
  - rewrite !areas_wf_cons, IH, Forall_app, !Forall_forall. split.
    + intros ((? & ? & Hb) & (? & Hx) & ? & ?). split_and!; try done.
      intros a b [->|Ha]%elem_of_cons Hb'; [by apply Hx|by apply Hb].
    + intros ((? & ? & ? & ?) & ? & Hb). split_and!; try done.
      * intros a b Ha Hb'. apply Hb; set_solver.
      * intros b Hb'. apply Hb; set_solver.
Qed.

Lemma area_ok_nonempty a : area_ok a -> start (ma_range a) < end_ (ma_range a) /\ 0 <= start (ma_range a).
Proof. intros ([(? & ? & ?) ?] & _). lia. Qed.

(** The areas that end at or before [x] form a prefix, and so do those that
    start at or before [x]. *)
Lemma bt_search_point x l :
  areas_wf l ->
  let (i, found) := bt_search (range_from x) l in
  i = length (filter (fun a => end_ (ma_range a) <= x) l) /\
  (if found then S i else i) = length (filter (fun a => start (ma_range a) <= x) l).
Proof.
  induction l as [|a l IH]; intros Hwf; [done|]. apply areas_wf_cons in Hwf as (Hwf & Hb & Ha & _).
  specialize (IH Hwf). pose proof (area_ok_nonempty a Ha) as Hne. simpl.
  assert (forall y, y <= end_ (ma_range a) ->
    filter (fun b => end_ (ma_range b) <= y) l = [] /\ (y < end_ (ma_range a) -> filter (fun b => start (ma_range b) <= y) l = [])) as Hnil.
  { intros y Hy. destruct Hwf as (_ & Hok & _). rewrite Forall_forall in Hb, Hok.
    split; [|intros Hy']; apply filter_empty_intro; intros b Hbin; specialize (Hb b Hbin);
      pose proof (area_ok_nonempty b (Hok b Hbin)); unfold area_before in Hb; simpl in *; lia. }
  rewrite range_cmp_point_sym by apply Ha. rewrite !filter_cons.
  destruct (Z.ltb_spec x (start (ma_range a))).
  - rewrite !decide_False by lia. destruct (Hnil x) as [-> Hs]; [lia|]. by rewrite Hs by lia.
  - destruct (Z.ltb_spec x (end_ (ma_range a))).
    + rewrite decide_False, decide_True by lia. destruct (Hnil x) as [-> Hs]; [lia|]. by rewrite Hs by lia.
    + rewrite !decide_True by lia. destruct (bt_search (range_from x) l) as [i found].
      destruct IH as [-> IH]. simpl. split; [done|]. by destruct found; rewrite <- IH.
Qed.

Lemma areas_get_point x l : areas_wf l -> areas_get (range_from x) l = find_area l x.
Proof.
  unfold areas_get. induction l as [|a l IH]; intros Hwf; [done|].
  apply areas_wf_cons in Hwf as (Hwf & Hb & Ha & _). specialize (IH Hwf). simpl.
  rewrite range_cmp_point_sym by apply Ha.
  destruct (Z.ltb_spec x (start (ma_range a))).
  - replace (start (ma_range a) <=? x) with false by (symmetry; apply Z.leb_gt; lia). simpl.
    symmetry. destruct (find_area l x) as [b|] eqn:E; [|done]. unfold find_area in E.
    apply find_some in E as [Hin Hx]. apply list_elem_of_In in Hin. rewrite Forall_forall in Hb.
    specialize (Hb b Hin). pose proof (area_ok_nonempty a Ha). unfold area_before in Hb. lia.
  - replace (start (ma_range a) <=? x) with true by (symmetry; apply Z.leb_le; lia).
    destruct (Z.ltb_spec x (end_ (ma_range a))); simpl; [done|].
    destruct (bt_search (range_from x) l) as [i found]. by destruct found.
Qed.

(** Membership determines the lookup. *)
Lemma find_area_Some l x a : areas_wf l -> find_area l x = Some a <-> a ∈ l /\ in_area a x.
Proof.
  intros Hwf. unfold find_area, in_area, in_range. induction l as [|b l IH].
  { simpl. split; [done|]. intros [Hin _]. by apply elem_of_nil in Hin. }
  apply areas_wf_cons in Hwf as (Hwf & Hb & Hok & _). specialize (IH Hwf). simpl.
  pose proof (area_ok_nonempty b Hok). rewrite elem_of_cons.
  destruct (Z.leb_spec (start (ma_range b)) x), (Z.ltb_spec x (end_ (ma_range b))); simpl.
  - split; [intros [= <-]; split; [by left|lia]|]. intros [[->|Hin] Hx]; [done|].
    rewrite Forall_forall in Hb. specialize (Hb a Hin). unfold area_before in Hb. lia.
  - rewrite IH. naive_solver lia.
  - rewrite IH. naive_solver lia.
  - rewrite IH. naive_solver lia.
Qed.

Lemma find_area_None l x : areas_wf l -> find_area l x = None <-> forall a, a ∈ l -> ~ in_area a x.
Proof.
  intros Hwf. split.
  - intros Hn a Ha Hx. assert (find_area l x = Some a) by (by apply find_area_Some). congruence.
  - intros Hall. destruct (find_area l x) as [a|] eqn:E; [|done].
    apply find_area_Some in E as [Ha Hx]; [|done]. exfalso. by eapply Hall.
Qed.

Lemma window_tail s e l :
  areas_wf l -> Forall (fun a => s < end_ (ma_range a)) l ->
  take (length (filter (fun a => start (ma_range a) <= e - 1) l)) l = filter (overlaps (mkRange s e)) l.
Proof.
  induction l as [|a l IH]; intros Hwf Hs; [done|]. apply areas_wf_cons in Hwf as (Hwf & Hb & Ha & _).
  apply Forall_cons in Hs as [Has Hs]. rewrite !filter_cons.
  destruct (decide (start (ma_range a) <= e - 1)).
  - rewrite decide_True by (unfold overlaps; simpl; lia). simpl. f_equal. by apply IH.
  - rewrite (decide_False (P := overlaps _ _)) by (unfold overlaps; simpl; lia).
    pose proof (area_ok_nonempty a Ha).
    rewrite !filter_empty_intro; [done| |].
    + intros b Hin. rewrite Forall_forall in Hb. specialize (Hb b Hin).
      unfold area_before, overlaps in *. simpl. lia.
    + intros b Hin. rewrite Forall_forall in Hb. specialize (Hb b Hin).
      unfold area_before in *. simpl. lia.
Qed.

Lemma window s e l :
  areas_wf l -> s < e ->
  take (length (filter (fun a => start (ma_range a) <= e - 1) l) - length (filter (fun a => end_ (ma_range a) <= s) l))
    (drop (length (filter (fun a => end_ (ma_range a) <= s) l)) l) = filter (overlaps (mkRange s e)) l.
Proof.
  intros Hwf Hse. induction l as [|a l IH]; [done|].
  pose proof Hwf as (Hwf' & Hb & Ha & _)%areas_wf_cons. pose proof (area_ok_nonempty a Ha).
  destruct (decide (end_ (ma_range a) <= s)) as [Hle|Hgt].
  - rewrite !filter_cons. rewrite (decide_True (P := end_ _ <= _)) by done.
    rewrite (decide_True (P := start _ <= _)) by lia.
    rewrite (decide_False (P := overlaps _ _)) by (unfold overlaps; simpl; lia). simpl. by apply IH.
  - rewrite (filter_empty_intro (fun a => end_ (ma_range a) <= s)).
    + rewrite Nat.sub_0_r. simpl drop. apply window_tail; [done|]. constructor; [lia|].
      destruct Hwf' as (_ & Hok & _). rewrite Forall_forall in *. intros b Hin. specialize (Hb b Hin).
      pose proof (area_ok_nonempty b (Hok b Hin)). unfold area_before in Hb. lia.
    + destruct Hwf' as (_ & Hok & _). rewrite Forall_forall in *.
      intros b [->|Hin]%elem_of_cons; [done|]. specialize (Hb b Hin).
      pose proof (area_ok_nonempty b (Hok b Hin)). unfold area_before in Hb. lia.
Qed.

(** The areas of a range are those that share an address with it. *)
Lemma overlapping_range_spec l r :
  areas_wf l -> range_nonempty r -> overlapping_range l r = Ret (filter (overlaps r) l).
Proof.
  intros Hwf [(? & ? & ?) ?]. unfold overlapping_range, into_bounds.
  assert (range_len r = end_ r - start r) as -> by (apply wrap64_small; unfold is_u64; lia).
  destruct (Z.eqb_spec (end_ r - start r) 0); [lia|].
  assert (addr_sub (end_ r) 1 = end_ r - 1) as -> by (apply wrap64_small; unfold is_u64; lia).
  unfold areas_range.
  assert (range_cmp (range_from (start r)) (range_from (end_ r - 1)) <> Gt) as Hcmp.
  { unfold range_cmp, range_from. simpl. zcases; done || lia. }
  pose proof (bt_search_point (start r) l Hwf) as Hlo. pose proof (bt_search_point (end_ r - 1) l Hwf) as Hhi.
  destruct (bt_search (range_from (start r)) l) as [i f]. destruct (bt_search (range_from (end_ r - 1)) l) as [j g].
  destruct Hlo as [Hi _]. destruct Hhi as [_ Hj]. rewrite Hj, Hi, window by (done || lia).
  destruct r. by destruct (range_cmp _ _).
Qed.

Lemma check_overlapping_range_spec l r :
  areas_wf l -> range_nonempty r ->
  exists b, check_overlapping_range l r = Ret b /\
    (b = true <-> end_ r <= USER_SPACE_MEMORY_TOP /\ forall a, a ∈ l -> ~ overlaps r a).
Proof.
  intros Hwf Hr. unfold check_overlapping_range, range_is_user. pose proof Hr as [(? & ? & ?) ?].
  destruct (Z.ltb_spec USER_SPACE_MEMORY_TOP (end_ r)); simpl.
  { eexists. split; [done|]. split; [done|lia]. }
  destruct (Z.leb_spec USER_SPACE_MEMORY_TOP (start r)); simpl; [lia|].
  rewrite overlapping_range_spec by done. simpl. eexists. split; [done|].
  destruct (filter (overlaps r) l) as [|a os] eqn:Ef.
  - split; [|done]. intros _. split; [done|]. intros a Ha Hov.
    by apply (filter_nil_not_elem_of _ _ _ Ef Hov).
  - split; [done|]. intros [_ Hno]. exfalso.
    assert (a ∈ filter (overlaps r) l) as Hin by (rewrite Ef; set_solver).
    apply list_elem_of_filter in Hin as [Hov Hin]. by eapply Hno.
Qed.

(** Inserting an area apart from all others. *)
Lemma areas_insert_spec a l :
  areas_wf l -> area_ok a -> end_ (ma_range a) <= USER_SPACE_MEMORY_TOP ->
  (forall b, b ∈ l -> ~ overlaps (ma_range a) b) ->
  areas_wf (areas_insert a l) /\ forall b, b ∈ areas_insert a l <-> b = a \/ b ∈ l.
Proof.
  intros Hwf Ha Hu Hdis. unfold areas_insert.
  assert (exists l1 l2, l = l1 ++ l2 /\ bt_search (ma_range a) l = (length l1, false) /\
            (forall b, b ∈ l1 -> area_before b a) /\ (forall b, b ∈ l2 -> area_before a b)) as (l1 & l2 & Hl & Hs & H1 & H2).
  { clear Hu. induction l as [|b l IH].
    - exists [], []. split_and!; try done; intros b Hb%elem_of_nil; done.
    - apply areas_wf_cons in Hwf as (Hwf & Hb & Hok & _).
      pose proof (area_ok_nonempty a Ha). pose proof (area_ok_nonempty b Hok).
      assert (~ overlaps (ma_range a) b) as Hnb by (apply Hdis; set_solver). unfold overlaps in Hnb.
      destruct (decide (end_ (ma_range a) <= start (ma_range b))) as [Hle|Hgt].
      + exists [], (b :: l). split_and!; [done| |intros c Hc%elem_of_nil; done|].
        * simpl. by destruct (range_cmp_disjoint (ma_range a) (ma_range b)) as [-> _]; [apply Ha|apply Hok|..].
        * rewrite Forall_forall in Hb. intros c [->|Hc]%elem_of_cons; [done|].
          specialize (Hb c Hc). unfold area_before in *. lia.
      + destruct IH as (l1 & l2 & -> & Hs & H1 & H2); [done|set_solver|].
        exists (b :: l1), l2. split_and!; [done| | |done].
        * simpl. destruct (range_cmp_disjoint (ma_range b) (ma_range a)) as [_ ->]; [apply Hok|apply Ha|lia|].
          by rewrite Hs.
        * intros c [->|Hc]%elem_of_cons; [unfold area_before; lia|by apply H1]. }
  rewrite Hs. subst l. rewrite take_app_length, drop_app_length. split.
  - apply areas_wf_app in Hwf as (Hw1 & Hw2 & H12). apply areas_wf_app. split_and!; [done| |].
    + apply areas_wf_cons. split_and!; try done. by apply Forall_forall.
    + intros x y Hx [->|Hy]%elem_of_cons; [by apply H1|by apply H12].
  - intros b. set_solver.
Qed.

(** ** An address space with an anonymous area of eight pages *)

Definition rw : Permission := mkPerm true true false.

Definition demo_mm : MMList :=
  mkMM [mkArea (mkRange 0x10000 0x18000) Anonymous rw false] None None
    (pt_iter ∅ (mkRange 0x10000 0x18000) (fun _ n => (mapping_pte 5 Anonymous rw, S n)) 0%nat).1.

Lemma demo_mm_wf : areas_wf (mm_areas demo_mm).
Proof.
  split_and!; repeat constructor; unfold range_nonempty, range_wf; simpl; done || lia.
Qed.
