(* ===== verification/MmRange.v ===== *)
(** * Unmapping and protecting a range of an address space

    The theorems on [MMListInner::unmap] and [MMListInner::protect] of
    src/kernel/mem/mm_list.rs: both cut the areas at the borders of the range,
    so they share the description of the pieces ([cut]) and of what the process
    sees afterwards ([cut_lookup]). *)

From S2P Require Import Prelude Address PageTable MmArea MmList.

(** ** Cutting areas at the borders of a range *)

Definition range_ok (r : AddrRange) : Prop :=
  range_nonempty r /\ start r mod PAGE_SIZE = 0 /\ end_ r mod PAGE_SIZE = 0 /\
  end_ r <= USER_SPACE_MEMORY_TOP.

(** The parts of an area left of, inside and right of a range that overlaps it. *)
Definition left_of (r : AddrRange) (a : MMArea) : option MMArea :=
  if start (ma_range a) <? start r
  then Some (set_range a (mkRange (start (ma_range a)) (start r))) else None.

Definition right_of (r : AddrRange) (a : MMArea) : option MMArea :=
  if end_ r <? end_ (ma_range a) then Some (area_right a (end_ r)) else None.

Lemma area_right_right a x y : area_right (area_right a x) y = area_right a y.
Proof.
  unfold area_right. simpl. destruct (ma_mapping a) as [|[f o n]]; simpl; [done|].
  do 3 f_equal; lia.
Qed.

Definition or_else {A} (o1 o2 : option A) : option A := match o1 with Some _ => o1 | None => o2 end.

Lemma unmap_area_ok r a s :
  range_ok r -> area_ok a -> overlaps r a ->
  (is_Some (left_of r a) -> um_left s = None) -> (is_Some (right_of r a) -> um_right s = None) ->
  exists s', unmap_area r a s = Ret (false, s') /\
    um_left s' = or_else (left_of r a) (um_left s) /\ um_right s' = or_else (right_of r a) (um_right s).
Proof.
  intros (Hr & Hrs & Hre & _) Ha [Ho1 Ho2] Hl Hrt. pose proof Ha as (Hne & _). unfold unmap_area.
  rewrite mask_with_checked_overlap by (done || lia). cbn [mbind outcome_bind].
  destruct Hne as [(? & ? & ?) ?]. pose proof Hr as [(? & ? & ?) ?].
  match goal with |- context [let '(_, _) := ?x in _] => destruct x as [[pt fr] dr] end.
  unfold left_of, right_of in *.
  destruct (Z.ltb_spec (start (ma_range a)) (start r)) as [Hc1|Hc1],
           (Z.ltb_spec (end_ r) (end_ (ma_range a))) as [Hc2|Hc2].
  - rewrite Hl, Hrt by eauto. cbn [is_none assert_ mbind outcome_bind end_ start].
    destruct (area_split_inside a (start r) Ha Hrs) as (-> & _ & Har); [lia|].
    cbn [mbind outcome_bind expect].
    destruct (area_split_inside (area_right a (start r)) (end_ r) Har Hre) as (-> & _); [simpl; lia|].
    cbn [mbind outcome_bind expect]. eexists. split; [done|]. simpl. by rewrite area_right_right.
  - rewrite Hl by eauto. cbn [is_none assert_ mbind outcome_bind end_ start].
    destruct (area_split_inside a (start r) Ha Hrs) as (-> & _ & Har); [lia|].
    cbn [mbind outcome_bind expect]. by eexists.
  - rewrite Hrt by eauto. cbn [is_none assert_ mbind outcome_bind end_ start].
    destruct (area_split_inside a (end_ r) Ha Hre) as (-> & _ & Har); [lia|].
    cbn [mbind outcome_bind expect]. by eexists.
  - by eexists.
Qed.

Lemma unmap_area_none r a s :
  range_ok r -> area_ok a -> ~ overlaps r a -> unmap_area r a s = Ret (true, s).
Proof.
  intros ([? ?] & _) ([? ?] & _) Hno. unfold unmap_area, overlaps in *.
  rewrite mask_with_checked_none; [done|done|done|lia].
Qed.

(** The pieces that stay at the borders come from the areas that overlap. *)
Definition border (f : MMArea -> option MMArea) (r : AddrRange) (l : list MMArea) (init o : option MMArea) : Prop :=
  match o with
  | Some p => init = Some p \/ exists a, a ∈ l /\ overlaps r a /\ f a = Some p
  | None => init = None /\ forall a, a ∈ l -> overlaps r a -> f a = None
  end.

Lemma border_cons_skip f r a l init o :
  ~ overlaps r a -> border f r l init o -> border f r (a :: l) init o.
Proof.
  intros Hno. unfold border. destruct o; [set_solver|]. intros [-> Hall]. split; [done|].
  intros b [->|Hb]%elem_of_cons Hov; [done|by apply Hall].
Qed.

Lemma border_cons_cut f r a l init o :
  overlaps r a -> (is_Some (f a) -> init = None) ->
  border f r l (or_else (f a) init) o -> border f r (a :: l) init o.
Proof.
  intros Hov Hi. unfold border. destruct o as [p|].
  - intros [Ho|(b & Hb & Hob & Hfb)]; [|right; exists b; set_solver].
    destruct (f a) as [q|] eqn:E; simpl in Ho; [|by left].
    right. exists a. simplify_eq. set_solver.
  - intros [Ho Hall]. destruct (f a) eqn:E; simpl in Ho; [done|]. split; [done|].
    intros b [->|Hb]%elem_of_cons Hob; [done|by apply Hall].
Qed.

Lemma areas_retain_ok r l s :
  range_ok r -> areas_wf l ->
  (um_left s <> None -> Forall (fun a => start r <= start (ma_range a)) l) ->
  (um_right s <> None -> Forall (fun a => end_ r <= start (ma_range a)) l) ->
  exists s', areas_retain r l s = Ret (filter (fun a => ~ overlaps r a) l, s') /\
    border (left_of r) r l (um_left s) (um_left s') /\ border (right_of r) r l (um_right s) (um_right s').
Proof.
  intros Hr. revert s. induction l as [|a l IH]; intros s Hwf Hl Hrt.
  { exists s. split; [done|]. unfold border.
    split; [destruct (um_left s)|destruct (um_right s)]; try (by left);
      (split; [done|intros a Ha%elem_of_nil; done]). }
  apply areas_wf_cons in Hwf as (Hwf & Hb & Ha & _). pose proof (area_ok_nonempty a Ha) as Hne.
  cbn [areas_retain]. rewrite Forall_forall in Hb. rewrite filter_cons.
  destruct (decide (overlaps r a)) as [Hov|Hov].
  - destruct Hov as [Ho1 Ho2].
    assert (is_Some (left_of r a) -> um_left s = None) as Hl1.
    { unfold left_of. intros Hs. destruct (um_left s); [|done]. exfalso.
      specialize (Hl ltac:(done)). apply Forall_cons in Hl as [Hl _].
      destruct (Z.ltb_spec (start (ma_range a)) (start r)); [lia|by destruct Hs]. }
    assert (is_Some (right_of r a) -> um_right s = None) as Hr1.
    { intros _. destruct (um_right s); [|done]. exfalso.
      specialize (Hrt ltac:(done)). apply Forall_cons in Hrt as [Hrt _]. lia. }
    destruct (unmap_area_ok r a s Hr Ha (conj Ho1 Ho2) Hl1 Hr1) as (s1 & -> & Hs1 & Hs2). cbn [mbind outcome_bind].
    destruct (IH s1 Hwf) as (s2 & -> & Hb1 & Hb2).
    { rewrite Hs1. intros Hn. apply Forall_forall. intros b Hbin. specialize (Hb b Hbin). unfold area_before in Hb.
      lia. }
    { rewrite Hs2. unfold right_of. intros Hn. apply Forall_forall. intros b Hbin. specialize (Hb b Hbin).
      unfold area_before in Hb. destruct (Z.ltb_spec (end_ r) (end_ (ma_range a))); [lia|].
      simpl in Hn. specialize (Hrt Hn). apply Forall_cons in Hrt as [Hrt _]. lia. }
    cbn [mbind outcome_bind]. exists s2. rewrite decide_False by (unfold overlaps; tauto). split; [done|].
    rewrite Hs1 in Hb1. rewrite Hs2 in Hb2. split; by apply border_cons_cut.
  - rewrite unmap_area_none by done. cbn [mbind outcome_bind].
    destruct (IH s Hwf) as (s2 & -> & Hb1 & Hb2).
    { intros Hn. by apply Hl, Forall_cons in Hn as [_ ?]. }
    { intros Hn. by apply Hrt, Forall_cons in Hn as [_ ?]. }
    cbn [mbind outcome_bind]. exists s2. rewrite decide_True by done. split; [done|].
    split; by apply border_cons_skip.
Qed.

(** The part of an area inside the range. *)
Definition mid_of (r : AddrRange) (a : MMArea) : MMArea :=
  let a' := if start (ma_range a) <? start r then area_right a (start r) else a in
  if end_ r <? end_ (ma_range a) then set_range a' (mkRange (start (ma_range a')) (end_ r)) else a'.

Lemma mid_of_range r a :
  ma_range (mid_of r a) = mkRange (Z.max (start (ma_range a)) (start r)) (Z.min (end_ (ma_range a)) (end_ r)).
Proof.
  destruct a as [[s e] m p sh]. unfold mid_of, area_right, set_range. zcases; simpl in *; f_equal; lia.
Qed.

Lemma mid_of_attr r a x : area_attr (mid_of r a) x = area_attr a x.
Proof.
  unfold mid_of. repeat case_match; rewrite ?set_range_attr, ?area_right_attr; done.
Qed.

Lemma left_of_ok r a p :
  range_ok r -> area_ok a -> overlaps r a -> left_of r a = Some p ->
  area_ok p /\ ma_range p = mkRange (start (ma_range a)) (start r) /\ start (ma_range a) < start r /\
  forall x, area_attr p x = area_attr a x.
Proof.
  intros (? & Hrs & _) Ha [? ?]. unfold left_of. zcases; [|done]. intros [= <-].
  split_and!; [|done|done|done]. by apply area_split_inside.
Qed.

Lemma right_of_ok r a p :
  range_ok r -> area_ok a -> overlaps r a -> right_of r a = Some p ->
  area_ok p /\ ma_range p = mkRange (end_ r) (end_ (ma_range a)) /\ end_ r < end_ (ma_range a) /\
  forall x, area_attr p x = area_attr a x.
Proof.
  intros (? & _ & Hre & _) Ha [? ?]. unfold right_of. zcases; [|done]. intros [= <-].
  split_and!; [|done|done|intros x; apply area_right_attr]. by apply area_split_inside.
Qed.

Lemma mid_of_ok r a : range_ok r -> area_ok a -> overlaps r a -> area_ok (mid_of r a).
Proof.
  intros (Hr & Hrs & Hre & _) Ha [Ho1 Ho2]. unfold mid_of. pose proof Hr as [_ Hlt].
  destruct (Z.ltb_spec (start (ma_range a)) (start r)) as [Hs|Hs].
  - assert (area_ok (area_right a (start r))) as Har by (by apply area_split_inside; [done|done|lia]).
    zcases; [|done]. apply (area_split_inside (area_right a (start r)) (end_ r)); simpl; done || lia.
  - zcases; [|done]. by apply (area_split_inside a (end_ r)).
Qed.

Lemma elem_of_option_list {A} (x : A) o : x ∈ option_list o <-> o = Some x.
Proof. destruct o; simpl; [rewrite list_elem_of_singleton; naive_solver|]. split; [by intros ?%elem_of_nil|done]. Qed.

(** What an operation on a range makes of an area: the borders stay, the part
    inside is dropped or changed. *)
Definition cut (r : AddrRange) (f : MMArea -> option MMArea) (a : MMArea) : list MMArea :=
  if decide (overlaps r a)
  then option_list (left_of r a) ++ option_list (f (mid_of r a)) ++ option_list (right_of r a)
  else [a].

Section cutting.
Context (r : AddrRange) (f : MMArea -> option MMArea).
Hypothesis Hr : range_ok r.
Hypothesis Hf : forall m m', area_ok m -> f m = Some m' -> ma_range m' = ma_range m /\ area_ok m'.

Lemma cut_piece a p :
  area_ok a -> p ∈ cut r f a ->
  area_ok p /\ start (ma_range a) <= start (ma_range p) /\ end_ (ma_range p) <= end_ (ma_range a).
Proof.
  intros Ha. pose proof (area_ok_nonempty a Ha). pose proof Hr as ([_ ?] & _). unfold cut.
  destruct (decide (overlaps r a)) as [Hov|_]; [|intros ->%list_elem_of_singleton; split; [done|lia]].
  pose proof Hov as [? ?]. rewrite !elem_of_app, !elem_of_option_list.
  intros [Hp|[Hp|Hp]].
  - apply left_of_ok in Hp as (? & -> & ? & _); [|done..]. split; [done|simpl; lia].
  - pose proof (mid_of_ok r a Hr Ha Hov) as Hm. destruct (Hf _ _ Hm Hp) as [-> ?]. split; [done|].
    rewrite mid_of_range. simpl. lia.
  - apply right_of_ok in Hp as (? & -> & ? & _); [|done..]. split; [done|simpl; lia].
Qed.

Lemma cut_lookup l l' x :
  areas_wf l -> areas_wf l' -> (forall b, b ∈ l' <-> exists a, a ∈ l /\ b ∈ cut r f a) ->
  (fun a => area_attr a x) <$> find_area l' x =
    if decide (in_range r x)
    then a ← find_area l x; m ← f (mid_of r a); Some (area_attr m x)
    else (fun a => area_attr a x) <$> find_area l x.
Proof.
  intros Hwf Hwf' Hmem. pose proof Hwf as (_ & Hok & _). rewrite Forall_forall in Hok.
  assert (forall b, b ∈ l' -> in_area b x -> exists a, find_area l x = Some a /\ b ∈ cut r f a) as Hfrom.
  { intros b (a & Ha & Hb)%Hmem Hx. exists a. split; [|done]. apply find_area_Some; [done|].
    split; [done|]. apply cut_piece in Hb as (_ & ? & ?); [|by apply Hok].
    unfold in_area, in_range in *. lia. }
  destruct (find_area l x) as [a|] eqn:Ea.
  2:{ replace (find_area l' x) with (@None MMArea); [by destruct (decide _)|].
      symmetry. apply find_area_None; [done|]. intros b Hb Hx. by destruct (Hfrom b Hb Hx) as (? & ? & _). }
  apply find_area_Some in Ea as [Ha Hx]; [|done]. specialize (Hok a Ha).
  assert (forall b, b ∈ cut r f a -> in_area b x -> find_area l' x = Some b) as Hto.
  { intros b Hb Hbx. apply find_area_Some; [done|]. split; [|done]. apply Hmem. eauto. }
  unfold in_area, in_range in Hx. cbn [mbind option_bind fmap option_fmap option_map].
  destruct (decide (in_range r x)) as [Hin|Hout]; unfold in_range in *.
  - assert (overlaps r a) as Hov by (unfold overlaps; lia). destruct (f (mid_of r a)) as [m|] eqn:Em; simpl.
    + rewrite (Hto m); [done| |].
      * unfold cut. rewrite decide_True by done. rewrite Em. set_solver.
      * unfold in_area, in_range. destruct (Hf _ _ (mid_of_ok r a Hr Hok Hov) Em) as [-> _].
        rewrite mid_of_range. simpl. lia.
    + replace (find_area l' x) with (@None MMArea); [done|]. symmetry. apply find_area_None; [done|].
      intros b Hb Hbx. destruct (Hfrom b Hb Hbx) as (? & [= <-] & Hc). unfold cut in Hc.
      rewrite decide_True in Hc by done. rewrite Em in Hc. unfold in_area, in_range in Hbx.
      rewrite !elem_of_app, !elem_of_option_list in Hc. destruct Hc as [Hc|[Hc|Hc]]; [|done|].
      * apply left_of_ok in Hc as (_ & Hrg & _); [|done..]. rewrite Hrg in Hbx. simpl in Hbx. lia.
      * apply right_of_ok in Hc as (_ & Hrg & _); [|done..]. rewrite Hrg in Hbx. simpl in Hbx. lia.
  - destruct (decide (overlaps r a)) as [Hov|Hno].
    + pose proof Hov as [? ?]. destruct (decide (x < start r)).
      * destruct (left_of r a) as [p|] eqn:Ep; [|unfold left_of in Ep; by destruct (Z.ltb_spec (start (ma_range a)) (start r)); [|lia]].
        pose proof (left_of_ok r a p Hr Hok Hov Ep) as (_ & Hrg & _ & Hat).
        rewrite (Hto p); [simpl; by rewrite Hat| |].
        -- unfold cut. rewrite decide_True, Ep by done. set_solver.
        -- unfold in_area, in_range. rewrite Hrg. simpl. lia.
      * destruct (right_of r a) as [p|] eqn:Ep; [|unfold right_of in Ep; by destruct (Z.ltb_spec (end_ r) (end_ (ma_range a))); [|lia]].
        pose proof (right_of_ok r a p Hr Hok Hov Ep) as (_ & Hrg & _ & Hat).
        rewrite (Hto p); [simpl; by rewrite Hat| |].
        -- unfold cut. rewrite decide_True, Ep by done. set_solver.
        -- unfold in_area, in_range. rewrite Hrg. simpl. lia.
    + rewrite (Hto a); [done| |done]. unfold cut. rewrite decide_False by done. set_solver.
Qed.
End cutting.

(** ** The entries of a range *)

Definition pte_at (pt : gmap Z Z) (x : Z) : Z := default 0 (pt !! (x / PAGE_SIZE)).

Lemma map_pages_at {St} (body : Z -> St -> Z * St) (g : Z -> Z) k :
  (forall v s, (body v s).1 = g v) ->
  forall pt n s m, default 0 ((map_pages pt n k body s).1 !! m) =
    if decide (n <= m < n + Z.of_nat k) then g (default 0 (pt !! m)) else default 0 (pt !! m).
Proof.
  intros Hg. induction k as [|k IH]; intros pt n s m; simpl.
  { by rewrite decide_False by lia. }
  destruct (body (default 0 (pt !! n)) s) as [v s'] eqn:E. rewrite IH.
  pose proof (Hg (default 0 (pt !! n)) s) as Hv. rewrite E in Hv. simpl in Hv.
  destruct (decide (m = n)) as [->|Hne].
  - rewrite lookup_insert_eq, decide_False, decide_True by lia. done.
  - rewrite lookup_insert_ne by done.
    destruct (decide (n + 1 <= m < n + 1 + Z.of_nat k)); [by rewrite decide_True by lia|by rewrite decide_False by lia].
Qed.

Lemma pt_iter_at {St} (body : Z -> St -> Z * St) (g : Z -> Z) pt r s x :
  (forall v s, (body v s).1 = g v) -> range_wf r -> start r mod PAGE_SIZE = 0 -> end_ r mod PAGE_SIZE = 0 ->
  pte_at (pt_iter pt r body s).1 x = if decide (in_range r x) then g (pte_at pt x) else pte_at pt x.
Proof.
  intros Hg (? & ? & ?) Hs He. unfold pte_at, pt_iter, range_first, range_pages.
  rewrite (floor_aligned (start r)), (ceil_aligned (end_ r)) by (done || (unfold is_u64; lia)).
  rewrite (map_pages_at body g) by done. pose proof PAGE_SIZE_eq as Hps.
  apply Z.div_exact in Hs; [|lia]. apply Z.div_exact in He; [|lia].
  set (a := start r / PAGE_SIZE) in *. set (b := end_ r / PAGE_SIZE) in *.
  assert ((end_ r - start r) / PAGE_SIZE = b - a) as ->.
  { rewrite Hs, He, <- Z.mul_sub_distr_l, Z.mul_comm. apply Z.div_mul. lia. }
  pose proof (Z.div_mod x PAGE_SIZE ltac:(lia)) as Hx. pose proof (Z.mod_pos_bound x PAGE_SIZE ltac:(lia)).
  unfold in_range. rewrite Hps in *.
  assert (a <= x / 4096 < a + Z.of_nat (Z.to_nat (b - a)) <-> start r <= x < end_ r) as Hiff by lia.
  destruct (decide (a <= x / 4096 < _)) as [Hd|Hd]; [rewrite decide_True by tauto|rewrite decide_False by tauto]; done.
Qed.

Lemma unmap_pte_null v pages : (unmap_pte v pages).1 = 0.
Proof. unfold unmap_pte. simpl. by destruct (taken_page (pte_get v)). Qed.

Lemma overlap_aligned r a :
  range_ok r -> area_ok a -> overlaps r a ->
  let m := mkRange (Z.max (start (ma_range a)) (start r)) (Z.min (end_ (ma_range a)) (end_ r)) in
  range_wf m /\ start m mod PAGE_SIZE = 0 /\ end_ m mod PAGE_SIZE = 0.
Proof.
  intros ([(? & ? & ?) ?] & ? & ? & _) ([(? & ? & ?) ?] & ? & ? & _) [? ?]. unfold range_wf. simpl.
  split; [lia|]. split; [destruct (Z.max_spec (start (ma_range a)) (start r)) as [[_ ->]|[_ ->]]
    |destruct (Z.min_spec (end_ (ma_range a)) (end_ r)) as [[_ ->]|[_ ->]]]; done.
Qed.

Lemma unmap_area_pt r a s keep s' x :
  range_ok r -> area_ok a -> unmap_area r a s = Ret (keep, s') ->
  pte_at (um_pt s') x = if decide (in_range r x /\ in_area a x) then 0 else pte_at (um_pt s) x.
Proof.
  intros Hr Ha. destruct (decide (overlaps r a)) as [Hov|Hno].
  - pose proof Hov as [Ho1 Ho2]. pose proof (overlap_aligned r a Hr Ha Hov) as (Hw & Hms & Hme).
    unfold unmap_area. rewrite mask_with_checked_overlap by (apply Hr || apply Ha || lia).
    cbn [mbind outcome_bind]. set (m := mkRange _ _) in *.
    pose proof (pt_iter_at unmap_pte (fun _ => 0) (um_pt s) m (um_dropped s) x unmap_pte_null Hw Hms Hme) as Hp1.
    pose proof (pt_iter_at unmap_pte (fun _ => 0) (um_pt s) m (um_free s) x unmap_pte_null Hw Hms Hme) as Hp2.
    assert (in_range m x <-> in_range r x /\ in_area a x) as Hiff by (unfold in_area, in_range, m; simpl; lia).
    assert (forall b : Z, (if decide (in_range m x) then b else pte_at (um_pt s) x) =
      if decide (in_range r x /\ in_area a x) then b else pte_at (um_pt s) x) as Hd.
    { intros b. destruct (decide (in_range m x)), (decide (in_range r x /\ in_area a x)); tauto. }
    rewrite Hd in Hp1, Hp2. clearbody m.
    destruct (pt_iter (um_pt s) m unmap_pte (um_dropped s)) as [pt1 d].
    destruct (pt_iter (um_pt s) m unmap_pte (um_free s)) as [pt2 fr]. simpl in Hp1, Hp2.
    destruct (ma_shared a); intros Hres;
      repeat (match type of Hres with
              | context [if ?b then Some _ else None] => destruct b
              | context [is_none ?o] => destruct (is_none o); simpl in Hres; try done
              | context [area_split ?y ?z] => destruct (area_split y z) as [[[?|] [?|]]| |]; simpl in Hres; try done
              end); simplify_eq/=; done.
  - rewrite unmap_area_none by done. intros [= <- <-]. rewrite decide_False; [done|].
    unfold overlaps, in_area, in_range in *. lia.
Qed.

(** ** [unmap] *)

Lemma areas_wf_apart l a b : areas_wf l -> a ∈ l -> b ∈ l -> a = b \/ area_before a b \/ area_before b a.
Proof.
  intros Hwf. induction l as [|c l IH]; [by intros ?%elem_of_nil|].
  apply areas_wf_cons in Hwf as (Hwf & Hb & _). rewrite Forall_forall in Hb.
  intros [->|Ha]%elem_of_cons [->|Hb']%elem_of_cons; auto.
Qed.

Lemma areas_wf_filter P `{!forall a, Decision (P a)} l : areas_wf l -> areas_wf (filter P l).
Proof.
  induction l as [|a l IH]; [done|]. intros (Hwf & Hb & Ha & Hu)%areas_wf_cons. rewrite filter_cons.
  destruct (decide (P a)); [|by apply IH]. apply areas_wf_cons. split_and!; [by apply IH| |done|done].
  rewrite Forall_forall in *. intros b [_ Hin]%list_elem_of_filter. by apply Hb.
Qed.

Lemma insert_opt_spec o l :
  areas_wf l ->
  (forall a, o = Some a -> area_ok a /\ end_ (ma_range a) <= USER_SPACE_MEMORY_TOP /\
     forall b, b ∈ l -> ~ overlaps (ma_range a) b) ->
  areas_wf (insert_opt o l) /\ forall b, b ∈ insert_opt o l <-> o = Some b \/ b ∈ l.
Proof.
  intros Hwf Ho. destruct o as [a|]; simpl; [|naive_solver].
  destruct (Ho a eq_refl) as (? & ? & ?). destruct (areas_insert_spec a l) as [? Hmem]; [done..|].
  split; [done|]. intros b. rewrite Hmem. naive_solver.
Qed.

(** The border pieces found by the loop are those of [cut]. *)
Lemma border_unique (g : MMArea -> option MMArea) r l o b :
  border g r l None o -> (forall a a', a ∈ l -> a' ∈ l -> overlaps r a -> overlaps r a' -> is_Some (g a) -> is_Some (g a') -> a = a') ->
  o = Some b <-> exists a, a ∈ l /\ overlaps r a /\ g a = Some b.
Proof.
  unfold border. intros Hb Hu. split.
  - intros ->. destruct Hb as [?|?]; done.
  - intros (a & Ha & Ho & Hg). destruct o as [p|].
    + destruct Hb as [?|(a' & Ha' & Ho' & Hg')]; [done|].
      assert (a = a') as -> by (eapply Hu; eauto). congruence.
    + destruct Hb as [_ Hb]. rewrite Hb in Hg; done.
Qed.

Lemma left_of_unique r l a a' :
  areas_wf l -> a ∈ l -> a' ∈ l -> overlaps r a -> overlaps r a' -> is_Some (left_of r a) -> is_Some (left_of r a') -> a = a'.
Proof.
  intros Hwf Ha Ha' [? ?] [? ?]. unfold left_of, area_before.
  destruct (Z.ltb_spec (start (ma_range a)) (start r)), (Z.ltb_spec (start (ma_range a')) (start r));
    intros [? ?] [? ?]; try done.
  destruct (areas_wf_apart l a a' Hwf Ha Ha') as [?|[?|?]]; unfold area_before in *; done || lia.
Qed.

Lemma right_of_unique r l a a' :
  areas_wf l -> a ∈ l -> a' ∈ l -> overlaps r a -> overlaps r a' -> is_Some (right_of r a) -> is_Some (right_of r a') -> a = a'.
Proof.
  intros Hwf Ha Ha' [? ?] [? ?]. unfold right_of, area_before.
  destruct (Z.ltb_spec (end_ r) (end_ (ma_range a))), (Z.ltb_spec (end_ r) (end_ (ma_range a')));
    intros [? ?] [? ?]; try done.
  destruct (areas_wf_apart l a a' Hwf Ha Ha') as [?|[?|?]]; unfold area_before in *; done || lia.
Qed.

(** A border piece is apart from the areas that do not touch the range. *)
Lemma piece_apart r l a p b :
  areas_wf l -> a ∈ l -> overlaps r a -> b ∈ l -> ~ overlaps r b ->
  start (ma_range a) <= start (ma_range p) -> end_ (ma_range p) <= end_ (ma_range a) -> ~ overlaps (ma_range p) b.
Proof.
  intros Hwf Ha Ho Hb Hno ? ?. destruct (areas_wf_apart l a b Hwf Ha Hb) as [->|[?|?]]; [done|..];
    unfold overlaps, area_before in *; lia.
Qed.

Lemma areas_retain_cut r l fr dr pt :
  range_ok r -> areas_wf l ->
  exists kept s, areas_retain r l (mkUnmap None None fr dr pt) = Ret (kept, s) /\
    areas_wf (insert_opt (um_right s) (insert_opt (um_left s) kept)) /\
    forall b, b ∈ insert_opt (um_right s) (insert_opt (um_left s) kept) <->
      exists a, a ∈ l /\ b ∈ cut r (fun _ => None) a.
Proof.
  intros Hr Hwf. destruct (areas_retain_ok r l (mkUnmap None None fr dr pt) Hr Hwf) as (s & Hs & Hbl & Hbr); [done..|].
  simpl in Hbl, Hbr. eexists _, s. split; [exact Hs|]. clear Hs.
  pose proof Hwf as (_ & Hok & Hu). rewrite Forall_forall in Hok, Hu. pose proof Hr as ([_ Hlt] & _).
  set (kept := filter _ l).
  assert (forall b, b ∈ kept <-> ~ overlaps r b /\ b ∈ l) as Hk by (intros b; unfold kept; by rewrite list_elem_of_filter).
  assert (forall b, um_left s = Some b <-> exists a, a ∈ l /\ overlaps r a /\ left_of r a = Some b) as HL.
  { intros b. eapply border_unique; [done|]. intros. by eapply left_of_unique. }
  assert (forall b, um_right s = Some b <-> exists a, a ∈ l /\ overlaps r a /\ right_of r a = Some b) as HR.
  { intros b. eapply border_unique; [done|]. intros. by eapply right_of_unique. }
  destruct (insert_opt_spec (um_left s) kept) as [Hwf1 Hm1].
  { by apply areas_wf_filter. }
  { intros p (a & Ha & Hov & Hp)%HL. pose proof (Hu a Ha). pose proof Hov as [? ?].
    apply left_of_ok in Hp as (? & Hrg & ? & _); [|by auto..]. split_and!; [done|rewrite Hrg; simpl; lia|].
    intros b [Hno Hb]%Hk. eapply (piece_apart r l a p b); try done; rewrite Hrg; simpl; lia. }
  destruct (insert_opt_spec (um_right s) (insert_opt (um_left s) kept)) as [Hwf2 Hm2]; [done| |].
  { intros p (a & Ha & Hov & Hp)%HR. pose proof (Hu a Ha). pose proof Hov as [? ?].
    apply right_of_ok in Hp as (? & Hrg & ? & _); [|by auto..]. split_and!; [done|rewrite Hrg; simpl; lia|].
    intros b [(c & Hc & Hoc & Hb)%HL|[Hno Hb]%Hk]%Hm1.
    - apply left_of_ok in Hb as (_ & Hrg' & _); [|by auto..]. unfold overlaps. rewrite Hrg, Hrg'. simpl. lia.
    - eapply (piece_apart r l a p b); try done; rewrite Hrg; simpl; lia. }
  split; [done|]. intros b. rewrite Hm2, Hm1, HL, HR, Hk. clear -b. unfold cut. split.
  - intros [(a & ? & ? & ?)|[(a & ? & ? & ?)|[? ?]]].
    + exists a. rewrite decide_True by done. rewrite !elem_of_app, !elem_of_option_list. auto.
    + exists a. rewrite decide_True by done. rewrite !elem_of_app, !elem_of_option_list. auto.
    + exists b. rewrite decide_False by done. set_solver.
  - intros (a & Ha & Hb). destruct (decide (overlaps r a)).
    + rewrite !elem_of_app, !elem_of_option_list in Hb. naive_solver.
    + apply list_elem_of_singleton in Hb as ->. auto.
Qed.

Lemma areas_retain_pt r l s kept s' x :
  range_ok r -> areas_wf l -> areas_retain r l s = Ret (kept, s') ->
  pte_at (um_pt s') x =
    if decide (in_range r x /\ is_Some (find_area l x)) then 0 else pte_at (um_pt s) x.
Proof.
  intros Hr. revert s kept s'. induction l as [|a l IH]; intros s kept s' Hwf; cbn [areas_retain].
  { intros [= <- <-]. rewrite decide_False; [done|]. intros [_ [? ?]]; done. }
  apply areas_wf_cons in Hwf as (Hwf & _ & Ha & _).
  destruct (unmap_area r a s) as [[k s1]| |] eqn:E1; [|done..]. cbn [mbind outcome_bind].
  destruct (areas_retain r l s1) as [[rest s2]| |] eqn:E2; [|done..]. cbn [mbind outcome_bind].
  intros [= _ <-]. rewrite (IH s1 rest s2 Hwf E2), (unmap_area_pt r a s k s1 x Hr Ha E1).
  unfold in_area, in_range. simpl.
  destruct (Z.leb_spec (start (ma_range a)) x), (Z.ltb_spec x (end_ (ma_range a))); simpl;
    repeat case_decide; try done; try tauto; exfalso; (unfold is_Some in *; naive_solver) || lia.
Qed.

(** The page range of a request, and when it lies in user space. *)
Lemma request_range s len :
  0 <= s -> s mod PAGE_SIZE = 0 -> 0 < len -> s + len <= 2 ^ 64 - PAGE_SIZE ->
  let r := mkRange s (ceil (s + len)) in
  range_new s (ceil (addr_add s len)) = Ret r /\ (floor s =? s) = true /\
  s < end_ r /\ range_is_user r = (end_ r <=? USER_SPACE_MEMORY_TOP) /\
  range_nonempty r /\ end_ r mod PAGE_SIZE = 0 /\ s + len <= end_ r < s + len + PAGE_SIZE.
Proof.
  intros Hs Ha Hl Hle r. destruct (ceil_spec (s + len)) as [Hc Hcm]; [pose proof PAGE_SIZE_eq; lia|].
  pose proof PAGE_SIZE_eq as Hps.
  assert (addr_add s len = s + len) as -> by (apply wrap64_small; unfold is_u64; lia).
  assert (0 <= ceil (s + len) < 2 ^ 64) as Hcb by apply wrap64_range.
  unfold range_new, range_is_user, range_nonempty, range_wf, r; simpl.
  rewrite floor_aligned by (done || (unfold is_u64; lia)). rewrite Z.eqb_refl.
  split; [by destruct (Z.leb_spec s (ceil (s + len))); [|lia]|]. split; [done|]. split; [lia|].
  split; [zcases; done || lia|]. split; [lia|]. split; [done|]. lia.
Qed.


(** ** [protect] *)

Lemma protect_area_eq r perm a areas pt found :
  range_ok r -> area_ok a -> overlaps r a ->
  protect_area r perm a areas pt found =
    let (pt, ok) := pt_iter pt (ma_range (mid_of r a)) (protect_body perm) true in
    assert_ ok;;
    Ret (areas_insert (set_permission (mid_of r a) perm)
           (insert_opt (right_of r a) (insert_opt (left_of r a) areas)), pt, true).
Proof.
  intros (Hr & Hrs & Hre & _) Ha [Ho1 Ho2]. pose proof Ha as (Hne & _). unfold protect_area. rewrite mid_of_range.
  rewrite mask_with_checked_overlap by (done || lia). cbn [mbind outcome_bind].
  pose proof Hr as [_ Hlt]. unfold left_of, right_of, mid_of.
  destruct (Z.ltb_spec (start (ma_range a)) (start r)) as [Hc1|Hc1],
           (Z.ltb_spec (end_ r) (end_ (ma_range a))) as [Hc2|Hc2]; cbn [end_ start].
  - destruct (area_split_inside a (start r) Ha Hrs) as (-> & _ & Har); [lia|].
    cbn [mbind outcome_bind expect].
    destruct (area_split_inside (area_right a (start r)) (end_ r) Har Hre) as (-> & _); [simpl; lia|].
    cbn [mbind outcome_bind expect]. by rewrite area_right_right.
  - destruct (area_split_inside a (start r) Ha Hrs) as (-> & _ & Har); [lia|]. done.
  - cbn [mbind outcome_bind start]. destruct (area_split_inside a (end_ r) Ha Hre) as (-> & _ & Har); [lia|]. done.
  - done.
Qed.

(** An entry that [protect] can handle. *)
Definition entry_ok (pte : Z) : Prop := as_page_attr (pte_attr pte) <> None.

Definition protected (perm : Permission) (pte : Z) : Z := default pte (protect_pte perm pte).

Lemma as_page_attr_hw raw a : hw_attr raw -> as_page_attr raw = Some a -> hw_attr a /\ leaf_valid a = true.
Proof.
  intros Hr Ha.
  assert (match as_page_attr raw with
          | Some a => (0 <=? a) && (a <? 1024) && leaf_valid a | None => true end = true) as Hc.
  { clear Ha. revert raw Hr. unfold hw_attr. apply forallb_seqZ. vm_compute. reflexivity. }
  rewrite Ha, !andb_true_iff, Z.leb_le, Z.ltb_lt in Hc. unfold hw_attr. naive_solver.
Qed.

Lemma protect_attr_hw perm a : hw_attr a -> hw_attr (protect_attr perm a).
Proof.
  intros Ha.
  assert ((0 <=? protect_attr perm a) && (protect_attr perm a <? 1024) = true) as Hc.
  { destruct perm as [[] [] []]; revert a Ha; unfold hw_attr; apply forallb_seqZ; vm_compute; reflexivity. }
  rewrite andb_true_iff, Z.leb_le, Z.ltb_lt in Hc. done.
Qed.

Lemma pte_attr_hw pte : hw_attr (pte_attr pte).
Proof.
  unfold hw_attr, pte_attr, pte_get. simpl. change PA_FLAGS_MASK with (Z.ones 10).
  rewrite Z.land_ones by lia. apply Z.mod_pos_bound. lia.
Qed.

(** [protect] keeps the frame and computes the new flags; they are again those
    of a leaf unless no access is left on a present page. *)
Lemma protect_pte_ok perm pte a :
  as_page_attr (pte_attr pte) = Some a -> 0 <= pte < 2 ^ 64 ->
  exists pte', protect_pte perm pte = Some pte' /\ pte_pfn pte' = pte_pfn pte /\
    as_page_attr (pte_attr pte') =
      if leaf_valid (protect_attr perm a) then Some (protect_attr perm a) else None.
Proof.
  intros Ha Hp. pose proof (as_page_attr_hw _ _ (pte_attr_hw pte) Ha) as [Hh _].
  destruct (page_attr_roundtrip _ (protect_attr_hw perm a Hh)) as (raw & Hf & Hr & Has).
  unfold protect_pte. rewrite Ha. simpl. rewrite Hf. eexists. split; [done|].
  unfold pte_set_attr. assert (0 <= pte_pfn pte < 2 ^ 54) as Hpfn.
  { unfold pte_pfn, pte_get, PA_SHIFT. simpl. rewrite Z.shiftr_div_pow2 by lia.
    split; [apply Z.div_pos; lia|]. apply Z.div_lt_upper_bound; lia. }
  unfold pte_pfn at 1, pte_attr at 1. rewrite pte_get_set by done. done.
Qed.

Lemma protect_pte_total perm pte : entry_ok pte -> is_Some (protect_pte perm pte).
Proof.
  unfold entry_ok, protect_pte. destruct (as_page_attr (pte_attr pte)) as [a|] eqn:Ha; [|done]. intros _. simpl.
  pose proof (as_page_attr_hw _ _ (pte_attr_hw pte) Ha) as [Hh _].
  by destruct (page_attr_roundtrip _ (protect_attr_hw perm a Hh)) as (raw & -> & _).
Qed.

Lemma map_pages_protect perm pt n k :
  (forall m, n <= m < n + Z.of_nat k -> entry_ok (default 0 (pt !! m))) ->
  (map_pages pt n k (protect_body perm) true).2 = true.
Proof.
  revert pt n. induction k as [|k IH]; intros pt n Hall; [done|]. simpl.
  destruct (protect_pte_total perm (default 0 (pt !! n))) as [v Hv]; [apply Hall; lia|].
  unfold protect_body at 1. rewrite Hv. apply IH. intros m Hm.
  rewrite lookup_insert_ne by lia. apply Hall. lia.
Qed.

Lemma pt_iter_protect perm pt r :
  range_wf r -> start r mod PAGE_SIZE = 0 -> end_ r mod PAGE_SIZE = 0 ->
  (forall x, in_range r x -> entry_ok (pte_at pt x)) -> (pt_iter pt r (protect_body perm) true).2 = true.
Proof.
  intros (? & ? & ?) Hs He Hall. unfold pt_iter. apply map_pages_protect. intros m.
  unfold range_first, range_pages.
  rewrite (floor_aligned (start r)), (ceil_aligned (end_ r)) by (done || (unfold is_u64; lia)).
  intros Hm. specialize (Hall (m * PAGE_SIZE)). unfold pte_at in Hall. pose proof PAGE_SIZE_eq.
  rewrite Z.div_mul in Hall by lia. apply Hall. unfold in_range.
  apply Z.div_exact in Hs; [|lia]. apply Z.div_exact in He; [|lia].
  assert ((end_ r - start r) / PAGE_SIZE = end_ r / PAGE_SIZE - start r / PAGE_SIZE) as Hd.
  { rewrite Hs at 1. rewrite He at 1. rewrite <- Z.mul_sub_distr_l, Z.mul_comm. apply Z.div_mul. lia. }
  rewrite Hd in Hm. nia.
Qed.

Definition protect_cut (perm : Permission) (m : MMArea) : option MMArea := Some (set_permission m perm).

Lemma protect_cut_ok perm m m' :
  area_ok m -> protect_cut perm m = Some m' -> ma_range m' = ma_range m /\ area_ok m'.
Proof. by intros ? [= <-]. Qed.

Lemma apart_before a b p :
  area_before b a -> start (ma_range a) <= start (ma_range p) -> ~ overlaps (ma_range p) b.
Proof. unfold area_before, overlaps. lia. Qed.

(** One area: its pieces join the areas before it. *)
Lemma protect_area_ok r perm a acc pt found :
  range_ok r -> area_ok a -> end_ (ma_range a) <= USER_SPACE_MEMORY_TOP ->
  areas_wf acc -> (forall b, b ∈ acc -> area_before b a) ->
  (forall x, in_range r x -> in_area a x -> entry_ok (pte_at pt x)) ->
  exists acc' pt', protect_area r perm a acc pt found = Ret (acc', pt', found || bool_decide (overlaps r a)) /\
    areas_wf acc' /\ (forall b, b ∈ acc' <-> b ∈ acc \/ b ∈ cut r (protect_cut perm) a) /\
    forall x, pte_at pt' x = if decide (in_range r x /\ in_area a x) then protected perm (pte_at pt x) else pte_at pt x.
Proof.
  intros Hr Ha Hu Hwf Hbef Hent. destruct (decide (overlaps r a)) as [Hov|Hno].
  - rewrite protect_area_eq by done. pose proof (mid_of_range r a) as Hmr.
    pose proof (overlap_aligned r a Hr Ha Hov) as (Hw & Hms & Hme). rewrite <- Hmr in Hw, Hms, Hme.
    assert (forall x, in_range (ma_range (mid_of r a)) x <-> in_range r x /\ in_area a x) as Hiff
      by (intros x; rewrite Hmr; unfold in_area, in_range; simpl; lia).
    pose proof (pt_iter_protect perm pt _ Hw Hms Hme) as Hok.
    pose proof (fun x => pt_iter_at (protect_body perm) (protected perm) pt _ true x
      ltac:(intros v s; unfold protect_body, protected; by destruct (protect_pte perm v)) Hw Hms Hme) as Hat.
    destruct (pt_iter pt (ma_range (mid_of r a)) (protect_body perm) true) as [pt' ok]. simpl in Hok, Hat.
    rewrite Hok by (intros x ?%Hiff; naive_solver). cbn [assert_ mbind outcome_bind].
    rewrite bool_decide_true, orb_true_r by done.
    destruct (insert_opt_spec (left_of r a) acc Hwf) as [Hwf1 Hm1].
    { intros p Hp. apply left_of_ok in Hp as (? & Hrg & ? & _); [|done..]. rewrite Hrg. simpl.
      pose proof Hov as [? ?]. split_and!; [done|lia|]. intros b Hb. specialize (Hbef b Hb).
      unfold area_before, overlaps in *. simpl. lia. }
    destruct (insert_opt_spec (right_of r a) _ Hwf1) as [Hwf2 Hm2].
    { intros p Hp. apply right_of_ok in Hp as (? & Hrg & ? & _); [|done..]. rewrite Hrg. simpl.
      pose proof Hov as [? ?]. pose proof Hr as ([_ ?] & _). split_and!; [done|lia|]. unfold overlaps. simpl.
      intros b [Hl|Hb]%Hm1; [apply left_of_ok in Hl as (_ & -> & _); [simpl; lia|done..]|].
      specialize (Hbef b Hb). unfold area_before in *. lia. }
    destruct (areas_insert_spec (set_permission (mid_of r a) perm) _ Hwf2) as [Hwf3 Hm3].
    { by apply (mid_of_ok r a). }
    { simpl. rewrite Hmr. simpl. lia. }
    { simpl. rewrite Hmr. unfold overlaps. simpl. pose proof Hov as [? ?]. pose proof Hr as ([_ ?] & _).
      intros b [Hl|[Hl|Hb]%Hm1]%Hm2.
      - apply right_of_ok in Hl as (_ & -> & _); [simpl; lia|done..].
      - apply left_of_ok in Hl as (_ & -> & _); [simpl; lia|done..].
      - specialize (Hbef b Hb). unfold area_before in *. lia. }
    eexists _, pt'. split; [done|]. split; [done|]. split.
    + intros b. rewrite Hm3, Hm2, Hm1. unfold cut. rewrite decide_True by done.
      rewrite !elem_of_app, !elem_of_option_list. unfold protect_cut. naive_solver.
    + intros x. rewrite Hat. specialize (Hiff x). repeat case_decide; tauto.
  - unfold protect_area. rewrite mask_with_checked_none; [|apply Ha|apply Hr|unfold overlaps in Hno; lia].
    cbn [mbind outcome_bind]. rewrite bool_decide_false, orb_false_r by done.
    destruct (areas_insert_spec a acc Hwf Ha Hu) as [Hwf' Hm].
    { intros b Hb. apply (apart_before a b a); [by apply Hbef|lia]. }
    eexists _, pt. split; [done|]. split; [done|]. split.
    + intros b. rewrite Hm. unfold cut. rewrite decide_False by done. set_solver.
    + intros x. rewrite decide_False; [done|]. unfold overlaps, in_area, in_range in *. lia.
Qed.

Lemma find_area_tail a l x :
  areas_wf (a :: l) -> is_Some (find_area l x) -> ~ in_area a x /\ find_area (a :: l) x = find_area l x.
Proof.
  intros (Hwf & Hb & _)%areas_wf_cons [b Hf]. pose proof Hf as [Hin Hx]%find_area_Some; [|done].
  rewrite Forall_forall in Hb. specialize (Hb b Hin). unfold in_area, in_range, area_before in *.
  split; [lia|]. simpl. by destruct (Z.leb_spec (start (ma_range a)) x), (Z.ltb_spec x (end_ (ma_range a))); simpl; try lia.
Qed.

Lemma find_area_head a l x : area_ok a -> in_area a x -> find_area (a :: l) x = Some a.
Proof.
  intros _ [? ?]. simpl. by destruct (Z.leb_spec (start (ma_range a)) x), (Z.ltb_spec x (end_ (ma_range a))); simpl; try lia.
Qed.

Lemma find_area_cons a l x : is_Some (find_area (a :: l) x) <-> in_area a x \/ is_Some (find_area l x).
Proof.
  unfold in_area, in_range. simpl.
  destruct (Z.leb_spec (start (ma_range a)) x), (Z.ltb_spec x (end_ (ma_range a))); simpl; split; try tauto;
    intros; try (left; lia); try (by eexists); destruct H1; tauto || lia.
Qed.

Lemma protect_loop_ok r perm old acc pt found :
  range_ok r -> areas_wf old -> areas_wf acc -> (forall a b, a ∈ old -> b ∈ acc -> area_before b a) ->
  (forall x, in_range r x -> is_Some (find_area old x) -> entry_ok (pte_at pt x)) ->
  exists acc' pt', protect_loop r perm old acc pt found =
      Ret (acc', pt', found || existsb (fun a => bool_decide (overlaps r a)) old) /\
    areas_wf acc' /\ (forall b, b ∈ acc' <-> b ∈ acc \/ exists a, a ∈ old /\ b ∈ cut r (protect_cut perm) a) /\
    forall x, pte_at pt' x =
      if decide (in_range r x /\ is_Some (find_area old x)) then protected perm (pte_at pt x) else pte_at pt x.
Proof.
  intros Hr. revert acc pt found. induction old as [|a old IH]; intros acc pt found Hwf Hacc Hbef Hent; cbn [protect_loop].
  { eexists _, _. rewrite orb_false_r. split; [done|]. split; [done|]. split; [set_solver|].
    intros x. rewrite decide_False; [done|]. intros [_ [? ?]]; done. }
  pose proof Hwf as (Hwf' & Hb & Ha & Hu)%areas_wf_cons. rewrite Forall_forall in Hb.
  destruct (protect_area_ok r perm a acc pt found) as (acc1 & pt1 & -> & Hwf1 & Hm1 & Hp1); [done..| | |].
  { intros b Hin. apply Hbef; [set_solver|done]. }
  { intros x Hx Hax. apply Hent; [done|]. rewrite find_area_cons. by left. }
  cbn [mbind outcome_bind].
  destruct (IH acc1 pt1 (found || bool_decide (overlaps r a))) as (acc2 & pt2 & -> & Hwf2 & Hm2 & Hp2); [done..| | |].
  { intros a' b Ha' [Hin|Hin]%Hm1; [apply Hbef; set_solver|]. specialize (Hb a' Ha').
    apply cut_piece in Hin as (_ & _ & ?); [unfold area_before in *; lia|done|apply protect_cut_ok|done]. }
  { intros x Hx Hs. destruct (find_area_tail a old x Hwf Hs) as [Hna _]. rewrite Hp1, decide_False by tauto.
    apply Hent; [done|]. rewrite find_area_cons. by right. }
  eexists _, _. rewrite <- orb_assoc. split; [done|]. split; [done|]. split.
  - intros b. rewrite Hm2, Hm1. set_solver.
  - intros x. rewrite Hp2, Hp1. pose proof (find_area_cons a old x) as Hc.
    destruct (decide (is_Some (find_area old x))) as [Hs|Hs].
    + pose proof (find_area_tail a old x Hwf Hs) as [Hna _]. repeat case_decide; tauto.
    + repeat case_decide; tauto.
Qed.

Lemma protect_loop_found r l :
  areas_wf l -> range_ok r ->
  existsb (fun a => bool_decide (overlaps r a)) l = true <-> exists x, in_range r x /\ is_Some (find_area l x).
Proof.
  intros Hwf ([_ Hlt] & _). rewrite existsb_exists. pose proof Hwf as (_ & Hok & _). rewrite Forall_forall in Hok. split.
  - intros (a & Ha%list_elem_of_In & [Ho1 Ho2]%bool_decide_eq_true).
    pose proof (area_ok_nonempty a (Hok a Ha)). exists (Z.max (start r) (start (ma_range a))).
    split; [unfold in_range; lia|]. exists a. apply find_area_Some; [done|]. split; [done|].
    unfold in_area, in_range. lia.
  - intros (x & Hx & a & Ha). apply find_area_Some in Ha as [Ha Hax]; [|done].
    exists a. split; [by apply list_elem_of_In|]. apply bool_decide_eq_true. unfold overlaps, in_area, in_range in *. lia.
Qed.


(** ** Witnesses *)


