(* ===== verification/MmMap.v ===== *)
(** * Mapping, page faults and fork

    The theorems on [MMList::mmap_hint] with [find_available], on
    [handle_user_page_fault] and on [new_cloned] of src/kernel/mem/mm_list.rs
    and src/kernel/mem/mm_list/page_fault.rs, and the cases where the address
    space does not do what it should. *)

From S2P Require Import Prelude Address PageTable MmArea MmList MmRange.

(** ** [find_available] and [mmap] *)

(** A free place in user space. *)
Definition free_at (l : list MMArea) (s len : Z) : Prop :=
  s + len <= USER_SPACE_MEMORY_TOP /\ forall a, a ∈ l -> ~ overlaps (mkRange s (s + len)) a.

Lemma grow_from s len : 0 <= s -> 0 <= len -> s + len < 2 ^ 64 -> grow (range_from s) len = Ret (mkRange s (s + len)).
Proof.
  intros. unfold grow, range_new, range_from, addr_add. simpl.
  rewrite wrap64_small by (unfold is_u64; lia). by destruct (Z.leb_spec s (s + len)); [|lia].
Qed.

Lemma filter_shrink (P Q : MMArea -> Prop) `{!forall a, Decision (P a)} `{!forall a, Decision (Q a)} l a :
  (forall b, Q b -> P b) -> a ∈ l -> P a -> ~ Q a -> (length (filter Q l) < length (filter P l))%nat.
Proof.
  intros Himp. induction l as [|b l IH]; [by intros ?%elem_of_nil|].
  assert (length (filter Q l) <= length (filter P l))%nat as Hle.
  { clear IH. induction l as [|c l IH]; [done|]. rewrite !filter_cons. repeat case_decide; simpl; try lia; naive_solver. }
  rewrite !filter_cons. intros [<-|Hin]%elem_of_cons HP HQ.
  - repeat case_decide; simpl; try lia; done.
  - specialize (IH Hin HP HQ). repeat case_decide; simpl; try lia; naive_solver.
Qed.

(** The loop ends within one round per area, at the lowest free place. *)
Lemma find_available_loop_ok fuel l s len :
  areas_wf l -> 0 < len <= 2 ^ 63 -> 0 <= s < 2 ^ 63 -> s mod PAGE_SIZE = 0 ->
  (length (filter (fun a => (s < end_ (ma_range a))%Z) l) < fuel)%nat ->
  exists o, find_available_loop fuel l (mkRange s (s + len)) len = Ret o /\
    match o with
    | Some a => s <= a /\ a mod PAGE_SIZE = 0 /\ free_at l a len /\ forall s', s <= s' < a -> ~ free_at l s' len
    | None => forall s', s <= s' -> ~ free_at l s' len
    end.
Proof.
  intros Hwf Hlen. revert s. induction fuel as [|n IH]; intros s Hs Hsa Hfuel; [lia|]. cbn [find_available_loop].
  unfold range_is_user. cbn [start end_].
  destruct (Z.ltb_spec USER_SPACE_MEMORY_TOP (s + len)) as [Ht|Ht]; cbn [orb negb].
  { exists None. split; [done|]. unfold free_at. lia. }
  destruct (Z.leb_spec USER_SPACE_MEMORY_TOP s); [lia|]. cbn [orb negb].
  rewrite overlapping_range_spec; [|done|unfold range_nonempty, range_wf; simpl; lia].
  cbn [mbind outcome_bind]. destruct (last (filter (overlaps (mkRange s (s + len))) l)) as [a|] eqn:El.
  - assert (a ∈ filter (overlaps (mkRange s (s + len))) l) as Hin by (by apply last_Some_elem_of).
    apply list_elem_of_filter in Hin as [[Ho1 Ho2] Hin]. simpl in Ho1, Ho2.
    pose proof Hwf as (_ & Hok & Hu). rewrite Forall_forall in Hok, Hu.
    destruct (Hok a Hin) as ([(? & ? & ?) ?] & _ & Hae & _). specialize (Hu a Hin).
    assert (USER_SPACE_MEMORY_TOP < 2 ^ 63) as Htop by done.
    rewrite ceil_aligned, grow_from by (done || lia || (unfold is_u64; lia)). cbn [mbind outcome_bind].
    assert (forall s', s <= s' < end_ (ma_range a) -> ~ free_at l s' len) as Hno.
    { intros s' Hs' [_ Hf]. apply (Hf a Hin). unfold overlaps. simpl. lia. }
    destruct (IH (end_ (ma_range a))) as (o & Ho & Hspec); [lia|done| |].
    { assert (length (filter (fun b => (end_ (ma_range a) < end_ (ma_range b))%Z) l) <
              length (filter (fun b => (s < end_ (ma_range b))%Z) l))%nat; [|lia].
      eapply filter_shrink; [|exact Hin|done|lia]. simpl. intros. lia. }
    exists o. split; [done|]. destruct o as [b|].
    + destruct Hspec as (? & ? & ? & Hlow). split_and!; [lia|done|done|]. intros s' Hs'.
      destruct (decide (s' < end_ (ma_range a))); [apply Hno|apply Hlow]; lia.
    + intros s' Hs'. destruct (decide (s' < end_ (ma_range a))); [apply Hno|apply Hspec]; lia.
  - exists (Some s). split; [done|]. split_and!; [lia|done| |intros; lia]. split; [lia|].
    intros a Ha Hov. apply last_None in El. by apply (filter_nil_not_elem_of _ _ _ El Hov).
Qed.

(** Where the search starts. *)
Definition hint_start (hint : Z) : Z := if hint =? 0 then random_start else floor hint.

Lemma find_available_ok mm hint len :
  areas_wf (mm_areas mm) -> 0 < len <= 2 ^ 62 -> len mod PAGE_SIZE = 0 -> 0 <= hint < 2 ^ 63 ->
  exists o, mm_find_available mm hint len = Ret o /\
    match o with
    | Some a => hint_start hint <= a /\ a mod PAGE_SIZE = 0 /\ free_at (mm_areas mm) a len /\
        forall s', hint_start hint <= s' < a -> ~ free_at (mm_areas mm) s' len
    | None => forall s', hint_start hint <= s' -> ~ free_at (mm_areas mm) s' len
    end.
Proof.
  intros Hwf Hlen Hla Hh. unfold mm_find_available. fold (hint_start hint).
  assert (0 <= hint_start hint < 2 ^ 63 /\ hint_start hint mod PAGE_SIZE = 0) as [Hs Hsa].
  { unfold hint_start. destruct (Z.eqb_spec hint 0); [by vm_compute|].
    destruct (floor_spec hint) as (? & ? & ?); [unfold is_u64; lia|]. split; [lia|done]. }
  rewrite div_ceil_exact by (done || lia). rewrite wrap64_small by (unfold is_u64; lia).
  rewrite grow_from by lia. cbn [mbind outcome_bind]. apply find_available_loop_ok; try done; [lia|].
  assert (length (filter (fun a => (hint_start hint < end_ (ma_range a))%Z) (mm_areas mm)) <= length (mm_areas mm))%nat; [|lia].
  apply length_filter.
Qed.

Lemma map_pages_count c k pt n m :
  (map_pages pt n k (fun _ i => (c, S i)) m).2 = (m + k)%nat.
Proof. revert pt n m. induction k as [|k IH]; intros; simpl; [lia|]. rewrite IH. lia. Qed.

Lemma mapping_ok_shift s len mapping :
  mapping_ok (mkRange 0 len) mapping -> mapping_ok (mkRange s (s + len)) mapping.
Proof. unfold mapping_ok. destruct mapping; simpl; [done|]. intros (? & ? & ? & ?). split_and!; lia || done. Qed.

Section mmap.
Context (ph : Phys) (mm : MMList) (len : Z) (mapping : Mapping) (perm : Permission) (is_shared : bool).
Hypothesis Hwf : areas_wf (mm_areas mm).
Hypothesis Hlen : 0 < len <= 2 ^ 62.
Hypothesis Hla : len mod PAGE_SIZE = 0.
Hypothesis Hmap : mapping_ok (mkRange 0 len) mapping.

(** The address space with the new area at [at_]. *)
Definition mmapped (at_ : Z) (mm' : MMList) (ph' : Phys) : Prop :=
  let r := mkRange at_ (at_ + len) in
  areas_wf (mm_areas mm') /\ ph' = add_empty_refs ph (Z.to_nat (len / PAGE_SIZE)) /\
  mm_break_pos mm' = mm_break_pos mm /\
  forall x,
    mm_lookup mm' x =
      (if decide (in_range r x) then Some (area_attr (mkArea r mapping perm is_shared) x) else mm_lookup mm x) /\
    pte_at (mm_pt mm') x =
      if decide (in_range r x) then mapping_pte (ph_empty ph) mapping perm else pte_at (mm_pt mm) x.

Lemma mm_mmap_ok at_ :
  0 <= at_ < 2 ^ 63 -> at_ mod PAGE_SIZE = 0 ->
  match mm_mmap ph mm at_ len mapping perm is_shared with
  | Ret (mm', ph') => free_at (mm_areas mm) at_ len /\ mmapped at_ mm' ph'
  | Err e => e = EEXIST /\ ~ free_at (mm_areas mm) at_ len
  | Panic => False
  end.
Proof.
  intros Hat Haa. unfold mm_mmap, inner_mmap. rewrite floor_aligned by (done || (unfold is_u64; lia)).
  rewrite Z.eqb_refl, land_page_mask, Hla by lia. cbn [assert_ mbind outcome_bind Z.eqb].
  assert (addr_add at_ len = at_ + len) as -> by (apply wrap64_small; unfold is_u64; lia).
  unfold range_new. destruct (Z.leb_spec at_ (at_ + len)); [|lia]. cbn [mbind outcome_bind].
  set (r := mkRange at_ (at_ + len)).
  assert (range_nonempty r) as Hne by (unfold range_nonempty, range_wf, r; simpl; lia).
  destruct (check_overlapping_range_spec (mm_areas mm) r Hwf Hne) as (b & -> & Hb). cbn [mbind outcome_bind].
  destruct (Z.eqb_spec len 0); [lia|]. cbn [andb orb]. destruct b; cbn [negb].
  2:{ split; [done|]. intros Hfree. discriminate (proj2 Hb Hfree). }
  destruct Hb as [Hb _]. specialize (Hb eq_refl). pose proof Hb as [Htop Hdis].
  assert (end_ r mod PAGE_SIZE = 0) as Hre by (by apply mod_add_aligned).
  pose proof (fun x => pt_iter_at (fun _ n => (mapping_pte (ph_empty ph) mapping perm, S n))
    (fun _ => mapping_pte (ph_empty ph) mapping perm) (mm_pt mm) r 0%nat x ltac:(done) (proj1 Hne) Haa Hre) as Hpt.
  assert ((pt_iter (mm_pt mm) r (fun _ n => (mapping_pte (ph_empty ph) mapping perm, S n)) 0%nat).2 =
    Z.to_nat (len / PAGE_SIZE)) as Hcnt.
  { unfold pt_iter. rewrite map_pages_count. unfold range_pages, r. simpl. destruct Hne as [(? & ? & ?) _].
    rewrite (floor_aligned at_), (ceil_aligned (at_ + len)) by (done || (unfold is_u64; simpl in *; lia)).
    do 2 f_equal. lia. }
  destruct (pt_iter (mm_pt mm) r _ 0%nat) as [pt' cnt]. simpl in Hpt, Hcnt. subst cnt. cbn [mbind outcome_bind].
  split; [done|]. destruct (areas_insert_spec (mkArea r mapping perm is_shared) (mm_areas mm) Hwf) as [Hwf' Hmem].
  { unfold area_ok. simpl. split_and!; try done. by apply mapping_ok_shift. }
  { done. }
  { done. }
  split; [done|]. split; [done|]. split; [done|]. fold r. intros x. split; [|apply Hpt]. unfold mm_lookup. simpl.
  destruct (decide (in_range r x)) as [Hin|Hout].
  - replace (find_area _ x) with (Some (mkArea r mapping perm is_shared)); [done|]. symmetry.
    apply find_area_Some; [done|]. split; [|done]. apply Hmem. by left.
  - f_equal. apply option_eq. intros a. rewrite !find_area_Some by done. rewrite Hmem. naive_solver.
Qed.

Lemma mmap_found_ok hint :
  0 <= hint < 2 ^ 63 ->
  match mmap_found ph mm hint len mapping perm is_shared with
  | Ret (a, mm', ph') => (hint_start hint <= a /\ a mod PAGE_SIZE = 0 /\ free_at (mm_areas mm) a len /\
        forall s', hint_start hint <= s' < a -> ~ free_at (mm_areas mm) s' len) /\ mmapped a mm' ph'
  | Err e => e = ENOMEM /\ forall s', hint_start hint <= s' -> ~ free_at (mm_areas mm) s' len
  | Panic => False
  end.
Proof.
  intros Hh. unfold mmap_found. destruct (find_available_ok mm hint len Hwf Hlen Hla Hh) as (o & -> & Ho).
  cbn [mbind outcome_bind]. destruct o as [a|]; [|done]. cbn [ok_or mbind outcome_bind].
  destruct Ho as (Hge & Haa & Hfree & Hlow). unfold mmap_fixed.
  assert (0 <= hint_start hint) as Hpos.
  { unfold hint_start. destruct (Z.eqb_spec hint 0); [done|].
    by destruct (floor_spec hint) as (? & ? & ?); [unfold is_u64; lia|]. }
  assert (USER_SPACE_MEMORY_TOP < 2 ^ 63) as Htop by done. pose proof Hfree as [? _].
  pose proof (mm_mmap_ok a ltac:(lia) Haa) as Hm.
  destruct (mm_mmap ph mm a len mapping perm is_shared) as [[mm' ph']| |]; cbn [mbind outcome_bind]; [|tauto|done].
  destruct Hm as [_ Hm]. done.
Qed.
End mmap.


(** ** Page faults *)

Definition access_ok (perm : Permission) (error : Z) : bool :=
  implb (bf_contains error PF_Read) (p_read perm) &&
  implb (bf_contains error PF_Write) (p_write perm) &&
  implb (bf_contains error PF_InstructionFetch) (p_execute perm).

Lemma fault_cases pc ph mm addr error :
  areas_wf (mm_areas mm) ->
  handle_user_page_fault pc ph mm addr error =
    match find_area (mm_areas mm) addr with
    | None => Ret (FaultSIGBUS ph)
    | Some a =>
        if access_ok (ma_permission a) error then
          match area_handle pc a ph (pte_at (mm_pt mm) (floor addr))
                  (addr_sub (floor addr) (start (ma_range a))) (bf_contains error PF_Write) with
          | Ret (HandleOk pte ph _) =>
              Ret (FaultFixed (set_areas mm (mm_areas mm) (<[floor addr / PAGE_SIZE := pte]> (mm_pt mm))) ph)
          | Ret (HandleErr _ ph) => Ret (FaultSIGBUS ph)
          | Err e => Err e
          | Panic => Panic
          end
        else Ret FaultSIGSEGV
    end.
Proof.
  intros Hwf. unfold handle_user_page_fault. rewrite areas_get_point by done.
  destruct (find_area (mm_areas mm) addr) as [a|]; [|done]. unfold access_ok.
  destruct (bf_contains error PF_Read), (bf_contains error PF_Write), (bf_contains error PF_InstructionFetch),
    (p_read (ma_permission a)), (p_write (ma_permission a)), (p_execute (ma_permission a)); done.
Qed.

(** C2: A permitted access to a copy-on-write page is resolved by giving the
    process a page of its own with the same contents.  The entry of that page
    becomes present, no longer copy-on-write and writable exactly when the area
    is; no other entry and no area changes; the new page has one reference and
    the bytes of the old one; every other page in use keeps its bytes and its
    reference count, and a page that was shared loses one reference. *)
Theorem cow_fault_correct pc ph mm addr error perm sh b pfn attr raw c :
  areas_wf (mm_areas mm) -> 0 <= addr < 2 ^ 64 ->
  mm_lookup mm addr = Some (perm, sh, b) -> access_ok perm error = true ->
  phys_ok ph -> ph_refs ph !! pfn = Some c -> ph_free ph <> [] ->
  hw_attr attr -> cow_page attr = true -> from_page_attr attr = Ret raw ->
  pte_at (mm_pt mm) addr = pte_set pfn raw ->
  exists mm' ph' attr', handle_user_page_fault pc ph mm addr error = Ret (FaultFixed mm' ph') /\
    let pte' := pte_at (mm_pt mm') addr in
    as_page_attr (pte_attr pte') = Some attr' /\
    bf_contains attr' PG_PRESENT = true /\ bf_contains attr' PG_COPY_ON_WRITE = false /\
    bf_contains attr' PG_WRITE = p_write perm /\
    is_exclusive ph' (pte_pfn pte') = true /\
    page_bytes ph' (pte_pfn pte') = page_bytes ph pfn /\
    mm_areas mm' = mm_areas mm /\
    (forall x, x / PAGE_SIZE <> addr / PAGE_SIZE -> pte_at (mm_pt mm') x = pte_at (mm_pt mm) x) /\
    (forall q, is_Some (ph_refs ph !! q) -> page_bytes ph' q = page_bytes ph q) /\
    (forall q, is_Some (ph_refs ph !! q) -> q <> pfn -> ph_refs ph' !! q = ph_refs ph !! q) /\
    (pte_pfn pte' <> pfn -> ph_refs ph' !! pfn = Some (c - 1)).
Proof.
  intros Hwf Haddr Hlook Hacc Hph Hc Hfree Ha Hcow Hraw Hpte. rewrite fault_cases by done.
  unfold mm_lookup in Hlook. destruct (find_area (mm_areas mm) addr) as [a|]; [|done]. simpl in Hlook.
  injection Hlook as Hp _ _. rewrite Hp, Hacc.
  destruct (floor_spec addr) as (Hf1 & Hf2 & _); [done|]. pose proof PAGE_SIZE_eq as Hps.
  assert (floor addr / PAGE_SIZE = addr / PAGE_SIZE) as Hpage.
  { apply Z.div_exact in Hf2; [|lia]. rewrite Hps in *. apply (Z.div_unique_pos _ _ _ (addr - floor addr)); lia. }
  assert (pte_at (mm_pt mm) (floor addr) = pte_set pfn raw) as -> by (rewrite <- Hpte; unfold pte_at; by rewrite Hpage).
  destruct (cow_fault_ok pc a ph pfn attr raw c (addr_sub (floor addr) (start (ma_range a))) (bf_contains error PF_Write))
    as (pte' & ph' & attr' & -> & H1 & H2 & H3 & H4 & H5 & H6 & H7 & H8 & H9); [done..|].
  eexists _, ph', attr'. split; [done|]. unfold pte_at at 1 2 3. simpl. rewrite Hpage, !lookup_insert_eq. simpl.
  rewrite Hp in H4. split_and!; try done.
  - intros x Hx. unfold pte_at. simpl. by rewrite lookup_insert_ne by done.
Qed.

(** A fault at an unmapped address is [SIGBUS], and a mapped address with
    the wrong permission is [SIGSEGV]; neither changes the address space.  A
    fault that is fixed was a permitted access to a mapped address, and it
    changes at most the entry of the faulting page. *)
Theorem page_fault_checks pc ph mm addr error :
  areas_wf (mm_areas mm) ->
  match mm_lookup mm addr with
  | None => handle_user_page_fault pc ph mm addr error = Ret (FaultSIGBUS ph)
  | Some (perm, _, _) =>
      if access_ok perm error then
        handle_user_page_fault pc ph mm addr error <> Ret FaultSIGSEGV /\
        forall mm' ph', handle_user_page_fault pc ph mm addr error = Ret (FaultFixed mm' ph') ->
          mm_areas mm' = mm_areas mm /\
          forall x, x / PAGE_SIZE <> floor addr / PAGE_SIZE -> pte_at (mm_pt mm') x = pte_at (mm_pt mm) x
      else handle_user_page_fault pc ph mm addr error = Ret FaultSIGSEGV
  end.
Proof.
  intros Hwf. rewrite fault_cases by done. unfold mm_lookup.
  destruct (find_area (mm_areas mm) addr) as [a|]; [|done]. simpl.
  destruct (access_ok (ma_permission a) error); [|done].
  destruct (area_handle _ _ _ _ _ _) as [[pte ph1 d|e ph1]| |]; split; try done; intros mm' ph' [= <- <-].
  split; [done|]. intros x Hx. unfold pte_at. simpl. by rewrite lookup_insert_ne by done.
Qed.

(** ** Forking *)

Definition cow_attr (a : Z) : Z := bf_insert (bf_remove a (Z.lor PG_WRITE PG_DIRTY)) PG_COPY_ON_WRITE.

(** An entry that fork can share: a leaf that stays one without the write
    permission, whose page is in use. *)
Definition clonable (ph : Phys) (e : Z) : Prop :=
  0 <= e < 2 ^ 64 /\ (exists a, as_page_attr (pte_attr e) = Some a /\ leaf_valid (cow_attr a) = true) /\
  exists c, 1 <= c /\ ph_refs ph !! pte_pfn e = Some c.

(** Whether the page of the entry gets another reference. *)
Definition cloned (shared : bool) (e : Z) : bool :=
  shared || match as_page_attr (pte_attr e) with
            | Some a => bf_intersects a (Z.lor PG_PRESENT PG_MAPPED) | None => false end.

Definition refs_grow (ph ph' : Phys) : Prop :=
  ph_data ph' = ph_data ph /\ ph_free ph' = ph_free ph /\ ph_empty ph' = ph_empty ph /\
  forall q c, ph_refs ph !! q = Some c -> exists c', c <= c' /\ ph_refs ph' !! q = Some c'.

Lemma refs_grow_refl ph : refs_grow ph ph.
Proof. split_and!; try done. intros q c ?. exists c. by split. Qed.

Lemma refs_grow_trans ph1 ph2 ph3 : refs_grow ph1 ph2 -> refs_grow ph2 ph3 -> refs_grow ph1 ph3.
Proof.
  intros (? & ? & ? & Hg1) (? & ? & ? & Hg2). split_and!; try congruence.
  intros q c Hq. destruct (Hg1 q c Hq) as (c1 & ? & Hc1). destruct (Hg2 q c1 Hc1) as (c2 & ? & ?).
  exists c2. split; [lia|done].
Qed.

Lemma clonable_grow ph ph' e : refs_grow ph ph' -> clonable ph e -> clonable ph' e.
Proof.
  intros (_ & _ & _ & Hg) (? & ? & c & ? & Hc). destruct (Hg _ _ Hc) as (c' & ? & ?).
  split; [done|]. split; [done|]. exists c'. split; [lia|done].
Qed.

Lemma page_clone_ok ph q c :
  ph_refs ph !! q = Some c -> exists ph', page_clone ph q = Ret ph' /\ refs_grow ph ph' /\ ph_refs ph' !! q = Some (c + 1).
Proof.
  intros Hq. unfold page_clone. rewrite Hq. simpl. eexists. split; [done|]. simpl. split; [|apply lookup_insert_eq].
  split_and!; try done. intros q' c' Hq'. destruct (decide (q = q')) as [<-|]; simpl.
  - exists (c + 1). rewrite lookup_insert_eq. split; [|done]. assert (c = c') by congruence. lia.
  - exists c'. rewrite lookup_insert_ne by done. by split.
Qed.

Definition shared_page (ph : Phys) (q : Z) : Prop := exists c, 2 <= c /\ ph_refs ph !! q = Some c.

(** What fork makes of an entry: the child's (given what was there) and the parent's. *)
Definition entry_pair (shared : bool) (t e t' f' : Z) : Prop :=
  if shared then t' = e /\ f' = e
  else match as_page_attr (pte_attr e) with
       | Some a =>
           if bf_intersects a (Z.lor PG_PRESENT PG_MAPPED) then
             pte_pfn t' = pte_pfn e /\ as_page_attr (pte_attr t') = Some (bf_remove (cow_attr a) PG_ACCESSED) /\
             pte_pfn f' = pte_pfn e /\ as_page_attr (pte_attr f') = Some (cow_attr a)
           else t' = t /\ f' = e
       | None => False
       end.

Lemma cow_attr_hw a :
  hw_attr a -> hw_attr (cow_attr a) /\ hw_attr (bf_remove (cow_attr a) PG_ACCESSED) /\
  leaf_valid (bf_remove (cow_attr a) PG_ACCESSED) = leaf_valid (cow_attr a).
Proof.
  intros Ha.
  assert ((0 <=? cow_attr a) && (cow_attr a <? 1024) && (0 <=? bf_remove (cow_attr a) PG_ACCESSED) &&
    (bf_remove (cow_attr a) PG_ACCESSED <? 1024) &&
    Bool.eqb (leaf_valid (bf_remove (cow_attr a) PG_ACCESSED)) (leaf_valid (cow_attr a)) = true) as Hc.
  { revert a Ha. unfold hw_attr. apply forallb_seqZ. vm_compute. reflexivity. }
  rewrite !andb_true_iff, !Z.leb_le, !Z.ltb_lt, eqb_true_iff in Hc. unfold hw_attr. tauto.
Qed.

Lemma pte_pfn_range e : 0 <= e < 2 ^ 64 -> 0 <= pte_pfn e < 2 ^ 54.
Proof.
  intros He. unfold pte_pfn, pte_get, PA_SHIFT. simpl. rewrite Z.shiftr_div_pow2 by lia.
  split; [apply Z.div_pos; lia|]. apply Z.div_lt_upper_bound; lia.
Qed.

Lemma pte_set_get e : 0 <= e < 2 ^ 64 -> pte_set (pte_pfn e) (pte_attr e) = e.
Proof.
  intros He. pose proof (pte_pfn_range e He). pose proof (pte_attr_hw e) as Hh. unfold hw_attr in Hh.
  unfold pte_set, PA_SHIFT. rewrite wrap64_small.
  2:{ unfold is_u64. rewrite Z.shiftl_mul_pow2 by lia. lia. }
  rewrite lor_shiftl_small by lia. unfold pte_pfn, pte_attr, pte_get, PA_SHIFT. simpl.
  change PA_FLAGS_MASK with (Z.ones 10). rewrite Z.land_ones, Z.shiftr_div_pow2 by lia. change (2 ^ 10) with 1024.
  pose proof (Z.div_mod e 1024). lia.
Qed.

Lemma clone_entry_ok ph t e :
  clonable ph e ->
  exists t' f' ph', set_copy_on_write ph t e = Ret (t', f', ph') /\ entry_pair false t e t' f' /\ refs_grow ph ph' /\
    (cloned false e = true -> shared_page ph' (pte_pfn e)).
Proof.
  intros (He & (a & Ha & Hlv) & c & Hc & Hq). pose proof (as_page_attr_hw _ _ (pte_attr_hw e) Ha) as [Hh _].
  destruct (cow_attr_hw a Hh) as (Hh1 & Hh2 & Hl2). pose proof (pte_pfn_range e He) as Hpfn.
  unfold set_copy_on_write, entry_pair, cloned. rewrite Ha. cbn [expect mbind outcome_bind orb].
  destruct (bf_intersects a (Z.lor PG_PRESENT PG_MAPPED)); cbn [negb].
  2:{ exists t, e, ph. split_and!; try done. apply refs_grow_refl. }
  fold (cow_attr a). destruct (page_clone_ok ph _ c Hq) as (ph' & -> & Hg & Hq'). cbn [mbind outcome_bind].
  destruct (page_attr_roundtrip _ Hh2) as (raw2 & -> & Hr2 & Has2). cbn [mbind outcome_bind].
  destruct (page_attr_roundtrip _ Hh1) as (raw1 & -> & Hr1 & Has1). cbn [mbind outcome_bind].
  eexists _, _, ph'. split; [done|]. unfold pte_set_attr.
  unfold pte_pfn at 1 5, pte_attr. rewrite !pte_get_set by done. cbn [fst snd].
  rewrite Hl2, Hlv in Has2. rewrite Hlv in Has1. split_and!; try done. intros _. exists (c + 1). split; [lia|done].
Qed.

Lemma copy_entry_ok ph t e :
  clonable ph e ->
  exists ph', set_copied ph e = Ret (e, ph') /\ entry_pair true t e e e /\ refs_grow ph ph' /\ shared_page ph' (pte_pfn e).
Proof.
  intros (He & _ & c & Hc & Hq). unfold set_copied. destruct (pte_get e) as [pfn attr] eqn:Eg.
  assert (pte_pfn e = pfn /\ pte_attr e = attr) as [Ep Ea] by (unfold pte_pfn, pte_attr; by rewrite Eg).
  rewrite Ep in Hq. destruct (page_clone_ok ph pfn c Hq) as (ph' & -> & Hg & Hq'). cbn [mbind outcome_bind].
  exists ph'. rewrite <- Ep, <- Ea, pte_set_get by done. split; [done|]. split; [done|]. split; [done|]. rewrite Ep.
  exists (c + 1). split; [lia|done].
Qed.

Lemma shared_page_grow ph ph' q : refs_grow ph ph' -> shared_page ph q -> shared_page ph' q.
Proof.
  intros (_ & _ & _ & Hg) (c & ? & Hc). destruct (Hg _ _ Hc) as (c' & ? & ?). exists c'. split; [lia|done].
Qed.

Definition page_at (pt : gmap Z Z) (m : Z) : Z := default 0 (pt !! m).

Lemma page_at_insert pt n v m : page_at (<[n := v]> pt) m = if decide (m = n) then v else page_at pt m.
Proof.
  unfold page_at. destruct (decide (m = n)) as [->|]; [by rewrite lookup_insert_eq|by rewrite lookup_insert_ne by done].
Qed.

(** What the loop over the pages that satisfy [P] has done. *)
Definition pages_cloned (shared : bool) (P : Z -> Prop) `{!forall m, Decision (P m)} (ph' : Phys) (to from to' from' : gmap Z Z) : Prop :=
  forall m, if decide (P m)
    then entry_pair shared (page_at to m) (page_at from m) (page_at to' m) (page_at from' m) /\
      (cloned shared (page_at from m) = true -> shared_page ph' (pte_pfn (page_at from m)))
    else page_at to' m = page_at to m /\ page_at from' m = page_at from m.

Lemma clone_pages_ok shared ph to from n k :
  (forall m, n <= m < n + Z.of_nat k -> clonable ph (page_at from m)) ->
  exists to' from' ph', clone_pages shared ph to from n k = Ret (to', from', ph') /\ refs_grow ph ph' /\
    pages_cloned shared (fun m => n <= m < n + Z.of_nat k) ph' to from to' from'.
Proof.
  revert ph to from n. induction k as [|k IH]; intros ph to from n Hall; cbn [clone_pages].
  { eexists _, _, ph. split; [done|]. split; [apply refs_grow_refl|]. intros m. by rewrite decide_False by lia. }
  fold (page_at from n) (page_at to n).
  assert (exists t' f' ph1, (if shared then '(t, ph) ← set_copied ph (page_at from n); Ret (t, page_at from n, ph)
      else set_copy_on_write ph (page_at to n) (page_at from n)) = Ret (t', f', ph1) /\
      entry_pair shared (page_at to n) (page_at from n) t' f' /\ refs_grow ph ph1 /\
      (cloned shared (page_at from n) = true -> shared_page ph1 (pte_pfn (page_at from n)))) as (t' & f' & ph1 & Hs & Hp & Hg & Hsh).
  { pose proof (Hall n ltac:(lia)) as Hn. destruct shared.
    - destruct (copy_entry_ok ph (page_at to n) _ Hn) as (ph1 & -> & ? & ? & ?). eauto 10.
    - destruct (clone_entry_ok ph (page_at to n) _ Hn) as (t' & f' & ph1 & -> & ? & ? & ?). eauto 10. }
  set (from1 := if shared then from else <[n := f']> from).
  assert (forall m, page_at from1 m = if decide (m = n) then f' else page_at from m) as Hf1.
  { intros m. unfold from1. destruct shared; [|apply page_at_insert]. destruct Hp as [_ ->]. by destruct (decide (m = n)) as [->|]. }
  destruct (IH ph1 (<[n := t']> to) from1 (n + 1)) as (to' & from' & ph' & Hc & Hg' & Hpc).
  { intros m Hm. rewrite Hf1, decide_False by lia. eapply clonable_grow; [done|]. apply Hall. lia. }
  exists to', from', ph'. split; [|split; [by eapply refs_grow_trans|]].
  - destruct shared.
    + destruct (set_copied ph (page_at from n)) as [[t ph2]| |]; [|done..]. simpl in Hs. simplify_eq. done.
    + rewrite Hs. cbn [mbind outcome_bind]. done.
  - intros m. specialize (Hpc m). rewrite page_at_insert, !Hf1 in Hpc.
    destruct (decide (m = n)) as [->|Hne].
    + rewrite decide_True by lia. rewrite decide_False in Hpc by lia. destruct Hpc as [-> ->].
      split; [done|]. intros Hcl. eapply shared_page_grow; [done|]. by apply Hsh.
    + destruct (decide (n + 1 <= m < _)); [rewrite decide_True by lia|rewrite decide_False by lia]; done.
Qed.

Lemma area_pages a m :
  area_ok a ->
  range_first (ma_range a) <= m < range_first (ma_range a) + Z.of_nat (range_pages (ma_range a)) <->
  in_area a (m * PAGE_SIZE).
Proof.
  intros ([(? & ? & ?) ?] & Hs & He & _). unfold range_first, range_pages, in_area, in_range.
  rewrite (floor_aligned (start (ma_range a))), (ceil_aligned (end_ (ma_range a))) by (done || (unfold is_u64; lia)).
  pose proof PAGE_SIZE_eq as Hps. apply Z.div_exact in Hs; [|lia]. apply Z.div_exact in He; [|lia].
  assert ((end_ (ma_range a) - start (ma_range a)) / PAGE_SIZE =
          end_ (ma_range a) / PAGE_SIZE - start (ma_range a) / PAGE_SIZE) as ->.
  { rewrite Hs at 1. rewrite He at 1. rewrite <- Z.mul_sub_distr_l, Z.mul_comm. apply Z.div_mul. lia. }
  rewrite Hps in *. lia.
Qed.

Lemma clone_areas_ok l ph to from :
  areas_wf l -> (forall m, is_Some (find_area l (m * PAGE_SIZE)) -> clonable ph (page_at from m)) ->
  exists to' from' ph', clone_areas ph to from l = Ret (to', from', ph') /\ refs_grow ph ph' /\
    forall m, match find_area l (m * PAGE_SIZE) with
      | Some a => entry_pair (ma_shared a) (page_at to m) (page_at from m) (page_at to' m) (page_at from' m) /\
          (cloned (ma_shared a) (page_at from m) = true -> shared_page ph' (pte_pfn (page_at from m)))
      | None => page_at to' m = page_at to m /\ page_at from' m = page_at from m
      end.
Proof.
  revert ph to from. induction l as [|a l IH]; intros ph to from Hwf Hall; cbn [clone_areas].
  { eexists _, _, ph. split; [done|]. by split; [apply refs_grow_refl|]. }
  pose proof Hwf as (Hwf' & _ & Ha & _)%areas_wf_cons.
  destruct (clone_pages_ok (ma_shared a) ph to from (range_first (ma_range a)) (range_pages (ma_range a)))
    as (to1 & from1 & ph1 & -> & Hg1 & Hc1).
  { intros m Hm%area_pages; [|done]. apply Hall. rewrite find_area_cons. by left. }
  cbn [mbind outcome_bind].
  assert (forall m, ~ in_area a (m * PAGE_SIZE) -> page_at to1 m = page_at to m /\ page_at from1 m = page_at from m) as Hout.
  { intros m Hm. specialize (Hc1 m). rewrite decide_False in Hc1; [done|]. by rewrite area_pages. }
  destruct (IH ph1 to1 from1 Hwf') as (to2 & from2 & ph2 & -> & Hg2 & Hc2).
  { intros m Hs. destruct (find_area_tail a l _ Hwf Hs) as [Hna _]. destruct (Hout m Hna) as [_ ->].
    eapply clonable_grow; [done|]. apply Hall. rewrite find_area_cons. by right. }
  eexists _, _, ph2. split; [done|]. split; [by eapply refs_grow_trans|]. intros m. specialize (Hc2 m).
  destruct (decide (in_area a (m * PAGE_SIZE))) as [Hin|Hna].
  - rewrite find_area_head by done. destruct (find_area l (m * PAGE_SIZE)) as [b|] eqn:E.
    { destruct (find_area_tail a l (m * PAGE_SIZE) Hwf) as [? _]; [by rewrite E|done]. }
    destruct Hc2 as [-> ->]. specialize (Hc1 m). rewrite decide_True in Hc1 by (by apply area_pages).
    destruct Hc1 as [? Hsh]. split; [done|]. intros Hcl. eapply shared_page_grow; [done|]. by apply Hsh.
  - destruct (Hout m Hna) as [Ht Hf]. rewrite Ht, Hf in Hc2.
    replace (find_area (a :: l) (m * PAGE_SIZE)) with (find_area l (m * PAGE_SIZE)); [done|].
    unfold in_area, in_range in Hna. simpl.
    by destruct (Z.leb_spec (start (ma_range a)) (m * PAGE_SIZE)), (Z.ltb_spec (m * PAGE_SIZE) (end_ (ma_range a))); simpl; try lia.
Qed.

(** C4: Forking an address space gives the child the same areas and the same
    memory.  A page of a private area is mapped copy-on-write and read-only in
    both, at the same frame, and has at least two references, so that whichever
    of the two writes first gets a copy; a page of a shared area has the same
    entry in both; nothing else is mapped in the child, and no page changes its
    contents or loses a reference. *)
Theorem fork_correct mm ph user_count :
  areas_wf (mm_areas mm) -> user_count = 0 \/ user_count = 1 ->
  (forall m, is_Some (mm_lookup mm (m * PAGE_SIZE)) -> clonable ph (page_at (mm_pt mm) m)) ->
  exists parent child ph', mm_new_cloned user_count true ph mm = Ret (parent, child, ph') /\
    mm_areas parent = mm_areas mm /\ mm_areas child = mm_areas mm /\ mm_break_pos child = mm_break_pos mm /\
    refs_grow ph ph' /\
    forall m, match mm_lookup mm (m * PAGE_SIZE) with
      | Some (_, shared, _) =>
          entry_pair shared 0 (page_at (mm_pt mm) m) (page_at (mm_pt child) m) (page_at (mm_pt parent) m) /\
          (cloned shared (page_at (mm_pt mm) m) = true -> shared_page ph' (pte_pfn (page_at (mm_pt mm) m)))
      | None => page_at (mm_pt child) m = 0 /\ page_at (mm_pt parent) m = page_at (mm_pt mm) m
      end.
Proof.
  intros Hwf Huc Hall. unfold mm_new_cloned.
  destruct (clone_areas_ok (mm_areas mm) ph ∅ (mm_pt mm) Hwf) as (to & from & ph' & -> & Hg & Hm).
  { intros m Hs. apply Hall. unfold mm_lookup. by rewrite fmap_is_Some. }
  cbn [mbind outcome_bind]. assert (flush_user_tlbs user_count true = Ret tt) as -> by (by destruct Huc as [-> | ->]).
  cbn [mbind outcome_bind]. do 3 eexists. split; [done|]. do 3 (split; [done|]). split; [done|].
  intros m. specialize (Hm m). unfold mm_lookup. by destruct (find_area (mm_areas mm) (m * PAGE_SIZE)).
Qed.

(** ** Witnesses *)


Lemma cow_fault_correct_witness :
  exists mm' ph', handle_user_page_fault (fun _ => None) demo_phys demo_mm 0x12345 PF_Write = Ret (FaultFixed mm' ph') /\
    page_bytes ph' (pte_pfn (pte_at (mm_pt mm') 0x12345)) = zero_page.
Proof.
  destruct (cow_fault_correct (fun _ => None) demo_phys demo_mm 0x12345 PF_Write rw false None 5 0x113 0x113 3)
    as (mm' & ph' & attr' & Hh & _ & _ & _ & _ & _ & Hby & _).
  - exact demo_mm_wf.
  - lia.
  - reflexivity.
  - reflexivity.
  - exact demo_phys_ok.
  - reflexivity.
  - done.
  - unfold hw_attr. lia.
  - reflexivity.
  - reflexivity.
  - vm_compute. reflexivity.
  - exists mm', ph'. split; [exact Hh|]. rewrite Hby. reflexivity.
Defined.

Lemma page_fault_checks_witness :
  handle_user_page_fault (fun _ => None) demo_phys demo_mm 0x20000 PF_Write = Ret (FaultSIGBUS demo_phys) /\
  handle_user_page_fault (fun _ => None) demo_phys demo_mm 0x12000 PF_InstructionFetch = Ret FaultSIGSEGV.
Proof.
  split; [exact (page_fault_checks (fun _ => None) demo_phys demo_mm 0x20000 PF_Write demo_mm_wf)|].
  exact (page_fault_checks (fun _ => None) demo_phys demo_mm 0x12000 PF_InstructionFetch demo_mm_wf).
Defined.

Lemma fork_correct_witness :
  exists parent child ph', mm_new_cloned 1 true demo_phys demo_mm = Ret (parent, child, ph') /\
    shared_page ph' 5 /\ mm_lookup child 0x17fff = Some (rw, false, None).
Proof.
  destruct (fork_correct demo_mm demo_phys 1 demo_mm_wf (or_intror eq_refl)) as (pa & ch & ph' & Hf & _ & Ha & _ & _ & Hm).
  - intros m Hs. assert (0x10 <= m < 0x18) as Hmr.
    { unfold mm_lookup in Hs. rewrite fmap_is_Some in Hs. destruct Hs as [a [Hin Hx]%find_area_Some]; [|apply demo_mm_wf].
      apply list_elem_of_singleton in Hin as ->. destruct Hx as [Hx1 Hx2]. simpl in Hx1, Hx2. unfold PAGE_SIZE in *. lia. }
    assert (page_at (mm_pt demo_mm) m = mapping_pte 5 Anonymous rw) as ->.
    { assert (m = 0x10 \/ m = 0x11 \/ m = 0x12 \/ m = 0x13 \/ m = 0x14 \/ m = 0x15 \/ m = 0x16 \/ m = 0x17) as Hc by lia.
      destruct Hc as [-> |[-> |[-> |[-> |[-> |[-> |[-> | ->]]]]]]]; vm_compute; reflexivity. }
    split; [by vm_compute|]. split; [exists 0x113; by vm_compute|]. exists 3. by vm_compute.
  - exists pa, ch, ph'. split; [exact Hf|]. split; [exact (proj2 (Hm 0x10) eq_refl)|].
    unfold mm_lookup. rewrite Ha. reflexivity.
Defined.

(** ** Where the code falls short *)

(** [mprotect(PROT_WRITE)] on an untouched anonymous page leaves a present entry
    without any access right, which is no leaf: the next [mprotect] and the
    next fault there panic. *)
Theorem mprotect_write_only_panics :
  match inner_protect demo_mm 0x12000 0x1000 (mkPerm false true false) with
  | Ret mm' => inner_protect mm' 0x12000 0x1000 rw = Panic /\
      handle_user_page_fault (fun _ => None) demo_phys mm' 0x12000 PF_Write = Panic
  | _ => False
  end.
Proof. vm_compute. by split. Qed.

(** After [PROT_NONE] an anonymous page never becomes present again: giving the
    permissions back does not set the bit, and neither does a fault. *)
Theorem mprotect_none_never_present :
  match inner_protect demo_mm 0x12000 0x1000 (mkPerm false false false) with
  | Ret mm1 =>
      match inner_protect mm1 0x12000 0x1000 rw with
      | Ret mm2 =>
          match handle_user_page_fault (fun _ => None) demo_phys mm2 0x12000 PF_Write with
          | Ret (FaultFixed mm3 _) =>
              (fun a => bf_contains a PG_PRESENT) <$> as_page_attr (pte_attr (pte_at (mm_pt mm3) 0x12000)) = Some false
          | _ => False
          end
      | _ => False
      end
  | _ => False
  end.
Proof. vm_compute. done. Qed.

(** [munmap] at the top of the address space wraps around and panics instead of
    failing with [EINVAL]; so does [mmap] with a huge length. *)
Theorem unmap_wraps_panics :
  inner_unmap mm_new (2 ^ 64 - 0x1000) 0x2000 = Panic /\
  mmap_hint demo_phys mm_new 0 (2 ^ 64 - 0x1000) Anonymous rw false = Panic.
Proof. vm_compute. by split. Qed.

(** [brk] with the current break inserts an empty area there, and the heap can
    no longer grow. *)
Theorem brk_same_blocks_growth :
  match register_break mm_new 0x20000 with
  | Ret mm0 =>
      match set_break demo_phys mm0 (Some 0x20000) with
      | Ret (_, mm1, ph1) =>
          match set_break ph1 mm1 (Some 0x21000), set_break demo_phys mm0 (Some 0x21000) with
          | Ret (b1, _, _), Ret (b0, _, _) => b1 = 0x20000 /\ b0 = 0x21000
          | _, _ => False
          end
      | _ => False
      end
  | _ => False
  end.
Proof. vm_compute. by split. Qed.

(** A private file page that is forked before it is touched is both mapped and
    copy-on-write; the first fault allocates a page for each of the two and
    keeps only the second, so a frame (here 9) is lost. *)
Theorem fork_mapped_page_leaks :
  let file := MFile (mkFileMapping 7 0 0x1000) in
  let ph := mkPhys {[5 := 2; 6 := 1]} {[5 := zero_page; 6 := zero_page]} [9; 10; 11] 5 in
  let pc := fun _ : Z => Some (fun _ : Z => Ret (Some 6)) in
  match mmap_fixed ph mm_new 0x10000 0x1000 file rw false with
  | Ret (_, mm, ph) =>
      match mm_new_cloned 1 true ph mm with
      | Ret (_, child, ph) =>
          match handle_user_page_fault pc ph child 0x10000 PF_Write with
          | Ret (FaultFixed child ph) =>
              pte_pfn (pte_at (mm_pt child) 0x10000) = 10 /\ ph_refs ph !! 9 = Some 1 /\ ph_free ph = [11]
          | _ => False
          end
      | _ => False
      end
  | _ => False
  end.
Proof. vm_compute. by split. Qed.
