(* ===== verification/OpenFlags.v ===== *)
(** * Open flags, descriptor flags and poll events

    Models crates/posix_types/src/open.rs and the [PollEvent] of
    src/kernel/vfs/file/mod.rs.  A flag set is its bits. *)

From S2P Require Import Prelude.

(** ** [OpenFlags] *)

Definition O_WRONLY : Z := 0x1.
Definition O_RDWR : Z := 0x2.
Definition O_CREAT : Z := 0x40.
Definition O_EXCL : Z := 0x80.
Definition O_TRUNC : Z := 0x200.
Definition O_APPEND : Z := 0x400.
Definition O_NONBLOCK : Z := 0x800.
Definition O_DIRECTORY : Z := 0x10000.
Definition O_NOFOLLOW : Z := 0x20000.
Definition O_CLOEXEC : Z := 0x80000.

(** ** [FDFlags] *)

Definition FD_CLOEXEC : Z := 0x1.

Definition fd_flags_empty : Z := 0.
(** [FDFlags::from_bits_truncate] drops the unknown bits. *)
Definition fd_flags_truncate (bits : Z) : Z := Z.land bits FD_CLOEXEC.

Definition flags_close_on_exec (flags : Z) : bool := bf_contains flags FD_CLOEXEC.

Definition as_fd_flags (flags : Z) : Z :=
  if bf_contains flags O_CLOEXEC then FD_CLOEXEC else fd_flags_empty.

Definition oflags_read (flags : Z) : bool := negb (bf_contains flags O_WRONLY).
Definition oflags_write (flags : Z) : bool := bf_intersects flags (Z.lor O_WRONLY O_RDWR).
Definition oflags_append (flags : Z) : bool := bf_contains flags O_APPEND.
Definition oflags_directory (flags : Z) : bool := bf_contains flags O_DIRECTORY.
Definition oflags_truncate (flags : Z) : bool := bf_contains flags O_TRUNC.
Definition oflags_follow_symlink (flags : Z) : bool := negb (bf_contains flags O_NOFOLLOW).
Definition as_rwa (flags : Z) : bool * bool * bool :=
  (oflags_read flags, oflags_write flags, oflags_append flags).

(** ** [AtFlags] *)

Definition AT_SYMLINK_NOFOLLOW : Z := 0x100.
Definition AT_REMOVEDIR : Z := 0x200.
Definition AT_SYMLINK_FOLLOW : Z := 0x400.
Definition AT_EMPTY_PATH : Z := 0x1000.
Definition AT_STATX_FORCE_SYNC : Z := 0x2000.
Definition AT_STATX_DONT_SYNC : Z := 0x4000.

Definition at_empty_path (flags : Z) : bool := bf_contains flags AT_EMPTY_PATH.
Definition at_no_follow (flags : Z) : bool := bf_contains flags AT_SYMLINK_NOFOLLOW.
Definition at_follow (flags : Z) : bool := bf_contains flags AT_SYMLINK_FOLLOW.
Definition statx_default_sync (flags : Z) : bool :=
  negb (bf_intersects flags (Z.lor AT_STATX_FORCE_SYNC AT_STATX_DONT_SYNC)).

(** ** [PollEvent] *)

Definition Readable : Z := 0x0001.
Definition Writable : Z := 0x0004.
Definition poll_empty : Z := 0.

(** The descriptor flags kept by [as_fd_flags] are exactly the close-on-exec bit. *)
Lemma as_fd_flags_close_on_exec flags :
  flags_close_on_exec (as_fd_flags flags) = bf_contains flags O_CLOEXEC.
Proof. unfold as_fd_flags. by destruct (bf_contains flags O_CLOEXEC). Qed.
