(* ===== verification/Mode.v ===== *)
(** * File modes

    Models the [Mode] of src/kernel/vfs/inode.rs: the file type and the
    permission bits of an inode, as a [u32]. *)

From S2P Require Import Prelude.

Definition S_IFCHR : Z := 0x2000.
Definition S_IFDIR : Z := 0x4000.
Definition S_IFBLK : Z := 0x6000.
Definition S_IFREG : Z := 0x8000.
Definition S_IFLNK : Z := 0xa000.
Definition S_IFMT : Z := 0xf000.

Definition mode_is_blk (m : Z) : bool := Z.land m S_IFMT =? S_IFBLK.
Definition mode_is_chr (m : Z) : bool := Z.land m S_IFMT =? S_IFCHR.
Definition mode_is_reg (m : Z) : bool := Z.land m S_IFMT =? S_IFREG.
Definition mode_is_dir (m : Z) : bool := Z.land m S_IFMT =? S_IFDIR.
Definition mode_is_lnk (m : Z) : bool := Z.land m S_IFMT =? S_IFLNK.
Definition mode_format (m : Z) : Z := Z.land m S_IFMT.
(** [m & !S_IFMT] and [m & !0o777]: a complement inside a [land] clears bits. *)
Definition mode_non_format (m : Z) : Z := Z.ldiff m S_IFMT.
Definition mode_perm (m perm : Z) : Z := Z.lor (Z.ldiff m 0x1ff) (Z.land perm 0x1ff).
Definition mode_mask_perm (m perm_mask : Z) : Z :=
  let perm_mask := Z.land perm_mask 0x1ff in
  let self_perm := Z.land (mode_non_format m) 0x1ff in
  mode_perm m (Z.land self_perm perm_mask).
