(* ===== verification/Path.v ===== *)
(** * Paths

    Models src/path.rs: the iterator that cuts a path into its components.  The
    reference is the list of the maximal runs without a slash. *)

From S2P Require Import Prelude.

Definition ENAMETOOLONG : Z := 36.
Definition MAX_NAME_LENGTH : Z := 255.

Definition SLASH : Z := 47.
Definition DOT : Z := 46.

(** A [Path] is its bytes. *)
Definition path_new (all : list Z) : outcome (list Z) :=
  if bool_decide (all = []) then Err ENOENT
  else if MAX_NAME_LENGTH <? Z.of_nat (length all) then Err ENAMETOOLONG
  else Ret all.

Definition is_absolute (p : list Z) : bool := match p with c :: _ => c =? SLASH | [] => false end.

Inductive PathComponent :=
| Name (name : list Z)
| TrailingEmpty
| Current
| Parent.

#[export] Instance PathComponent_eq_dec : EqDecision PathComponent.
Proof. solve_decision. Defined.

(** [iter().position(f)]. *)
Fixpoint byte_position (f : Z -> bool) (l : list Z) : option nat :=
  match l with
  | [] => None
  | c :: l => if f c then Some 0%nat else S <$> byte_position f l
  end.

Definition path_next (rem : list Z) : option (PathComponent * list Z) :=
  if bool_decide (rem = []) then None
  else
    let trimmed := match byte_position (fun c => negb (c =? SLASH)) rem with Some pos => drop pos rem | None => [] end in
    let next_start := default (length trimmed) (byte_position (fun c => c =? SLASH) trimmed) in
    let cur := take next_start trimmed in
    let rem := drop next_start trimmed in
    Some (if bool_decide (cur = []) then TrailingEmpty
          else if bool_decide (cur = [DOT]) then Current
          else if bool_decide (cur = [DOT; DOT]) then Parent
          else Name cur, rem).

(** The items of [path.iter()]; a round takes at least one byte. *)
Fixpoint path_items (fuel : nat) (rem : list Z) : option (list PathComponent) :=
  match path_next rem with
  | None => Some []
  | Some (c, rem) => match fuel with O => None | S fuel => cons c <$> path_items fuel rem end
  end.

Definition path_iter (p : list Z) : option (list PathComponent) := path_items (length p) p.

(** ** The reference: cut at every slash *)

Fixpoint cut_slash (p : list Z) : list (list Z) :=
  match p with
  | [] => [[]]
  | c :: p => if c =? SLASH then [] :: cut_slash p
              else match cut_slash p with s :: ss => (c :: s) :: ss | [] => [[c]] end
  end.

Definition classify (s : list Z) : PathComponent :=
  if bool_decide (s = [DOT]) then Current else if bool_decide (s = [DOT; DOT]) then Parent else Name s.

(** The non-empty pieces, and one more component for a slash at the end. *)
Definition components (p : list Z) : list PathComponent :=
  (classify <$> filter (.≠ []) (cut_slash p)) ++ (if bool_decide (last p = Some SLASH) then [TrailingEmpty] else []).

(** ** The iterator is the reference *)

Lemma cut_slash_ne p : cut_slash p <> [].
Proof. destruct p as [|c p]; simpl; [done|]. destruct (c =? SLASH); [done|]. by destruct (cut_slash p). Qed.

Lemma cut_slash_seg s p : Forall (.≠ SLASH) s -> cut_slash (s ++ SLASH :: p) = s :: cut_slash p.
Proof.
  induction 1 as [|c s Hc Hs IH]; [done|]. cbn [app cut_slash]. rewrite IH. by destruct (Z.eqb_spec c SLASH).
Qed.

Lemma cut_slash_end s : Forall (.≠ SLASH) s -> cut_slash s = [s].
Proof. induction 1 as [|c s Hc Hs IH]; [done|]. cbn [cut_slash]. rewrite IH. by destruct (Z.eqb_spec c SLASH). Qed.

Lemma byte_position_spec f l :
  match byte_position f l with
  | Some n => exists a c b, l = a ++ c :: b /\ length a = n /\ f c = true /\ Forall (fun x => f x = false) a
  | None => Forall (fun x => f x = false) l
  end.
Proof.
  induction l as [|c l IH]; simpl; [constructor|]. destruct (f c) eqn:E; [by exists [], c, l|].
  destruct (byte_position f l) as [n|]; simpl; [|by constructor].
  destruct IH as (a & d & b & -> & <- & Hd & Ha). exists (c :: a), d, b. repeat split; [done|]. by constructor.
Qed.

Lemma last_app_r {A} (a b : list A) : b <> [] -> last (a ++ b) = last b.
Proof. intros Hb. rewrite last_app. destruct (last b) eqn:E; [done|]. by apply last_None in E. Qed.

(** Slashes in front do not matter. *)
Lemma components_slash p : p <> [] -> components (SLASH :: p) = components p.
Proof.
  intros Hp. unfold components. cbn [cut_slash]. rewrite Z.eqb_refl, filter_cons_False by auto. f_equal.
  change (SLASH :: p) with ([SLASH] ++ p). by rewrite last_app_r.
Qed.

Lemma components_slashes a p : Forall (.= SLASH) a -> p <> [] -> components (a ++ p) = components p.
Proof.
  intros Ha Hp. induction Ha as [|c a -> Ha IH]; [done|]. cbn [app]. rewrite components_slash; [done|]. by destruct a.
Qed.

Lemma components_all_slashes a : Forall (.= SLASH) a -> a <> [] -> components a = [TrailingEmpty].
Proof.
  intros Ha Hne. destruct a as [|c a _] using rev_ind; [done|]. apply Forall_app in Ha as [Ha Hc]. apply Forall_singleton in Hc as ->.
  by rewrite components_slashes.
Qed.

Lemma components_seg s p :
  Forall (.≠ SLASH) s -> s <> [] -> components (s ++ SLASH :: p) = classify s :: components (SLASH :: p).
Proof.
  intros Hs Hne. unfold components. rewrite cut_slash_seg by done. cbn [cut_slash]. rewrite Z.eqb_refl.
  rewrite filter_cons_True by done. rewrite filter_cons_False by auto. rewrite (last_app_r s) by done. reflexivity.
Qed.

Lemma components_end s : Forall (.≠ SLASH) s -> s <> [] -> components s = [classify s].
Proof.
  intros Hs Hne. unfold components. rewrite cut_slash_end, filter_cons_True by done. cbn [filter list_filter fmap list_fmap app].
  rewrite bool_decide_eq_false_2; [done|]. intros [l' ->]%last_Some. apply Forall_app in Hs as [_ Hl]. by rewrite Forall_singleton in Hl.
Qed.

Lemma path_next_spec rem :
  match path_next rem with
  | None => rem = []
  | Some (c, rem') => components rem = c :: (if bool_decide (rem' = []) then [] else components rem') /\ (length rem' < length rem)%nat
  end.
Proof.
  unfold path_next. case_bool_decide as Hne; [done|].
  pose proof (byte_position_spec (fun c => negb (c =? SLASH)) rem) as H1. destruct (byte_position _ rem) as [n|].
  - destruct H1 as (a & c & b & -> & Hn & Hc & Ha). rewrite <- Hn, drop_app_length. apply negb_true_iff, Z.eqb_neq in Hc.
    assert (Forall (.= SLASH) a) as Ha' by (eapply Forall_impl; [exact Ha|]; simpl; intros x Hx; apply negb_false_iff, Z.eqb_eq in Hx; done).
    rewrite components_slashes by done. pose proof (byte_position_spec (fun c => c =? SLASH) (c :: b)) as H2. destruct (byte_position (fun c => c =? SLASH) (c :: b)) as [k|]; cbn [from_option id].
    + destruct H2 as (s & d & t & E & Hk & Hd & Hs). apply Z.eqb_eq in Hd as ->. rewrite E, <- Hk, take_app_length, drop_app_length.
      assert (Forall (.≠ SLASH) s) as Hs' by (eapply Forall_impl; [exact Hs|]; simpl; intros x Hx; by apply Z.eqb_neq in Hx).
      assert (s <> []) as Hsne by (intros ->; simpl in E; congruence). rewrite components_seg by done.
      rewrite (bool_decide_eq_false_2 (s = [])) by done. rewrite (bool_decide_eq_false_2 (SLASH :: t = [])) by done. split; [done|].
      rewrite !length_app. simpl. destruct s; [done|simpl; lia].
    + rewrite take_ge, drop_ge by lia. assert (Forall (.≠ SLASH) (c :: b)) as Hs' by (eapply Forall_impl; [exact H2|]; simpl; intros x Hx; by apply Z.eqb_neq in Hx).
      rewrite components_end by done. rewrite (bool_decide_eq_false_2 (c :: b = [])) by done. split; [done|]. rewrite length_app. simpl. lia.
  - assert (Forall (.= SLASH) rem) as Ha' by (eapply Forall_impl; [exact H1|]; simpl; intros x Hx; apply negb_false_iff, Z.eqb_eq in Hx; done).
    simpl. split; [by apply components_all_slashes|]. destruct rem; [done|simpl; lia].
Qed.

Lemma path_items_spec fuel rem : (length rem <= fuel)%nat -> path_items fuel rem = Some (if bool_decide (rem = []) then [] else components rem).
Proof.
  revert rem. induction fuel as [|fuel IH]; intros rem Hl; cbn [path_items]; pose proof (path_next_spec rem) as H; destruct (path_next rem) as [[c rem']|].
  - lia.
  - by subst rem.
  - destruct H as [-> Hlt]. rewrite IH by lia. rewrite (bool_decide_eq_false_2 (rem = [])) by (intros ->; simpl in Hlt; lia). done.
  - by subst rem.
Qed.

(** The path iterator and cutting at every slash agree: for every path that
    [Path::new] accepts, the items are the non-empty pieces between slashes in
    their order, with [.] and [..] recognised, and one more item exactly when
    the path ends in a slash; the iteration ends. *)
Theorem path_iter_equiv all p : path_new all = Ret p -> path_iter p = Some (components all).
Proof.
  unfold path_new. case_bool_decide as Hne; [done|]. destruct (MAX_NAME_LENGTH <? _); [done|]. intros [= <-].
  unfold path_iter. rewrite path_items_spec by done. by rewrite bool_decide_eq_false_2.
Qed.

(** [/a//./..b/] *)
Definition demo_path : list Z := [47; 97; 47; 47; 46; 47; 46; 46; 98; 47].

Lemma path_iter_equiv_witness :
  path_new demo_path = Ret demo_path /\ path_iter demo_path = Some [Name [97]; Current; Name [46; 46; 98]; TrailingEmpty].
Proof. split; [reflexivity|]. rewrite (path_iter_equiv demo_path demo_path eq_refl). vm_compute. reflexivity. Defined.
