(* ===== verification/Dentry.v ===== *)
(** * Directory entries and the directories of the memory file system

    Models src/kernel/vfs/dentry.rs, src/kernel/vfs/dentry/dcache.rs,
    src/hash.rs and the directories of src/fs/tmpfs.rs.

    Directory entries refer to their parents by [Arc] and are shared, so they
    live in a store and are named by numbers; [addr] gives their addresses,
    which go into the hashes.  The cache is an array of lists, one per hash
    value.  A tmpfs does not implement [lookup]: what a name means is what the
    cache says, while [readdir] lists the entries kept in the directory's inode.

    An operation is a state transformer that keeps its effects when it fails
    ([fsop]); the locks are held by each operation, which is one step.  The times
    of the inodes, the read-only flag and mounts are left out. *)

From S2P Require Import Prelude OpenFlags Mode Path.

Definition ENOSYS : Z := 38.
Definition ELOOP : Z := 40.

(** ** Inodes *)

Inductive InodeKind :=
| KDirectory (entries : list (list Z * Z))
| KFile
| KSymlink (target : list Z)
| KNode (devid : Z).

Record Inode := mkInode { i_kind : InodeKind; i_mode : Z; i_size : Z; i_nlink : Z }.

Definition directory_inode_new (ino mode : Z) : Inode :=
  mkInode (KDirectory [([DOT], ino)]) (mode_perm S_IFDIR (mode_non_format mode)) 1 1.
Definition regular_inode_new (mode : Z) : Inode := mkInode KFile (mode_perm S_IFREG (mode_non_format mode)) 0 1.
Definition symlink_inode_new (target : list Z) : Inode :=
  mkInode (KSymlink target) (mode_perm S_IFLNK 0x1ff) (Z.of_nat (length target)) 0.
Definition node_inode_new (mode devid : Z) : Inode := mkInode (KNode devid) mode 0 1.

(** ** Directory entries *)

Definition D_DIRECTORY : Z := 1.
Definition D_SYMLINK : Z := 4.
Definition D_REGULAR : Z := 8.

(** [d_data] is the inode and the flags. *)
Record Dentry := mkDentry { d_parent : nat; d_name : list Z; d_hash : Z; d_data : option (Z * Z) }.

Record NameSys := mkNameSys {
  ns_dentries : gmap nat Dentry;
  ns_cache : gmap Z (list nat);
  ns_inodes : gmap Z Inode;
  ns_next_ino : Z;
  ns_next : nat
}.

Definition set_dentries (w : NameSys) (m : gmap nat Dentry) : NameSys := mkNameSys m (ns_cache w) (ns_inodes w) (ns_next_ino w) (ns_next w).
Definition set_cache (w : NameSys) (m : gmap Z (list nat)) : NameSys := mkNameSys (ns_dentries w) m (ns_inodes w) (ns_next_ino w) (ns_next w).
Definition set_inodes (w : NameSys) (m : gmap Z Inode) : NameSys := mkNameSys (ns_dentries w) (ns_cache w) m (ns_next_ino w) (ns_next w).

(** ** Operations that may fail and keep their effects *)

Definition fsop (A : Type) : Type := NameSys -> NameSys * outcome A.

#[global] Instance fsop_ret : MRet fsop := fun A a w => (w, Ret a).
#[global] Instance fsop_bind : MBind fsop := fun A B f m w =>
  match m w with
  | (w, Ret a) => f a w
  | (w, Err e) => (w, Err e)
  | (w, Panic) => (w, Panic)
  end.

Definition fail {A} (e : Z) : fsop A := fun w => (w, Err e).
Definition lift {A} (o : outcome A) : fsop A := fun w => (w, o).
Definition get_state : fsop NameSys := fun w => (w, Ret w).
Definition put_dentry (d : nat) (e : Dentry) : fsop unit := fun w => (set_dentries w (<[d := e]> (ns_dentries w)), Ret tt).
Definition put_inode (ino : Z) (i : Inode) : fsop unit := fun w => (set_inodes w (<[ino := i]> (ns_inodes w)), Ret tt).

(** An [Arc] to a directory entry or to an inode does not dangle. *)
Definition get_dentry (d : nat) : fsop Dentry := fun w => (w, expect (ns_dentries w !! d)).
Definition get_inode_data (ino : Z) : fsop Inode := fun w => (w, expect (ns_inodes w !! ino)).

(** [assign_ino], with the inode stored under its number. *)
Definition new_inode (i : Z -> Inode) : fsop Z := fun w =>
  let ino := ns_next_ino w in
  (mkNameSys (ns_dentries w) (ns_cache w) (<[ino := i ino]> (ns_inodes w)) (wrap64 (ino + 1)) (ns_next w), Ret ino).

(** ** [KernelHasher] *)

Definition hasher_write (cur : Z) (bytes : list Z) : Z := foldl (fun cur byte => wrap64 (wrap64 (cur * 131) + byte)) cur bytes.

Section Names.
Context (addr : nat -> Z).

(** The hash of [rehash]: the address of the parent (as [write_usize] writes it) and the name. *)
Definition dentry_hash (parent : nat) (name : list Z) : Z :=
  hasher_write (hasher_write 0 (Z_to_little_endian 8 8 (addr parent))) name.

(** [Dentry::create]. *)
Definition dentry_create (parent : nat) (name : list Z) : fsop nat := fun w =>
  let d := ns_next w in
  (mkNameSys (<[d := mkDentry parent name (dentry_hash parent name) None]> (ns_dentries w)) (ns_cache w) (ns_inodes w) (ns_next_ino w) (S d), Ret d).

(** ** The cache *)

Definition d_bucket (hash : Z) : Z := Z.land hash 255.

Definition bucket_of (w : NameSys) (hash : Z) : list nat := default [] (ns_cache w !! d_bucket hash).

Definition put_bucket (hash : Z) (l : list nat) : fsop unit := fun w => (set_cache w (<[d_bucket hash := l]> (ns_cache w)), Ret tt).

Definition d_add (d : nat) : fsop unit :=
  e ← get_dentry d;
  w ← get_state;
  put_bucket (d_hash e) (d :: bucket_of w (d_hash e)).

(** Unlinking a node that is not in the list would cut the list off at its
    head, which is taken as a panic. *)
Definition d_remove (d : nat) : fsop unit :=
  e ← get_dentry d;
  w ← get_state;
  let l := bucket_of w (d_hash e) in
  lift (assert_ (bool_decide (d ∈ l)));;
  put_bucket (d_hash e) (filter (.≠ d) l).

(** [hash_eq] against the hash, parent and name that identify an entry. *)
Definition hash_eq (e : Dentry) (hash : Z) (parent : nat) (name : list Z) : bool :=
  (d_hash e =? hash) && (d_parent e =? parent)%nat && bool_decide (d_name e = name).

Definition d_find_fast (w : NameSys) (parent : nat) (name : list Z) : option nat :=
  let hash := dentry_hash parent name in
  head (filter (fun c => from_option (fun e => hash_eq e hash parent name) false (ns_dentries w !! c)) (bucket_of w hash)).

(** [save_data]. *)
Definition save_data (d : nat) (ino flags : Z) : fsop unit :=
  e ← get_dentry d;
  lift (assert_ (bool_decide (d_data e = None)));;
  put_dentry d (mkDentry (d_parent e) (d_name e) (d_hash e) (Some (ino, flags))).

Definition d_save (d : nat) (ino : Z) : fsop unit :=
  i ← get_inode_data ino;
  let m := mode_format (i_mode i) in
  save_data d ino (if m =? S_IFDIR then D_DIRECTORY else if m =? S_IFLNK then D_SYMLINK else D_REGULAR).

Definition dentry_get_inode (d : nat) : fsop Z :=
  e ← get_dentry d; lift (ok_or (fst <$> d_data e) ENOENT).

(** The [lookup] of the trait, which no inode of a tmpfs overrides. *)
Definition inode_lookup (ino : Z) (name : list Z) : fsop (option Z) :=
  i ← get_inode_data ino; fail (if negb (mode_is_dir (i_mode i)) then ENOTDIR else EPERM).

(** Errors are dropped. *)
Definition d_try_revalidate (d : nat) : fsop unit := fun w =>
  match (e ← get_dentry d; parent ← dentry_get_inode (d_parent e); r ← inode_lookup parent (d_name e); ino ← lift (ok_or r ENOENT); d_save d ino) w with
  | (w, Panic) => (w, Panic)
  | (w, _) => (w, Ret tt)
  end.

Definition d_exchange (old new : nat) : fsop unit :=
  if (old =? new)%nat then mret tt
  else
    d_remove old;;
    d_remove new;;
    eo ← get_dentry old;
    en ← get_dentry new;
    put_dentry old (mkDentry (d_parent en) (d_name en) (dentry_hash (d_parent en) (d_name en)) (d_data eo));;
    put_dentry new (mkDentry (d_parent eo) (d_name eo) (dentry_hash (d_parent eo) (d_name eo)) (d_data en));;
    d_add old;;
    d_add new.

(** [Dentry::find]. *)
Definition dentry_find (d : nat) (name : list Z) : fsop nat :=
  e ← get_dentry d;
  data ← lift (ok_or (d_data e) ENOENT);
  if Z.land (snd data) D_DIRECTORY =? 0 then fail ENOTDIR
  else if bool_decide (name = [DOT]) then mret d
  else if bool_decide (name = [DOT; DOT]) then mret (d_parent e)
  else
    w ← get_state;
    match d_find_fast w d name with
    | Some found => mret found
    | None =>
        c ← dentry_create d name;
        d_try_revalidate c;;
        d_add c;;
        mret c
    end.

(** ** The directories of a tmpfs *)

(** The methods of the trait that only directories implement. *)
Definition not_a_directory {A} (i : Inode) : fsop A := fail (if negb (mode_is_dir (i_mode i)) then ENOTDIR else EPERM).

Definition set_entries (i : Inode) (entries : list (list Z * Z)) (size : Z) : Inode := mkInode (KDirectory entries) (i_mode i) (wrap64 size) (i_nlink i).
Definition add_nlink (ino n : Z) : fsop unit :=
  i ← get_inode_data ino; put_inode ino (mkInode (i_kind i) (i_mode i) (i_size i) (wrap64 (i_nlink i + n))).

(** [DirectoryInode::link]. *)
Definition dir_link (dir : Z) (name : list Z) (file : Z) : fsop unit :=
  add_nlink file 1;;
  i ← get_inode_data dir;
  match i_kind i with
  | KDirectory entries => put_inode dir (set_entries i (entries ++ [(name, file)]) (i_size i + 1))
  | _ => not_a_directory i
  end.

(** The operations start by looking at what the directory is. *)
Definition as_directory (dir : Z) : fsop (list (list Z * Z)) :=
  i ← get_inode_data dir;
  match i_kind i with KDirectory entries => mret entries | _ => not_a_directory i end.

Definition dentry_name (d : nat) : fsop (list Z) := e ← get_dentry d; mret (d_name e).

(** [creat], [mknod], [symlink], [mkdir]: a new inode, its link, and the data of the entry. *)
Definition dir_create (dir : Z) (at_ : nat) (i : Z -> Inode) (flags : Z) : fsop unit :=
  _ ← as_directory dir;
  ino ← new_inode i;
  name ← dentry_name at_;
  dir_link dir name ino;;
  save_data at_ ino flags.

Definition dir_creat (dir : Z) (at_ : nat) (mode : Z) : fsop unit := dir_create dir at_ (fun _ => regular_inode_new mode) D_REGULAR.
Definition dir_mkdir (dir : Z) (at_ : nat) (mode : Z) : fsop unit := dir_create dir at_ (fun ino => directory_inode_new ino mode) D_DIRECTORY.
Definition dir_symlink (dir : Z) (at_ : nat) (target : list Z) : fsop unit := dir_create dir at_ (fun _ => symlink_inode_new target) D_SYMLINK.
Definition dir_mknod (dir : Z) (at_ : nat) (mode dev : Z) : fsop unit :=
  if negb (mode_is_chr mode) && negb (mode_is_blk mode) then _ ← as_directory dir; fail EINVAL
  else dir_create dir at_ (fun _ => node_inode_new mode dev) D_REGULAR.

Definition dir_linkat (dir : Z) (at_ : nat) (ino : Z) : fsop unit :=
  _ ← as_directory dir;
  name ← dentry_name at_;
  dir_link dir name ino;;
  save_data at_ ino D_REGULAR.

(** [do_unlink]. *)
Definition do_unlink (dir file : Z) (filename : list Z) (decrease_size : bool) : fsop unit :=
  i ← get_inode_data dir;
  match i_kind i with
  | KDirectory entries =>
      put_inode dir (set_entries i (filter (fun e => e.2 <> file \/ e.1 <> filename) entries) (if decrease_size then i_size i - 1 else i_size i));;
      add_nlink file (-1)
  | _ => not_a_directory i
  end.

(** The lock of another inode, taken while those of [held] are held: taking one of
    these again never returns, which is taken as a panic. *)
Definition lock_inode (held : list Z) (ino : Z) : fsop unit := lift (assert_ (bool_decide (ino ∉ held))).

Definition dir_unlink (dir : Z) (at_ : nat) : fsop unit :=
  _ ← as_directory dir;
  file ← dentry_get_inode at_;
  filename ← dentry_name at_;
  lock_inode [dir] file;;
  do_unlink dir file filename true;;
  d_remove at_.

(** The positions of the old and of the new entry, the last ones that match. *)
Fixpoint find_indices (entries : list (list Z * Z)) (idx : nat) (old_ino : Z) (old_name : list Z) (new_ino : option Z) (new_name : list Z)
    (acc : option nat * option nat) : option nat * option nat :=
  match entries with
  | [] => acc
  | (name, ino) :: entries =>
      find_indices entries (S idx) old_ino old_name new_ino new_name
        (if bool_decide (Some ino = new_ino) && bool_decide (name = new_name) then (acc.1, Some idx)
         else if (ino =? old_ino) && bool_decide (name = old_name) then (Some idx, acc.2)
         else acc)
  end.

(** [Vec::remove]. *)
Definition remove_at {A} (n : nat) (l : list A) : list A := take n l ++ drop (S n) l.

(** The modes are compared as a whole, permissions included. *)
Definition rename_replaces (same_parent : bool) (old_mode new_mode : Z) : outcome unit :=
  if same_parent then
    if new_mode =? S_IFDIR then Err EISDIR else if old_mode =? S_IFDIR then Err ENOTDIR else Ret tt
  else
    if (old_mode =? S_IFDIR) && negb (new_mode =? S_IFDIR) then Err ENOTDIR else Ret tt.

(** The part of a rename in one directory that changes the directory. *)
Definition rename_list (dir old_ino : Z) (new_ino : option Z) (new_name : list Z)
    (entries : list (list Z * Z)) (old_idx : nat) (new_idx : option nat) : fsop unit :=
  old_idx ←
    match new_idx with
    | Some new_idx =>
        file ← lift (expect new_ino);
        lock_inode [dir] file;;
        fi ← get_inode_data file;
        fo ← get_inode_data old_ino;
        lift (rename_replaces true (i_mode fo) (i_mode fi));;
        i ← get_inode_data dir;
        put_inode dir (set_entries i (remove_at new_idx entries) (i_size i - 1));;
        add_nlink file (-1);;
        mret (if (new_idx <? old_idx)%nat then (old_idx - 1)%nat else old_idx)
    | None => mret old_idx
    end;
  entries ← as_directory dir;
  i ← get_inode_data dir;
  e ← lift (expect (entries !! old_idx));
  put_inode dir (mkInode (KDirectory (<[old_idx := (new_name, e.2)]> entries)) (i_mode i) (i_size i) (i_nlink i)).

(** [rename] inside one directory. *)
Definition rename_same (dir : Z) (old new : nat) (old_ino : Z) (new_ino : option Z) : fsop unit :=
  old_name ← dentry_name old;
  new_name ← dentry_name new;
  entries ← as_directory dir;
  match find_indices entries 0 old_ino old_name new_ino new_name (None, None) with
  | (None, _) => fail ENOENT
  | (Some old_idx, new_idx) =>
      rename_list dir old_ino new_ino new_name entries old_idx new_idx;;
      d_exchange old new;;
      d_remove new
  end.

(** The first entry with this inode and name. *)
Definition entry_position (entries : list (list Z * Z)) (ino : option Z) (name : list Z) : option nat :=
  fst <$> list_find (fun e => Some e.2 = ino /\ e.1 = name) entries.

(** [rename] into another directory. *)
Definition rename_cross (dir new_dir : Z) (old new : nat) (old_ino : Z) (new_ino : option Z) : fsop unit :=
  entries ← as_directory dir;
  ni ← get_inode_data new_dir;
  lift (assert_ (mode_is_dir (i_mode ni)));;
  new_entries ← lift (match i_kind ni with KDirectory l => Ret l | _ => Panic end);
  old_name ← dentry_name old;
  new_name ← dentry_name new;
  old_pos ← lift (ok_or (entry_position entries (Some old_ino) old_name) ENOENT);
  match entry_position new_entries new_ino new_name with
  | Some _ =>
      file ← lift (expect new_ino);
      lock_inode [dir; new_dir] file;;
      fi ← get_inode_data file;
      fo ← get_inode_data old_ino;
      lift (rename_replaces false (i_mode fo) (i_mode fi));;
      do_unlink new_dir file new_name false
  | None => put_inode new_dir (set_entries ni new_entries (i_size ni + 1))
  end;;
  i ← get_inode_data dir;
  put_inode dir (set_entries i (remove_at old_pos entries) (i_size i - 1));;
  ni ← get_inode_data new_dir;
  new_entries ← lift (match i_kind ni with KDirectory l => Ret l | _ => Panic end);
  put_inode new_dir (set_entries ni (new_entries ++ [(new_name, old_ino)]) (i_size ni));;
  d_exchange old new.

(** [Inode::rename] of a directory. *)
Definition dir_rename (dir new_dir : Z) (old new : nat) (is_exchange no_replace : bool) : fsop unit :=
  _ ← as_directory dir;
  if is_exchange then fail ENOSYS
  else
    old_ino ← dentry_get_inode old;
    en ← get_dentry new;
    let new_ino := fst <$> d_data en in
    if no_replace && bool_decide (is_Some new_ino) then fail EEXIST
    else if dir =? new_dir then rename_same dir old new old_ino new_ino
    else rename_cross dir new_dir old new old_ino new_ino.

(** ** The operations on directory entries *)

Definition parent_inode (d : nat) : fsop Z := e ← get_dentry d; dentry_get_inode (d_parent e).

(** Refuse a name that is taken, then call the directory. *)
Definition on_free_name {A} (d : nat) (k : Z -> fsop A) : fsop A :=
  e ← get_dentry d;
  match d_data e with
  | Some _ => fail EEXIST
  | None => dir ← parent_inode d; k dir
  end.

Definition dentry_mkdir (d : nat) (mode : Z) : fsop unit := on_free_name d (fun dir => dir_mkdir dir d mode).
Definition dentry_symlink (d : nat) (target : list Z) : fsop unit := on_free_name d (fun dir => dir_symlink dir d target).
Definition dentry_linkat (d : nat) (ino : Z) : fsop unit := on_free_name d (fun dir => dir_linkat dir d ino).
Definition dentry_mknod (d : nat) (mode dev : Z) : fsop unit := on_free_name d (fun dir => dir_mknod dir d mode dev).

Definition dentry_unlink (d : nat) : fsop unit :=
  e ← get_dentry d;
  match d_data e with
  | None => fail ENOENT
  | Some _ => dir ← parent_inode d; dir_unlink dir d
  end.

Definition open_check (d : nat) (flags mode : Z) : fsop unit :=
  e ← get_dentry d;
  match d_data e with
  | Some _ => if bf_contains flags (Z.lor O_CREAT O_EXCL) then fail EEXIST else mret tt
  | None => if negb (bf_contains flags O_CREAT) then fail ENOENT else dir ← parent_inode d; dir_creat dir d mode
  end.

(** [RenameFlags]. *)
Definition RENAME_NOREPLACE : Z := 1.
Definition RENAME_EXCHANGE : Z := 2.

Definition dentry_rename (old new : nat) (flags : Z) : fsop unit :=
  if (old =? new)%nat then mret tt
  else
    old_parent ← parent_inode old;
    new_parent ← parent_inode new;
    dir_rename old_parent new_parent old new (bf_contains flags RENAME_EXCHANGE) (bf_contains flags RENAME_NOREPLACE).

(** ** Walking a path *)

(** [readlink]; only symbolic links implement it. *)
Definition inode_readlink (ino : Z) (bufsize : nat) : fsop (list Z) :=
  i ← get_inode_data ino;
  match i_kind i with
  | KSymlink target => mret (take bufsize target)
  | _ => fail (if mode_is_dir (i_mode i) then EISDIR else EINVAL)
  end.

(** The path in a symbolic link, read through a buffer of 256 bytes. *)
Definition link_path (ino : Z) : fsop (list Z) := target ← inode_readlink ino 256; lift (path_new target).

Notation open_fn := (nat -> list Z -> bool -> fsop nat).
Notation resolve_fn := (nat -> fsop nat).

(** [resolve_directory]; [opn] and [res] are the two functions one level deeper. *)
Definition resolve_body (opn : open_fn) (res : resolve_fn) : resolve_fn := fun d =>
  e ← get_dentry d;
  data ← lift (ok_or (d_data e) ENOENT);
  let flags := snd data in
  if negb (Z.land flags D_REGULAR =? 0) then fail ENOTDIR
  else if negb (Z.land flags D_DIRECTORY =? 0) then mret d
  else if negb (Z.land flags D_SYMLINK =? 0) then
    path ← link_path (fst data);
    d ← opn (d_parent e) path true;
    res d
  else lift Panic.

(** One item of the path. *)
Definition walk_item (fsroot : nat) (res : resolve_fn) (cwd : nat) (item : PathComponent) : fsop nat :=
  cwd ← res cwd;
  match item with
  | TrailingEmpty | Current => mret cwd
  | Parent =>
      e ← get_dentry cwd;
      r ← get_dentry fsroot;
      if hash_eq e (d_hash r) (d_parent r) (d_name r) then mret cwd else res (d_parent e)
  | Name name => dentry_find cwd name
  end.

Fixpoint walk_items (fsroot : nat) (res : resolve_fn) (cwd : nat) (items : list PathComponent) : fsop nat :=
  match items with
  | [] => mret cwd
  | item :: items =>
      e ← get_dentry cwd;
      if bool_decide (item = TrailingEmpty) && bool_decide (d_data e = None) then mret cwd
      else cwd ← walk_item fsroot res cwd item; walk_items fsroot res cwd items
  end.

(** [open_recursive]; [res] is at the same level, [opn] one level deeper. *)
Definition open_body (fsroot : nat) (res : resolve_fn) (opn : open_fn) : open_fn := fun cwd path follow =>
  items ← lift (expect (path_iter path));
  cwd ← walk_items fsroot res (if is_absolute path then fsroot else cwd) items;
  e ← get_dentry cwd;
  match d_data e with
  | Some (ino, flags) =>
      if follow && negb (Z.land flags D_SYMLINK =? 0) then
        path ← link_path ino;
        opn (d_parent e) path true
      else mret cwd
  | None => mret cwd
  end.

(** The two functions with [n] levels left ([nrecur = 16 - n]). *)
Fixpoint walk_fns (fsroot : nat) (n : nat) : open_fn * resolve_fn :=
  match n with
  | O => ((fun _ _ _ => fail ELOOP), (fun _ => fail ELOOP))
  | S n =>
      let fns := walk_fns fsroot n in
      let res := resolve_body fns.1 fns.2 in
      (open_body fsroot res fns.1, res)
  end.

(** [open_at] with the root of the context; [open] starts from its working directory. *)
Definition dentry_open_at (fsroot at_ : nat) (path : list Z) (follow : bool) : fsop nat := (walk_fns fsroot 16).1 at_ path follow.

(** The names from the entry up to the root, at most 33 of them. *)
Fixpoint path_names (fuel : nat) (fsroot d : nat) : fsop (list (list Z)) :=
  if (d =? fsroot)%nat then mret []
  else
    match fuel with
    | O => fail ELOOP
    | S fuel =>
        e ← get_dentry d;
        names ← path_names fuel fsroot (d_parent e);
        mret (names ++ [d_name e])
    end.

(** [get_path]: what is written to the buffer, without the final zero. *)
Definition get_path (fsroot d : nat) : fsop (list Z) :=
  names ← path_names 33 fsroot d; mret (SLASH :: concat ((fun name => name ++ [SLASH]) <$> names)).

(** ** The root *)

(** [TmpFs::create] and the mount at the root: entry 0 is [DROOT], its own
    parent; entry 1 is the root of the mounted tmpfs, with the same parent and
    name, and is in the cache. *)
Definition root_name : list Z := [91; 114; 111; 111; 116; 93].

Definition ns_init : NameSys :=
  let h := dentry_hash 0 root_name in
  mkNameSys {[0%nat := mkDentry 0 root_name h None; 1%nat := mkDentry 0 root_name h (Some (0, D_DIRECTORY))]}
            {[d_bucket h := [1%nat]]} {[0 := directory_inode_new 0 0x1ed]} 1 2.

Definition FSROOT : nat := 1.

End Names.
