(* ===== verification/DentryCache.v ===== *)
(** * The directory entry cache

    Facts about the hash chains of Dentry.v: every chain holds entries of its own
    hash, no entry twice, and no two entries with the same parent and name.  Then
    looking a name up through its chain is looking for the one cached entry with
    this parent and name, whatever the hash function does. *)

From S2P Require Import Prelude OpenFlags Mode Path Dentry.

(** ** Running an operation *)

Lemma fs_bind_ret {A B} (m : fsop A) (k : A -> fsop B) w w' a : m w = (w', Ret a) -> (x ← m; k x) w = k a w'.
Proof. intros E. unfold mbind, fsop_bind. by rewrite E. Qed.
Lemma fs_bind_err {A B} (m : fsop A) (k : A -> fsop B) w w' e : m w = (w', Err e) -> (x ← m; k x) w = (w', Err e).
Proof. intros E. unfold mbind, fsop_bind. by rewrite E. Qed.
Lemma fs_bind_panic {A B} (m : fsop A) (k : A -> fsop B) w w' : m w = (w', Panic) -> (x ← m; k x) w = (w', Panic).
Proof. intros E. unfold mbind, fsop_bind. by rewrite E. Qed.

Lemma get_dentry_run w d e : ns_dentries w !! d = Some e -> get_dentry d w = (w, Ret e).
Proof. intros E. unfold get_dentry. by rewrite E. Qed.
Lemma get_inode_run w ino i : ns_inodes w !! ino = Some i -> get_inode_data ino w = (w, Ret i).
Proof. intros E. unfold get_inode_data. by rewrite E. Qed.
Lemma get_state_run w : get_state w = (w, Ret w).
Proof. done. Qed.
Lemma lift_run {A} (o : outcome A) w : lift o w = (w, o).
Proof. done. Qed.
Lemma assert_run b w : b = true -> lift (assert_ b) w = (w, Ret tt).
Proof. by intros ->. Qed.
Lemma dentry_name_run w d e : ns_dentries w !! d = Some e -> dentry_name d w = (w, Ret (d_name e)).
Proof. intros E. unfold dentry_name. by rewrite (fs_bind_ret _ _ _ _ _ (get_dentry_run _ _ _ E)). Qed.
Lemma dentry_get_inode_run w d e ino fl :
  ns_dentries w !! d = Some e -> d_data e = Some (ino, fl) -> dentry_get_inode d w = (w, Ret ino).
Proof. intros E Ed. unfold dentry_get_inode. rewrite (fs_bind_ret _ _ _ _ _ (get_dentry_run _ _ _ E)), Ed. done. Qed.
Lemma parent_inode_run w d e pe ino fl :
  ns_dentries w !! d = Some e -> ns_dentries w !! d_parent e = Some pe -> d_data pe = Some (ino, fl) -> parent_inode d w = (w, Ret ino).
Proof.
  intros E Ep Ed. unfold parent_inode. rewrite (fs_bind_ret _ _ _ _ _ (get_dentry_run _ _ _ E)). by eapply dentry_get_inode_run.
Qed.
Lemma as_directory_run w dir i l : ns_inodes w !! dir = Some i -> i_kind i = KDirectory l -> as_directory dir w = (w, Ret l).
Proof. intros E Ek. unfold as_directory. rewrite (fs_bind_ret _ _ _ _ _ (get_inode_run _ _ _ E)). by rewrite Ek. Qed.

(** Run the next operation of a sequence by a fact about it. *)
Tactic Notation "fs_ret" uconstr(H) := rewrite (fs_bind_ret _ _ _ _ _ H).
Tactic Notation "fs_err" uconstr(H) := rewrite (fs_bind_err _ _ _ _ _ H).

Section Cache.
Context (addr : nat -> Z).

Notation bucket w b := (default [] (ns_cache w !! b)).

(** [d], with contents [e], is in the cache. *)
Definition hashed (w : NameSys) (d : nat) (e : Dentry) : Prop := ns_dentries w !! d = Some e /\ d ∈ bucket_of w (d_hash e).

Definition unhashed (w : NameSys) (d : nat) : Prop := forall e, ~ hashed w d e.

Record cache_ok (w : NameSys) : Prop := mkCacheOk {
  co_bucket b d : d ∈ bucket w b -> exists e, ns_dentries w !! d = Some e /\ d_bucket (d_hash e) = b;
  co_nodup b : NoDup (bucket w b);
  co_hash d e : ns_dentries w !! d = Some e -> d_hash e = dentry_hash addr (d_parent e) (d_name e);
  co_unique d1 d2 e1 e2 :
    hashed w d1 e1 -> hashed w d2 e2 -> d_parent e1 = d_parent e2 -> d_name e1 = d_name e2 -> d1 = d2
}.

Lemma hashed_inj w d e1 e2 : hashed w d e1 -> hashed w d e2 -> e1 = e2.
Proof. intros [E1 _] [E2 _]. congruence. Qed.

Lemma bucket_hashed w b d : cache_ok w -> d ∈ bucket w b -> exists e, hashed w d e /\ d_bucket (d_hash e) = b.
Proof.
  intros Hok Hd. destruct (co_bucket w Hok b d Hd) as (e & He & Hb). exists e. split; [|done]. split; [done|].
  unfold bucket_of. by rewrite Hb.
Qed.

Lemma unhashed_bucket w d b : cache_ok w -> unhashed w d -> d ∉ bucket w b.
Proof. intros Hok Hu Hd. destruct (bucket_hashed w b d Hok Hd) as (e & He & _). by eapply Hu. Qed.

Lemma hash_eq_spec e p n : hash_eq e (dentry_hash addr p n) p n = true <-> d_hash e = dentry_hash addr p n /\ d_parent e = p /\ d_name e = n.
Proof. unfold hash_eq. rewrite !andb_true_iff, Z.eqb_eq, Nat.eqb_eq, bool_decide_eq_true. tauto. Qed.

(** The chain of the name holds at most one entry for it, and it is found. *)
Lemma find_fast_spec w p n d :
  cache_ok w -> d_find_fast addr w p n = Some d <-> exists e, hashed w d e /\ d_parent e = p /\ d_name e = n.
Proof.
  intros Hok. unfold d_find_fast. set (f := fun c => _). split.
  - intros Hd. assert (d ∈ filter f (bucket_of w (dentry_hash addr p n))) as Hin.
    { destruct (filter _ _) as [|x l]; [done|]. injection Hd as ->. left. }
    apply list_elem_of_filter in Hin as [Hf Hin]. unfold f in Hf. destruct (ns_dentries w !! d) as [e|] eqn:E; [|done]. simpl in Hf.
    apply Is_true_true, hash_eq_spec in Hf as (Hh & Hp & Hn). exists e. split_and!; try done. split; [done|]. by rewrite Hh.
  - intros (e & [E Hin] & Hp & Hn). pose proof (co_hash w Hok _ _ E) as Hh. rewrite Hp, Hn in Hh. rewrite Hh in Hin.
    assert (d ∈ filter f (bucket_of w (dentry_hash addr p n))) as Hd.
    { apply list_elem_of_filter. split; [|done]. unfold f. rewrite E. simpl. apply Is_true_true, hash_eq_spec. done. }
    destruct (filter f _) as [|x l] eqn:Ef; [by apply not_elem_of_nil in Hd|]. simpl. f_equal.
    assert (x ∈ filter f (bucket_of w (dentry_hash addr p n))) as Hx by (rewrite Ef; left).
    apply list_elem_of_filter in Hx as [Hf Hx]. unfold f in Hf. destruct (ns_dentries w !! x) as [ex|] eqn:Ex; [|done]. simpl in Hf.
    apply Is_true_true, hash_eq_spec in Hf as (Hhx & Hpx & Hnx).
    refine (co_unique w Hok x d ex e _ _ _ _); [split; [done|by rewrite Hhx]|split; [done|by rewrite Hh]|congruence|congruence].
Qed.

Lemma find_fast_none w p n :
  cache_ok w -> d_find_fast addr w p n = None -> forall d e, hashed w d e -> d_parent e = p -> d_name e = n -> False.
Proof.
  intros Hok Hn d e Hd Hp Hnm. assert (d_find_fast addr w p n = Some d) by (apply find_fast_spec; eauto). congruence.
Qed.

(** ** Adding and removing *)

Definition add_state (w : NameSys) (d : nat) (e : Dentry) : NameSys :=
  set_cache w (<[d_bucket (d_hash e) := d :: bucket_of w (d_hash e)]> (ns_cache w)).

Lemma d_add_run w d e : ns_dentries w !! d = Some e -> d_add d w = (add_state w d e, Ret tt).
Proof. intros E. unfold d_add. fs_ret (get_dentry_run _ _ _ E). by fs_ret (get_state_run w). Qed.

Lemma add_bucket w d e b : bucket (add_state w d e) b = if decide (b = d_bucket (d_hash e)) then d :: bucket w b else bucket w b.
Proof. simpl. case_decide as Hb; [subst b; by rewrite lookup_insert_eq|by rewrite lookup_insert_ne]. Qed.

Lemma add_hashed w d e d' e' :
  ns_dentries w !! d = Some e -> hashed (add_state w d e) d' e' <-> (d' = d /\ e' = e) \/ hashed w d' e'.
Proof.
  intros E. unfold hashed, bucket_of at 1. rewrite add_bucket. change (ns_dentries (add_state w d e)) with (ns_dentries w).
  case_decide as Hb; [rewrite elem_of_cons|].
  - split; [intros [E' [->|Hin]]; [left; split; congruence|by right]|intros [[-> ->]|[E' Hin]]; [by auto|by auto]].
  - split; [by right|intros [[-> ->]|H]; [congruence|done]].
Qed.

Lemma add_cache_ok w d e :
  cache_ok w -> ns_dentries w !! d = Some e -> unhashed w d ->
  (forall d' e', hashed w d' e' -> d_parent e' = d_parent e -> d_name e' = d_name e -> False) ->
  cache_ok (add_state w d e).
Proof.
  intros Hok E Hu Hfree. split.
  - intros b d'. rewrite add_bucket. case_decide as Hb; [|by apply (co_bucket w Hok)].
    intros [->|Hin]%elem_of_cons; [by exists e|by apply (co_bucket w Hok)].
  - intros b. rewrite add_bucket. case_decide; [|by apply (co_nodup w Hok)].
    constructor; [by apply unhashed_bucket|by apply (co_nodup w Hok)].
  - apply (co_hash w Hok).
  - intros d1 d2 e1 e2 H1 H2 Hp Hn. apply add_hashed in H1 as [[-> ->]|H1], H2 as [[-> ->]|H2]; try done.
    + exfalso. by eapply Hfree.
    + exfalso. by eapply Hfree.
    + by eapply (co_unique w Hok).
Qed.

Definition remove_state (w : NameSys) (d : nat) (e : Dentry) : NameSys :=
  set_cache w (<[d_bucket (d_hash e) := filter (.≠ d) (bucket_of w (d_hash e))]> (ns_cache w)).

Lemma d_remove_run w d e : hashed w d e -> d_remove d w = (remove_state w d e, Ret tt).
Proof.
  intros [E Hin]. unfold d_remove. fs_ret (get_dentry_run _ _ _ E). fs_ret (get_state_run w).
  fs_ret (assert_run (bool_decide (d ∈ bucket_of w (d_hash e))) w (bool_decide_eq_true_2 _ Hin)). done.
Qed.

Lemma remove_bucket w d e b :
  bucket (remove_state w d e) b = if decide (b = d_bucket (d_hash e)) then filter (.≠ d) (bucket w b) else bucket w b.
Proof. simpl. case_decide as Hb; [subst b; by rewrite lookup_insert_eq|by rewrite lookup_insert_ne]. Qed.

Lemma remove_hashed w d e d' e' :
  ns_dentries w !! d = Some e -> hashed (remove_state w d e) d' e' <-> d' <> d /\ hashed w d' e'.
Proof.
  clear addr. intros E. unfold hashed, bucket_of at 1. rewrite remove_bucket. change (ns_dentries (remove_state w d e)) with (ns_dentries w).
  case_decide as Hb; [rewrite list_elem_of_filter; tauto|]. split; [|tauto]. intros [E' Hin]. split; [|done]. intros ->. congruence.
Qed.

Lemma remove_cache_ok w d e : cache_ok w -> ns_dentries w !! d = Some e -> cache_ok (remove_state w d e).
Proof.
  intros Hok E. split.
  - intros b d'. rewrite remove_bucket. case_decide as Hb; [rewrite list_elem_of_filter; intros [_ Hin]|intros Hin]; by apply (co_bucket w Hok).
  - intros b. rewrite remove_bucket. case_decide; [apply NoDup_filter|]; by apply (co_nodup w Hok).
  - apply (co_hash w Hok).
  - intros d1 d2 e1 e2 [_ H1]%remove_hashed [_ H2]%remove_hashed; try done. by apply (co_unique w Hok).
Qed.

(** ** Changing an entry *)

Definition put_state (w : NameSys) (d : nat) (e : Dentry) : NameSys := set_dentries w (<[d := e]> (ns_dentries w)).

Lemma put_dentry_run w d e : put_dentry d e w = (put_state w d e, Ret tt).
Proof. done. Qed.

(** An entry that is not in the cache may get a new parent and name. *)
Lemma put_hashed_free w d e d' e' :
  cache_ok w -> unhashed w d -> hashed (put_state w d e) d' e' <-> d' <> d /\ hashed w d' e'.
Proof.
  intros Hok Hu. unfold hashed. simpl. change (bucket_of (put_state w d e)) with (bucket_of w). split.
  - intros [E Hin]. assert (d' <> d) as Hne by (intros ->; by eapply unhashed_bucket). rewrite lookup_insert_ne in E by done. done.
  - intros (Hne & E & Hin). by rewrite lookup_insert_ne.
Qed.

Lemma put_cache_ok_free w d e :
  cache_ok w -> unhashed w d -> d_hash e = dentry_hash addr (d_parent e) (d_name e) -> cache_ok (put_state w d e).
Proof.
  intros Hok Hu Hh. split.
  - intros b d' Hin. destruct (co_bucket w Hok b d' Hin) as (e' & E' & Hb). exists e'. split; [|done]. simpl.
    rewrite lookup_insert_ne; [done|]. intros ->. by eapply (unhashed_bucket w d' b).
  - apply (co_nodup w Hok).
  - intros d' e'. simpl. intros [[<- <-]|[_ E]]%lookup_insert_Some; [done|exact (co_hash w Hok _ _ E)].
  - intros d1 d2 e1 e2 H1 H2. apply (put_hashed_free w d e _ _ Hok Hu) in H1 as [_ H1], H2 as [_ H2]. by apply (co_unique w Hok).
Qed.

Definition with_data (e : Dentry) (data : option (Z * Z)) : Dentry := mkDentry (d_parent e) (d_name e) (d_hash e) data.

(** Its data may change while it is in the cache. *)
Lemma put_hashed_data w d e data d' e' :
  ns_dentries w !! d = Some e ->
  hashed (put_state w d (with_data e data)) d' e' <->
  exists e0, hashed w d' e0 /\ e' = (if decide (d' = d) then with_data e data else e0).
Proof.
  intros E. unfold hashed. simpl. change (bucket_of (put_state w d (with_data e data))) with (bucket_of w).
  destruct (decide (d' = d)) as [->|Hne].
  - rewrite lookup_insert_eq. split; [intros [[= <-] Hin]; by exists e|intros (e0 & [E0 Hin] & ->)]. assert (e0 = e) as -> by congruence. done.
  - rewrite lookup_insert_ne by done. split; [intros H; by exists e'|intros (e0 & H & ->); done].
Qed.

Lemma put_cache_ok_data w d e data : cache_ok w -> ns_dentries w !! d = Some e -> cache_ok (put_state w d (with_data e data)).
Proof.
  intros Hok E. split.
  - intros b d' Hin. destruct (co_bucket w Hok b d' Hin) as (e' & E' & Hb). simpl. destruct (decide (d' = d)) as [->|Hne].
    + rewrite lookup_insert_eq. eexists. split; [done|]. assert (e' = e) as -> by congruence. done.
    + rewrite lookup_insert_ne by done. by exists e'.
  - apply (co_nodup w Hok).
  - intros d' e'. simpl. intros [[<- <-]|[_ E']]%lookup_insert_Some; [exact (co_hash w Hok _ _ E)|exact (co_hash w Hok _ _ E')].
  - intros d1 d2 e1 e2 H1 H2 Hp Hn. apply (put_hashed_data _ _ _ _ _ _ E) in H1 as (e10 & H1 & E1), H2 as (e20 & H2 & E2).
    refine (co_unique w Hok d1 d2 e10 e20 H1 H2 _ _).
    + destruct H1 as [H1 _], H2 as [H2 _]. repeat case_decide; simplify_eq/=; congruence.
    + destruct H1 as [H1 _], H2 as [H2 _]. repeat case_decide; simplify_eq/=; congruence.
Qed.

(** ** Changing the inodes leaves the cache alone *)

Lemma cache_ok_ext w w' : ns_dentries w' = ns_dentries w -> ns_cache w' = ns_cache w -> cache_ok w -> cache_ok w'.
Proof.
  destruct w, w'; simpl. intros -> -> [Hb Hn Hh Hu]. by split.
Qed.

Lemma hashed_ext w w' d e : ns_dentries w' = ns_dentries w -> ns_cache w' = ns_cache w -> hashed w' d e <-> hashed w d e.
Proof. destruct w, w'; simpl. by intros -> ->. Qed.

(** ** A fresh entry *)

Lemma create_cache_ok w p n :
  cache_ok w -> ns_dentries w !! ns_next w = None ->
  cache_ok (fst (dentry_create addr p n w)) /\ unhashed (fst (dentry_create addr p n w)) (ns_next w) /\
  (forall d e, hashed (fst (dentry_create addr p n w)) d e <-> hashed w d e).
Proof.
  intros Hok Hn. assert (unhashed w (ns_next w)) as Hu by (intros e [E _]; congruence).
  set (e := mkDentry p n (dentry_hash addr p n) None).
  assert (forall d' e', hashed (fst (dentry_create addr p n w)) d' e' <-> hashed w d' e') as Hh.
  { intros d' e'. rewrite (hashed_ext (put_state w (ns_next w) e)) by done. rewrite put_hashed_free by done.
    split; [tauto|]. intros H. split; [|done]. intros ->. by eapply Hu. }
  split_and!; [|intros e'; rewrite Hh; apply Hu|done].
  apply (cache_ok_ext (put_state w (ns_next w) e)); [done..|]. by apply put_cache_ok_free.
Qed.

End Cache.
