(* ===== verification/DentryInv.v ===== *)
(** * The name space

    The invariant of Dentry.v: the cached directory entries are exactly the names
    that the directories list, so that looking a name up through the cache and
    reading the directory give the same answer.  Every operation on names keeps
    it and does to the names what [spec_op] says. *)

From S2P Require Import Prelude OpenFlags Mode Path Dentry DentryCache.

(** ** What the directories list *)

Notation NameMap := (Z -> list Z -> option Z).

Definition names (w : NameSys) : NameMap := fun ino n =>
  match i_kind <$> ns_inodes w !! ino with
  | Some (KDirectory l) => (list_to_map l : gmap (list Z) Z) !! n
  | _ => None
  end.

Definition set_name (m : NameMap) (dir : Z) (name : list Z) (v : option Z) : NameMap := fun ino n =>
  if decide (ino = dir /\ n = name) then v else m ino n.

Lemma set_name_eq m dir name v : set_name m dir name v dir name = v.
Proof. unfold set_name. by rewrite decide_True. Qed.
Lemma set_name_ne m dir name v ino n : (ino, n) <> (dir, name) -> set_name m dir name v ino n = m ino n.
Proof. intros Hne. unfold set_name. rewrite decide_False; [done|]. intros [-> ->]. done. Qed.

(** A directory inode lists every name once and knows how many there are. *)
Definition inode_ok (i : Inode) : Prop :=
  match i_kind i with
  | KDirectory l => i_size i = wrap64 (Z.of_nat (length l)) /\ NoDup l.*1 /\ mode_is_dir (i_mode i) = true
  | _ => True
  end.

Definition inodes_ok (w : NameSys) : Prop := forall ino i, ns_inodes w !! ino = Some i -> inode_ok i /\ 0 <= ino < ns_next_ino w.

(** The flags of an entry and the kind of its inode. *)
Inductive flags_ok : Z -> InodeKind -> Prop :=
| flags_dir l : flags_ok D_DIRECTORY (KDirectory l)
| flags_link t : flags_ok D_SYMLINK (KSymlink t)
| flags_reg k : flags_ok D_REGULAR k.

Definition kind_like (k k' : InodeKind) : Prop :=
  match k, k' with KDirectory _, KDirectory _ => True | _, _ => k = k' end.

Lemma kind_like_refl k : kind_like k k.
Proof. by destruct k. Qed.
Lemma flags_like fl k k' : flags_ok fl k -> kind_like k k' -> flags_ok fl k'.
Proof. intros [l|t|k0]; destruct k'; simpl; intros ?; simplify_eq; constructor. Qed.

Section Invariant.
Context (addr : nat -> Z).

(** The cache knows the name below an entry, with this inode. *)
Definition cached (w : NameSys) (pd : nat) (n : list Z) (c : Z) : Prop :=
  exists d e fl, hashed w d e /\ d_parent e = pd /\ d_name e = n /\ d_data e = Some (c, fl).

Record ns_ok (w : NameSys) : Prop := mkNsOk {
  no_cache : cache_ok addr w;
  no_live d e : ns_dentries w !! d = Some e -> (d < ns_next w)%nat /\ is_Some (ns_dentries w !! d_parent e);
  no_data d e ino fl : ns_dentries w !! d = Some e -> d_data e = Some (ino, fl) ->
    exists i, ns_inodes w !! ino = Some i /\ flags_ok fl (i_kind i);
  no_onedir d1 d2 e1 e2 ino : ns_dentries w !! d1 = Some e1 -> ns_dentries w !! d2 = Some e2 ->
    d_data e1 = Some (ino, D_DIRECTORY) -> d_data e2 = Some (ino, D_DIRECTORY) -> d1 = d2;
  no_parent d e : hashed w d e -> exists pe, ns_dentries w !! d_parent e = Some pe /\
    ((exists ino, d_data pe = Some (ino, D_DIRECTORY)) /\ d_name e <> [DOT] \/ d_data pe = None /\ unhashed w (d_parent e));
  no_inodes : inodes_ok w;
  (** what a directory lists is what the cache holds below it *)
  no_names pd pe ino n c : ns_dentries w !! pd = Some pe -> d_data pe = Some (ino, D_DIRECTORY) -> n <> [DOT] ->
    names w ino n = Some c <-> cached w pd n c
}.

(** ** The place of an entry *)

(** The directory that lists the entry, and the name it has there. *)
Definition place (w : NameSys) (d : nat) : option (Z * list Z) :=
  e ← ns_dentries w !! d; pe ← ns_dentries w !! d_parent e; data ← d_data pe; Some (fst data, d_name e).

Lemma place_inv w d dir name :
  ns_ok w -> (exists e, hashed w d e) -> place w d = Some (dir, name) ->
  exists e pe i l, hashed w d e /\ ns_dentries w !! d_parent e = Some pe /\ d_data pe = Some (dir, D_DIRECTORY) /\ d_name e = name /\
    name <> [DOT] /\ ns_inodes w !! dir = Some i /\ i_kind i = KDirectory l.
Proof.
  intros Hok [e He] Hp. destruct (no_parent w Hok d e He) as (pe & Epe & Hpe). unfold place in Hp. destruct He as [E Hin].
  rewrite E in Hp. cbn [mbind option_bind] in Hp. rewrite Epe in Hp. cbn [mbind option_bind] in Hp.
  destruct Hpe as [[[ino Hino] Hdot]|[Hno _]]; [|by rewrite Hno in Hp]. rewrite Hino in Hp. injection Hp as <- <-.
  destruct (no_data w Hok _ _ _ _ Epe Hino) as (i & Ei & Hfl). inversion Hfl as [l Hk Hl| |]. exists e, pe, i, l. split_and!; done.
Qed.

(** The entry has an inode when its directory lists the name, and it is that one. *)
Lemma place_names w d e dir name :
  ns_ok w -> hashed w d e -> place w d = Some (dir, name) -> names w dir name = fst <$> d_data e.
Proof.
  intros Hok He Hp. destruct (place_inv w d dir name Hok (ex_intro _ e He) Hp) as (e' & pe & i & l & He' & Epe & Hpe & <- & Hdot & _).
  rewrite (hashed_inj w d e' e He' He) in *. clear e' He'. pose proof (fun c pd pe => no_names w Hok pd pe dir (d_name e) c) as Hn.
  destruct (d_data e) as [[c fl]|] eqn:Ed; simpl.
  - apply (Hn c _ _ Epe Hpe Hdot). by exists d, e, fl.
  - apply eq_None_not_Some. intros [c En]. apply (Hn c _ _ Epe Hpe Hdot) in En as (d' & e' & fl & He' & Hp' & Hn' & Hd').
    pose proof (co_unique _ _ (no_cache w Hok) d' d e' e He' He Hp' Hn') as ->. rewrite (hashed_inj w d e' e He' He) in Hd'. congruence.
Qed.

Lemma names_dir w ino i l n : ns_inodes w !! ino = Some i -> i_kind i = KDirectory l -> names w ino n = (list_to_map l : gmap _ _) !! n.
Proof. intros Ei Ek. unfold names. rewrite Ei. simpl. by rewrite Ek. Qed.

Lemma names_in w ino i l n c :
  inodes_ok w -> ns_inodes w !! ino = Some i -> i_kind i = KDirectory l -> names w ino n = Some c <-> (n, c) ∈ l.
Proof.
  intros Hok Ei Ek. rewrite (names_dir w ino i l n Ei Ek). destruct (Hok ino i Ei) as [Hi _]. unfold inode_ok in Hi. rewrite Ek in Hi.
  destruct Hi as (_ & Hnd & _). symmetry. by apply elem_of_list_to_map.
Qed.

(** ** Changes of inodes that keep the names *)

Lemma inodes_change_ok w w' :
  ns_ok w -> ns_dentries w' = ns_dentries w -> ns_cache w' = ns_cache w -> ns_next w' = ns_next w -> inodes_ok w' ->
  (forall ino i, ns_inodes w !! ino = Some i -> (forall n, names w' ino n = names w ino n) /\
    exists i', ns_inodes w' !! ino = Some i' /\ kind_like (i_kind i) (i_kind i')) ->
  ns_ok w'.
Proof.
  intros Hok Ed Ec En Hi Hk. pose proof (hashed_ext w w') as Hh. specialize (fun d e => Hh d e Ed Ec).
  split.
  - by apply (cache_ok_ext _ w), no_cache.
  - intros d e. rewrite Ed, En. apply (no_live w Hok).
  - intros d e ino fl. rewrite Ed. intros E Edt. destruct (no_data w Hok d e ino fl E Edt) as (i & Ei & Hfl).
    destruct (Hk ino i Ei) as (_ & i' & Ei' & Hl). exists i'. split; [done|]. by eapply flags_like.
  - intros d1 d2 e1 e2 ino. rewrite Ed. apply (no_onedir w Hok).
  - intros d e He%Hh. destruct (no_parent w Hok d e He) as (pe & Epe & Hpe). exists pe. rewrite Ed. split; [done|].
    destruct Hpe as [?|[? Hu]]; [by left|]. right. split; [done|]. intros e' He'%Hh. by eapply Hu.
  - done.
  - intros pd pe ino n c. rewrite Ed. intros Epd Hpd Hn. destruct (no_data w Hok pd pe ino _ Epd Hpd) as (i & Ei & _).
    destruct (Hk ino i Ei) as (Hnm & _). rewrite Hnm, (no_names w Hok pd pe ino n c Epd Hpd Hn).
    split; intros (d & e & fl & He & H); exists d, e, fl; (split; [by apply Hh|done]).
Qed.

(** The number of links is not part of the invariant. *)
Definition nlink_state (w : NameSys) (ino : Z) (i : Inode) (n : Z) : NameSys :=
  set_inodes w (<[ino := mkInode (i_kind i) (i_mode i) (i_size i) (wrap64 (i_nlink i + n))]> (ns_inodes w)).

Lemma add_nlink_run w ino i n : ns_inodes w !! ino = Some i -> add_nlink ino n w = (nlink_state w ino i n, Ret tt).
Proof. intros E. unfold add_nlink. by fs_ret (get_inode_run _ _ _ E). Qed.

Lemma nlink_names w ino i k a n : ns_inodes w !! ino = Some i -> names (nlink_state w ino i k) a n = names w a n.
Proof.
  intros E. unfold names. simpl. destruct (decide (a = ino)) as [->|Hne]; [by rewrite lookup_insert_eq, E|by rewrite lookup_insert_ne].
Qed.

Lemma nlink_ok w ino i k : ns_ok w -> ns_inodes w !! ino = Some i -> ns_ok (nlink_state w ino i k).
Proof.
  intros Hok E. apply (inodes_change_ok w); try done.
  - intros a i'. simpl. intros [[<- <-]|[_ Ea]]%lookup_insert_Some; [|exact (no_inodes w Hok _ _ Ea)]. exact (no_inodes w Hok ino i E).
  - intros a i' Ea. split; [intros n; by apply nlink_names|]. simpl. destruct (decide (a = ino)) as [->|Hne].
    + rewrite lookup_insert_eq. eexists. split; [done|]. simpl. assert (i' = i) as -> by congruence. apply kind_like_refl.
    + rewrite lookup_insert_ne by done. exists i'. split; [done|]. apply kind_like_refl.
Qed.

(** A new inode: nothing refers to it, and a new directory lists only itself. *)
Definition fresh_ok (i : Z -> Inode) : Prop :=
  forall ino, inode_ok (i ino) /\ match i_kind (i ino) with KDirectory l => l = [([DOT], ino)] | _ => True end.

Lemma new_inode_ok w i :
  ns_ok w -> fresh_ok i -> 0 <= ns_next_ino w < 2 ^ 64 - 1 ->
  let w' := fst (new_inode i w) in
  ns_ok w' /\ ns_inodes w !! ns_next_ino w = None /\
  (forall a n, names w' a n = if decide (a = ns_next_ino w /\ n = [DOT]) then (match i_kind (i a) with KDirectory _ => Some a | _ => None end) else names w a n).
Proof.
  intros Hok Hf Hn w'. assert (ns_inodes w !! ns_next_ino w = None) as Hnone.
  { destruct (ns_inodes w !! ns_next_ino w) as [i'|] eqn:E; [|done]. destruct (no_inodes w Hok _ _ E) as [_ ?]. lia. }
  assert (forall a n, names w' a n = if decide (a = ns_next_ino w /\ n = [DOT]) then (match i_kind (i a) with KDirectory _ => Some a | _ => None end) else names w a n) as Hnm.
  { intros a n. unfold names. simpl. destruct (decide (a = ns_next_ino w)) as [->|Hne].
    - rewrite lookup_insert_eq, Hnone. simpl. destruct (Hf (ns_next_ino w)) as [_ Hk]. destruct (i_kind _) as [l| | |]; try (by repeat case_decide).
      subst l. cbn [list_to_map foldr]. simpl. destruct (decide (n = [DOT])) as [->|Hd].
      + rewrite decide_True by done. by rewrite lookup_insert_eq.
      + rewrite decide_False by tauto. by rewrite lookup_insert_ne.
    - rewrite lookup_insert_ne by done. by rewrite decide_False by tauto. }
  split_and!; try done. apply (inodes_change_ok w); try done.
  - intros a i'. simpl. rewrite wrap64_small by (unfold is_u64; lia). intros [[<- <-]|[_ Ea]]%lookup_insert_Some; [split; [apply Hf|lia]|].
    destruct (no_inodes w Hok _ _ Ea) as [? ?]. split; [done|lia].
  - intros a i' Ea. split.
    + intros n. rewrite Hnm, decide_False; [done|]. intros [-> _]. congruence.
    + simpl. rewrite lookup_insert_ne by (intros <-; congruence). exists i'. split; [done|]. apply kind_like_refl.
Qed.

(** ** A directory gets a new list of entries *)

Definition put_dir (w : NameSys) (dir : Z) (i : Inode) : NameSys := set_inodes w (<[dir := i]> (ns_inodes w)).

Lemma names_put_dir w dir i l a n :
  i_kind i = KDirectory l -> names (put_dir w dir i) a n = if decide (a = dir) then (list_to_map l : gmap _ _) !! n else names w a n.
Proof.
  intros Ek. unfold names. simpl. case_decide as Ha; [subst a; rewrite lookup_insert_eq; simpl; by rewrite Ek|by rewrite lookup_insert_ne].
Qed.

Lemma put_dir_inodes w dir i : inodes_ok w -> is_Some (ns_inodes w !! dir) -> inode_ok i -> inodes_ok (put_dir w dir i).
Proof.
  intros Hok [i0 E0] Hi a i'. simpl. intros [[<- <-]|[_ Ea]]%lookup_insert_Some; [split; [done|]; apply (Hok dir i0 E0)|exact (Hok a i' Ea)].
Qed.

Lemma put_dir_like w dir i i0 l0 l a ia :
  ns_inodes w !! dir = Some i0 -> i_kind i0 = KDirectory l0 -> i_kind i = KDirectory l -> ns_inodes w !! a = Some ia ->
  exists i', ns_inodes (put_dir w dir i) !! a = Some i' /\ kind_like (i_kind ia) (i_kind i').
Proof.
  intros E0 K0 K Ea. simpl. destruct (decide (a = dir)) as [->|Hne].
  - rewrite lookup_insert_eq. exists i. split; [done|]. assert (ia = i0) as -> by congruence. rewrite K0, K. done.
  - rewrite lookup_insert_ne by done. exists ia. split; [done|]. apply kind_like_refl.
Qed.

Lemma NoDup_snoc {A} (l : list A) x : NoDup l -> x ∉ l -> NoDup (l ++ [x]).
Proof. intros Hl Hx. apply NoDup_app. split_and!; [done| |apply NoDup_singleton]. intros y Hy ->%list_elem_of_singleton. done. Qed.

Lemma add_entry_ok i l n c :
  inode_ok i -> i_kind i = KDirectory l -> n ∉ l.*1 -> inode_ok (set_entries i (l ++ [(n, c)]) (i_size i + 1)).
Proof.
  unfold inode_ok. intros Hi Ek Hn. rewrite Ek in Hi. destruct Hi as (Hs & Hnd & Hm). simpl. split_and!; [|rewrite fmap_app; by apply NoDup_snoc|done].
  rewrite Hs, length_app, Nat2Z.inj_add. unfold wrap64. by rewrite Zplus_mod_idemp_l.
Qed.

(** ** Attaching: an entry without an inode gets one *)

Definition attach_state (w : NameSys) (dir : Z) (i : Inode) (l : list (list Z * Z)) (d : nat) (e : Dentry) (ino fl : Z) : NameSys :=
  put_state (put_dir w dir (set_entries i (l ++ [(d_name e, ino)]) (i_size i + 1))) d (with_data e (Some (ino, fl))).

Section Attach.
Context (w : NameSys) (Hok : ns_ok w) (d : nat) (e pe : Dentry) (dir : Z) (i : Inode) (l : list (list Z * Z)).
Context (He : hashed w d e) (Hfree : d_data e = None).
Context (Epe : ns_dentries w !! d_parent e = Some pe) (Hpe : d_data pe = Some (dir, D_DIRECTORY)) (Hdot : d_name e <> [DOT]).
Context (Ei : ns_inodes w !! dir = Some i) (Ek : i_kind i = KDirectory l).

Lemma free_name : d_name e ∉ l.*1.
Proof.
  intros ([n c] & Hn & Hin)%list_elem_of_fmap. simpl in Hn. subst n. apply (names_in w dir i l) in Hin; [|apply (no_inodes w Hok)|done..].
  apply (no_names w Hok _ _ _ _ _ Epe Hpe Hdot) in Hin as (d' & e' & fl & He' & Hp & Hn & Hd).
  pose proof (co_unique _ _ (no_cache w Hok) d' d e' e He' He Hp Hn) as ->. rewrite (hashed_inj w d e' e He' He) in Hd. congruence.
Qed.

Context (ino fl : Z) (it : Inode) (Et : ns_inodes w !! ino = Some it) (Hfl : flags_ok fl (i_kind it)).
Context (Hdir : fl = D_DIRECTORY -> ino <> dir /\ (forall n, n <> [DOT] -> names w ino n = None) /\
                forall d' e', ns_dentries w !! d' = Some e' -> d_data e' <> Some (ino, D_DIRECTORY)).

Notation w' := (attach_state w dir i l d e ino fl).

Lemma attach_names a n : names w' a n = set_name (names w) dir (d_name e) (Some ino) a n.
Proof.
  change (names w' a n) with (names (put_dir w dir (set_entries i (l ++ [(d_name e, ino)]) (i_size i + 1))) a n).
  rewrite (names_put_dir _ _ _ (l ++ [(d_name e, ino)])) by done. unfold set_name. destruct (decide (a = dir)) as [->|Ha].
  - rewrite list_to_map_snoc by apply free_name. destruct (decide (n = d_name e)) as [->|Hn].
    + by rewrite lookup_insert_eq, decide_True.
    + rewrite lookup_insert_ne by done. rewrite decide_False by tauto. symmetry. by apply names_dir with i.
  - by rewrite decide_False by tauto.
Qed.

Lemma attach_hashed d' e' : hashed w' d' e' <-> exists e0, hashed w d' e0 /\ e' = (if decide (d' = d) then with_data e (Some (ino, fl)) else e0).
Proof. unfold attach_state. by rewrite put_hashed_data by apply He. Qed.

(** No entry has a parent without an inode that is in the cache. *)
Lemma free_no_children d' e' : hashed w d' e' -> d_parent e' <> d.
Proof.
  intros He' Hp. destruct (no_parent w Hok d' e' He') as (pe' & Epe' & Hpe'). rewrite Hp in *. destruct He as [E Hin].
  assert (pe' = e) as -> by congruence. destruct Hpe' as [[[x Hx] _]|[_ Hu]]; [congruence|]. by apply (Hu e).
Qed.

Lemma attach_cached pd n c : cached w' pd n c <-> (pd = d_parent e /\ n = d_name e /\ c = ino) \/ ((pd, n) <> (d_parent e, d_name e) /\ cached w pd n c).
Proof.
  unfold cached. split.
  - intros (d' & e' & fl' & (e0 & He0 & Ee)%attach_hashed & Hp & Hn & Hd). destruct (decide (d' = d)) as [->|Hne].
    + left. subst e'. simpl in *. split_and!; congruence.
    + subst e0. right. split; [|by exists d', e', fl']. intros [= Hp' Hn']. apply Hne.
      apply (co_unique _ _ (no_cache w Hok) d' d e' e He0 He); congruence.
  - intros [(-> & -> & ->)|(Hne & d' & e' & fl' & He' & Hp & Hn & Hd)].
    + exists d, (with_data e (Some (ino, fl))), fl. split_and!; try done. apply attach_hashed. exists e. split; [done|]. by rewrite decide_True.
    + exists d', e', fl'. split_and!; try done. apply attach_hashed. exists e'. split; [done|]. rewrite decide_False; [done|].
      intros ->. rewrite (hashed_inj w d e' e He' He) in *. congruence.
Qed.

Lemma attach_ok : ns_ok w'.
Proof.
  assert (ns_ok_inodes : inodes_ok w').
  { apply (put_dir_inodes w); [apply (no_inodes w Hok)|done|]. apply add_entry_ok; [apply (no_inodes w Hok dir i Ei)|done|apply free_name]. }
  destruct He as [E Hin]. split.
  - by apply (put_cache_ok_data addr (put_dir w _ _)), E; apply (cache_ok_ext _ w), no_cache.
  - intros d' e'. simpl. intros [[<- <-]|[Hne E']]%lookup_insert_Some; simpl.
    + destruct (no_live w Hok d e E) as [? ?]. split; [done|]. by apply lookup_insert_is_Some'; right.
    + destruct (no_live w Hok d' e' E') as [? ?]. split; [done|]. by apply lookup_insert_is_Some'; right.
  - intros d' e' a f E' Hd. assert (exists ia, ns_inodes w !! a = Some ia /\ flags_ok f (i_kind ia)) as (ia & Ea & Hf).
    { simpl in E'. apply lookup_insert_Some in E' as [[<- <-]|[Hne E']]; [injection Hd as <- <-; by exists it|by apply (no_data w Hok d' e')]. }
    destruct (put_dir_like w dir (set_entries i (l ++ [(d_name e, ino)]) (i_size i + 1)) i l (l ++ [(d_name e, ino)]) a ia) as (i' & Ei' & Hl); try done.
    exists i'. split; [done|]. by eapply flags_like.
  - intros d1 d2 e1 e2 a. simpl. intros [[<- <-]|[Hn1 E1]]%lookup_insert_Some [[<- <-]|[Hn2 E2]]%lookup_insert_Some; simpl; try done.
    + intros [= -> ->] H2. by destruct (Hdir eq_refl) as (_ & _ & []%(fun H => H d2 e2 E2)).
    + intros H1 [= -> ->]. by destruct (Hdir eq_refl) as (_ & _ & []%(fun H => H d1 e1 E1)).
    + by apply (no_onedir w Hok).
  - intros d' e' (e0 & He0 & Ee)%attach_hashed. destruct (no_parent w Hok d' e0 He0) as (pe0 & Epe0 & Hpe0).
    assert (d_parent e' = d_parent e0 /\ d_name e' = d_name e0) as [Hp' Hn'].
    { destruct (decide (d' = d)) as [->|]; [|by subst e0]. rewrite (hashed_inj w d e0 e He0 (conj E Hin)). by subst e'. }
    rewrite Hp', Hn'. exists pe0. simpl. rewrite lookup_insert_ne by (intros Hd; by apply (free_no_children d' e0)). split; [done|].
    destruct Hpe0 as [?|[? Hu]]; [by left|right]. split; [done|]. intros e1 (e2 & He2 & _)%attach_hashed. by eapply Hu.
  - done.
  - intros pd pe' a n c. simpl. intros Epd Hpd Hn. rewrite attach_names, attach_cached. apply lookup_insert_Some in Epd as [[<- <-]|[Hne Epd]].
    + simpl in Hpd. injection Hpd as <- ->. destruct (Hdir eq_refl) as (Hnd & Hnn & _). rewrite set_name_ne, Hnn by congruence.
      split; [done|]. intros [(Hp & _)|(_ & d' & e' & fl' & He' & Hp & _)]; [|by destruct (free_no_children d' e' He')].
      by destruct (free_no_children d e (conj E Hin)).
    + destruct (decide (a = dir)) as [->|Ha].
      * pose proof (no_onedir w Hok pd (d_parent e) pe' pe dir Epd Epe Hpd Hpe) as ->. assert (pe' = pe) as -> by congruence.
        destruct (decide (n = d_name e)) as [->|Hnn]; [rewrite set_name_eq; naive_solver|].
        rewrite set_name_ne by congruence. rewrite (no_names w Hok _ _ _ n c Epe Hpe Hn). naive_solver.
      * rewrite set_name_ne by congruence. rewrite (no_names w Hok _ _ _ n c Epd Hpd Hn).
        assert (pd <> d_parent e) by (intros ->; congruence). naive_solver.
Qed.

End Attach.

(** ** Detaching: a name goes away *)

Lemma split_entry (l : list (list Z * Z)) n c :
  NoDup l.*1 -> (n, c) ∈ l -> exists l1 l2, l = l1 ++ (n, c) :: l2 /\ n ∉ l1.*1 /\ n ∉ l2.*1 /\ NoDup (l1 ++ l2).*1.
Proof.
  intros Hnd (l1 & l2 & ->)%list_elem_of_split. exists l1, l2. rewrite fmap_app in Hnd. simpl in Hnd.
  apply NoDup_app in Hnd as (H1 & H12 & H2). apply NoDup_cons in H2 as [Hn2 H2]. split_and!; try done.
  - intros Hn. apply (H12 n Hn). left.
  - rewrite fmap_app. apply NoDup_app. split_and!; try done. intros x Hx Hx2. apply (H12 x Hx). by right.
Qed.

Lemma map_remove (l1 l2 : list (list Z * Z)) n c m :
  NoDup (l1 ++ l2).*1 -> n ∉ l1.*1 -> n ∉ l2.*1 ->
  (list_to_map (l1 ++ l2) : gmap (list Z) Z) !! m = if decide (m = n) then None else (list_to_map (l1 ++ (n, c) :: l2) : gmap (list Z) Z) !! m.
Proof.
  intros Hnd H1 H2. rewrite !list_to_map_app, list_to_map_cons, !lookup_union. case_decide as Hm.
  - subst m. rewrite !not_elem_of_list_to_map_1; done.
  - by rewrite lookup_insert_ne.
Qed.

Lemma del_entry_ok i l1 l2 n c :
  inode_ok i -> i_kind i = KDirectory (l1 ++ (n, c) :: l2) -> NoDup (l1 ++ l2).*1 -> inode_ok (set_entries i (l1 ++ l2) (i_size i - 1)).
Proof.
  unfold inode_ok. intros Hi Ek Hnd. rewrite Ek in Hi. destruct Hi as (Hs & _ & Hm). simpl. split_and!; try done.
  rewrite Hs, !length_app. cbn [length]. unfold wrap64. rewrite Zminus_mod_idemp_l. f_equal. lia.
Qed.

(** What [retain] leaves. *)
Lemma retain_split (l1 l2 : list (list Z * Z)) n c :
  n ∉ l1.*1 -> n ∉ l2.*1 -> filter (fun e => e.2 <> c \/ e.1 <> n) (l1 ++ (n, c) :: l2) = l1 ++ l2.
Proof.
  intros H1 H2. assert (forall l : list (list Z * Z), n ∉ l.*1 -> filter (fun e => e.2 <> c \/ e.1 <> n) l = l) as Hall.
  { intros l Hl. apply filter_all_intro. intros x Hx. right. intros Hn. apply Hl, list_elem_of_fmap. by exists x. }
  rewrite filter_app, filter_cons_False by (simpl; tauto). by rewrite !Hall.
Qed.

Definition detach_state (w : NameSys) (dir : Z) (i : Inode) (l : list (list Z * Z)) (d : nat) (e : Dentry) : NameSys :=
  remove_state (put_dir w dir (set_entries i l (i_size i - 1))) d e.

Section Detach.
Context (w : NameSys) (Hok : ns_ok w) (d : nat) (e pe : Dentry) (dir : Z) (i : Inode) (l1 l2 : list (list Z * Z)) (c : Z).
Context (He : hashed w d e).
Context (Epe : ns_dentries w !! d_parent e = Some pe) (Hpe : d_data pe = Some (dir, D_DIRECTORY)) (Hdot : d_name e <> [DOT]).
Context (Ei : ns_inodes w !! dir = Some i) (Ek : i_kind i = KDirectory (l1 ++ (d_name e, c) :: l2)).
Context (H1 : d_name e ∉ l1.*1) (H2 : d_name e ∉ l2.*1) (Hnd : NoDup (l1 ++ l2).*1).

Notation w' := (detach_state w dir i (l1 ++ l2) d e).

Lemma detach_names a n : names w' a n = set_name (names w) dir (d_name e) None a n.
Proof.
  change (names w' a n) with (names (put_dir w dir (set_entries i (l1 ++ l2) (i_size i - 1))) a n).
  rewrite (names_put_dir _ _ _ (l1 ++ l2)) by done. unfold set_name. destruct (decide (a = dir)) as [->|Ha].
  - rewrite (map_remove l1 l2 (d_name e) c) by done. destruct (decide (n = d_name e)) as [->|Hn]; [by rewrite decide_True|].
    rewrite decide_False by tauto. symmetry. by apply names_dir with i.
  - by rewrite decide_False by tauto.
Qed.

Lemma detach_hashed d' e' : hashed w' d' e' <-> d' <> d /\ hashed w d' e'.
Proof. exact (remove_hashed (put_dir w dir _) d e d' e' (proj1 He)). Qed.

Lemma detach_cached pd n a : cached w' pd n a <-> (pd, n) <> (d_parent e, d_name e) /\ cached w pd n a.
Proof.
  unfold cached. split.
  - intros (d' & e' & fl' & [Hne He']%detach_hashed & Hp & Hn & Hd). split; [|by exists d', e', fl']. intros [= Hp' Hn']. apply Hne.
    apply (co_unique _ _ (no_cache w Hok) d' d e' e He' He); congruence.
  - intros (Hne & d' & e' & fl' & He' & Hp & Hn & Hd). exists d', e', fl'. split_and!; try done. apply detach_hashed. split; [|done].
    intros ->. rewrite (hashed_inj w d e' e He' He) in *. congruence.
Qed.

Lemma detach_ok : ns_ok w'.
Proof.
  split.
  - apply remove_cache_ok; [|apply He]. by apply (cache_ok_ext _ w), no_cache.
  - apply (no_live w Hok).
  - intros d' e' a f E' Hd. destruct (no_data w Hok d' e' a f E' Hd) as (ia & Ea & Hf).
    destruct (put_dir_like w dir (set_entries i (l1 ++ l2) (i_size i - 1)) i (l1 ++ (d_name e, c) :: l2) (l1 ++ l2) a ia) as (i' & Ei' & Hl); try done.
    exists i'. split; [done|]. by eapply flags_like.
  - apply (no_onedir w Hok).
  - intros d' e' [Hne He']%detach_hashed. destruct (no_parent w Hok d' e' He') as (pe' & Epe' & Hpe'). exists pe'. split; [done|].
    destruct Hpe' as [?|[? Hu]]; [by left|right]. split; [done|]. intros e1 [_ He1]%detach_hashed. by eapply Hu.
  - apply (put_dir_inodes w); [apply (no_inodes w Hok)|done|]. by apply (del_entry_ok i l1 l2 (d_name e) c); [apply (no_inodes w Hok dir i Ei)|..].
  - intros pd pe' a n c'. intros Epd Hpd Hn. rewrite detach_names, detach_cached. change (ns_dentries w !! pd = Some pe') in Epd.
    destruct (decide (a = dir)) as [->|Ha].
    + pose proof (no_onedir w Hok pd (d_parent e) pe' pe dir Epd Epe Hpd Hpe) as ->. assert (pe' = pe) as -> by congruence.
      destruct (decide (n = d_name e)) as [->|Hnn]; [rewrite set_name_eq; naive_solver|].
      rewrite set_name_ne by congruence. rewrite (no_names w Hok _ _ _ n c' Epe Hpe Hn). naive_solver.
    + rewrite set_name_ne by congruence. rewrite (no_names w Hok _ _ _ n c' Epd Hpd Hn).
      assert (pd <> d_parent e) by (intros ->; congruence). naive_solver.
Qed.

End Detach.

(** ** The first state *)

Lemma init_dentry d e : ns_dentries (ns_init addr) !! d = Some e ->
  e = mkDentry 0 root_name (dentry_hash addr 0 root_name) (if decide (d = 1%nat) then Some (0, D_DIRECTORY) else None) /\ (d = 0%nat \/ d = 1%nat).
Proof.
  simpl. intros [[<- <-]|[Hne [<- <-]%lookup_singleton_Some]]%lookup_insert_Some; (split; [|by auto]); [by rewrite decide_False|by rewrite decide_True].
Qed.

Lemma init_bucket b : default [] (ns_cache (ns_init addr) !! b) = if decide (b = d_bucket (dentry_hash addr 0 root_name)) then [1%nat] else [].
Proof. simpl. case_decide as Hb; [subst b; by rewrite lookup_singleton_eq|by rewrite lookup_singleton_ne]. Qed.

Lemma init_hashed d e : hashed (ns_init addr) d e -> d = 1%nat.
Proof.
  intros [E Hin]. unfold bucket_of in Hin. rewrite init_bucket in Hin. case_decide; [by apply list_elem_of_singleton in Hin|by apply not_elem_of_nil in Hin].
Qed.

Lemma ns_init_ok : ns_ok (ns_init addr).
Proof.
  split.
  - split.
    + intros b d. rewrite init_bucket. case_decide as Hb; [|by intros ?%not_elem_of_nil]. intros ->%list_elem_of_singleton. eexists. by split.
    + intros b. rewrite init_bucket. case_decide; [apply NoDup_singleton|apply NoDup_nil_2].
    + by intros d e [-> _]%init_dentry.
    + by intros d1 d2 e1 e2 ->%init_hashed ->%init_hashed.
  - intros d e [-> [-> | ->]]%init_dentry; simpl; (split; [lia|by eexists]).
  - intros d e ino fl [-> _]%init_dentry. case_decide; [|done]. intros [= <- <-]. eexists. split; [done|]. constructor.
  - intros d1 d2 e1 e2 ino [-> _]%init_dentry [-> _]%init_dentry. by repeat case_decide; subst.
  - intros d e He. pose proof (init_hashed d e He) as ->. destruct He as [E _]. destruct (init_dentry _ _ E) as [-> _].
    eexists. split; [done|]. right. split; [done|]. by intros e' He'%init_hashed.
  - intros ino i. simpl. intros [<- <-]%lookup_singleton_Some. split; [|lia]. split_and!; [done|apply NoDup_singleton|done].
  - intros pd pe ino n c [-> Hd]%init_dentry Hpd Hn. case_decide as Hp; [|done]. injection Hpd as <-. split.
    + rewrite (names_dir _ 0 (directory_inode_new 0 0x1ed) [([DOT], 0)]) by done. simpl. by rewrite lookup_insert_ne.
    + intros (d & e & fl & He & Hpar & _). pose proof (init_hashed d e He) as ->. destruct He as [E _]. destruct (init_dentry _ _ E) as [-> _]. simpl in Hpar. lia.
Qed.

End Invariant.
