(* ===== verification/DentryRename.v ===== *)
(** * Renaming

    The entries of the old and of the new name change places in the cache, and the
    directories change their lists: together this keeps the invariant of
    DentryInv.v, whether the directories are the same or not. *)

From S2P Require Import Prelude OpenFlags Mode Path Dentry DentryCache DentryInv.

Section Rename.
Context (addr : nat -> Z).

(** ** Exchanging two entries *)

(** [e] at the place of [at_]. *)
Definition moved (e at_ : Dentry) : Dentry :=
  mkDentry (d_parent at_) (d_name at_) (dentry_hash addr (d_parent at_) (d_name at_)) (d_data e).

Lemma d_exchange_run w old new eo en :
  cache_ok addr w -> hashed w old eo -> hashed w new en -> old <> new ->
  exists w', d_exchange addr old new w = (w', Ret tt) /\ cache_ok addr w' /\
    ns_dentries w' = <[new := moved en eo]> (<[old := moved eo en]> (ns_dentries w)) /\
    ns_inodes w' = ns_inodes w /\ ns_next_ino w' = ns_next_ino w /\ ns_next w' = ns_next w /\
    forall d e, hashed w' d e <-> (d = old /\ e = moved eo en) \/ (d = new /\ e = moved en eo) \/ (d <> old /\ d <> new /\ hashed w d e).
Proof.
  intros Hok Ho Hn Hne. unfold d_exchange. rewrite (proj2 (Nat.eqb_neq old new) Hne).
  fs_ret (d_remove_run w old eo Ho). set (w1 := remove_state w old eo).
  assert (cache_ok addr w1) as Hok1 by (apply remove_cache_ok, (proj1 Ho); done).
  assert (forall d e, hashed w1 d e <-> d <> old /\ hashed w d e) as H1 by (intros; apply remove_hashed, Ho).
  assert (hashed w1 new en) as Hn1 by (by apply H1).
  fs_ret (d_remove_run w1 new en Hn1). set (w2 := remove_state w1 new en).
  assert (cache_ok addr w2) as Hok2 by (apply remove_cache_ok, (proj1 Hn1); done).
  assert (forall d e, hashed w2 d e <-> d <> new /\ d <> old /\ hashed w d e) as H2
    by (intros d e; unfold w2; rewrite remove_hashed by exact (proj1 Hn1); by rewrite H1).
  assert (unhashed w2 old) as Hu2 by (intros e (_ & ? & _)%H2; done).
  fs_ret (get_dentry_run w2 old eo (proj1 Ho)). fs_ret (get_dentry_run w2 new en (proj1 Hn)).
  fs_ret (put_dentry_run w2 old (moved eo en)). set (w3 := put_state w2 old (moved eo en)).
  assert (cache_ok addr w3) as Hok3 by (by apply put_cache_ok_free).
  assert (forall d e, hashed w3 d e <-> d <> new /\ d <> old /\ hashed w d e) as H3
    by (intros d e; unfold w3; rewrite (put_hashed_free addr) by done; rewrite H2; tauto).
  assert (unhashed w3 new) as Hu3 by (intros e (? & _)%H3; done).
  fs_ret (put_dentry_run w3 new (moved en eo)). set (w4 := put_state w3 new (moved en eo)).
  assert (cache_ok addr w4) as Hok4 by (by apply put_cache_ok_free).
  assert (forall d e, hashed w4 d e <-> d <> new /\ d <> old /\ hashed w d e) as H4
    by (intros d e; unfold w4; rewrite (put_hashed_free addr) by done; rewrite H3; tauto).
  assert (ns_dentries w4 !! new = Some (moved en eo)) as En4 by apply lookup_insert_eq.
  assert (ns_dentries w4 !! old = Some (moved eo en)) as Eo4
    by (unfold w4; simpl; rewrite lookup_insert_ne by done; apply lookup_insert_eq).
  fs_ret (d_add_run w4 old (moved eo en) Eo4). set (w5 := add_state w4 old (moved eo en)).
  assert (forall d e, hashed w5 d e <-> (d = old /\ e = moved eo en) \/ (d <> new /\ d <> old /\ hashed w d e)) as H5
    by (intros d e; unfold w5; rewrite add_hashed by done; by rewrite H4).
  assert (cache_ok addr w5) as Hok5.
  { apply add_cache_ok; [done..|intros e (_ & ? & _)%H4; done|]. intros d e (Hdn & _ & Hd)%H4 Hp Hnm. apply Hdn.
    by apply (co_unique _ _ Hok d new e en). }
  rewrite (d_add_run w5 new (moved en eo) En4). exists (add_state w5 new (moved en eo)). split_and!; try done.
  - apply add_cache_ok; [done..|intros e [[? _]|[? _]]%H5; congruence|].
    intros d e [[-> ->]|(_ & Hdo & Hd)]%H5 Hp Hnm; simpl in Hp, Hnm.
    + apply Hne. by apply (co_unique _ _ Hok old new eo en).
    + apply Hdo. by apply (co_unique _ _ Hok d old e eo).
  - intros d e. rewrite add_hashed by done. rewrite H5. tauto.
Qed.

(** ** The invariant *)

Section Relabel.
Context (w w' : NameSys) (Hok : ns_ok addr w) (old new : nat) (eo en po pn : Dentry) (dir1 dir2 c fl : Z) (keep : bool).
Context (Hne : old <> new) (Ho : hashed w old eo) (Hn : hashed w new en) (Hc : d_data eo = Some (c, fl)).
Context (Epo : ns_dentries w !! d_parent eo = Some po) (Hpo : d_data po = Some (dir1, D_DIRECTORY)) (Hdot1 : d_name eo <> [DOT]).
Context (Epn : ns_dentries w !! d_parent en = Some pn) (Hpn : d_data pn = Some (dir2, D_DIRECTORY)) (Hdot2 : d_name en <> [DOT]).
Context (Hcache : cache_ok addr w') (Hdent : ns_dentries w' = <[new := moved en eo]> (<[old := moved eo en]> (ns_dentries w))).
Context (Hnext : ns_next w' = ns_next w) (Hino : inodes_ok w').
Context (Hlike : forall a i, ns_inodes w !! a = Some i -> exists i', ns_inodes w' !! a = Some i' /\ kind_like (i_kind i) (i_kind i')).
Context (Hkeep : keep = true -> d_data en = None).
Context (Hh : forall d e, hashed w' d e <-> (d = old /\ e = moved eo en) \/ (keep = true /\ d = new /\ e = moved en eo) \/
                                          (d <> old /\ d <> new /\ hashed w d e)).
Context (Hnames : forall a n, n <> [DOT] ->
  names w' a n = set_name (set_name (names w) dir1 (d_name eo) None) dir2 (d_name en) (Some c) a n).

Lemma relabel_data d e' : ns_dentries w' !! d = Some e' -> exists e, ns_dentries w !! d = Some e /\ d_data e' = d_data e.
Proof using Hdent Ho Hn.
  rewrite Hdent. intros [[<- <-]|[_ [[<- <-]|[_ E]]%lookup_insert_Some]]%lookup_insert_Some.
  - exists en. split; [apply Hn|done].
  - exists eo. split; [apply Ho|done].
  - by exists e'.
Qed.

Lemma relabel_data_back d e : ns_dentries w !! d = Some e -> exists e', ns_dentries w' !! d = Some e' /\ d_data e' = d_data e.
Proof using Hdent Ho Hn.
  rewrite Hdent. intros E. destruct (decide (d = new)) as [->|Hn1].
  - rewrite lookup_insert_eq. eexists. split; [done|]. destruct Hn as [En _]. assert (e = en) as -> by congruence. done.
  - rewrite lookup_insert_ne by done. destruct (decide (d = old)) as [->|Hn2].
    + rewrite lookup_insert_eq. eexists. split; [done|]. destruct Ho as [Eo _]. assert (e = eo) as -> by congruence. done.
    + rewrite lookup_insert_ne by done. by exists e.
Qed.

Lemma relabel_hashed_back d e' : hashed w' d e' -> exists e, hashed w d e.
Proof using Hh Ho Hn. intros [[-> _]|[(_ & -> & _)|(_ & _ & H)]]%Hh; eauto. Qed.

Lemma relabel_cached pd n a :
  cached w' pd n a <-> ((pd, n) = (d_parent en, d_name en) /\ a = c) \/
    ((pd, n) <> (d_parent en, d_name en) /\ (pd, n) <> (d_parent eo, d_name eo) /\ cached w pd n a).
Proof using Hh Hkeep Hc Hok Ho Hn.
  split.
  - intros (d & e & fl' & [[-> ->]|[(Hk & -> & ->)|(Hdo & Hdn & Hd)]]%Hh & Hp & Hnm & Hdt); simpl in *.
    + left. split; congruence.
    + rewrite (Hkeep Hk) in Hdt. done.
    + right. split_and!; [intros [= Hp' Hn'] ..|by exists d, e, fl'].
      * apply Hdn. by apply (co_unique _ _ (no_cache _ w Hok) d new e en); congruence.
      * apply Hdo. by apply (co_unique _ _ (no_cache _ w Hok) d old e eo); congruence.
  - intros [[[= -> ->] ->]|(Hp2 & Hp1 & d & e & fl' & Hd & Hp & Hnm & Hdt)].
    + exists old, (moved eo en), fl. split_and!; try done. apply Hh. by left.
    + exists d, e, fl'. split_and!; try done. apply Hh. right. right. split_and!; [..|done].
      * intros ->. rewrite (hashed_inj w old e eo Hd Ho) in *. congruence.
      * intros ->. rewrite (hashed_inj w new e en Hd Hn) in *. congruence.
Qed.

Lemma relabel_names pd pe a n b :
  ns_dentries w' !! pd = Some pe -> d_data pe = Some (a, D_DIRECTORY) -> n <> [DOT] -> names w' a n = Some b <-> cached w' pd n b.
Proof using All.
  intros (pe0 & Epd & Hd)%relabel_data Hpd Hdot. rewrite Hpd in Hd. symmetry in Hd. rewrite Hnames, relabel_cached by done.
  destruct (decide ((pd, n) = (d_parent en, d_name en))) as [[= -> ->]|Hp2].
  { assert (a = dir2) as -> by congruence. rewrite set_name_eq. naive_solver. }
  rewrite set_name_ne; [|intros [= -> ->]; apply Hp2; f_equal; by apply (no_onedir _ w Hok _ _ _ _ _ Epd Epn Hd Hpn)].
  destruct (decide ((pd, n) = (d_parent eo, d_name eo))) as [[= -> ->]|Hp1].
  { assert (a = dir1) as -> by congruence. rewrite set_name_eq. naive_solver. }
  rewrite set_name_ne; [|intros [= -> ->]; apply Hp1; f_equal; by apply (no_onedir _ w Hok _ _ _ _ _ Epd Epo Hd Hpo)].
  rewrite (no_names _ w Hok _ _ _ n b Epd Hd Hdot). naive_solver.
Qed.

Lemma relabel_parent d e : hashed w' d e -> exists e0, hashed w (if decide (d = old) then new else if decide (d = new) then old else d) e0 /\
  d_parent e0 = d_parent e /\ d_name e0 = d_name e.
Proof using Hh Ho Hn Hne.
  intros [[-> ->]|[(_ & -> & ->)|(H1 & H2 & H)]]%Hh.
  - rewrite decide_True by done. by exists en.
  - rewrite decide_False, decide_True by done. by exists eo.
  - rewrite !decide_False by done. by exists e.
Qed.

Lemma relabel_ok : ns_ok addr w'.
Proof using All.
  split.
  - done.
  - intros d e' E'. destruct (relabel_data d e' E') as (e & E & _). rewrite Hnext. split; [by apply (no_live _ w Hok d e)|].
    rewrite Hdent in *. assert (exists x ex, ns_dentries w !! x = Some ex /\ d_parent ex = d_parent e') as (x & ex & Ex & Hx).
    { apply lookup_insert_Some in E' as [[<- <-]|[_ E']]; [exists old, eo; split; [apply Ho|done]|].
      apply lookup_insert_Some in E' as [[<- <-]|[_ E']]; [exists new, en; split; [apply Hn|done]|]. by exists d, e'. }
    rewrite <- Hx. destruct (no_live _ w Hok x ex Ex) as [_ Hpx]. apply lookup_insert_is_Some'. right. apply lookup_insert_is_Some'. by right.
  - intros d e' a f E' Hd. destruct (relabel_data d e' E') as (e & E & He). rewrite He in Hd.
    destruct (no_data _ w Hok d e a f E Hd) as (ia & Ea & Hf). destruct (Hlike a ia Ea) as (i' & Ei' & Hl). exists i'. split; [done|]. by eapply flags_like.
  - intros d1 d2 e1 e2 a (e1' & E1 & H1)%relabel_data (e2' & E2 & H2)%relabel_data. rewrite H1, H2. by apply (no_onedir _ w Hok).
  - intros d e He. destruct (relabel_parent d e He) as (e0 & He0 & Hp & Hnm). rewrite <- Hp, <- Hnm.
    destruct (no_parent _ w Hok _ e0 He0) as (pe & Epe & Hpe). destruct (relabel_data_back _ _ Epe) as (pe' & Epe' & Hdt).
    exists pe'. rewrite Hdt. split; [done|]. destruct Hpe as [?|[? Hu]]; [by left|right]. split; [done|].
    intros e1 [e2 He2]%relabel_hashed_back. by apply (Hu e2).
  - done.
  - apply relabel_names.
Qed.

End Relabel.

(** ** Finding the entries in the directory *)

Lemma find_indices_keep l k oi on ni nn acc :
  (on ∉ l.*1 -> (find_indices l k oi on ni nn acc).1 = acc.1) /\ (nn ∉ l.*1 -> (find_indices l k oi on ni nn acc).2 = acc.2).
Proof.
  revert k acc. induction l as [|[n c] l IH]; intros k acc; [done|]. cbn [find_indices].
  split; intros Hn; rewrite fmap_cons, not_elem_of_cons in Hn; destruct Hn as [Hh Ht]; simpl in Hh.
  - rewrite (proj1 (IH _ _) Ht). rewrite (bool_decide_eq_false_2 (n = on)), andb_false_r by done. by case_match.
  - rewrite (proj2 (IH _ _) Ht). rewrite (bool_decide_eq_false_2 (n = nn)), andb_false_r by done. by case_match.
Qed.

Lemma find_indices_none l k oi on nn acc : (find_indices l k oi on None nn acc).2 = acc.2.
Proof. revert k acc. induction l as [|[n c] l IH]; intros k acc; [done|]. cbn [find_indices]. rewrite IH. simpl. by case_match. Qed.

Lemma find_indices_old l k oi on ni nn acc j :
  NoDup l.*1 -> on <> nn -> l !! j = Some (on, oi) -> (find_indices l k oi on ni nn acc).1 = Some (k + j)%nat.
Proof.
  intros Hnd Hne. revert k acc j. induction l as [|[n c] l IH]; intros k acc j Hj; [done|]. rewrite fmap_cons in Hnd.
  apply NoDup_cons in Hnd as [Hn Hnd]. cbn [find_indices]. destruct j as [|j]; simpl in Hj.
  - injection Hj as -> ->. rewrite (proj1 (find_indices_keep _ _ _ _ _ _ _) Hn).
    rewrite (bool_decide_eq_false_2 (on = nn)), andb_false_r, Z.eqb_refl, bool_decide_eq_true_2 by done. simpl. f_equal. lia.
  - rewrite (IH Hnd _ _ j Hj). f_equal. lia.
Qed.

Lemma find_indices_new l k oi on f nn acc j :
  NoDup l.*1 -> l !! j = Some (nn, f) -> (find_indices l k oi on (Some f) nn acc).2 = Some (k + j)%nat.
Proof.
  intros Hnd. revert k acc j. induction l as [|[n c] l IH]; intros k acc j Hj; [done|]. rewrite fmap_cons in Hnd.
  apply NoDup_cons in Hnd as [Hn Hnd]. cbn [find_indices]. destruct j as [|j]; simpl in Hj.
  - injection Hj as -> ->. rewrite (proj2 (find_indices_keep _ _ _ _ _ _ _) Hn). rewrite !bool_decide_eq_true_2 by done. simpl. f_equal. lia.
  - rewrite (IH Hnd _ _ j Hj). f_equal. lia.
Qed.

(** The position of an entry, and what is left when another one before or after it goes. *)
Lemma remove_at_app {A} (l1 l2 : list A) x : remove_at (length l1) (l1 ++ x :: l2) = l1 ++ l2.
Proof. unfold remove_at. rewrite take_app_length. f_equal. rewrite drop_app_ge by lia. by replace (S (length l1) - length l1)%nat with 1%nat by lia. Qed.

Lemma lookup_skip {A} (p q a b : list A) x y :
  p ++ q = a ++ x :: b -> (p ++ y :: q) !! (if (length a <? length p)%nat then length a else S (length a)) = Some x.
Proof.
  intros E. assert ((p ++ q) !! length a = Some x) as Hx by (rewrite E; by apply list_lookup_middle).
  destruct (Nat.ltb_spec (length a) (length p)) as [Hl|Hl].
  - rewrite lookup_app_l by done. by rewrite lookup_app_l in Hx by done.
  - rewrite lookup_app_r by lia. rewrite lookup_app_r in Hx by done. by replace (S (length a) - length p)%nat with (S (length a - length p)) by lia.
Qed.

Lemma entry_position_middle l1 l2 n c : n ∉ l1.*1 -> entry_position (l1 ++ (n, c) :: l2) (Some c) n = Some (length l1).
Proof.
  intros Hn. unfold entry_position. induction l1 as [|[m x] l1 IH]; simpl.
  - rewrite decide_True by done. done.
  - rewrite fmap_cons, not_elem_of_cons in Hn. destruct Hn as [Hm Hn]. simpl in Hm. case_decide as Hd; [destruct Hd as [_ Hd]; simpl in Hd; congruence|].
    specialize (IH Hn). destruct (list_find _ _) as [[k y]|]; simpl in *; congruence.
Qed.

Lemma entry_position_none l n : entry_position l None n = None.
Proof.
  unfold entry_position. induction l as [|[m x] l IH]; [done|]. cbn [list_find]. case_decide as Hd; [by destruct Hd|]. by destruct (list_find _ _).
Qed.

End Rename.
