(* ===== verification/DentryOps.v ===== *)
(** * The operations on names

    Runs the operations of Dentry.v from a state of the invariant: creating,
    linking, unlinking and renaming do to the names of the directories what
    [spec_op] says, with its result, and keep the invariant. *)

From S2P Require Import Prelude OpenFlags Mode Path Dentry DentryCache DentryInv DentryRename.

(** ** The reference *)

Inductive NameOp :=
| NameMkdir (d : nat) (mode : Z)
| NameSymlink (d : nat) (target : list Z)
| NameMknod (d : nat) (mode dev : Z)
| NameLink (d : nat) (ino : Z)
| NameOpen (d : nat) (flags mode : Z)
| NameUnlink (d : nat)
| NameRename (old new : nat) (flags : Z).

Notation Place := (Z * list Z)%type.

(** A name that is free gets the inode; a new directory lists itself. *)
Definition spec_create (m : NameMap) (p : Place) (ino : Z) (is_dir : bool) : NameMap * outcome unit :=
  match m p.1 p.2 with
  | Some _ => (m, Err EEXIST)
  | None => (set_name (if is_dir then set_name m ino [DOT] (Some ino) else m) p.1 p.2 (Some ino), Ret tt)
  end.

Definition spec_unlink (m : NameMap) (p : Place) : NameMap * outcome unit :=
  match m p.1 p.2 with
  | Some _ => (set_name m p.1 p.2 None, Ret tt)
  | None => (m, Err ENOENT)
  end.

Definition spec_rename (m : NameMap) (p q : Place) (flags : Z) : NameMap * outcome unit :=
  if bf_contains flags RENAME_EXCHANGE then (m, Err ENOSYS)
  else match m p.1 p.2 with
       | None => (m, Err ENOENT)
       | Some ino => if bf_contains flags RENAME_NOREPLACE && bool_decide (is_Some (m q.1 q.2)) then (m, Err EEXIST)
                     else (set_name (set_name m p.1 p.2 None) q.1 q.2 (Some ino), Ret tt)
       end.

Definition spec_open (m : NameMap) (p : Place) (ino flags : Z) : NameMap * outcome unit :=
  match m p.1 p.2 with
  | Some _ => (m, if bf_contains flags (Z.lor O_CREAT O_EXCL) then Err EEXIST else Ret tt)
  | None => if bf_contains flags O_CREAT then (set_name m p.1 p.2 (Some ino), Ret tt) else (m, Err ENOENT)
  end.

(** [at_] gives the place of an entry, [fresh] the next inode number. *)
Definition spec_op (m : NameMap) (fresh : Z) (at_ : nat -> Place) (op : NameOp) : NameMap * outcome unit :=
  match op with
  | NameMkdir d _ => spec_create m (at_ d) fresh true
  | NameSymlink d _ => spec_create m (at_ d) fresh false
  | NameMknod d mode _ =>
      match m (at_ d).1 (at_ d).2 with
      | None => if negb (mode_is_chr mode) && negb (mode_is_blk mode) then (m, Err EINVAL) else spec_create m (at_ d) fresh false
      | Some _ => (m, Err EEXIST)
      end
  | NameLink d ino => spec_create m (at_ d) ino false
  | NameOpen d flags _ => spec_open m (at_ d) fresh flags
  | NameUnlink d => spec_unlink m (at_ d)
  | NameRename old new flags => if (old =? new)%nat then (m, Ret tt) else spec_rename m (at_ old) (at_ new) flags
  end.

Section Ops.
Context (addr : nat -> Z).

Definition name_op (op : NameOp) : fsop unit :=
  match op with
  | NameMkdir d mode => dentry_mkdir d mode
  | NameSymlink d target => dentry_symlink d target
  | NameMknod d mode dev => dentry_mknod d mode dev
  | NameLink d ino => dentry_linkat d ino
  | NameOpen d flags mode => open_check d flags mode
  | NameUnlink d => dentry_unlink d
  | NameRename old new flags => dentry_rename addr old new flags
  end.

(** ** Creating *)

(** A hashed entry with a place, in full. *)
Record At (w : NameSys) (d : nat) (dir : Z) (name : list Z) : Type := mkAt {
  at_e : Dentry; at_pe : Dentry; at_i : Inode; at_l : list (list Z * Z);
  at_hashed : hashed w d at_e;
  at_parent : ns_dentries w !! d_parent at_e = Some at_pe;
  at_dir : d_data at_pe = Some (dir, D_DIRECTORY);
  at_name : d_name at_e = name;
  at_dot : name <> [DOT];
  at_inode : ns_inodes w !! dir = Some at_i;
  at_kind : i_kind at_i = KDirectory at_l
}.

Lemma place_at w d dir name :
  ns_ok addr w -> (exists e, hashed w d e) -> place w d = Some (dir, name) -> inhabited (At w d dir name).
Proof.
  intros Hok He Hp. destruct (place_inv addr w d dir name Hok He Hp) as (e & pe & i & l & H1 & H2 & H3 & H4 & H5 & H6 & H7).
  constructor. by apply (mkAt w d dir name e pe i l).
Qed.

Lemma at_place w d dir name (H : At w d dir name) : place w d = Some (dir, name).
Proof.
  destruct H as [e pe i l [E Hin] Ep Hd Hn Hdot Ei Ek]. unfold place. rewrite E. cbn [mbind option_bind]. rewrite Ep. cbn [mbind option_bind].
  rewrite Hd. simpl. by rewrite Hn.
Qed.

Lemma at_names w d dir name (H : At w d dir name) : ns_ok addr w -> names w dir name = fst <$> d_data (at_e _ _ _ _ H).
Proof. intros Hok. apply (place_names addr w d); [done|apply at_hashed|]. by apply at_place. Qed.

(** [link] and the data of the entry, once the inode exists. *)
Lemma attach_run w d dir name (H : At w d dir name) ino it fl :
  d_data (at_e _ _ _ _ H) = None -> ns_inodes w !! ino = Some it ->
  exists i, ns_inodes (nlink_state w ino it 1) !! dir = Some i /\ i_kind i = KDirectory (at_l _ _ _ _ H) /\
  (nm ← dentry_name d; dir_link dir nm ino;; save_data d ino fl) w =
    (attach_state (nlink_state w ino it 1) dir i (at_l _ _ _ _ H) d (at_e _ _ _ _ H) ino fl, Ret tt).
Proof.
  destruct H as [e pe i l [E Hin] Ep Hd Hn Hdot Ei Ek]. cbn [at_e at_l]. intros Hfree Et. set (w1 := nlink_state w ino it 1).
  assert (exists i1, ns_inodes w1 !! dir = Some i1 /\ i_kind i1 = KDirectory l) as (i1 & Ei1 & Ek1).
  { unfold w1. simpl. destruct (decide (dir = ino)) as [->|Hne].
    - rewrite lookup_insert_eq. eexists. split; [done|]. simpl. congruence.
    - rewrite lookup_insert_ne by done. by exists i. }
  exists i1. split_and!; try done. fs_ret (dentry_name_run w d e E). unfold dir_link.
  assert (dir_link dir (d_name e) ino w = (put_dir w1 dir (set_entries i1 (l ++ [(d_name e, ino)]) (i_size i1 + 1)), Ret tt)) as Hlink.
  { unfold dir_link. fs_ret (add_nlink_run w ino it 1 Et). fs_ret (get_inode_run w1 dir i1 Ei1). by rewrite Ek1. }
  fs_ret Hlink. unfold save_data. fs_ret (get_dentry_run (put_dir w1 _ _) d e E).
  fs_ret (assert_run (bool_decide (d_data e = None)) (put_dir w1 _ _) (bool_decide_eq_true_2 _ Hfree)). done.
Qed.

(** [At] only looks at directories, which keep their lists. *)
Lemma at_mono w w' d dir name (H : At w d dir name) :
  ns_dentries w' = ns_dentries w -> ns_cache w' = ns_cache w ->
  (forall i l, ns_inodes w !! dir = Some i -> i_kind i = KDirectory l -> exists i', ns_inodes w' !! dir = Some i' /\ i_kind i' = KDirectory l) ->
  exists H' : At w' d dir name, at_e _ _ _ _ H' = at_e _ _ _ _ H /\ at_l _ _ _ _ H' = at_l _ _ _ _ H.
Proof.
  intros Hd Hc Hi. destruct H as [e pe i l He Ep Hdt Hn Hdot Ei Ek]. destruct (Hi i l Ei Ek) as (i' & Ei' & Ek').
  unshelve eexists (mkAt w' d dir name e pe i' l _ _ Hdt Hn Hdot Ei' Ek'); [by apply (hashed_ext w)|by rewrite Hd|done].
Qed.

Lemma attach_at_ok w d dir name (H : At w d dir name) ino it fl :
  ns_ok addr w -> d_data (at_e _ _ _ _ H) = None -> ns_inodes w !! ino = Some it -> flags_ok fl (i_kind it) ->
  (fl = D_DIRECTORY -> ino <> dir /\ (forall n, n <> [DOT] -> names w ino n = None) /\
                forall d' e', ns_dentries w !! d' = Some e' -> d_data e' <> Some (ino, D_DIRECTORY)) ->
  exists w', (nm ← dentry_name d; dir_link dir nm ino;; save_data d ino fl) w = (w', Ret tt) /\ ns_ok addr w' /\
    forall a n, names w' a n = set_name (names w) dir name (Some ino) a n.
Proof.
  intros Hok Hfree Et Hfl Hdir. destruct (attach_run w d dir name H ino it fl Hfree Et) as (i & Ei & Ek & ->).
  eexists. split; [done|]. pose proof (nlink_ok addr w ino it 1 Hok Et) as Hok1.
  destruct H as [e pe i0 l He Ep Hd Hn Hdot Ei0 Ek0]. cbn [at_e at_l] in *. subst name.
  assert (hashed (nlink_state w ino it 1) d e) as He1 by (by apply (hashed_ext w)).
  set (it' := mkInode (i_kind it) (i_mode it) (i_size it) (wrap64 (i_nlink it + 1))).
  split.
  - refine (attach_ok addr _ Hok1 d e pe dir i l He1 Hfree Ep Hd Hdot Ei Ek ino fl it' (lookup_insert_eq _ _ _) Hfl _).
    intros ->. destruct (Hdir eq_refl) as (? & Hnn & ?). split_and!; try done. intros n Hn. rewrite nlink_names by done. by apply Hnn.
  - intros a n. rewrite (attach_names addr _ Hok1 d e pe) by done. unfold set_name. case_decide; [done|]. by apply nlink_names.
Qed.

Definition kind_is_dir (k : InodeKind) : bool := match k with KDirectory _ => true | _ => false end.

Lemma names_absent w ino n : ns_inodes w !! ino = None -> names w ino n = None.
Proof. intros E. unfold names. by rewrite E. Qed.

Lemma dir_create_ok w d dir name (H : At w d dir name) i fl b :
  ns_ok addr w -> d_data (at_e _ _ _ _ H) = None -> fresh_ok i -> 0 <= ns_next_ino w < 2 ^ 64 - 1 ->
  (forall ino, flags_ok fl (i_kind (i ino)) /\ kind_is_dir (i_kind (i ino)) = b) ->
  exists w', dir_create dir d i fl w = (w', Ret tt) /\ ns_ok addr w' /\
    forall a n, names w' a n = set_name (if b then set_name (names w) (ns_next_ino w) [DOT] (Some (ns_next_ino w)) else names w) dir name (Some (ns_next_ino w)) a n.
Proof.
  intros Hok Hfree Hfr Hino Hfl. destruct (new_inode_ok addr w i Hok Hfr Hino) as (Hok1 & Hnone & Hnm). simpl in Hok1.
  set (ino := ns_next_ino w) in *. set (w1 := fst (new_inode i w)) in *.
  unfold dir_create. fs_ret (as_directory_run w dir _ _ (at_inode _ _ _ _ H) (at_kind _ _ _ _ H)).
  fs_ret (eq_refl : new_inode i w = (w1, Ret ino)).
  assert (dir <> ino) as Hdi by (intros Hd; pose proof (at_inode _ _ _ _ H) as Ei; congruence).
  destruct (at_mono w w1 d dir name H eq_refl eq_refl) as (H1 & He1 & _).
  { intros i0 l Ei Ek. exists i0. split; [|done]. unfold w1. simpl. by rewrite lookup_insert_ne. }
  rewrite <- He1 in Hfree. destruct (Hfl ino) as [Hf Hb].
  assert (ns_inodes w1 !! ino = Some (i ino)) as Enew by apply lookup_insert_eq.
  destruct (attach_at_ok w1 d dir name H1 ino (i ino) fl Hok1 Hfree Enew Hf) as (w' & -> & Hok' & Hnm').
  { intros ->. split_and!; [congruence|..].
    - intros n Hn. rewrite Hnm, decide_False by tauto. by apply names_absent.
    - intros d' e' E' Hd. destruct (no_data _ w Hok d' e' _ _ E' Hd) as (ix & Eix & _). congruence. }
  exists w'. split_and!; try done. intros a n. rewrite Hnm'. unfold set_name at 1 2. case_decide; [done|]. rewrite Hnm. rewrite <- Hb. unfold set_name.
  case_decide as Ha; [destruct Ha as [-> ->]|].
  - destruct (i_kind (i ino)); simpl; [by rewrite decide_True|symmetry; by apply names_absent..].
  - destruct (kind_is_dir _); [|done]. by rewrite decide_False.
Qed.

(** The four kinds of new inodes. *)
Lemma fresh_plain i : (forall ino, kind_is_dir (i_kind (i ino)) = false) -> fresh_ok i.
Proof. intros Hk ino. specialize (Hk ino). unfold inode_ok. by destruct (i_kind (i ino)). Qed.

Lemma fresh_directory mode : fresh_ok (fun ino => directory_inode_new ino mode).
Proof.
  intros ino. split; [|done]. unfold inode_ok. simpl. split_and!; [done|apply NoDup_singleton|]. unfold mode_is_dir, mode_perm.
  apply Z.eqb_eq. rewrite Z.land_lor_distr_l. replace (Z.land (Z.land _ _) S_IFMT) with 0; [done|].
  rewrite <- Z.land_assoc. change (Z.land 0x1ff S_IFMT) with 0. by rewrite Z.land_0_r.
Qed.

Lemma on_free_run {A} w d dir name (H : At w d dir name) (k : Z -> fsop A) :
  on_free_name d k w = if d_data (at_e _ _ _ _ H) then (w, Err EEXIST) else k dir w.
Proof.
  destruct H as [e pe i l [E Hin] Ep Hd Hn Hdot Ei Ek]. simpl. unfold on_free_name. fs_ret (get_dentry_run w d e E).
  destruct (d_data e); [done|]. by fs_ret (parent_inode_run w d e pe dir _ E Ep Hd).
Qed.

(** ** Unlinking *)

Lemma lock_inode_run w held ino : ino ∉ held -> lock_inode held ino w = (w, Ret tt).
Proof. intros Hn. unfold lock_inode. by rewrite bool_decide_eq_true_2. Qed.

Lemma dentry_unlink_ok w d dir name (H : At w d dir name) file fl :
  ns_ok addr w -> d_data (at_e _ _ _ _ H) = Some (file, fl) -> file <> dir ->
  exists w', dentry_unlink d w = (w', Ret tt) /\ ns_ok addr w' /\ forall a n, names w' a n = set_name (names w) dir name None a n.
Proof.
  intros Hok Hf Hne. pose proof (at_names w d dir name H Hok) as Hnm. rewrite Hf in Hnm. simpl in Hnm.
  destruct H as [e pe i l He Ep Hd Hn Hdot Ei Ek]. simpl in Hf. subst name. pose proof (proj1 He) as E.
  apply (names_in w dir i l _ _ (no_inodes _ w Hok) Ei Ek) in Hnm. destruct (no_inodes _ w Hok dir i Ei) as [Hi _].
  assert (NoDup l.*1) as Hnd by (unfold inode_ok in Hi; rewrite Ek in Hi; apply Hi).
  destruct (split_entry l _ _ Hnd Hnm) as (l1 & l2 & -> & H1 & H2 & Hnd').
  destruct (no_data _ w Hok d e file fl E Hf) as (fi & Efi & _).
  set (w1 := put_dir w dir (set_entries i (l1 ++ l2) (i_size i - 1))).
  assert (ns_inodes w1 !! file = Some fi) as Efi1 by (unfold w1; simpl; by rewrite lookup_insert_ne).
  assert (do_unlink dir file (d_name e) true w = (nlink_state w1 file fi (-1), Ret tt)) as Hdo.
  { unfold do_unlink. fs_ret (get_inode_run w dir i Ei). rewrite Ek, retain_split by done.
    fs_ret (eq_refl : put_inode dir _ w = (w1, Ret tt)). by rewrite (add_nlink_run w1 file fi (-1) Efi1). }
  set (w2 := detach_state w dir i (l1 ++ l2) d e).
  assert (ns_ok addr w2) as Hok2 by (by apply (detach_ok addr w Hok d e pe dir i l1 l2 file)).
  assert (file ∉ [dir]) as Hlock by (by rewrite list_elem_of_singleton).
  exists (nlink_state w2 file fi (-1)). split_and!.
  - unfold dentry_unlink. fs_ret (get_dentry_run w d e E). rewrite Hf. fs_ret (parent_inode_run w d e pe dir _ E Ep Hd). unfold dir_unlink.
    fs_ret (as_directory_run w dir i _ Ei Ek). fs_ret (dentry_get_inode_run w d e file fl E Hf). fs_ret (dentry_name_run w d e E).
    fs_ret (lock_inode_run w [dir] file Hlock).
    fs_ret Hdo. rewrite (d_remove_run _ d e); [done|]. by apply (hashed_ext w).
  - by apply nlink_ok.
  - intros a n. rewrite nlink_names by done. by apply (detach_names w d e dir i l1 l2 file).
Qed.

(** ** Renaming *)

(** Only inodes changed, and they are still what they were. *)
Record inode_step (w w' : NameSys) : Prop := mkInodeStep {
  is_dentries : ns_dentries w' = ns_dentries w;
  is_cache : ns_cache w' = ns_cache w;
  is_next : ns_next w' = ns_next w;
  is_ok : inodes_ok w';
  is_like a i : ns_inodes w !! a = Some i -> exists i', ns_inodes w' !! a = Some i' /\ kind_like (i_kind i) (i_kind i')
}.

Lemma kind_like_trans k1 k2 k3 : kind_like k1 k2 -> kind_like k2 k3 -> kind_like k1 k3.
Proof. destruct k1, k2, k3; simpl; congruence. Qed.

Lemma inode_step_refl w : inodes_ok w -> inode_step w w.
Proof. intros Hok. split; try done. intros a i E. exists i. split; [done|]. apply kind_like_refl. Qed.

Lemma inode_step_trans w1 w2 w3 : inode_step w1 w2 -> inode_step w2 w3 -> inode_step w1 w3.
Proof.
  intros [D1 C1 N1 O1 L1] [D2 C2 N2 O2 L2]. split; [congruence..|done|]. intros a i (i2 & E2 & K2)%L1.
  destruct (L2 a i2 E2) as (i3 & E3 & K3). exists i3. split; [done|]. by eapply kind_like_trans.
Qed.

Lemma put_dir_step w dir i i0 l0 l :
  inodes_ok w -> ns_inodes w !! dir = Some i0 -> i_kind i0 = KDirectory l0 -> i_kind i = KDirectory l -> inode_ok i -> inode_step w (put_dir w dir i).
Proof.
  intros Hok E0 K0 K Hi. split; try done; [by apply put_dir_inodes|]. intros a ia Ea. by apply (put_dir_like w dir i i0 l0 l a ia).
Qed.

Lemma nlink_step w ino i k : inodes_ok w -> ns_inodes w !! ino = Some i -> inode_step w (nlink_state w ino i k).
Proof.
  intros Hok E. split; try done.
  - intros a i'. simpl. intros [[<- <-]|[_ Ea]]%lookup_insert_Some; [exact (Hok ino i E)|exact (Hok a i' Ea)].
  - intros a i' Ea. simpl. destruct (decide (a = ino)) as [->|Hne].
    + rewrite lookup_insert_eq. eexists. split; [done|]. assert (i' = i) as -> by congruence. apply kind_like_refl.
    + rewrite lookup_insert_ne by done. exists i'. split; [done|]. apply kind_like_refl.
Qed.

(** An entry of a directory gets another name. *)
Lemma map_rename (a b : list (list Z * Z)) on nn c m :
  NoDup (a ++ (on, c) :: b).*1 -> nn ∉ (a ++ (on, c) :: b).*1 ->
  NoDup (a ++ (nn, c) :: b).*1 /\
  (list_to_map (a ++ (nn, c) :: b) : gmap (list Z) Z) !! m =
    if decide (m = nn) then Some c else if decide (m = on) then None else (list_to_map (a ++ (on, c) :: b) : gmap (list Z) Z) !! m.
Proof.
  rewrite !fmap_app, !fmap_cons. cbn [fst]. intros (Ha & Hab & [Hon Hb]%NoDup_cons)%NoDup_app Hnn.
  rewrite not_elem_of_app, not_elem_of_cons in Hnn. destruct Hnn as (Hna & Hno & Hnb). split.
  - apply NoDup_app. split_and!; [done| |by constructor]. intros x Hx [->|Hxb]%elem_of_cons; [done|]. apply (Hab x Hx). by right.
  - rewrite !list_to_map_app, !list_to_map_cons, !lookup_union. destruct (decide (m = nn)) as [->|Hm].
    + rewrite lookup_insert_eq. rewrite (not_elem_of_list_to_map_1 a) by done. done.
    + rewrite lookup_insert_ne by done. destruct (decide (m = on)) as [->|Hmo]; [|by rewrite lookup_insert_ne].
      rewrite !not_elem_of_list_to_map_1; [done..|]. intros Hx. apply (Hab on Hx). left.
Qed.

Lemma rename_entry_step w wx dir on nn oi i a b :
  inode_step w wx -> ns_inodes wx !! dir = Some i -> i_kind i = KDirectory (a ++ (on, oi) :: b) -> nn <> on ->
  (forall x n, names wx x n = set_name (names w) dir nn None x n) ->
  let w' := put_dir wx dir (mkInode (KDirectory (a ++ (nn, oi) :: b)) (i_mode i) (i_size i) (i_nlink i)) in
  inode_step w w' /\ forall x n, names w' x n = set_name (set_name (names w) dir on None) dir nn (Some oi) x n.
Proof.
  intros Hst Ei Ek Hne Hnm w'. pose proof (is_ok w wx Hst) as Hok. destruct (Hok dir i Ei) as [Hi _]. unfold inode_ok in Hi. rewrite Ek in Hi.
  destruct Hi as (Hs & Hnd & Hm).
  assert (nn ∉ (a ++ (on, oi) :: b).*1) as Hnn.
  { intros ([n c] & Hn & Hin)%list_elem_of_fmap. simpl in Hn. subst n. apply (names_in wx dir i _ nn c Hok Ei Ek) in Hin.
    rewrite Hnm, set_name_eq in Hin. done. }
  pose proof (fun m => map_rename a b on nn oi m Hnd Hnn) as Hmap. split.
  - apply (inode_step_trans w wx); [done|]. eapply put_dir_step; [done..|]. unfold inode_ok. simpl.
    split_and!; [by rewrite Hs, !length_app|apply (Hmap [])|done].
  - intros x n. unfold w'. rewrite (names_put_dir _ _ _ (a ++ (nn, oi) :: b)) by done. destruct (decide (x = dir)) as [->|Hx].
    + rewrite (proj2 (Hmap n)). unfold set_name. destruct (decide (n = nn)) as [->|Hn1]; [by rewrite decide_True|].
      rewrite (decide_False (P := dir = dir /\ n = nn)) by tauto. destruct (decide (n = on)) as [->|Hn2]; [by rewrite decide_True|].
      rewrite decide_False by tauto. rewrite <- (names_dir wx dir i _ n Ei Ek), Hnm, set_name_ne by congruence. done.
    + rewrite Hnm. unfold set_name. rewrite !(decide_False (P := x = dir /\ _)) by tauto. done.
Qed.

(** The names of two entries of the same directory differ. *)
Lemma at_same_dir w d1 d2 dir n1 n2 (H1 : At w d1 dir n1) (H2 : At w d2 dir n2) : ns_ok addr w -> d1 <> d2 -> n1 <> n2.
Proof.
  intros Hok Hne ->. destruct H1 as [e1 p1 i1 l1 He1 Ep1 Hd1 Hn1 _ _ _], H2 as [e2 p2 i2 l2 He2 Ep2 Hd2 Hn2 _ _ _]. apply Hne.
  apply (co_unique _ _ (no_cache _ w Hok) d1 d2 e1 e2 He1 He2); [|congruence]. by apply (no_onedir _ w Hok _ _ _ _ _ Ep1 Ep2 Hd1 Hd2).
Qed.

Lemma inode_ok_dir w dir i l : inodes_ok w -> ns_inodes w !! dir = Some i -> i_kind i = KDirectory l -> inode_ok i /\ NoDup l.*1.
Proof. intros Hok Ei Ek. destruct (Hok dir i Ei) as [Hi _]. split; [done|]. unfold inode_ok in Hi. rewrite Ek in Hi. apply Hi. Qed.

(** The modes that [rename] refuses to replace. *)
Definition replaces_ok (same : bool) (w : NameSys) (old_ino file : Z) : Prop :=
  forall io fi, ns_inodes w !! old_ino = Some io -> ns_inodes w !! file = Some fi -> rename_replaces same (i_mode io) (i_mode fi) = Ret tt.

Lemma rename_tail_run wx dir on nn oi i a b :
  ns_inodes wx !! dir = Some i -> i_kind i = KDirectory (a ++ (on, oi) :: b) ->
  (entries ← as_directory dir;
   i ← get_inode_data dir;
   e ← lift (expect (entries !! length a));
   put_inode dir (mkInode (KDirectory (<[length a := (nn, e.2)]> entries)) (i_mode i) (i_size i) (i_nlink i))) wx =
  (put_dir wx dir (mkInode (KDirectory (a ++ (nn, oi) :: b)) (i_mode i) (i_size i) (i_nlink i)), Ret tt).
Proof.
  intros Ei Ek. fs_ret (as_directory_run wx dir i _ Ei Ek). fs_ret (get_inode_run wx dir i Ei).
  assert ((a ++ (on, oi) :: b) !! length a = Some (on, oi)) as Hl by (by apply list_lookup_middle). rewrite Hl.
  fs_ret (lift_run (Ret (on, oi)) wx). simpl. rewrite insert_app_r_alt by done. by rewrite Nat.sub_diag.
Qed.

Section RenameSame.
Context (w : NameSys) (Hok : ns_ok addr w) (dir : Z) (on nn : list Z) (oi : Z) (new_ino : option Z).
Context (i : Inode) (l : list (list Z * Z)) (Ei : ns_inodes w !! dir = Some i) (Ek : i_kind i = KDirectory l).
Context (Hnn : nn <> on) (Hold : names w dir on = Some oi) (Hnew : names w dir nn = new_ino).
Context (Hlive : is_Some (ns_inodes w !! oi)) (Hfile : forall f, new_ino = Some f -> is_Some (ns_inodes w !! f) /\ f <> dir /\ replaces_ok true w oi f).

Lemma rename_list_free idx :
  new_ino = None -> find_indices l 0 oi on new_ino nn (None, None) = (Some idx, None) ->
  exists w', rename_list dir oi new_ino nn l idx None w = (w', Ret tt) /\ inode_step w w' /\
    forall x n, names w' x n = set_name (set_name (names w) dir on None) dir nn (Some oi) x n.
Proof using All.
  intros Hno Hidx. destruct (inode_ok_dir w dir i l (no_inodes _ w Hok) Ei Ek) as [Hi Hnd].
  apply (names_in w dir i l _ _ (no_inodes _ w Hok) Ei Ek) in Hold. destruct (split_entry l on oi Hnd Hold) as (a & b & El & _).
  pose proof (find_indices_old l 0 oi on new_ino nn (None, None) (length a) Hnd (not_eq_sym Hnn) ltac:(rewrite El; by apply list_lookup_middle)) as Hx.
  rewrite Hidx in Hx. injection Hx as ->. unfold rename_list. fs_ret (eq_refl : (mret (length a) : fsop nat) w = (w, Ret (length a))).
  rewrite El in Ek. rewrite (rename_tail_run w dir on nn oi i a b Ei Ek). eexists. split; [done|].
  apply (rename_entry_step w w dir on nn oi i a b); try done; [apply inode_step_refl, (no_inodes _ w Hok)|].
  intros x n. unfold set_name. case_decide as Hd; [destruct Hd as [-> ->]; congruence|done].
Qed.

Lemma rename_list_taken idx nidx f :
  new_ino = Some f -> find_indices l 0 oi on new_ino nn (None, None) = (Some idx, Some nidx) ->
  exists w', rename_list dir oi new_ino nn l idx (Some nidx) w = (w', Ret tt) /\ inode_step w w' /\
    forall x n, names w' x n = set_name (set_name (names w) dir on None) dir nn (Some oi) x n.
Proof using All.
  intros Hno Hidx. pose proof (no_inodes _ w Hok) as Hin. destruct (inode_ok_dir w dir i l Hin Ei Ek) as [Hi Hnd].
  destruct (Hfile f Hno) as ([fi Efi] & Hfd & Hrep). destruct Hlive as [fo Efo]. rewrite Hno in Hnew.
  apply (names_in w dir i l _ _ Hin Ei Ek) in Hnew, Hold.
  destruct (split_entry l nn f Hnd Hnew) as (p & q & El & Hp & Hq & Hpq).
  assert ((on, oi) ∈ p ++ q) as Hon by (rewrite El in Hold; rewrite !elem_of_app, elem_of_cons in *; naive_solver).
  destruct (split_entry (p ++ q) on oi Hpq Hon) as (a & b & Eab & _).
  assert (nidx = length p) as ->.
  { pose proof (find_indices_new l 0 oi on f nn (None, None) (length p) Hnd ltac:(rewrite El; by apply list_lookup_middle)) as Hx.
    rewrite <- Hno, Hidx in Hx. by injection Hx as ->. }
  assert (idx = if (length a <? length p)%nat then length a else S (length a)) as ->.
  { pose proof (find_indices_old l 0 oi on new_ino nn (None, None) _ Hnd (not_eq_sym Hnn) ltac:(rewrite El; by apply (lookup_skip p q a b))) as Hx.
    rewrite Hidx in Hx. by injection Hx as ->. }
  set (w1 := put_dir w dir (set_entries i (p ++ q) (i_size i - 1))).
  assert (ns_inodes w1 !! f = Some fi) as Efi1 by (unfold w1; simpl; by rewrite lookup_insert_ne).
  set (w2 := nlink_state w1 f fi (-1)).
  assert (ns_inodes w2 !! dir = Some (set_entries i (p ++ q) (i_size i - 1))) as Ei2
    by (unfold w2, w1; simpl; rewrite lookup_insert_ne by done; apply lookup_insert_eq).
  rewrite El in Ek. assert (inode_step w w1) as Hst1 by (eapply put_dir_step; [done..|]; by apply (del_entry_ok i p q nn f)).
  destruct (rename_entry_step w w2 dir on nn oi (set_entries i (p ++ q) (i_size i - 1)) a b) as (Hst & Hnm); try done.
  { eapply inode_step_trans; [exact Hst1|]. apply nlink_step; [apply (is_ok _ _ Hst1)|done]. }
  { simpl. by rewrite Eab. }
  { intros x n. unfold w2. rewrite nlink_names by done. unfold w1. rewrite (names_put_dir _ _ _ (p ++ q)) by done. unfold set_name.
    destruct (decide (x = dir)) as [->|Hx]; [|by rewrite decide_False by tauto]. rewrite (map_remove p q nn f) by done.
    destruct (decide (n = nn)) as [->|Hn]; [by rewrite decide_True|]. rewrite decide_False by tauto. symmetry. by apply names_dir with i. }
  eexists. split; [|split; [exact Hst|exact Hnm]].
  assert (set_entries i (remove_at (length p) l) (i_size i - 1) = set_entries i (p ++ q) (i_size i - 1)) as Hrem by (by rewrite El, remove_at_app).
  unfold rename_list. rewrite Hno. erewrite fs_bind_ret; [|
    fs_ret (lift_run (Ret f) w); fs_ret (lock_inode_run w [dir] f ltac:(by rewrite list_elem_of_singleton)); fs_ret (get_inode_run w f fi Efi);
    fs_ret (get_inode_run w oi fo Efo); rewrite (Hrep fo fi Efo Efi); fs_ret (lift_run (Ret tt) w); fs_ret (get_inode_run w dir i Ei); rewrite Hrem;
    fs_ret (eq_refl : put_inode dir _ w = (w1, Ret tt)); fs_ret (add_nlink_run w1 f fi (-1) Efi1); reflexivity].
  fold w2. replace (if (length p <? _)%nat then _ else _) with (length a).
  - by rewrite (rename_tail_run w2 dir on nn oi (set_entries i (p ++ q) (i_size i - 1)) a b Ei2 ltac:(simpl; by rewrite Eab)).
  - destruct (Nat.ltb_spec (length a) (length p)).
    + by rewrite (proj2 (Nat.ltb_ge (length p) (length a))) by lia.
    + rewrite (proj2 (Nat.ltb_lt (length p) (S (length a)))) by lia. lia.
Qed.

End RenameSame.

(** After the directories have changed, the entries change places. *)
Lemma exchange_ok w w1 old new dir1 dir2 on nn oi fl (Ho : At w old dir1 on) (Hn : At w new dir2 nn) :
  ns_ok addr w -> old <> new -> d_data (at_e _ _ _ _ Ho) = Some (oi, fl) -> inode_step w w1 ->
  (forall x n, names w1 x n = set_name (set_name (names w) dir1 on None) dir2 nn (Some oi) x n) ->
  (exists w', (d_exchange addr old new;; d_remove new) w1 = (w', Ret tt) /\ ns_ok addr w' /\ forall x n, names w' x n = names w1 x n) /\
  (d_data (at_e _ _ _ _ Hn) = None ->
   exists w', d_exchange addr old new w1 = (w', Ret tt) /\ ns_ok addr w' /\ forall x n, names w' x n = names w1 x n).
Proof.
  intros Hok Hne Hd Hst Hnm. destruct Ho as [eo po io lo Heo Epo Hpo <- Hdo Eio Eko], Hn as [en pn iN ln Hen Epn Hpn <- Hdn Ein Ekn]. cbn [at_e] in *.
  destruct Hst as [D1 C1 N1 O1 L1].
  assert (cache_ok addr w1) as Hc1 by (by apply (cache_ok_ext _ w), no_cache).
  assert (forall d e, hashed w1 d e <-> hashed w d e) as Hh1 by (intros; by apply hashed_ext).
  destruct (d_exchange_run addr w1 old new eo en Hc1 (proj2 (Hh1 _ _) Heo) (proj2 (Hh1 _ _) Hen) Hne) as (w2 & Hrun & Hc2 & D2 & I2 & NI2 & N2 & Hh2).
  assert (inodes_ok w2) as O2 by (unfold inodes_ok; rewrite I2, NI2; exact O1).
  assert (forall x n, names w2 x n = names w1 x n) as Hnm2 by (intros x n; unfold names; by rewrite I2).
  rewrite D1 in D2. setoid_rewrite Hh1 in Hh2. split.
  - assert (hashed w2 new (moved addr en eo)) as Hhn by (apply Hh2; auto).
    exists (remove_state w2 new (moved addr en eo)). split_and!; [fs_ret Hrun; by apply d_remove_run| |exact Hnm2].
    eapply (relabel_ok addr w _ Hok old new eo en po pn dir1 dir2 oi fl false); try done.
    + apply remove_cache_ok, Hhn. done.
    + simpl. congruence.
    + intros a i Ea. simpl. rewrite I2. by apply L1.
    + intros d e. rewrite remove_hashed by apply Hhn. rewrite Hh2. naive_solver.
    + intros a n _. by rewrite <- Hnm, <- Hnm2.
  - intros Hnone. exists w2. split_and!; try done. eapply (relabel_ok addr w _ Hok old new eo en po pn dir1 dir2 oi fl true); try done.
    + congruence.
    + intros a i Ea. rewrite I2. by apply L1.
    + intros d e. rewrite Hh2. naive_solver.
    + intros a n _. by rewrite <- Hnm, <- Hnm2.
Qed.

Lemma rename_same_ok w old new dir on nn oi fl (Ho : At w old dir on) (Hn : At w new dir nn) :
  ns_ok addr w -> old <> new -> d_data (at_e _ _ _ _ Ho) = Some (oi, fl) ->
  (forall f, names w dir nn = Some f -> f <> dir /\ replaces_ok true w oi f) ->
  exists w', rename_same addr dir old new oi (fst <$> d_data (at_e _ _ _ _ Hn)) w = (w', Ret tt) /\ ns_ok addr w' /\
    forall x n, names w' x n = set_name (set_name (names w) dir on None) dir nn (Some oi) x n.
Proof.
  intros Hok Hne Hd Hrep. pose proof (at_same_dir w new old dir nn on Hn Ho Hok (not_eq_sym Hne)) as Hnn.
  pose proof (at_names w old dir on Ho Hok) as Hon. rewrite Hd in Hon. simpl in Hon. pose proof (at_names w new dir nn Hn Hok) as Hnew.
  pose proof (no_inodes _ w Hok) as Hin. destruct (inode_ok_dir w dir _ _ Hin (at_inode _ _ _ _ Ho) (at_kind _ _ _ _ Ho)) as [_ Hnd].
  set (i := at_i _ _ _ _ Ho) in *. set (l := at_l _ _ _ _ Ho) in *.
  assert (exists j, l !! j = Some (on, oi)) as [j Hj]
    by (apply list_elem_of_lookup, (names_in w dir i l on oi Hin (at_inode _ _ _ _ Ho) (at_kind _ _ _ _ Ho)); done).
  assert (is_Some (ns_inodes w !! oi)) as Hlive.
  { destruct (no_data _ w Hok _ _ _ _ (proj1 (at_hashed _ _ _ _ Ho)) Hd) as (x & Ex & _). by exists x. }
  assert (forall f, fst <$> d_data (at_e _ _ _ _ Hn) = Some f -> is_Some (ns_inodes w !! f) /\ f <> dir /\ replaces_ok true w oi f) as Hfile.
  { intros f Hf. split; [|apply Hrep; congruence]. destruct (d_data (at_e _ _ _ _ Hn)) as [[f' fl']|] eqn:Edn; simpl in Hf; simplify_eq.
    destruct (no_data _ w Hok _ _ _ _ (proj1 (at_hashed _ _ _ _ Hn)) Edn) as (x & Ex & _). by exists x. }
  set (new_ino := fst <$> d_data (at_e _ _ _ _ Hn)) in *.
  assert (exists idx nidx, find_indices l 0 oi on new_ino nn (None, None) = (Some idx, nidx) /\
    exists w1, rename_list dir oi new_ino nn l idx nidx w = (w1, Ret tt) /\ inode_step w w1 /\
    forall x n, names w1 x n = set_name (set_name (names w) dir on None) dir nn (Some oi) x n) as (idx & nidx & Hidx & w1 & Hrun & Hst & Hnm).
  { pose proof (find_indices_old l 0 oi on new_ino nn (None, None) j Hnd (not_eq_sym Hnn) Hj) as H1.
    destruct (find_indices l 0 oi on new_ino nn (None, None)) as [o nx] eqn:Ef. simpl in H1. subst o. exists j, nx. split; [done|].
    destruct new_ino as [f|] eqn:Enew.
    - assert (exists k, l !! k = Some (nn, f)) as [k Hk]
        by (apply list_elem_of_lookup, (names_in w dir i l nn f Hin (at_inode _ _ _ _ Ho) (at_kind _ _ _ _ Ho)); done).
      pose proof (find_indices_new l 0 oi on f nn (None, None) k Hnd Hk) as H2. rewrite Ef in H2. simpl in H2. subst nx.
      by apply (rename_list_taken w Hok dir on nn oi (Some f) i l (at_inode _ _ _ _ Ho) (at_kind _ _ _ _ Ho) Hnn Hon Hnew Hlive Hfile j k f).
    - pose proof (find_indices_none l 0 oi on nn (None, None)) as H2. rewrite Ef in H2. simpl in H2. subst nx.
      by apply (rename_list_free w Hok dir on nn oi None i l (at_inode _ _ _ _ Ho) (at_kind _ _ _ _ Ho) Hnn Hon Hnew Hlive Hfile j). }
  destruct (exchange_ok w w1 old new dir dir on nn oi fl Ho Hn Hok Hne Hd Hst Hnm) as [(w' & Hx & Hok' & Hnm') _].
  exists w'. split_and!; [|done|intros x n; by rewrite Hnm', Hnm]. unfold rename_same.
  fs_ret (dentry_name_run w old _ (proj1 (at_hashed _ _ _ _ Ho))). fs_ret (dentry_name_run w new _ (proj1 (at_hashed _ _ _ _ Hn))).
  rewrite !at_name. fs_ret (as_directory_run w dir _ _ (at_inode _ _ _ _ Ho) (at_kind _ _ _ _ Ho)). fold l. rewrite Hidx. by fs_ret Hrun.
Qed.

Lemma wrap64_idem x : wrap64 (wrap64 x) = wrap64 x.
Proof. apply wrap64_small, wrap64_range. Qed.

(** The directories of a rename into a name that is free in another directory. *)
Lemma cross_step w dir1 dir2 i1 i2 l1 l2 on nn oi p q :
  inodes_ok w -> dir1 <> dir2 -> ns_inodes w !! dir1 = Some i1 -> i_kind i1 = KDirectory l1 -> l1 = p ++ (on, oi) :: q ->
  on ∉ p.*1 -> on ∉ q.*1 -> NoDup (p ++ q).*1 ->
  ns_inodes w !! dir2 = Some i2 -> i_kind i2 = KDirectory l2 -> nn ∉ l2.*1 ->
  let w' := put_dir (put_dir w dir1 (set_entries i1 (p ++ q) (i_size i1 - 1))) dir2 (set_entries i2 (l2 ++ [(nn, oi)]) (i_size i2 + 1)) in
  inode_step w w' /\ forall x n, names w' x n = set_name (set_name (names w) dir1 on None) dir2 nn (Some oi) x n.
Proof.
  intros Hin Hne E1 K1 -> Hp Hq Hpq E2 K2 Hnn w'. destruct (Hin dir1 i1 E1) as [Hi1 _], (Hin dir2 i2 E2) as [Hi2 _]. split.
  - apply (inode_step_trans w (put_dir w dir1 (set_entries i1 (p ++ q) (i_size i1 - 1)))).
    { eapply put_dir_step; [done..|]. by apply (del_entry_ok i1 p q on oi). }
    eapply put_dir_step; [|by simpl; rewrite lookup_insert_ne|done..|by apply add_entry_ok].
    apply put_dir_inodes; [done..|by apply (del_entry_ok i1 p q on oi)].
  - intros x n. unfold w'. rewrite (names_put_dir _ _ _ (l2 ++ [(nn, oi)])), (names_put_dir _ _ _ (p ++ q)) by done. unfold set_name.
    destruct (decide (x = dir2)) as [->|H2].
    + rewrite list_to_map_snoc by done. destruct (decide (n = nn)) as [->|Hn]; [by rewrite lookup_insert_eq, decide_True|].
      rewrite lookup_insert_ne by done. rewrite (decide_False (P := dir2 = dir2 /\ n = nn)) by tauto.
      rewrite decide_False by (intros [? _]; congruence). symmetry. by apply names_dir with i2.
    + rewrite (decide_False (P := x = dir2 /\ n = nn)) by tauto. destruct (decide (x = dir1)) as [->|H1]; [|by rewrite decide_False by tauto].
      rewrite (map_remove p q on oi) by done. destruct (decide (n = on)) as [->|Hn]; [by rewrite decide_True|]. rewrite decide_False by tauto.
      symmetry. by apply names_dir with i1.
Qed.

Lemma rename_cross_ok w old new dir1 dir2 on nn oi fl (Ho : At w old dir1 on) (Hn : At w new dir2 nn) :
  ns_ok addr w -> old <> new -> dir1 <> dir2 -> d_data (at_e _ _ _ _ Ho) = Some (oi, fl) -> names w dir2 nn = None ->
  exists w', rename_cross addr dir1 dir2 old new oi (fst <$> d_data (at_e _ _ _ _ Hn)) w = (w', Ret tt) /\ ns_ok addr w' /\
    forall x n, names w' x n = set_name (set_name (names w) dir1 on None) dir2 nn (Some oi) x n.
Proof.
  intros Hok Hne Hdir Hd Hnone. pose proof (no_inodes _ w Hok) as Hin.
  pose proof (at_names w old dir1 on Ho Hok) as Hon. rewrite Hd in Hon. simpl in Hon. pose proof (at_names w new dir2 nn Hn Hok) as Hnew.
  assert (d_data (at_e _ _ _ _ Hn) = None) as Hdn by (rewrite Hnone in Hnew; by destruct (d_data (at_e _ _ _ _ Hn))).
  pose proof (at_inode _ _ _ _ Ho) as E1. pose proof (at_kind _ _ _ _ Ho) as K1. pose proof (at_inode _ _ _ _ Hn) as E2. pose proof (at_kind _ _ _ _ Hn) as K2.
  set (i1 := at_i _ _ _ _ Ho) in *. set (l1 := at_l _ _ _ _ Ho) in *. set (i2 := at_i _ _ _ _ Hn) in *. set (l2 := at_l _ _ _ _ Hn) in *.
  destruct (inode_ok_dir w dir1 i1 l1 Hin E1 K1) as [_ Hnd]. apply (names_in w dir1 i1 l1 on oi Hin E1 K1) in Hon.
  destruct (split_entry l1 on oi Hnd Hon) as (p & q & El & Hp & Hq & Hpq).
  assert (nn ∉ l2.*1) as Hnn.
  { intros ([m c] & Hm & Hmin)%list_elem_of_fmap. simpl in Hm. subst m. apply (names_in w dir2 i2 l2 nn c Hin E2 K2) in Hmin. congruence. }
  destruct (cross_step w dir1 dir2 i1 i2 l1 l2 on nn oi p q Hin Hdir E1 K1 El Hp Hq Hpq E2 K2 Hnn) as [Hst Hnm].
  destruct (exchange_ok w _ old new dir1 dir2 on nn oi fl Ho Hn Hok Hne Hd Hst Hnm) as [_ (w' & Hx & Hok' & Hnm')]; [done|].
  exists w'. split_and!; [|done|intros x n; by rewrite Hnm', Hnm].
  assert (mode_is_dir (i_mode i2) = true) as Hmode by (destruct (Hin dir2 i2 E2) as [Hi _]; unfold inode_ok in Hi; rewrite K2 in Hi; apply Hi).
  unfold rename_cross. rewrite Hdn. fs_ret (as_directory_run w dir1 i1 l1 E1 K1). fs_ret (get_inode_run w dir2 i2 E2). fs_ret (assert_run _ w Hmode).
  rewrite K2. fs_ret (lift_run (Ret l2) w). fs_ret (dentry_name_run w old _ (proj1 (at_hashed _ _ _ _ Ho))).
  fs_ret (dentry_name_run w new _ (proj1 (at_hashed _ _ _ _ Hn))). rewrite !at_name, El, entry_position_middle by done.
  fs_ret (lift_run (Ret (length p)) w). simpl. rewrite entry_position_none. set (w1 := put_dir w dir2 (set_entries i2 l2 (i_size i2 + 1))).
  fs_ret (eq_refl : put_inode dir2 _ w = (w1, Ret tt)).
  assert (ns_inodes w1 !! dir1 = Some i1) as E11 by (unfold w1; simpl; by rewrite lookup_insert_ne).
  fs_ret (get_inode_run w1 dir1 i1 E11). rewrite remove_at_app. set (w2 := put_dir w1 dir1 (set_entries i1 (p ++ q) (i_size i1 - 1))).
  fs_ret (eq_refl : put_inode dir1 _ w1 = (w2, Ret tt)).
  assert (ns_inodes w2 !! dir2 = Some (set_entries i2 l2 (i_size i2 + 1))) as E22
    by (unfold w2, w1; simpl; rewrite lookup_insert_ne by done; apply lookup_insert_eq).
  fs_ret (get_inode_run w2 dir2 _ E22). fs_ret (lift_run (Ret l2) w2).
  erewrite fs_bind_ret; [exact Hx|]. unfold put_inode, put_dir, w2, w1, set_inodes. simpl. unfold set_entries at 1. simpl. rewrite wrap64_idem.
  do 2 f_equal. rewrite (insert_insert_ne _ dir1 dir2) by done. by rewrite insert_insert_eq.
Qed.

End Ops.
