(* ===== verification/DentrySys.v ===== *)
(** * The name space as a whole

    The operations of Dentry.v refine the reference of DentryOps.v, and a walk
    along a path finds what the directories list. *)

From S2P Require Import Prelude OpenFlags Mode Path Dentry DentryCache DentryInv DentryRename DentryOps.

Section System.
Context (addr : nat -> Z).

(** ** One operation *)

(** An entry in the cache, below a directory. *)
Definition name_entry_ok (w : NameSys) (d : nat) : Prop := (exists e, hashed w d e) /\ is_Some (place w d).

Definition place_of (w : NameSys) (d : nat) : Place := default (0, []) (place w d).

Definition name_at (w : NameSys) (d : nat) : option Z := names w (place_of w d).1 (place_of w d).2.

(** When an operation may run: inode numbers are left; a removed inode is not
    locked already; what a rename replaces is in the same directory, and neither
    inode has the mode of a directory without any permission. *)
Definition name_op_safe (w : NameSys) (op : NameOp) : Prop :=
  match op with
  | NameMkdir d _ | NameSymlink d _ | NameMknod d _ _ | NameOpen d _ _ => name_entry_ok w d /\ 0 <= ns_next_ino w < 2 ^ 64 - 1
  | NameLink d ino => name_entry_ok w d /\ is_Some (ns_inodes w !! ino)
  | NameUnlink d => name_entry_ok w d /\ name_at w d <> Some (place_of w d).1
  | NameRename old new _ =>
      name_entry_ok w old /\ name_entry_ok w new /\
      forall f, old <> new -> name_at w new = Some f ->
        (place_of w old).1 = (place_of w new).1 /\ f <> (place_of w new).1 /\ forall oi, name_at w old = Some oi -> replaces_ok true w oi f
  end.

Lemma entry_at w d :
  ns_ok addr w -> name_entry_ok w d -> inhabited (At w d (place_of w d).1 (place_of w d).2).
Proof.
  intros Hok [He [[dir name] Hp]]. unfold place_of. rewrite Hp. by apply (place_at addr).
Qed.

Lemma create_refines w d i fl b :
  ns_ok addr w -> name_entry_ok w d -> 0 <= ns_next_ino w < 2 ^ 64 - 1 -> fresh_ok i ->
  (forall ino, flags_ok fl (i_kind (i ino)) /\ kind_is_dir (i_kind (i ino)) = b) ->
  let '(m, r) := spec_create (names w) (place_of w d) (ns_next_ino w) b in
  exists w', on_free_name d (fun dir => dir_create dir d i fl) w = (w', r) /\ ns_ok addr w' /\ forall a n, names w' a n = m a n.
Proof.
  intros Hok He Hino Hfr Hfl. destruct (entry_at w d Hok He) as [H]. unfold spec_create. rewrite (at_names addr w d _ _ H Hok), (on_free_run w d _ _ H).
  destruct (d_data (at_e _ _ _ _ H)) as [data|] eqn:Ed; simpl; [by exists w|]. by apply (dir_create_ok addr w d _ _ H).
Qed.

Lemma link_refines w d ino :
  ns_ok addr w -> name_entry_ok w d -> is_Some (ns_inodes w !! ino) ->
  let '(m, r) := spec_create (names w) (place_of w d) ino false in
  exists w', dentry_linkat d ino w = (w', r) /\ ns_ok addr w' /\ forall a n, names w' a n = m a n.
Proof.
  intros Hok He [it Et]. destruct (entry_at w d Hok He) as [H]. unfold spec_create, dentry_linkat.
  rewrite (at_names addr w d _ _ H Hok), (on_free_run w d _ _ H).
  destruct (d_data (at_e _ _ _ _ H)) as [data|] eqn:Ed; simpl; [by exists w|]. unfold dir_linkat.
  fs_ret (as_directory_run w _ _ _ (at_inode _ _ _ _ H) (at_kind _ _ _ _ H)).
  by apply (attach_at_ok addr w d _ _ H ino it D_REGULAR Hok Ed Et (flags_reg _)).
Qed.

Lemma open_refines w d flags mode :
  ns_ok addr w -> name_entry_ok w d -> 0 <= ns_next_ino w < 2 ^ 64 - 1 ->
  let '(m, r) := spec_open (names w) (place_of w d) (ns_next_ino w) flags in
  exists w', open_check d flags mode w = (w', r) /\ ns_ok addr w' /\ forall a n, names w' a n = m a n.
Proof.
  intros Hok He Hino. destruct (entry_at w d Hok He) as [H]. unfold spec_open, open_check. rewrite (at_names addr w d _ _ H Hok).
  fs_ret (get_dentry_run w d _ (proj1 (at_hashed _ _ _ _ H))). destruct (d_data (at_e _ _ _ _ H)) as [data|] eqn:Ed; simpl.
  - destruct (bf_contains flags (Z.lor O_CREAT O_EXCL)); by exists w.
  - destruct (bf_contains flags O_CREAT); simpl; [|by exists w].
    fs_ret (parent_inode_run w d _ _ _ _ (proj1 (at_hashed _ _ _ _ H)) (at_parent _ _ _ _ H) (at_dir _ _ _ _ H)).
    destruct (dir_create_ok addr w d _ _ H (fun _ => regular_inode_new mode) D_REGULAR false Hok Ed) as (w' & Hr & Hok' & Hnm); [by apply fresh_plain|done| |by exists w'].
    intros ino. split; [constructor|done].
Qed.

Lemma unlink_refines w d :
  ns_ok addr w -> name_entry_ok w d -> name_at w d <> Some (place_of w d).1 ->
  let '(m, r) := spec_unlink (names w) (place_of w d) in
  exists w', dentry_unlink d w = (w', r) /\ ns_ok addr w' /\ forall a n, names w' a n = m a n.
Proof.
  intros Hok He Hsafe. destruct (entry_at w d Hok He) as [H]. unfold spec_unlink, name_at in *. rewrite (at_names addr w d _ _ H Hok) in *.
  destruct (d_data (at_e _ _ _ _ H)) as [[file fl]|] eqn:Ed; simpl in *.
  - apply (dentry_unlink_ok addr w d _ _ H file fl Hok Ed). congruence.
  - exists w. split_and!; [|done..]. unfold dentry_unlink. fs_ret (get_dentry_run w d _ (proj1 (at_hashed _ _ _ _ H))). by rewrite Ed.
Qed.

Lemma rename_refines w old new flags :
  ns_ok addr w -> name_op_safe w (NameRename old new flags) -> old <> new ->
  let '(m, r) := spec_rename (names w) (place_of w old) (place_of w new) flags in
  exists w', dentry_rename addr old new flags w = (w', r) /\ ns_ok addr w' /\ forall a n, names w' a n = m a n.
Proof.
  intros Hok (Heo & Hen & Hsafe) Hne. destruct (entry_at w old Hok Heo) as [Ho], (entry_at w new Hok Hen) as [Hn]. specialize (fun f => Hsafe f Hne).
  unfold name_at in Hsafe. set (p := place_of w old) in *. set (q := place_of w new) in *.
  pose proof (at_names addr w old _ _ Ho Hok) as Hno. pose proof (at_names addr w new _ _ Hn Hok) as Hnn.
  unfold spec_rename, dentry_rename. rewrite (proj2 (Nat.eqb_neq old new) Hne).
  fs_ret (parent_inode_run w old _ _ _ _ (proj1 (at_hashed _ _ _ _ Ho)) (at_parent _ _ _ _ Ho) (at_dir _ _ _ _ Ho)).
  fs_ret (parent_inode_run w new _ _ _ _ (proj1 (at_hashed _ _ _ _ Hn)) (at_parent _ _ _ _ Hn) (at_dir _ _ _ _ Hn)).
  unfold dir_rename. fs_ret (as_directory_run w _ _ _ (at_inode _ _ _ _ Ho) (at_kind _ _ _ _ Ho)).
  destruct (bf_contains flags RENAME_EXCHANGE); [by exists w|]. rewrite Hno, Hnn.
  destruct (d_data (at_e _ _ _ _ Ho)) as [[oi fl]|] eqn:Ed; simpl.
  2:{ exists w. split_and!; try done. unfold dentry_get_inode. erewrite fs_bind_err; [done|]. by fs_ret (get_dentry_run w old _ (proj1 (at_hashed _ _ _ _ Ho))); rewrite Ed. }
  fs_ret (dentry_get_inode_run w old _ oi fl (proj1 (at_hashed _ _ _ _ Ho)) Ed). fs_ret (get_dentry_run w new _ (proj1 (at_hashed _ _ _ _ Hn))).
  destruct (bf_contains flags RENAME_NOREPLACE && _) eqn:Enr; [by exists w|]. destruct (Z.eqb_spec p.1 q.1) as [Hdir|Hdir].
  - assert (At w new p.1 q.2) as Hn' by (by rewrite Hdir).
    assert (at_e _ _ _ _ Hn' = at_e _ _ _ _ Hn) as He by (apply (hashed_inj w new); apply at_hashed).
    rewrite <- He. rewrite <- Hdir in Hsafe |- *. apply (rename_same_ok addr w old new p.1 p.2 q.2 oi fl Ho Hn' Hok Hne Ed).
    intros f Hf. destruct (Hsafe f Hf) as (_ & ? & Hr). split; [done|]. apply Hr. by rewrite Hno.
  - apply (rename_cross_ok addr w old new p.1 q.1 p.2 q.2 oi fl Ho Hn Hok Hne Hdir Ed).
    destruct (names w q.1 q.2) as [f|] eqn:Ef; [|done]. by destruct (Hsafe f eq_refl) as [? _].
Qed.

(** Each operation is one step of the reference, with its result. *)
Lemma name_op_refines w op :
  ns_ok addr w -> name_op_safe w op ->
  let '(m, r) := spec_op (names w) (ns_next_ino w) (place_of w) op in
  exists w', name_op addr op w = (w', r) /\ ns_ok addr w' /\ forall a n, names w' a n = m a n.
Proof.
  intros Hok Hsafe. destruct op as [d mode|d target|d mode dev|d ino|d flags mode|d|old new flags]; cbn [name_op spec_op name_op_safe] in *.
  - destruct Hsafe as [He Hi]. apply create_refines; try done; [apply fresh_directory|]. intros ino. split; [constructor|done].
  - destruct Hsafe as [He Hi]. apply create_refines; try done. intros ino. split; [constructor|done].
  - destruct Hsafe as [He Hi]. pose proof (create_refines w d (fun _ => node_inode_new mode dev) D_REGULAR false Hok He Hi) as Hc.
    unfold dentry_mknod, dir_mknod. destruct (entry_at w d Hok He) as [H]. unfold spec_create in *. rewrite (at_names addr w d _ _ H Hok), !(on_free_run w d _ _ H) in *.
    destruct (d_data (at_e _ _ _ _ H)) as [data|] eqn:Ed; simpl in *; [by exists w|]. destruct (negb (mode_is_chr mode) && negb (mode_is_blk mode)).
    + exists w. split_and!; try done. by fs_ret (as_directory_run w _ _ _ (at_inode _ _ _ _ H) (at_kind _ _ _ _ H)).
    + apply Hc; [by apply fresh_plain|]. intros ino. split; [constructor|done].
  - destruct Hsafe. by apply link_refines.
  - destruct Hsafe. by apply open_refines.
  - destruct Hsafe. by apply unlink_refines.
  - destruct (Nat.eqb_spec old new) as [->|Hne]; [|by apply rename_refines]. exists w. unfold dentry_rename. by rewrite Nat.eqb_refl.
Qed.

(** ** Looking a name up *)

(** Walking adds entries without an inode, and changes nothing else. *)
Record ns_ext (w w' : NameSys) : Prop := mkNsExt {
  nx_ok : ns_ok addr w';
  nx_inodes : ns_inodes w' = ns_inodes w;
  nx_next_ino : ns_next_ino w' = ns_next_ino w;
  nx_old d e : ns_dentries w !! d = Some e -> ns_dentries w' !! d = Some e;
  nx_new d e : ns_dentries w' !! d = Some e -> ns_dentries w !! d = Some e \/ d_data e = None;
  nx_hashed d e : hashed w d e -> hashed w' d e
}.

Lemma ns_ext_refl w : ns_ok addr w -> ns_ext w w.
Proof. split; auto. Qed.
Lemma ns_ext_trans w1 w2 w3 : ns_ext w1 w2 -> ns_ext w2 w3 -> ns_ext w1 w3.
Proof.
  intros [O1 I1 N1 A1 B1 C1] [O2 I2 N2 A2 B2 C2]. split; [done|congruence|congruence|auto| |auto].
  intros d e [E|?]%B2; [|by right]. by apply B1.
Qed.

Lemma ns_ext_names w w' a n : ns_ext w w' -> names w' a n = names w a n.
Proof. intros H. unfold names. by rewrite (nx_inodes w w' H). Qed.

(** A negative entry for a name that the cache does not know. *)
Definition negative_state (w : NameSys) (d : nat) (name : list Z) : NameSys :=
  add_state (fst (dentry_create addr d name w)) (ns_next w) (mkDentry d name (dentry_hash addr d name) None).

Lemma negative_ok w d e ino name :
  ns_ok addr w -> ns_dentries w !! d = Some e -> d_data e = Some (ino, D_DIRECTORY) -> name <> [DOT] ->
  d_find_fast addr w d name = None ->
  let w' := negative_state w d name in
  ns_ext w w' /\ hashed w' (ns_next w) (mkDentry d name (dentry_hash addr d name) None).
Proof.
  intros Hok E Hd Hdot Hnf w'. set (c := ns_next w). set (ec := mkDentry d name (dentry_hash addr d name) None).
  assert (ns_dentries w !! c = None) as Hc.
  { destruct (ns_dentries w !! c) as [x|] eqn:Ex; [|done]. destruct (no_live _ w Hok c x Ex) as [? _]. unfold c in *. lia. }
  destruct (create_cache_ok addr w d name (no_cache _ w Hok) Hc) as (Hc1 & Hu1 & Hh1). set (w1 := fst (dentry_create addr d name w)) in *.
  assert (ns_dentries w1 !! c = Some ec) as Ec by apply lookup_insert_eq.
  assert (forall x ex, hashed w' x ex <-> (x = c /\ ex = ec) \/ hashed w x ex) as Hh.
  { intros x ex. unfold w', negative_state. fold w1. rewrite add_hashed by done. by rewrite Hh1. }
  assert (forall x ex, ns_dentries w !! x = Some ex -> ns_dentries w' !! x = Some ex) as Hold.
  { intros x ex Ex. unfold w'. simpl. rewrite lookup_insert_ne; [done|]. intros <-. unfold c in *. congruence. }
  assert (forall x ex, ns_dentries w' !! x = Some ex -> (x = c /\ ex = ec) \/ ns_dentries w !! x = Some ex) as Hnew.
  { intros x ex. unfold w'. simpl. intros [[<- <-]|[_ Ex]]%lookup_insert_Some; [by left|by right]. }
  assert (forall pd n b, cached w' pd n b <-> cached w pd n b) as Hcd.
  { intros pd n b. split; intros (x & ex & fl & Hx & H & Hn & Hdt); exists x, ex, fl; (split; [|done]).
    - apply Hh in Hx as [[_ ->]|Hx]; [done|done].
    - apply Hh. by right. }
  split; [|apply Hh; by left]. split; try done.
  2:{ intros x ex [[_ ->]|Ex]%Hnew; [by right|by left]. }
  2:{ intros x ex Hx. apply Hh. by right. }
  split.
  - apply add_cache_ok; [done..|]. intros x ex Hx%Hh1. exact (find_fast_none addr w d name (no_cache _ w Hok) Hnf x ex Hx).
  - intros x ex [[-> ->]|Ex]%Hnew.
    + split; [simpl; unfold c; lia|]. simpl. exists e. by apply Hold.
    + destruct (no_live _ w Hok x ex Ex) as [Hx [px Hpx]]. split; [simpl; lia|]. exists px. by apply Hold.
  - intros x ex a fl [[-> ->]|Ex]%Hnew Hdt; [done|]. by apply (no_data _ w Hok x ex).
  - intros d1 d2 e1 e2 a [[-> ->]|E1]%Hnew [[-> ->]|E2]%Hnew Hd1 Hd2; try done. by apply (no_onedir _ w Hok d1 d2 e1 e2 a).
  - intros x ex [[-> ->]|Hx]%Hh.
    + exists e. split; [by apply Hold|]. left. split; [by exists ino|done].
    + destruct (no_parent _ w Hok x ex Hx) as (pe & Epe & Hpe). exists pe. split; [by apply Hold|]. destruct Hpe as [?|[? Hu]]; [by left|right].
      split; [done|]. intros ey [[Hy ->]|Hy]%Hh; [|by apply (Hu ey)]. rewrite Hy in Epe. congruence.
  - apply (no_inodes _ w Hok).
  - intros pd pe a n b [[-> ->]|Epd]%Hnew Hpd Hn; [done|]. rewrite Hcd. by apply (no_names _ w Hok pd pe a n b).
Qed.

(** Nothing in a tmpfs implements [lookup]. *)
Lemma revalidate_run w c ec pe ino i :
  ns_dentries w !! c = Some ec -> ns_dentries w !! d_parent ec = Some pe -> d_data pe = Some (ino, D_DIRECTORY) -> ns_inodes w !! ino = Some i ->
  d_try_revalidate c w = (w, Ret tt).
Proof.
  intros Ec Ep Hp Ei. unfold d_try_revalidate. fs_ret (get_dentry_run w c ec Ec). fs_ret (dentry_get_inode_run w _ pe ino _ Ep Hp).
  erewrite fs_bind_err; [done|]. unfold inode_lookup. by fs_ret (get_inode_run w ino i Ei).
Qed.

Lemma dentry_find_ok w d e ino name :
  ns_ok addr w -> ns_dentries w !! d = Some e -> d_data e = Some (ino, D_DIRECTORY) -> name <> [DOT] -> name <> [DOT; DOT] ->
  exists w' c ec, dentry_find addr d name w = (w', Ret c) /\ ns_ext w w' /\ hashed w' c ec /\ d_parent ec = d /\ d_name ec = name /\
    fst <$> d_data ec = names w ino name.
Proof.
  intros Hok E Hd Hn1 Hn2. assert (exists w' c ec, dentry_find addr d name w = (w', Ret c) /\ ns_ext w w' /\ hashed w' c ec /\ d_parent ec = d /\ d_name ec = name)
    as (w' & c & ec & Hr & Hx & Hc & Hp & Hn).
  { unfold dentry_find. fs_ret (get_dentry_run w d e E). rewrite Hd. fs_ret (lift_run (Ret (ino, D_DIRECTORY)) w). simpl.
    rewrite !bool_decide_eq_false_2 by done. fs_ret (get_state_run w). destruct (d_find_fast addr w d name) as [c|] eqn:Ef.
    - apply (find_fast_spec addr w d name c (no_cache _ w Hok)) in Ef as (ec & Hc & Hp & Hn). exists w, c, ec. split_and!; try done. by apply ns_ext_refl.
    - destruct (negative_ok w d e ino name Hok E Hd Hn1 Ef) as [Hx Hc]. set (ec := mkDentry d name (dentry_hash addr d name) None) in *.
      exists (negative_state w d name), (ns_next w), ec. split_and!; try done. set (w1 := fst (dentry_create addr d name w)).
      fs_ret (eq_refl : dentry_create addr d name w = (w1, Ret (ns_next w))).
      assert (ns_dentries w1 !! ns_next w = Some ec) as Ec by apply lookup_insert_eq.
      assert (ns_dentries w1 !! d = Some e) as E1 by apply (nx_old w _ Hx d e E).
      destruct (no_data _ w Hok d e ino _ E Hd) as (i & Ei & _).
      fs_ret (revalidate_run w1 (ns_next w) ec e ino i Ec E1 Hd Ei). by fs_ret (d_add_run w1 (ns_next w) ec Ec). }
  exists w', c, ec. split_and!; try done. rewrite <- (ns_ext_names w w' ino name Hx). symmetry. apply (place_names addr w' c ec); [apply (nx_ok w w' Hx)|done|].
  unfold place. rewrite (proj1 Hc). cbn [mbind option_bind]. rewrite Hp, (nx_old w w' Hx d e E). cbn [mbind option_bind]. rewrite Hd. simpl. by rewrite Hn.
Qed.

End System.
