(* ===== verification/DentryWalk.v ===== *)
(** * Walking a path

    [open_at] with its symbolic links returns for every path, keeps the name
    space, and never panics; where there are no symbolic links it finds what
    following the names through the directories gives. *)

From S2P Require Import Prelude OpenFlags Mode Path Dentry DentryCache DentryInv DentryRename DentryOps DentrySys.

(** ** The reference: follow the names *)

(** [dirp] tells directories; a name that is not there may only be the last one. *)
Fixpoint spec_walk (m : NameMap) (dirp : Z -> bool) (cur : option Z) (ns : list (list Z)) : outcome (option Z) :=
  match ns with
  | [] => Ret cur
  | n :: ns =>
      match cur with
      | None => Err ENOENT
      | Some c => if dirp c then spec_walk m dirp (m c n) ns else Err ENOTDIR
      end
  end.

Definition inode_is_dir (w : NameSys) (ino : Z) : bool :=
  match ns_inodes w !! ino with Some i => kind_is_dir (i_kind i) | None => false end.

Definition proper_name (n : list Z) : Prop := n <> [DOT] /\ n <> [DOT; DOT].

Section Walk.
Context (addr : nat -> Z) (fsroot : nat).

Definition live (w : NameSys) (d : nat) : Prop := is_Some (ns_dentries w !! d).

Lemma live_ext w w' d : ns_ext addr w w' -> live w d -> live w' d.
Proof. intros H [e E]. exists e. by apply (nx_old _ _ _ H). Qed.

(** It returns, with an entry or an error, and only adds entries without an inode. *)
Definition walk_ok (c : fsop nat) (w : NameSys) : Prop :=
  exists w' r, c w = (w', r) /\ ns_ext addr w w' /\ match r with Ret d => live w' d | Err _ => True | Panic => False end.

Lemma walk_ok_bind m k w :
  walk_ok m w -> (forall w' d, ns_ext addr w w' -> live w' d -> walk_ok (k d) w') -> walk_ok (d ← m; k d) w.
Proof.
  intros (w1 & r & Hm & Hx & Hr) Hk. destruct r as [d|e|]; [|exists w1, (Err e); by rewrite (fs_bind_err _ _ _ _ _ Hm)|done].
  destruct (Hk w1 d Hx Hr) as (w2 & r2 & Hk2 & Hx2 & Hr2). exists w2, r2. rewrite (fs_bind_ret _ _ _ _ _ Hm). split_and!; try done. by eapply ns_ext_trans.
Qed.

Lemma walk_ok_ret d w : ns_ok addr w -> live w d -> walk_ok (mret d) w.
Proof. intros Hok Hd. exists w, (Ret d). split_and!; try done. by apply ns_ext_refl. Qed.

Lemma walk_ok_fail e w : ns_ok addr w -> walk_ok (fail e) w.
Proof. intros Hok. exists w, (Err e). split_and!; try done. by apply ns_ext_refl. Qed.

(** A computation that reads the state and may fail. *)
Lemma walk_ok_read {A} (m : fsop A) (k : A -> fsop nat) w (o : outcome A) :
  ns_ok addr w -> m w = (w, o) -> o <> Panic -> (forall a, o = Ret a -> walk_ok (k a) w) -> walk_ok (a ← m; k a) w.
Proof.
  intros Hok Hm Hp Hk. destruct o as [a|e|]; [|exists w, (Err e); rewrite (fs_bind_err _ _ _ _ _ Hm); split_and!; [done|by apply ns_ext_refl|done]|done].
  destruct (Hk a eq_refl) as (w' & r & H). exists w', r. by rewrite (fs_bind_ret _ _ _ _ _ Hm).
Qed.

Lemma flags_cases w d e ino fl :
  ns_ok addr w -> ns_dentries w !! d = Some e -> d_data e = Some (ino, fl) ->
  exists i, ns_inodes w !! ino = Some i /\
    ((fl = D_DIRECTORY /\ exists l, i_kind i = KDirectory l) \/ (fl = D_SYMLINK /\ exists t, i_kind i = KSymlink t) \/ fl = D_REGULAR).
Proof.
  intros Hok E Hd. destruct (no_data _ w Hok d e ino fl E Hd) as (i & Ei & Hfl). exists i. split; [done|].
  inversion Hfl; [left|right; left|right; right]; eauto.
Qed.

Lemma find_walk_ok w d name : ns_ok addr w -> live w d -> walk_ok (dentry_find addr d name) w.
Proof.
  intros Hok [e E]. destruct (decide (name = [DOT])) as [->|H1]; [|destruct (decide (name = [DOT; DOT])) as [->|H2]].
  - unfold dentry_find. eapply walk_ok_read; [done|by apply get_dentry_run|done|intros _ [= <-]].
    eapply walk_ok_read; [done|apply lift_run|by destruct (d_data e)|]. intros [ino fl] _. case_match; [by apply walk_ok_fail|].
    simpl. apply walk_ok_ret; [done|by exists e].
  - unfold dentry_find. eapply walk_ok_read; [done|by apply get_dentry_run|done|intros _ [= <-]].
    eapply walk_ok_read; [done|apply lift_run|by destruct (d_data e)|]. intros [ino fl] _. case_match; [by apply walk_ok_fail|].
    simpl. apply walk_ok_ret; [done|]. apply (no_live _ w Hok d e E).
  - destruct (d_data e) as [[ino fl]|] eqn:Ed.
    + destruct (flags_cases w d e ino fl Hok E Ed) as (i & Ei & [[-> _]|Hfl]).
      * destruct (dentry_find_ok addr w d e ino name Hok E Ed H1 H2) as (w' & c & ec & Hr & Hx & [Hc _] & _). exists w', (Ret c).
        split_and!; try done. by exists ec.
      * unfold dentry_find. eapply walk_ok_read; [done|by apply get_dentry_run|done|intros _ [= <-]]. rewrite Ed.
        eapply walk_ok_read; [done|apply lift_run|done|]. intros _ [= <-]. simpl.
        destruct Hfl as [[-> _]| ->]; simpl; by apply walk_ok_fail.
    + unfold dentry_find. eapply walk_ok_read; [done|by apply get_dentry_run|done|intros _ [= <-]]. rewrite Ed.
      eapply walk_ok_read; [done|apply lift_run|done|]. done.
Qed.

Definition open_safe (opn : nat -> list Z -> bool -> fsop nat) : Prop :=
  forall w cwd path follow, ns_ok addr w -> live w cwd -> live w fsroot -> walk_ok (opn cwd path follow) w.
Definition resolve_safe (res : nat -> fsop nat) : Prop :=
  forall w d, ns_ok addr w -> live w d -> live w fsroot -> walk_ok (res d) w.

Lemma link_path_run w ino i t : ns_inodes w !! ino = Some i -> i_kind i = KSymlink t -> link_path ino w = (w, path_new (take 256 t)).
Proof.
  intros Ei Ek. unfold link_path. erewrite fs_bind_ret; [by apply lift_run|]. unfold inode_readlink. fs_ret (get_inode_run w ino i Ei). by rewrite Ek.
Qed.

Lemma path_new_no_panic p : path_new p <> Panic.
Proof. unfold path_new. by repeat case_match. Qed.

Lemma resolve_body_safe opn res : open_safe opn -> resolve_safe res -> resolve_safe (resolve_body opn res).
Proof.
  intros Ho Hr w d Hok [e E] Hroot. unfold resolve_body. eapply walk_ok_read; [done|by apply get_dentry_run|done|intros _ [= <-]].
  eapply walk_ok_read; [done|apply lift_run|by destruct (d_data e)|]. intros [ino fl] Hd. assert (d_data e = Some (ino, fl)) as Ed by (destruct (d_data e); naive_solver).
  destruct (flags_cases w d e ino fl Hok E Ed) as (i & Ei & [[-> _]|[[-> [t Ht]]| ->]]); simpl.
  - apply walk_ok_ret; [done|by exists e].
  - eapply walk_ok_read; [done|by apply (link_path_run w ino i t)|apply path_new_no_panic|]. intros path _.
    apply walk_ok_bind; [apply Ho; [done|apply (no_live _ w Hok d e E)|done]|]. intros w' d' Hx Hd'. apply Hr; [apply (nx_ok _ _ _ Hx)|done|]. by eapply live_ext.
  - by apply walk_ok_fail.
Qed.

Lemma walk_item_safe res w cwd item : resolve_safe res -> ns_ok addr w -> live w cwd -> live w fsroot -> walk_ok (walk_item addr fsroot res cwd item) w.
Proof.
  intros Hr Hok Hc Hroot. unfold walk_item. apply walk_ok_bind; [by apply Hr|]. intros w1 d Hx Hd. pose proof (nx_ok _ _ _ Hx) as Hok1.
  pose proof (live_ext _ _ _ Hx Hroot) as Hroot1. destruct item as [name| | |].
  - by apply find_walk_ok.
  - by apply walk_ok_ret.
  - by apply walk_ok_ret.
  - destruct Hd as [e E], Hroot1 as [r Er]. eapply walk_ok_read; [done|by apply get_dentry_run|done|intros _ [= <-]].
    eapply walk_ok_read; [done|by apply get_dentry_run|done|intros _ [= <-]]. case_match; [apply walk_ok_ret; [done|by exists e]|].
    apply Hr; [done|apply (no_live _ w1 Hok1 d e E)|by exists r].
Qed.

Lemma walk_items_safe res items w cwd : resolve_safe res -> ns_ok addr w -> live w cwd -> live w fsroot -> walk_ok (walk_items addr fsroot res cwd items) w.
Proof.
  intros Hr. revert w cwd. induction items as [|item items IH]; intros w cwd Hok Hc Hroot; cbn [walk_items]; [by apply walk_ok_ret|].
  destruct Hc as [e E]. eapply walk_ok_read; [done|by apply get_dentry_run|done|intros _ [= <-]]. case_match; [apply walk_ok_ret; [done|by exists e]|].
  apply walk_ok_bind; [apply walk_item_safe; [done..|by exists e|done]|]. intros w' d Hx Hd. apply IH; [apply (nx_ok _ _ _ Hx)|done|]. by eapply live_ext.
Qed.

Lemma path_iter_total p : exists items, path_iter p = Some items.
Proof. unfold path_iter. rewrite path_items_spec by done. eauto. Qed.

Lemma open_body_safe res opn : resolve_safe res -> open_safe opn -> open_safe (open_body addr fsroot res opn).
Proof.
  intros Hr Ho w cwd path follow Hok Hc Hroot. unfold open_body. destruct (path_iter_total path) as [items ->].
  eapply walk_ok_read; [done|apply lift_run|done|intros _ [= <-]].
  apply walk_ok_bind; [apply walk_items_safe; [done..|by destruct (is_absolute path)|done]|]. intros w1 d Hx [e E]. pose proof (nx_ok _ _ _ Hx) as Hok1.
  eapply walk_ok_read; [done|by apply get_dentry_run|done|intros _ [= <-]]. destruct (d_data e) as [[ino fl]|] eqn:Ed; [|apply walk_ok_ret; [done|by exists e]].
  destruct (follow && _) eqn:Ef; [|apply walk_ok_ret; [done|by exists e]]. apply andb_true_iff in Ef as [_ Ef].
  destruct (flags_cases w1 d e ino fl Hok1 E Ed) as (i & Ei & [[-> _]|[[-> [t Ht]]| ->]]); [done| |done].
  eapply walk_ok_read; [done|by apply (link_path_run w1 ino i t)|apply path_new_no_panic|]. intros p _.
  apply Ho; [done|apply (no_live _ w1 Hok1 d e E)|by eapply live_ext].
Qed.

Lemma walk_fns_S n :
  walk_fns addr fsroot (S n) =
    (open_body addr fsroot (resolve_body (walk_fns addr fsroot n).1 (walk_fns addr fsroot n).2) (walk_fns addr fsroot n).1,
     resolve_body (walk_fns addr fsroot n).1 (walk_fns addr fsroot n).2).
Proof. reflexivity. Qed.

Lemma walk_fns_safe n : open_safe (walk_fns addr fsroot n).1 /\ resolve_safe (walk_fns addr fsroot n).2.
Proof.
  induction n as [|n [IHo IHr]]; simpl.
  - split; [intros w cwd p f Hok _ _|intros w d Hok _ _]; by apply walk_ok_fail.
  - split; [apply open_body_safe; [|done]|]; by apply resolve_body_safe.
Qed.

Lemma open_at_walk w at_ path follow :
  ns_ok addr w -> live w at_ -> live w fsroot -> walk_ok (dentry_open_at addr fsroot at_ path follow) w.
Proof. intros Hok Ha Hr. exact (proj1 (walk_fns_safe 16) w at_ path follow Hok Ha Hr). Qed.

(** C20: Walking a path is safe: for every path and every tree of the invariant,
    with whatever symbolic links (cyclic ones included), [open_at] returns an
    entry or an error within the 16 levels of the code, never panics, and
    changes nothing but adding entries without an inode to the cache. *)
Theorem open_at_safe w at_ path follow :
  ns_ok addr w -> live w at_ -> live w fsroot ->
  exists w' r, dentry_open_at addr fsroot at_ path follow w = (w', r) /\ ns_ext addr w w' /\
    match r with Ret d => live w' d | Err _ => True | Panic => False end.
Proof. apply open_at_walk. Qed.

(** ** The states that are reached *)

Inductive ns_step : NameSys -> NameSys -> Prop :=
| step_op op w w' r : name_op_safe w op -> name_op addr op w = (w', r) -> ns_step w w'
| step_walk at_ path follow w w' r :
    live w at_ -> live w fsroot -> dentry_open_at addr fsroot at_ path follow w = (w', r) -> ns_step w w'.

Lemma step_op_fst op w : name_op_safe w op -> ns_step w (fst (name_op addr op w)).
Proof. intros Hs. destruct (name_op addr op w) as [w' r] eqn:E. exact (step_op op w w' r Hs E). Qed.

Lemma step_walk_fst at_ path follow w : live w at_ -> live w fsroot -> ns_step w (fst (dentry_open_at addr fsroot at_ path follow w)).
Proof. intros Ha Hf. destruct (dentry_open_at addr fsroot at_ path follow w) as [w' r] eqn:E. exact (step_walk at_ path follow w w' r Ha Hf E). Qed.

Definition ns_reachable (w : NameSys) : Prop := rtc ns_step (ns_init addr) w.

Lemma step_keeps w w' : ns_step w w' -> ns_ok addr w -> ns_ok addr w'.
Proof.
  intros [op w0 w1 r Hs Hr|at_ path follow w0 w1 r Ha Hf Hr] Hok.
  - pose proof (name_op_refines addr w0 op Hok Hs) as H. destruct (spec_op _ _ _ _) as [m r']. destruct H as (w2 & Hr2 & Hok2 & _). congruence.
  - destruct (open_at_walk w0 at_ path follow Hok Ha Hf) as (w2 & r2 & Hr2 & Hx & _). assert (w2 = w1) as <- by congruence. apply (nx_ok _ _ _ Hx).
Qed.

Lemma reachable_ok w : ns_reachable w -> ns_ok addr w.
Proof.
  intros Hr. assert (forall w0, rtc ns_step w0 w -> ns_ok addr w0 -> ns_ok addr w) as H; [|exact (H _ Hr (ns_init_ok addr))].
  clear Hr. intros w0. induction 1 as [|w1 w2 w3 Hs _ IH]; [done|]. intros Hok. by apply IH, (step_keeps w1).
Qed.




(** ** Without symbolic links *)

(** No symbolic links, and no directory with a second name. *)
Definition plain_tree (w : NameSys) : Prop :=
  forall d e ino fl, ns_dentries w !! d = Some e -> d_data e = Some (ino, fl) -> fl = D_DIRECTORY \/ fl = D_REGULAR /\ inode_is_dir w ino = false.

Lemma plain_ext w w' : ns_ext addr w w' -> plain_tree w -> plain_tree w'.
Proof.
  intros Hx Hp d e ino fl E Hd. destruct (nx_new _ _ _ Hx d e E) as [E0|Hn]; [|congruence].
  unfold inode_is_dir. rewrite (nx_inodes _ _ _ Hx). by apply (Hp d e).
Qed.

Lemma resolve_plain opn res w d e :
  plain_tree w -> ns_ok addr w -> ns_dentries w !! d = Some e ->
  resolve_body opn res d w =
    (w, match d_data e with
        | None => Err ENOENT
        | Some (ino, _) => if inode_is_dir w ino then Ret d else Err ENOTDIR
        end).
Proof.
  intros Hp Hok E. unfold resolve_body. fs_ret (get_dentry_run w d e E). destruct (d_data e) as [[ino fl]|] eqn:Ed; [|done].
  fs_ret (lift_run (Ret (ino, fl)) w). destruct (Hp d e ino fl E Ed) as [->|[-> ->]]; simpl; [|done].
  destruct (flags_cases w d e ino _ Hok E Ed) as (i & Ei & [[_ [l Ek]]|[[? _]|?]]); [|done..]. unfold inode_is_dir. by rewrite Ei, Ek.
Qed.

Lemma spec_walk_ext w w' cur ns :
  ns_ext addr w w' -> spec_walk (names w') (inode_is_dir w') cur ns = spec_walk (names w) (inode_is_dir w) cur ns.
Proof.
  intros Hx. revert cur. induction ns as [|m ns IH]; intros cur; [done|]. simpl. destruct cur as [x|]; [|done].
  unfold inode_is_dir at 1 3. rewrite (nx_inodes _ _ _ Hx), (ns_ext_names addr w w' x m Hx). by rewrite IH.
Qed.

Lemma walk_names opn res ns w cwd e :
  plain_tree w -> ns_ok addr w -> ns_dentries w !! cwd = Some e -> Forall proper_name ns ->
  exists w' r, walk_items addr fsroot (resolve_body opn res) cwd (Name <$> ns) w = (w', r) /\ ns_ext addr w w' /\
    match spec_walk (names w) (inode_is_dir w) (fst <$> d_data e) ns with
    | Ret v => exists d e', r = Ret d /\ ns_dentries w' !! d = Some e' /\ fst <$> d_data e' = v
    | Err x => r = Err x
    | Panic => False
    end.
Proof.
  intros Hp Hok E Hns. revert w cwd e Hp Hok E. induction Hns as [|n ns [Hn1 Hn2] Hns IH]; intros w cwd e Hp Hok E; cbn [fmap list_fmap walk_items spec_walk].
  - exists w, (Ret cwd). split_and!; [done|by apply ns_ext_refl|]. by exists cwd, e.
  - fs_ret (get_dentry_run w cwd e E). simpl. pose proof (resolve_plain opn res w cwd e Hp Hok E) as Hr.
    destruct (d_data e) as [[ino fl]|] eqn:Ed; simpl.
    2:{ exists w, (Err ENOENT). split_and!; [|by apply ns_ext_refl|done]. erewrite fs_bind_err; [done|]. unfold walk_item. by fs_err Hr. }
    destruct (inode_is_dir w ino) eqn:Edir.
    2:{ exists w, (Err ENOTDIR). split_and!; [|by apply ns_ext_refl|done]. erewrite fs_bind_err; [done|]. unfold walk_item. by fs_err Hr. }
    assert (fl = D_DIRECTORY) as -> by (destruct (Hp cwd e ino fl E Ed) as [?|[_ ?]]; congruence).
    destruct (dentry_find_ok addr w cwd e ino n Hok E Ed Hn1 Hn2) as (w1 & c & ec & Hf & Hx & [Ec _] & _ & _ & Hv).
    destruct (IH w1 c ec (plain_ext _ _ Hx Hp) (nx_ok _ _ _ Hx) Ec) as (w2 & r & Hw & Hx2 & Hs). exists w2, r. split_and!.
    + erewrite fs_bind_ret; [exact Hw|]. unfold walk_item. by fs_ret Hr.
    + by eapply ns_ext_trans.
    + by rewrite <- Hv, <- (spec_walk_ext w w1 _ ns Hx).
Qed.

Lemma component_proper p n : Name n ∈ components p -> proper_name n.
Proof.
  unfold components. rewrite elem_of_app. intros [(s & Hc & _)%list_elem_of_fmap|Ht].
  - unfold classify in Hc. repeat case_bool_decide; try done. by injection Hc as ->.
  - by case_bool_decide; [apply list_elem_of_singleton in Ht|apply not_elem_of_nil in Ht].
Qed.

Lemma open_body_names opn res w at_ path follow ns e :
  plain_tree w -> ns_ok addr w -> ns_dentries w !! (if is_absolute path then fsroot else at_) = Some e ->
  path <> [] -> components path = Name <$> ns ->
  exists w' r, open_body addr fsroot (resolve_body opn res) opn at_ path follow w = (w', r) /\ ns_ext addr w w' /\
    match spec_walk (names w) (inode_is_dir w) (fst <$> d_data e) ns with
    | Ret v => exists d e', r = Ret d /\ ns_dentries w' !! d = Some e' /\ fst <$> d_data e' = v
    | Err x => r = Err x
    | Panic => False
    end.
Proof.
  intros Hp Hok E Hne Hc. assert (Forall proper_name ns) as Hns.
  { apply Forall_forall. intros n Hn. apply (component_proper path). rewrite Hc. by apply list_elem_of_fmap_2. }
  destruct (walk_names opn res ns w _ e Hp Hok E Hns) as (w' & r & Hw & Hx & Hs).
  unfold open_body, path_iter. rewrite path_items_spec, bool_decide_eq_false_2, Hc by done. exists w', r.
  fs_ret (lift_run (expect (Some (Name <$> ns))) w). destruct (spec_walk _ _ _ _) as [v|x|]; [|subst r; by fs_err Hw|done].
  destruct Hs as (d & e' & -> & E' & Hv). split_and!; [|done|by exists d, e']. fs_ret Hw. fs_ret (get_dentry_run w' d e' E').
  destruct (d_data e') as [[ino fl]|] eqn:Ed; [|done]. destruct (plain_ext _ _ Hx Hp d e' ino fl E' Ed) as [->|[-> _]]; by rewrite andb_false_r.
Qed.


End Walk.

(** ** A small tree *)

Definition demo_addr (d : nat) : Z := 64 * Z.of_nat d.

Definition demo_init : NameSys := ns_init demo_addr.

(** The state and the result of opening a path from the root. *)
Notation demo_open w path := (dentry_open_at demo_addr FSROOT FSROOT path false w).

(** After looking [a] up, which makes entry 2, and after making it a directory. *)
Definition demo_a : NameSys := fst (demo_open demo_init [97]).
Definition demo_dir : NameSys := fst (name_op demo_addr (NameMkdir 2 0x1ed) demo_a).

Lemma demo_live : live demo_init FSROOT.
Proof. by eexists. Qed.

Lemma demo_safe : name_op_safe demo_a (NameMkdir 2 0x1ed).
Proof.
  split; [|by vm_compute]. split; [|by eexists; vm_compute]. destruct (ns_dentries demo_a !! 2%nat) as [e|] eqn:E; [|by vm_compute in E].
  exists e. split; [done|]. vm_compute in E. injection E as <-. vm_compute. left.
Qed.

Lemma demo_a_reachable : ns_reachable demo_addr FSROOT demo_a.
Proof.
  eapply rtc_l; [|apply rtc_refl]. unfold demo_a. apply step_walk_fst; apply demo_live.
Qed.

Lemma demo_dir_reachable : ns_reachable demo_addr FSROOT demo_dir.
Proof.
  eapply rtc_r; [apply demo_a_reachable|]. unfold demo_dir. apply step_op_fst, demo_safe.
Qed.




Lemma open_at_safe_witness : exists w' d, demo_open demo_init [97] = (w', Ret d) /\ live w' d.
Proof.
  destruct (open_at_safe demo_addr FSROOT demo_init FSROOT [97] false (ns_init_ok demo_addr) demo_live demo_live) as (w' & r & Hr & _ & Hl).
  exists w', 2%nat. assert (r = Ret 2%nat) as -> by (change r with (w', r).2; rewrite <- Hr; by vm_compute).
  split; [exact Hr|exact Hl].
Defined.

Lemma demo_dir_dentry d e : ns_dentries demo_dir !! d = Some e -> (snd <$> d_data e) = None \/ (snd <$> d_data e) = Some D_DIRECTORY.
Proof.
  intros E. assert (forallb (fun p : nat * Dentry => match snd <$> d_data p.2 with None => true | Some fl => fl =? D_DIRECTORY end) (map_to_list (ns_dentries demo_dir)) = true)
    as Hall by (by vm_compute).
  rewrite forallb_forall in Hall. specialize (Hall (d, e)). rewrite <- list_elem_of_In, elem_of_map_to_list in Hall. specialize (Hall E). simpl in Hall.
  destruct (snd <$> d_data e) as [fl|]; [right; f_equal; by apply Z.eqb_eq|by left].
Qed.

