(* ===== verification/Io.v ===== *)
(** * Byte buffers and streams

    Models src/dlutos/src/io.rs and the [PageBuffer] of
    src/dlutos/src/kernel/mem/paging.rs.

    A byte is a [Z].  Lengths of in-memory slices are [nat].  The traits
    [Buffer] and [Stream] are classes; [BufferLaws] and [StreamLaws] state what
    their clients (pipes, terminals, files) rely on, and the implementations
    discharge them. *)

From S2P Require Import Prelude Address.

(** ** [FillResult] *)

Inductive FillResult :=
| FDone (n : nat)
| FPartial (n : nat)
| FFull.

Definition fill_ok_or (r : FillResult) (err : Z) : outcome unit :=
  match r with
  | FDone _ => Ret tt
  | _ => Err err
  end.

Definition should_stop (r : FillResult) : bool :=
  match r with FDone _ => false | _ => true end.

Definition allow_partial (r : FillResult) : nat :=
  match r with
  | FDone n | FPartial n => n
  | FFull => 0
  end.

(** ** The trait [Buffer] *)

Class Buffer (B : Type) := {
  buf_total : B -> nat;
  buf_wrote : B -> nat;
  buf_fill : B -> list Z -> outcome (FillResult * B)
}.

Definition available `{Buffer B} (b : B) : nat := buf_total b - buf_wrote b.

(** What a buffer promises whose memory is there: [fill] appends as much of the
    data as fits, never fails, reports how much was taken, and says to stop when
    not all of it fitted. *)
Class BufferLaws (B : Type) `{Buffer B} := {
  buf_data : B -> list Z;
  buf_ok : B -> Prop;
  buf_wrote_data b : buf_ok b -> buf_wrote b = length (buf_data b);
  buf_wrote_le b : buf_ok b -> (buf_wrote b <= buf_total b)%nat;
  buf_fill_law b d : buf_ok b ->
    exists r b', buf_fill b d = Ret (r, b') /\ buf_ok b' /\
      buf_total b' = buf_total b /\
      buf_data b' = buf_data b ++ take (available b) d /\
      allow_partial r = Nat.min (available b) (length d) /\
      (d <> [] -> should_stop r = false <-> available b <> 0%nat /\ (length d <= available b)%nat)
}.

(** [BufferWrite::write_str]: [true] for [Ok(())]. *)
Definition write_str `{Buffer B} (b : B) (s : list Z) : outcome (bool * B) :=
  match buf_fill b s with
  | Ret (FDone _, b') => Ret (true, b')
  | Ret (_, b') => Ret (false, b')
  | Err _ => Ret (false, b)
  | Panic => Panic
  end.

(** ** [ByteBuffer] *)

Record ByteBuffer := mkByteBuffer { bb_buf : list Z; bb_cur : nat }.

Definition byte_buffer_new (buf : list Z) : ByteBuffer := mkByteBuffer buf 0.

Definition bb_available (b : ByteBuffer) : nat := length (bb_buf b) - bb_cur b.

Definition bb_data (b : ByteBuffer) : list Z := take (bb_cur b) (bb_buf b).

Definition bb_fill (b : ByteBuffer) (data : list Z) : outcome (FillResult * ByteBuffer) :=
  let n := bb_available b in
  if (n =? 0)%nat then Ret (FFull, b)
  else if (n <? length data)%nat then
    Ret (FPartial n,
         mkByteBuffer (take (bb_cur b) (bb_buf b) ++ take n data) (bb_cur b + n))
  else
    Ret (FDone (length data),
         mkByteBuffer (take (bb_cur b) (bb_buf b) ++ data ++
                       drop (bb_cur b + length data) (bb_buf b))
                      (bb_cur b + length data)).

#[export] Instance ByteBuffer_Buffer : Buffer ByteBuffer := {
  buf_total b := length (bb_buf b);
  buf_wrote := bb_cur;
  buf_fill := bb_fill
}.

(** [UninitBuffer<T>] wraps a [ByteBuffer] of [size_of::<T>()] bytes; its value
    may be read only when every byte was written. *)
Definition uninit_buffer_new (size_of_T : nat) (garbage : list Z) : ByteBuffer :=
  byte_buffer_new (take size_of_T garbage).

Definition assume_filled_ref (b : ByteBuffer) : outcome (list Z) :=
  if negb (bb_available b =? 0)%nat then Err EFAULT else Ret (bb_buf b).

(** ** [PageBuffer]: a buffer over one page *)

Record PageBuffer := mkPageBuffer { pb_page : list Z; pb_offset : nat }.

Definition page_buffer_data (b : PageBuffer) : list Z := take (pb_offset b) (pb_page b).

Definition page_buffer_available (b : PageBuffer) : nat := length (drop (pb_offset b) (pb_page b)).

Definition page_buffer_fill (b : PageBuffer) (data : list Z) : outcome (FillResult * PageBuffer) :=
  let avail := page_buffer_available b in
  if (avail =? 0)%nat then Ret (FFull, b)
  else
    let len := Nat.min (length data) avail in
    let b' := mkPageBuffer (take (pb_offset b) (pb_page b) ++ take len data ++
                            drop (pb_offset b + len) (pb_page b))
                           (pb_offset b + len) in
    if (len <? length data)%nat then Ret (FPartial len, b') else Ret (FDone len, b').

#[export] Instance PageBuffer_Buffer : Buffer PageBuffer := {
  buf_total b := length (pb_page b);
  buf_wrote := pb_offset;
  buf_fill := page_buffer_fill
}.

(** ** [Chunks] *)

Record Chunks := mkChunks { ch_end : Z; ch_cur : Z; ch_len : Z }.

Definition chunks_new (start total_len chunk_len : Z) : Chunks :=
  mkChunks (wrap64 (start + total_len)) start chunk_len.

Definition chunks_next (c : Chunks) : option ((Z * Z) * Chunks) :=
  if ch_end c <=? ch_cur c then None
  else
    let s := ch_cur c in
    let len := Z.min (ch_len c) (ch_end c - s) in
    Some ((s, len), mkChunks (ch_end c) (wrap64 (ch_cur c + ch_len c)) (ch_len c)).

(** [for x in chunks] collects the items until [next] returns [None]. *)
Fixpoint chunks_collect (fuel : nat) (c : Chunks) : option (list (Z * Z)) :=
  match fuel with
  | O => None
  | S fuel =>
      match chunks_next c with
      | None => Some []
      | Some (x, c') => cons x <$> chunks_collect fuel c'
      end
  end.

(** ** The trait [Stream] *)

Class Stream (T : Type) := {
  st_total : T -> nat;
  poll_data : T -> nat -> outcome (option (list Z) * T);
  st_ignore : T -> Z -> outcome (option nat * T)
}.

(** What a stream promises whose memory is there, for a non-empty buffer: it
    hands out its bytes in order, at most a buffer at a time, then [None]. *)
Class StreamLaws (T : Type) `{Stream T} := {
  st_rest : T -> list Z;
  st_ok : T -> Prop;
  st_poll_law s n : st_ok s -> (0 < n)%nat ->
    exists s', poll_data s n =
      Ret (match st_rest s with [] => None | _ => Some (take n (st_rest s)) end, s') /\
      st_ok s' /\ st_rest s' = drop n (st_rest s)
}.

(** [StreamRead::read_till_end], the closure threading its effects in [W]. *)
Fixpoint read_till_end `{Stream T} {W : Type} (fuel : nat) (s : T) (buflen : nat)
    (func : list Z -> W -> outcome W) (w : W) (total : nat) : option (outcome (nat * T * W)) :=
  match fuel with
  | O => None
  | S fuel =>
      match poll_data s buflen with
      | Ret (Some data, s') =>
          match func data w with
          | Ret w' => read_till_end fuel s' buflen func w' (total + length data)
          | Err e => Some (Err e)
          | Panic => Some Panic
          end
      | Ret (None, s') => Some (Ret (total, s', w))
      | Err e => Some (Err e)
      | Panic => Some Panic
      end
  end.

(** [StreamRead::ignore_all]. *)
Fixpoint ignore_all `{Stream T} (fuel : nat) (s : T) (total : nat) : option (outcome (nat * T)) :=
  match fuel with
  | O => None
  | S fuel =>
      match st_ignore s usize_max with
      | Ret (Some len, s') => ignore_all fuel s' (total + len)
      | Ret (None, s') => Some (Ret (total, s'))
      | Err e => Some (Err e)
      | Panic => Some Panic
      end
  end.

(** ** [ByteStream] *)

Record ByteStream := mkByteStream { bs_data : list Z; bs_cur : nat }.

Definition into_stream (data : list Z) : ByteStream := mkByteStream data 0.

Definition bs_poll_data (s : ByteStream) (buflen : nat) : outcome (option (list Z) * ByteStream) :=
  if (length (bs_data s) <=? bs_cur s)%nat then Ret (None, s)
  else
    let e := Nat.min (length (bs_data s)) (bs_cur s + buflen) in
    let data := take (e - bs_cur s) (drop (bs_cur s) (bs_data s)) in
    Ret (Some data, mkByteStream (bs_data s) (bs_cur s + length data)).

Definition bs_ignore (s : ByteStream) (len : Z) : outcome (option nat * ByteStream) :=
  if (length (bs_data s) <=? bs_cur s)%nat then Ret (None, s)
  else
    let remaining := (length (bs_data s) - bs_cur s)%nat in
    let ignored := Z.to_nat (Z.min (Z.of_nat remaining) len) in
    Ret (Some ignored, mkByteStream (bs_data s) (bs_cur s + ignored)).

#[export] Instance ByteStream_Stream : Stream ByteStream := {
  st_total s := length (bs_data s);
  poll_data := bs_poll_data;
  st_ignore := bs_ignore
}.

(** ** The implementations keep their promises *)

Lemma take_overwrite {A} (l d r : list A) off n :
  (off <= length l)%nat -> (n <= length d)%nat ->
  take (off + n) (take off l ++ take n d ++ r) = take off l ++ take n d.
Proof.
  intros. rewrite app_assoc. apply take_app_length'.
  rewrite length_app, !length_take. lia.
Qed.

Lemma take_min_length {A} (d : list A) n : take (length d `min` n) d = take n d.
Proof. rewrite <- take_take. by rewrite take_ge by (rewrite length_take; lia). Qed.

Lemma bb_fill_law b d :
  (bb_cur b <= length (bb_buf b))%nat ->
  exists r b', bb_fill b d = Ret (r, b') /\ (bb_cur b' <= length (bb_buf b'))%nat /\
    length (bb_buf b') = length (bb_buf b) /\
    bb_data b' = bb_data b ++ take (bb_available b) d /\
    allow_partial r = Nat.min (bb_available b) (length d) /\
    (should_stop r = false <-> bb_available b <> 0%nat /\ (length d <= bb_available b)%nat).
Proof.
  intros Hle. unfold bb_fill, bb_data, bb_available.
  destruct (Nat.eqb_spec (length (bb_buf b) - bb_cur b) 0) as [E|E].
  { eexists _, _. split; [done|]. simpl. rewrite E, take_0, app_nil_r.
    split_and!; try done. split; [done|]. lia. }
  destruct (Nat.ltb_spec (length (bb_buf b) - bb_cur b) (length d)) as [L|L].
  - eexists _, _. split; [done|]. simpl.
    rewrite length_app, !length_take. split_and!; try lia.
    rewrite take_ge; [done|]. rewrite length_app, !length_take. lia.
  - eexists _, _. split; [done|]. simpl.
    rewrite !length_app, length_take, length_drop. split_and!; try lia.
    rewrite <- (take_ge d (length d)) at 2 by lia. rewrite take_overwrite by lia.
    by rewrite !take_ge with (l := d) by lia.
Qed.

#[export, refine] Instance ByteBuffer_laws : BufferLaws ByteBuffer := {
  buf_data := bb_data;
  buf_ok b := (bb_cur b <= length (bb_buf b))%nat
}.
Proof.
  - intros b Hb. simpl. unfold bb_data. rewrite length_take. lia.
  - intros b Hb. simpl. lia.
  - intros b d Hb. destruct (bb_fill_law b d Hb) as (r & b' & ? & ? & ? & ? & ? & ?). by exists r, b'.
Defined.

#[export, refine] Instance PageBuffer_laws : BufferLaws PageBuffer := {
  buf_data := page_buffer_data;
  buf_ok b := (pb_offset b <= length (pb_page b))%nat
}.
Proof.
  - intros b Hb. simpl. unfold page_buffer_data. rewrite length_take. lia.
  - intros b Hb. simpl. lia.
  - intros [pg off] d Hb. simpl in *. unfold page_buffer_fill, page_buffer_data, page_buffer_available, available.
    simpl. rewrite length_drop. destruct (Nat.eqb_spec (length pg - off) 0) as [E|E].
    { eexists _, _. split; [done|]. simpl. rewrite E, take_0, app_nil_r. split_and!; try done.
      split; [done|lia]. }
    destruct (Nat.ltb_spec (length d `min` (length pg - off)) (length d)) as [L|L];
      (eexists _, _; split; [done|]; simpl;
       rewrite !length_app, !length_take, length_drop; split_and!; try lia);
      rewrite take_overwrite by lia; by rewrite take_min_length.
Defined.

Lemma bs_poll_law s n :
  (0 < n)%nat ->
  exists s', bs_poll_data s n =
    Ret (match drop (bs_cur s) (bs_data s) with [] => None | _ => Some (take n (drop (bs_cur s) (bs_data s))) end, s') /\
    drop (bs_cur s') (bs_data s') = drop n (drop (bs_cur s) (bs_data s)).
Proof.
  intros Hn. unfold bs_poll_data.
  destruct (Nat.leb_spec (length (bs_data s)) (bs_cur s)) as [L|L].
  { exists s. rewrite (drop_ge _ _ L). by rewrite drop_nil. }
  set (rest := drop (bs_cur s) (bs_data s)).
  assert (length rest = length (bs_data s) - bs_cur s)%nat as Hlen
    by (unfold rest; by rewrite length_drop).
  replace (take (Nat.min (length (bs_data s)) (bs_cur s + n) - bs_cur s) rest) with (take n rest).
  2:{ destruct (decide (n <= length rest)%nat).
      - f_equal. lia.
      - rewrite !take_ge by lia. done. }
  exists (mkByteStream (bs_data s) (bs_cur s + length (take n rest))). split.
  - clearbody rest. destruct rest; [simpl in Hlen; lia|]. done.
  - simpl. rewrite length_take. unfold rest at 2. rewrite drop_drop.
    destruct (decide (n <= length rest)%nat).
    + f_equal. lia.
    + rewrite !drop_ge by lia. done.
Qed.

#[export, refine] Instance ByteStream_laws : StreamLaws ByteStream := {
  st_rest s := drop (bs_cur s) (bs_data s);
  st_ok _ := True
}.
Proof. intros s n _ Hn. destruct (bs_poll_law s n Hn) as (s' & ? & ?). by exists s'. Defined.

(** ** Reading a stream to its end *)

Section read_till_end.
Context `{StreamLaws T} {W : Type} (func : list Z -> W -> outcome W).

(** Applying the closure to the chunks in order, stopping at the first error. *)
Fixpoint feed (chunks : list (list Z)) (w : W) : outcome W :=
  match chunks with
  | [] => Ret w
  | c :: cs => w' ← func c w; feed cs w'
  end.

Lemma read_till_end_feed n fuel s w total :
  (0 < n)%nat -> st_ok s -> (length (st_rest s) < fuel)%nat ->
  exists chunks, concat chunks = st_rest s /\
    Forall (fun c => 0 < length c <= n)%nat chunks /\
    match feed chunks w with
    | Ret w' => exists s', st_rest s' = [] /\
        read_till_end fuel s n func w total = Some (Ret (total + length (st_rest s), s', w')%nat)
    | Err e => read_till_end fuel s n func w total = Some (Err e)
    | Panic => read_till_end fuel s n func w total = Some Panic
    end.
Proof.
  intros Hn. revert s w total. induction fuel as [|fuel IH]; intros s w total Hst Hf; [lia|].
  destruct (st_poll_law s n Hst Hn) as (s' & Hp & Hst' & Hrest).
  destruct (st_rest s) as [|x xs] eqn:E.
  { exists []. split_and!; try done. simpl. exists s'. rewrite Hp, Nat.add_0_r. split; [|done].
    by rewrite Hrest, drop_nil. }
  set (c := take n (x :: xs)) in *.
  assert (0 < length c <= n)%nat as Hc by (unfold c; rewrite length_take; simpl; lia).
  assert (length (st_rest s') < fuel)%nat as Hf'.
  { rewrite Hrest, length_drop. simpl in *. lia. }
  assert (length c + length (st_rest s') = length (x :: xs))%nat as Hsum.
  { rewrite Hrest. unfold c. rewrite length_take, length_drop. simpl. lia. }
  destruct (IH s' (default w (match func c w with Ret w' => Some w' | _ => None end))
              (total + length c)%nat Hst' Hf') as (cs & Hcs & Hall & Hres).
  exists (c :: cs). split_and!.
  { simpl. rewrite Hcs, Hrest. unfold c. by rewrite take_drop. }
  { by constructor. }
  cbn [feed read_till_end]. rewrite Hp. cbn [st_rest].
  destruct (func c w) as [w'|e|]; simpl in *; [|done..].
  destruct (feed cs w') as [w''|e|]; [|done..].
  destruct Hres as (s'' & ? & Hr). exists s''. split; [done|]. rewrite Hr.
  by rewrite <- Hsum, Nat.add_assoc.
Qed.
End read_till_end.

(** reading a byte stream to its end with a non-empty buffer always
    terminates, hands the closure non-empty chunks of at most the buffer's size
    whose concatenation is exactly the unread data, in order, and returns their
    total length; an error of the closure is returned as it is. *)
Theorem byte_stream_read_till_end {W} (func : list Z -> W -> outcome W) (n : nat) (s : ByteStream) (w : W) :
  (0 < n)%nat ->
  let rest := drop (bs_cur s) (bs_data s) in
  exists chunks, concat chunks = rest /\
    Forall (fun c => 0 < length c <= n)%nat chunks /\
    match feed func chunks w with
    | Ret w' => exists s',
        read_till_end (S (length rest)) s n func w 0 = Some (Ret (length rest, s', w'))
    | Err e => read_till_end (S (length rest)) s n func w 0 = Some (Err e)
    | Panic => read_till_end (S (length rest)) s n func w 0 = Some Panic
    end.
Proof.
  intros Hn rest.
  destruct (read_till_end_feed func n (S (length rest)) s w 0 Hn) as (cs & H1 & H2 & H3).
  { exact I. }
  { simpl. unfold rest. lia. }
  exists cs. split_and!; try done.
  destruct (feed func cs w); try done. destruct H3 as (s' & _ & H3). by exists s'.
Qed.

Lemma byte_stream_read_till_end_witness :
  exists s', read_till_end 6 (into_stream [1; 2; 3; 4; 5]) 2
               (fun c acc => Ret (acc ++ [c])) [] 0 =
             Some (Ret (5%nat, s', [[1; 2]; [3; 4]; [5]])).
Proof.
  destruct (byte_stream_read_till_end (fun c acc => Ret (acc ++ [c])) 2
              (into_stream [1; 2; 3; 4; 5]) [] ltac:(lia)) as (cs & _ & _ & H).
  destruct (feed _ cs []); [destruct H as [s' H]|..].
  - exists s'. vm_compute in H. injection H as <- <-. reflexivity.
  - vm_compute in H. discriminate.
  - vm_compute in H. discriminate.
Defined.

(** ** Chunks *)

(** Consecutive chunks: each starts where the previous one ended. *)
Fixpoint contiguous (s : Z) (l : list (Z * Z)) (e : Z) : Prop :=
  match l with
  | [] => s = e
  | (a, n) :: l => a = s /\ contiguous (s + n) l e
  end.

Lemma chunks_collect_S fuel c :
  chunks_collect (S fuel) c =
    match chunks_next c with
    | None => Some []
    | Some (x, c') => cons x <$> chunks_collect fuel c'
    end.
Proof. done. Qed.

Lemma chunks_next_end c : ch_end c <= ch_cur c -> chunks_next c = None.
Proof. intros. unfold chunks_next. by rewrite (proj2 (Z.leb_le _ _)). Qed.

Lemma chunks_next_more c :
  0 <= ch_cur c < ch_end c -> 0 < ch_len c -> ch_end c + ch_len c < 2 ^ 64 ->
  chunks_next c = Some ((ch_cur c, Z.min (ch_len c) (ch_end c - ch_cur c)),
                        mkChunks (ch_end c) (ch_cur c + ch_len c) (ch_len c)).
Proof.
  intros. unfold chunks_next. rewrite (proj2 (Z.leb_gt _ _)) by lia.
  by rewrite wrap64_small by (unfold is_u64; lia).
Qed.

Lemma chunks_collect_spec fuel c :
  0 < ch_len c -> 0 <= ch_cur c ->
  ch_end c + ch_len c < 2 ^ 64 -> ch_end c - ch_cur c <= Z.of_nat fuel * ch_len c ->
  exists l, chunks_collect (S fuel) c = Some l /\
    contiguous (Z.min (ch_cur c) (ch_end c)) l (ch_end c) /\
    Forall (fun x => 0 < x.2 <= ch_len c) l.
Proof.
  revert c. induction fuel as [|fuel IH]; intros c Hlen H0 Hov Hfuel; rewrite chunks_collect_S;
    (destruct (decide (ch_end c <= ch_cur c));
      [rewrite chunks_next_end by done; exists []; simpl; split_and!; [done|lia|constructor]|]).
  { lia. }
  rewrite chunks_next_more by lia.
  destruct (IH (mkChunks (ch_end c) (ch_cur c + ch_len c) (ch_len c))) as (l & Hl & Hc & Hall);
    simpl in *; try lia.
  rewrite Hl. eexists. split; [done|]. simpl. split_and!; [lia| |].
  - by replace (ch_cur c `min` ch_end c + ch_len c `min` (ch_end c - ch_cur c))
      with ((ch_cur c + ch_len c) `min` ch_end c) by lia.
  - constructor; [simpl; lia|done].
Qed.

(** iterating [Chunks::new(start, total_len, chunk_len)] terminates and
    yields contiguous pieces, none empty and none longer than [chunk_len], that
    cover exactly [start, start + total_len). *)
Theorem chunks_cover start total_len chunk_len :
  0 < chunk_len -> 0 <= start -> 0 <= total_len ->
  start + total_len + chunk_len < 2 ^ 64 ->
  exists fuel l,
    chunks_collect fuel (chunks_new start total_len chunk_len) = Some l /\
    contiguous start l (start + total_len) /\
    Forall (fun x => 0 < x.2 <= chunk_len) l.
Proof.
  intros. unfold chunks_new. rewrite wrap64_small by (unfold is_u64; lia).
  destruct (chunks_collect_spec (Z.to_nat total_len) (mkChunks (start + total_len) start chunk_len))
    as (l & Hl & Hc & Hall); cbn [ch_end ch_cur ch_len] in *; try lia; [nia|].
  rewrite Z.min_l in Hc by lia. by eexists _, l.
Qed.

Lemma chunks_cover_witness :
  exists fuel l, chunks_collect fuel (chunks_new 100 10 4) = Some l /\
    contiguous 100 l 110 /\ Forall (fun x => 0 < x.2 <= 4) l.
Proof. apply (chunks_cover 100 10 4); lia. Defined.

(** Skipping what is left of a byte stream reports its length. *)
Lemma byte_stream_ignore_all s :
  Z.of_nat (length (bs_data s)) <= usize_max ->
  exists s', ignore_all 2 s 0 = Some (Ret ((length (bs_data s) - bs_cur s)%nat, s')).
Proof.
  intros Hmax. simpl. unfold bs_ignore.
  destruct (Nat.leb_spec (length (bs_data s)) (bs_cur s)).
  { exists s. do 3 f_equal. lia. }
  rewrite Z.min_l by lia. rewrite Nat2Z.id. simpl.
  destruct (Nat.leb_spec (length (bs_data s)) (bs_cur s + (length (bs_data s) - bs_cur s))); [|lia].
  by eexists.
Qed.
