(* ===== verification/Getdents.v ===== *)
(** * Reading a directory

    Models [do_readdir] of src/fs/tmpfs.rs and [getdents] and [getdents64] of
    src/kernel/vfs/file/inode_file.rs, with the records of
    crates/posix_types/src/getdent.rs, on the directories of Dentry.v.  The
    reference decodes the records again. *)

From S2P Require Import Prelude Address Io OpenFlags Mode Path Dentry.

(** ** The records *)

(** [UserDirent64] and [UserDirent], packed, without the name. *)
Definition DIRENT64_SIZE : nat := 19.
Definition DIRENT_SIZE : nat := 10.

Definition dirent64_header (ino : Z) (reclen : nat) : list Z :=
  Z_to_little_endian 8 8 ino ++ Z_to_little_endian 8 8 0 ++ Z_to_little_endian 2 8 (Z.of_nat reclen) ++ [0].
Definition dirent_header (ino : Z) (reclen : nat) : list Z :=
  Z_to_little_endian 4 8 ino ++ Z_to_little_endian 4 8 0 ++ Z_to_little_endian 2 8 (Z.of_nat reclen).

(** ** [do_readdir] *)

(** The callback is given a name and an inode and continues ([true]) or breaks;
    the entry it breaks at is not counted. *)
Fixpoint readdir_loop {B} (callback : B -> list Z -> Z -> B * outcome bool) (entries : list (list Z * Z)) (b : B) (acc : nat) : B * outcome nat :=
  match entries with
  | [] => (b, Ret acc)
  | (name, ino) :: entries =>
      match callback b name ino with
      | (b, Ret true) => readdir_loop callback entries b (S acc)
      | (b, Ret false) => (b, Ret acc)
      | (b, Err e) => (b, Err e)
      | (b, Panic) => (b, Panic)
      end
  end.

Definition do_readdir {B} (callback : B -> list Z -> Z -> B * outcome bool) (i : Inode) (offset : nat) (b : B) : B * outcome nat :=
  match i_kind i with
  | KDirectory entries => readdir_loop callback (drop offset entries) b 0
  | _ => (b, Err (if negb (mode_is_dir (i_mode i)) then ENOTDIR else EPERM))
  end.

(** ** [getdents64] *)

(** [buffer.fill(..)?.ok_or(EFAULT)?]. *)
Definition fill_all `{Buffer B} (b : B) (data : list Z) : B * outcome unit :=
  match buf_fill b data with
  | Ret (r, b) => (b, fill_ok_or r EFAULT)
  | Err e => (b, Err e)
  | Panic => (b, Panic)
  end.

Fixpoint fill_parts `{Buffer B} (b : B) (parts : list (list Z)) : B * outcome unit :=
  match parts with
  | [] => (b, Ret tt)
  | p :: parts =>
      match fill_all b p with
      | (b, Ret _) => fill_parts b parts
      | r => r
      end
  end.

(** A record that does not fit breaks. *)
Definition emit `{Buffer B} (b : B) (reclen : nat) (parts : list (list Z)) : B * outcome bool :=
  if (available b <? reclen)%nat then (b, Ret false)
  else match fill_parts b parts with
       | (b, Ret _) => (b, Ret true)
       | (b, Err e) => (b, Err e)
       | (b, Panic) => (b, Panic)
       end.

Definition getdents64_callback `{Buffer B} (b : B) (name : list Z) (ino : Z) : B * outcome bool :=
  let reclen := (DIRENT64_SIZE + length name + 1)%nat in
  emit b reclen [dirent64_header ino reclen; name; [0]].

Definition getdents_callback `{Buffer B} (b : B) (name : list Z) (ino : Z) : B * outcome bool :=
  let reclen := (DIRENT_SIZE + length name + 2)%nat in
  emit b reclen [dirent_header (wrap32 ino) reclen; name; [0; 0]].

(** The cursor moves when all went well. *)
Definition getdents_with `{Buffer B} (callback : B -> list Z -> Z -> B * outcome bool) (i : Inode) (cursor : nat) (b : B) : nat * B * outcome unit :=
  match do_readdir callback i cursor b with
  | (b, Ret nread) => ((cursor + nread)%nat, b, Ret tt)
  | (b, Err e) => (cursor, b, Err e)
  | (b, Panic) => (cursor, b, Panic)
  end.

Definition file_getdents64 `{Buffer B} (i : Inode) (cursor : nat) (b : B) := getdents_with getdents64_callback i cursor b.
Definition file_getdents `{Buffer B} (i : Inode) (cursor : nat) (b : B) := getdents_with getdents_callback i cursor b.

(** ** The reference: what a program reads *)

(** One record: the inode number at the start, the length at 16, the name up to the last byte. *)
Definition decode_record (l : list Z) : (list Z * Z) * nat :=
  let reclen := Z.to_nat (little_endian_to_Z 8 (take 2 (drop 16 l))) in
  ((take (reclen - 20) (drop 19 l), little_endian_to_Z 8 (take 8 l)), reclen).

Fixpoint decode_records (fuel : nat) (l : list Z) : list (list Z * Z) :=
  match fuel, l with
  | S fuel, _ :: _ => let '(e, n) := decode_record l in e :: decode_records fuel (drop n l)
  | _, _ => []
  end.

(** Reading with a buffer of [size] bytes until nothing comes. *)
Fixpoint read_directory (fuel : nat) (i : Inode) (cursor size : nat) : option (list (list Z * Z)) :=
  match fuel with
  | O => None
  | S fuel =>
      match file_getdents64 i cursor (byte_buffer_new (replicate size 0)) with
      | (cursor, b, Ret _) => match bb_data b with [] => Some [] | d => app (decode_records (length d) d) <$> read_directory fuel i cursor size end
      | _ => None
      end
  end.

(** ** The records come back *)

Definition record64 (e : list Z * Z) : list Z :=
  dirent64_header e.2 (DIRENT64_SIZE + length e.1 + 1) ++ e.1 ++ [0].

Definition entry_fits (e : list Z * Z) : Prop := (length e.1 <= 255)%nat /\ is_u64 e.2 /\ e.1 <> [].

Lemma length_le m z : 0 <= m -> length (Z_to_little_endian m 8 z) = Z.to_nat m.
Proof. intros Hm. pose proof (length_Z_to_little_endian m 8 z Hm). lia. Qed.

Lemma length_header64 ino n : length (dirent64_header ino n) = DIRENT64_SIZE.
Proof. unfold dirent64_header. rewrite !length_app, !length_le by lia. done. Qed.

Lemma length_record64 e : length (record64 e) = (DIRENT64_SIZE + length e.1 + 1)%nat.
Proof. unfold record64. rewrite !length_app, length_header64. simpl. lia. Qed.

Lemma decode_record64 e l : entry_fits e -> decode_record (record64 e ++ l) = (e, length (record64 e)).
Proof.
  intros [Hn Hi]. destruct e as [name ino]. simpl in Hn, Hi. set (reclen := (DIRENT64_SIZE + length name + 1)%nat).
  assert (record64 (name, ino) ++ l = Z_to_little_endian 8 8 ino ++ Z_to_little_endian 8 8 0 ++ Z_to_little_endian 2 8 (Z.of_nat reclen) ++ [0] ++ name ++ [0] ++ l)
    as -> by (unfold record64, dirent64_header; simpl; rewrite <- !app_assoc; done).
  assert (length (Z_to_little_endian 8 8 ino) = 8%nat) as L1 by (by rewrite length_le).
  assert (length (Z_to_little_endian 2 8 (Z.of_nat reclen)) = 2%nat) as L2 by (by rewrite length_le).
  assert (forall r, take 8 (Z_to_little_endian 8 8 ino ++ r) = Z_to_little_endian 8 8 ino) as H8 by (intros r; by apply take_app_length').
  assert (forall r, take 2 (Z_to_little_endian 2 8 (Z.of_nat reclen) ++ r) = Z_to_little_endian 2 8 (Z.of_nat reclen)) as H2 by (intros r; by apply take_app_length').
  unfold decode_record. rewrite H8.
  assert (forall r, drop 16 (Z_to_little_endian 8 8 ino ++ Z_to_little_endian 8 8 0 ++ r) = r) as H16.
  { intros r. rewrite app_assoc. apply drop_app_length'. by rewrite length_app, L1. }
  rewrite H16, H2, !little_endian_to_Z_to_little_endian by lia.
  rewrite Z.mod_small by (unfold reclen, DIRENT64_SIZE; lia). rewrite Nat2Z.id.
  assert (drop 19 (Z_to_little_endian 8 8 ino ++ Z_to_little_endian 8 8 0 ++ Z_to_little_endian 2 8 (Z.of_nat reclen) ++ [0] ++ name ++ [0] ++ l) = name ++ [0] ++ l) as ->.
  { change 19%nat with (16 + 3)%nat. rewrite <- drop_drop, H16, app_assoc. apply drop_app_length'. by rewrite length_app, L2. }
  rewrite take_app_length' by (unfold reclen, DIRENT64_SIZE; lia). rewrite length_record64. simpl. unfold is_u64 in Hi.
  rewrite Z.mod_small by (simpl; lia). done.
Qed.

Lemma decode_records64 fuel es :
  Forall entry_fits es -> (length es <= fuel)%nat -> decode_records fuel (concat (record64 <$> es)) = es.
Proof.
  intros Hes. revert fuel. induction Hes as [|e es He Hes IH]; intros fuel Hf; [by destruct fuel|]. destruct fuel as [|fuel]; simpl in Hf; [lia|].
  cbn [fmap list_fmap concat decode_records]. pose proof (length_record64 e) as Hl.
  assert (exists c l, record64 e ++ concat (record64 <$> es) = c :: l) as (c & l & Hcl).
  { destruct (record64 e) as [|c l]; [simpl in Hl; lia|]. by exists c, (l ++ concat (record64 <$> es)). }
  rewrite Hcl. rewrite <- Hcl, decode_record64, drop_app_length by done. f_equal. apply IH. lia.
Qed.

(** ** Filling the buffer *)

Section Fill.
Context `{BufferLaws B}.

Lemma fill_all_ok b d :
  buf_ok b -> d <> [] -> available b <> 0%nat -> (length d <= available b)%nat ->
  exists b', fill_all b d = (b', Ret tt) /\ buf_ok b' /\ buf_data b' = buf_data b ++ d /\ available b' = (available b - length d)%nat.
Proof.
  intros Hok Hne Ha Hl. destruct (buf_fill_law b d Hok) as (r & b' & Hf & Hok' & Ht & Hd & _ & Hs). exists b'.
  rewrite take_ge in Hd by done. unfold fill_all. rewrite Hf. split_and!; try done.
  - assert (should_stop r = false) as Hsr by (by apply Hs). by destruct r.
  - unfold available in *. rewrite Ht, (buf_wrote_data b' Hok'), (buf_wrote_data b Hok), Hd, length_app. lia.
Qed.

Lemma emit_ok b h n t :
  buf_ok b -> t <> [] -> h <> [] -> n <> [] -> (length h + length n + length t <= available b)%nat ->
  exists b', emit b (length h + length n + length t) [h; n; t] = (b', Ret true) /\ buf_ok b' /\ buf_data b' = buf_data b ++ h ++ n ++ t /\
    available b' = (available b - (length h + length n + length t))%nat.
Proof.
  intros Hok Ht Hh Hn Hl. assert (length t <> 0%nat) as Ht' by (by destruct t). assert (length h <> 0%nat) as Hh' by (by destruct h).
  unfold emit. rewrite (proj2 (Nat.ltb_ge _ _)) by done. cbn [fill_parts].
  destruct (fill_all_ok b h Hok Hh) as (b1 & -> & Hok1 & Hd1 & Ha1); [lia..|].
  destruct (fill_all_ok b1 n Hok1 Hn) as (b2 & -> & Hok2 & Hd2 & Ha2); [lia..|].
  destruct (fill_all_ok b2 t Hok2 Ht) as (b3 & -> & Hok3 & Hd3 & Ha3); [lia..|].
  exists b3. split_and!; [done|done|by rewrite Hd3, Hd2, Hd1, <- !app_assoc|lia].
Qed.

Lemma callback64_ok b name ino :
  buf_ok b -> name <> [] ->
  if (available b <? length (record64 (name, ino)))%nat then getdents64_callback b name ino = (b, Ret false)
  else exists b', getdents64_callback b name ino = (b', Ret true) /\ buf_ok b' /\ buf_data b' = buf_data b ++ record64 (name, ino) /\
    available b' = (available b - length (record64 (name, ino)))%nat.
Proof.
  intros Hok Hne. rewrite length_record64. unfold getdents64_callback. cbn [fst snd]. destruct (Nat.ltb_spec (available b) (DIRENT64_SIZE + length name + 1)) as [Hl|Hl].
  - unfold emit. by rewrite (proj2 (Nat.ltb_lt _ _)) by done.
  - pose proof (emit_ok b (dirent64_header ino (DIRENT64_SIZE + length name + 1)) name [0] Hok) as He. rewrite length_header64 in He. simpl length in He.
    apply He; [done| |done|done]. intros Hh. apply (f_equal length) in Hh. by rewrite length_header64 in Hh.
Qed.

(** The longest prefix that fits goes to the buffer. *)
Lemma readdir_loop_ok es b acc :
  buf_ok b -> Forall (fun e : list Z * Z => e.1 <> []) es ->
  exists k b', (k <= length es)%nat /\ readdir_loop getdents64_callback es b acc = (b', Ret (acc + k)%nat) /\ buf_ok b' /\
    buf_data b' = buf_data b ++ concat (record64 <$> take k es) /\
    (forall e, es !! k = Some e -> (available b' < length (record64 e))%nat) /\
    (forall e, head es = Some e -> (length (record64 e) <= available b)%nat -> k <> 0%nat).
Proof.
  revert b acc. induction es as [|[name ino] es IH]; intros b acc Hok Hne; cbn [readdir_loop].
  - exists 0%nat, b. rewrite Nat.add_0_r, app_nil_r. split_and!; done.
  - apply Forall_cons in Hne as [Hn1 Hne]. pose proof (callback64_ok b name ino Hok Hn1) as Hc. destruct (Nat.ltb_spec (available b) (length (record64 (name, ino)))) as [Hl|Hl].
    + rewrite Hc. exists 0%nat, b. rewrite Nat.add_0_r. cbn [take fmap list_fmap concat]. rewrite app_nil_r. split_and!; try done; [lia|..]; intros e [= <-]; [done|intros; lia].
    + destruct Hc as (b1 & -> & Hok1 & Hd1 & Ha1). destruct (IH b1 (S acc) Hok1 Hne) as (k & b' & Hk & -> & Hok' & Hd & Hn & _).
      exists (S k), b'. cbn [take fmap list_fmap concat length]. split_and!; [lia|f_equal; f_equal; lia|done|by rewrite Hd, Hd1, <- app_assoc|done|done].
Qed.

End Fill.

Lemma take_0_data {A} k (l : list A) : k <> 0%nat -> l <> [] -> take k l <> [].
Proof. destruct k, l; done. Qed.

Lemma record64_ne es : es <> [] -> concat (record64 <$> es) <> [].
Proof.
  destruct es as [|e es]; [done|]. intros _ Hc. apply (f_equal length) in Hc. cbn [fmap list_fmap concat length] in Hc. rewrite length_app, length_record64 in Hc. lia.
Qed.

Lemma concat_length_ge es : (length es <= length (concat (record64 <$> es)))%nat.
Proof. induction es as [|e es IH]; cbn [fmap list_fmap concat length]; [lia|]. rewrite length_app, length_record64. lia. Qed.

(** One call with a buffer that holds any record. *)
Lemma getdents64_call i l cursor size :
  i_kind i = KDirectory l -> Forall entry_fits l -> (275 <= size)%nat ->
  exists k b, file_getdents64 i cursor (byte_buffer_new (replicate size 0)) = ((cursor + k)%nat, b, Ret tt) /\
    bb_data b = concat (record64 <$> take k (drop cursor l)) /\ (k = 0%nat <-> drop cursor l = []) /\ (k <= length (drop cursor l))%nat.
Proof.
  intros Ek Hl Hs. set (b := byte_buffer_new (replicate size 0)).
  destruct (readdir_loop_ok (drop cursor l) b 0) as (k & b' & Hk & Hr & _ & Hd & _ & Hfirst); [unfold b; simpl; lia| |].
  { apply Forall_drop. eapply Forall_impl; [exact Hl|]. by intros e (_ & _ & ?). }
  exists k, b'. unfold file_getdents64, getdents_with, do_readdir. rewrite Ek, Hr. split_and!; [done|exact Hd| |done].
  split; [|intros Hz; rewrite Hz in Hk; simpl in Hk; lia]. intros ->. destruct (drop cursor l) as [|e es] eqn:E; [done|]. exfalso. apply (Hfirst e eq_refl); [|done].
  apply (Forall_drop _ cursor) in Hl. rewrite E in Hl. apply Forall_cons in Hl as [[Hlen _] _].
  rewrite length_record64. unfold b, available, DIRENT64_SIZE. simpl. rewrite length_replicate. lia.
Qed.

(** C39: Reading a directory with [getdents64] lists it: whatever the size of the
    buffer, as long as a record with the longest name fits, calling it until it
    returns nothing ends, and decoding the records gives every entry of the
    directory from the cursor on, name and inode, once and in order. *)
Theorem getdents64_roundtrip i l cursor size fuel :
  i_kind i = KDirectory l -> Forall entry_fits l -> (275 <= size)%nat -> (length l - cursor < fuel)%nat ->
  read_directory fuel i cursor size = Some (drop cursor l).
Proof.
  intros Ek Hl Hs. revert cursor. induction fuel as [|fuel IH]; intros cursor Hf; [lia|]. cbn [read_directory].
  destruct (getdents64_call i l cursor size Ek Hl Hs) as (k & b & -> & Hd & Hk & Hle). rewrite Hd.
  assert (Forall entry_fits (take k (drop cursor l))) as Hfits by (by apply Forall_take, Forall_drop).
  destruct (drop cursor l) as [|e es] eqn:E; [by rewrite take_nil|].
  assert (k <> 0%nat) as Hk0 by (intros Hz; by apply Hk in Hz). rewrite <- E in *.
  assert (take k (drop cursor l) <> []) as Hne by (apply take_0_data; [done|by rewrite E]).
  pose proof (record64_ne _ Hne) as Hcne. destruct (concat (record64 <$> take k (drop cursor l))) as [|c d] eqn:Ec; [done|]. rewrite <- Ec.
  rewrite (decode_records64 _ _ Hfits (concat_length_ge _)). rewrite IH; [|rewrite length_drop in Hle; lia]. simpl.
  by rewrite <- drop_drop, take_drop.
Qed.

(** Ten entries of one-letter names, read with a buffer for ten records. *)
Definition demo_entries : list (list Z * Z) := ([DOT], 0) :: ((fun n => ([97 + Z.of_nat n], Z.of_nat n + 1)) <$> seq 0 20).
Definition demo_directory : Inode := mkInode (KDirectory demo_entries) (mode_perm S_IFDIR 0x1ed) 21 1.

Lemma getdents64_roundtrip_witness : read_directory 30 demo_directory 0 275 = Some demo_entries.
Proof.
  rewrite (getdents64_roundtrip demo_directory demo_entries 0 275 30); [done|done| |lia|vm_compute; lia].
  unfold demo_entries, entry_fits, is_u64. repeat constructor; simpl; first [lia|done].
Defined.

(** ** What the cursor misses *)

(** A buffer too small for the first record looks like the end of the directory. *)
Theorem small_buffer_looks_empty : read_directory 30 demo_directory 0 20 = Some [].
Proof. vm_compute. reflexivity. Qed.

(** The cursor counts entries, and removing one moves the later ones down: an
    entry that was there all the time is not listed. *)
Theorem readdir_skips_after_unlink :
  exists i' : Inode, i_kind i' = KDirectory (filter (fun e => e.2 <> 1 \/ e.1 <> [97]) demo_entries) /\
    (file_getdents64 demo_directory 0 (byte_buffer_new (replicate 50 0))).1.1 = 2%nat /\
    read_directory 30 i' 2 275 = Some (drop 3 demo_entries).
Proof. exists (set_entries demo_directory (filter (fun e => e.2 <> 1 \/ e.1 <> [97]) demo_entries) 20). split_and!; vm_compute; reflexivity. Qed.
