(* ===== verification/PageCache.v ===== *)
(** * The page cache

    Models src/kernel/mem/page_cache.rs.

    A cache maps page numbers to cache pages; the file behind it is the trait
    [PageCacheBackend], here a class.  [BackendLaws] states what the cache needs
    of a file system: [read_page] delivers the bytes that are stored, and what
    lies behind the last stored byte reads as zero.  The reference is a file as
    a function from positions to bytes together with its size ([pc_byte]).

    An operation returns its state beside its outcome, so that an error keeps
    what was done before it.  Each holds the mutex of the cache and is one step. *)

From stdpp Require Import sorting.
From S2P Require Import Prelude Address Io.

(** ** Cache pages *)

Record CachePage := mkCachePage { cp_data : list Z; cp_valid : Z; cp_dirty : bool }.

Notation page_len := (Z.to_nat PAGE_SIZE).

Definition new_zeroed : CachePage := mkCachePage (replicate page_len 0) 0 false.
#[global] Arguments new_zeroed : simpl never.

Definition set_valid_size (p : CachePage) (valid_size : Z) : CachePage := mkCachePage (cp_data p) valid_size (cp_dirty p).

(** [valid_data]; the slice panics when the size is out of range. *)
Definition valid_data (p : CachePage) : outcome (list Z) :=
  assert_ (cp_valid p <=? PAGE_SIZE);; Ret (take (Z.to_nat (cp_valid p)) (cp_data p)).

(** Overwrite bytes of the page from [at] on. *)
Definition splice (l : list Z) (at_ : nat) (d : list Z) : list Z := take at_ l ++ d ++ drop (at_ + length d) l.

Definition cache_page_fill (p : CachePage) (data : list Z) : outcome (FillResult * CachePage) :=
  assert_ (cp_valid p <=? PAGE_SIZE);;
  let valid_size := Z.to_nat (cp_valid p) in
  let avail := (page_len - valid_size)%nat in
  if (avail =? 0)%nat then Ret (FFull, p)
  else
    let len := Nat.min (length data) avail in
    let p' := mkCachePage (splice (cp_data p) valid_size (take len data)) (cp_valid p + Z.of_nat len) (cp_dirty p) in
    if (len <? length data)%nat then Ret (FPartial len, p') else Ret (FDone len, p').

#[export] Instance CachePage_Buffer : Buffer CachePage := {
  buf_total _ := page_len;
  buf_wrote p := Z.to_nat (cp_valid p);
  buf_fill := cache_page_fill
}.

(** ** [CachePageStream]: the valid bytes of a page *)

Record CachePageStream := mkCachePageStream { cps_page : CachePage; cps_cur : nat }.

Definition cache_page_stream_new (p : CachePage) : CachePageStream := mkCachePageStream p 0.

Definition cps_drained (s : CachePageStream) : bool := cp_valid (cps_page s) <=? Z.of_nat (cps_cur s).

Definition cps_poll_data (s : CachePageStream) (buflen : nat) : outcome (option (list Z) * CachePageStream) :=
  if cps_drained s then Ret (None, s)
  else
    assert_ (cp_valid (cps_page s) <=? PAGE_SIZE);;
    let page_data := drop (cps_cur s) (take (Z.to_nat (cp_valid (cps_page s))) (cp_data (cps_page s))) in
    let to_read := Nat.min buflen (length page_data) in
    Ret (Some (take to_read page_data), mkCachePageStream (cps_page s) (cps_cur s + to_read)).

Definition cps_ignore (s : CachePageStream) (len : Z) : outcome (option nat * CachePageStream) :=
  if cps_drained s then Ret (None, s)
  else
    let to_ignore := Z.to_nat (Z.min len (cp_valid (cps_page s) - Z.of_nat (cps_cur s))) in
    Ret (Some to_ignore, mkCachePageStream (cps_page s) (cps_cur s + to_ignore)).

(** ** The file behind the cache *)

Class PageCacheBackend (B : Type) := {
  bk_read_page : B -> CachePage -> Z -> outcome (Z * CachePage);
  bk_write_page : B -> CachePageStream -> Z -> outcome (Z * B);
  bk_size : B -> Z
}.

(** [n] cut to what a page can hold. *)
Definition clamp_page (n : Z) : Z := Z.min (Z.max 0 n) PAGE_SIZE.

(** [bk_byte b] are the bytes stored behind the cache, [bk_stored b] their
    number: [read_page] fills a zeroed page with them, and the valid size it
    leaves does not go past the end of the file. *)
Class BackendLaws (B : Type) `{PageCacheBackend B} := {
  bk_byte : B -> Z -> Z;
  bk_stored : B -> Z;
  bk_ok : B -> Prop;
  bk_size_u64 b : bk_ok b -> is_u64 (bk_size b);
  bk_stored_size b : bk_ok b -> bk_stored b <= bk_size b;
  bk_byte_beyond b i : bk_ok b -> bk_stored b <= i -> bk_byte b i = 0;
  bk_read_law b off : bk_ok b -> 0 <= off -> off mod PAGE_SIZE = 0 ->
    exists n pg, bk_read_page b new_zeroed off = Ret (n, pg) /\
      cp_data pg = bk_byte b <$> seqZ off PAGE_SIZE /\
      0 <= cp_valid pg <= clamp_page (bk_size b - off) /\ cp_dirty pg = false
}.

(** ** The operations *)

Notation Pages := (gmap Z CachePage).

Definition page_id_of (offset : Z) : Z := Z.shiftr offset PAGE_SIZE_BITS.

(** [align_down(PAGE_SIZE)]. *)
Definition page_start_of (offset : Z) : Z := offset - offset mod PAGE_SIZE.

Section Cache.
Context {B : Type} `{PageCacheBackend B}.

(** A page that is not in the cache: read from the file, its valid size raised
    to what [size] says. *)
Definition load_page (b : B) (size page_start : Z) : outcome CachePage :=
  '(_, new_page) ← bk_read_page b new_zeroed page_start;
  let valid_size := clamp_page (size - page_start) in
  Ret (if cp_valid new_page <? valid_size then set_valid_size new_page valid_size else new_page).

(** [None]: the fuel was not enough. *)
Fixpoint pc_read_loop `{Buffer F} (fuel : nat) (b : B) (size : Z) (pages : Pages) (buffer : F) (offset : Z) : option (Pages * F * outcome nat) :=
  match fuel with
  | O => None
  | S fuel =>
      if size <=? offset then Some (pages, buffer, Ret (buf_wrote buffer))
      else
        let page_id := page_id_of offset in
        match pages !! page_id with
        | Some page =>
            let inner_offset := offset mod PAGE_SIZE in
            let available_in_file := Z.max 0 (size - offset) in
            match (d ← valid_data page; assert_ (inner_offset <=? Z.of_nat (length d));; Ret (drop (Z.to_nat inner_offset) d)) with
            | Ret page_data =>
                let read_size := Nat.min (length page_data) (Z.to_nat available_in_file) in
                if (read_size =? 0)%nat then Some (pages, buffer, Ret (buf_wrote buffer))
                else
                  match buf_fill buffer (take read_size page_data) with
                  | Ret (r, buffer) =>
                      if should_stop r || (available buffer =? 0)%nat then Some (pages, buffer, Ret (buf_wrote buffer))
                      else pc_read_loop fuel b size pages buffer (wrap64 (offset + Z.of_nat read_size))
                  | Err e => Some (pages, buffer, Err e)
                  | Panic => Some (pages, buffer, Panic)
                  end
            | Err e => Some (pages, buffer, Err e)
            | Panic => Some (pages, buffer, Panic)
            end
        | None =>
            match load_page b size (page_start_of offset) with
            | Ret new_page => pc_read_loop fuel b size (<[page_id := new_page]> pages) buffer offset
            | Err e => Some (pages, buffer, Err e)
            | Panic => Some (pages, buffer, Panic)
            end
        end
  end.

(** Two rounds for each page of the file that is left, and one to end. *)
Definition read_fuel (size offset : Z) : nat := S (2 * Z.to_nat (size / PAGE_SIZE + 1 - offset / PAGE_SIZE)).

Definition pc_read `{Buffer F} (b : B) (pages : Pages) (buffer : F) (offset : Z) : option (Pages * F * outcome nat) :=
  pc_read_loop (read_fuel (bk_size b) offset) b (bk_size b) pages buffer offset.

(** A stream that fails is taken to leave the page as it was. *)
Fixpoint pc_write_loop `{Stream T} (fuel : nat) (b : B) (old_size : Z) (pages : Pages) (stream : T) (offset : Z) (wrote : nat)
    : option (Pages * T * outcome nat) :=
  match fuel with
  | O => None
  | S fuel =>
      let page_id := page_id_of offset in
      match pages !! page_id with
      | Some page =>
          let inner_offset := offset mod PAGE_SIZE in
          match poll_data stream (Z.to_nat (PAGE_SIZE - inner_offset)) with
          | Ret (Some buf, stream) =>
              let cursor_end := inner_offset + Z.of_nat (length buf) in
              let page := mkCachePage (splice (cp_data page) (Z.to_nat inner_offset) buf)
                                      (if cp_valid page <? cursor_end then cursor_end else cp_valid page) true in
              pc_write_loop fuel b old_size (<[page_id := page]> pages) stream
                (wrap64 (offset + (cursor_end - inner_offset))) (wrote + length buf)
          | Ret (None, stream) => Some (pages, stream, Ret wrote)
          | Err e => Some (pages, stream, Err e)
          | Panic => Some (pages, stream, Panic)
          end
      | None =>
          match (if old_size <=? offset then Ret new_zeroed else load_page b old_size (page_start_of offset)) with
          | Ret new_page => pc_write_loop fuel b old_size (<[page_id := new_page]> pages) stream offset wrote
          | Err e => Some (pages, stream, Err e)
          | Panic => Some (pages, stream, Panic)
          end
      end
  end.

(** Two rounds for each page that [len] bytes can touch, and two to end. *)
Definition write_fuel (len : nat) : nat := 2 * (Z.to_nat (Z.of_nat len / PAGE_SIZE) + 3).

Definition pc_write `{Stream T} (fuel : nat) (b : B) (pages : Pages) (stream : T) (offset : Z) : option (Pages * T * outcome nat) :=
  pc_write_loop fuel b (bk_size b) pages stream offset 0.

(** The dirty pages in the order of their numbers; an error ends the loop. *)
Fixpoint fsync_loop (ids : list Z) (b : B) (pages : Pages) : B * Pages * outcome unit :=
  match ids with
  | [] => (b, pages, Ret tt)
  | page_id :: ids =>
      match pages !! page_id with
      | Some page =>
          if cp_dirty page then
            match bk_write_page b (cache_page_stream_new page) (Z.shiftl page_id PAGE_SIZE_BITS) with
            | Ret (_, b) => fsync_loop ids b (<[page_id := mkCachePage (cp_data page) (cp_valid page) false]> pages)
            | Err e => (b, pages, Err e)
            | Panic => (b, pages, Panic)
            end
          else fsync_loop ids b pages
      | None => fsync_loop ids b pages
      end
  end.

Definition pc_fsync (b : B) (pages : Pages) : B * Pages * outcome unit :=
  fsync_loop (merge_sort Z.le (map_to_list pages).*1) b pages.

(** [align_up(PAGE_SIZE)] and the shift. *)
Definition pages_up_to (size : Z) : Z := page_id_of (page_start_of (size + (PAGE_SIZE - 1))).

Definition pc_resize (b : B) (pages : Pages) (new_size : Z) : outcome Pages :=
  let old_size := bk_size b in
  if new_size <? old_size then
    let begin := page_id_of (page_start_of new_size) in
    let end_ := pages_up_to old_size in
    Ret (foldr delete pages (seqZ begin (end_ - begin)))
  else if old_size <? new_size then
    let page_id := page_id_of (page_start_of old_size) in
    match pages !! page_id with
    | Some page =>
        let page_start := Z.shiftl page_id PAGE_SIZE_BITS in
        let valid_size := Z.min (new_size - page_start) PAGE_SIZE in
        let old_valid_size := cp_valid page in
        if old_valid_size <? valid_size then
          Ret (<[page_id := mkCachePage (splice (cp_data page) (Z.to_nat old_valid_size) (replicate (Z.to_nat (valid_size - old_valid_size)) 0))
                                        valid_size (cp_dirty page)]> pages)
        else Ret pages
    | None => Ret pages
    end
  else Ret pages.

(** [with_page]: the page that the closure is called on, if there is one. *)
Definition pc_with_page (b : B) (pages : Pages) (offset : Z) : outcome (option CachePage * Pages) :=
  let offset_align := page_start_of offset in
  let page_id := page_id_of offset_align in
  let size := bk_size b in
  if size <? offset_align then Ret (None, pages)
  else
    match pages !! page_id with
    | Some page => Ret (Some page, pages)
    | None =>
        new_page ← load_page b size offset_align;
        Ret (Some new_page, <[page_id := new_page]> pages)
    end.

End Cache.

(** ** Pages and positions *)

Ltac page_lia := unfold clamp_page, PAGE_SIZE in *; Z.div_mod_to_equations; lia.

Lemma page_id_div o : page_id_of o = o / PAGE_SIZE.
Proof. unfold page_id_of. by rewrite Z.shiftr_div_pow2. Qed.

Lemma page_start_div o : page_start_of o = o / PAGE_SIZE * PAGE_SIZE.
Proof. unfold page_start_of. page_lia. Qed.

Lemma page_shift id : Z.shiftl id PAGE_SIZE_BITS = id * PAGE_SIZE.
Proof. by rewrite Z.shiftl_mul_pow2. Qed.

Lemma page_pos id o : 0 <= o < PAGE_SIZE -> (id * PAGE_SIZE + o) / PAGE_SIZE = id /\ (id * PAGE_SIZE + o) mod PAGE_SIZE = o.
Proof. page_lia. Qed.

Lemma splice_length l n d : (n + length d <= length l)%nat -> length (splice l n d) = length l.
Proof. intros. unfold splice. rewrite !length_app, length_take, length_drop. lia. Qed.

Lemma splice_lookup l n d j :
  (n + length d <= length l)%nat ->
  splice l n d !!! j = if decide (n <= j < n + length d)%nat then d !!! (j - n)%nat else l !!! j.
Proof.
  intros Hl. unfold splice. destruct (decide _) as [Hj|Hj].
  - rewrite lookup_total_app_r by (rewrite length_take; lia). rewrite length_take, Nat.min_l by lia.
    apply lookup_total_app_l. lia.
  - destruct (decide (j < n)%nat).
    + rewrite lookup_total_app_l by (rewrite length_take; lia). by apply lookup_total_take_lt.
    + rewrite lookup_total_app_r by (rewrite length_take; lia). rewrite length_take, Nat.min_l by lia.
      rewrite lookup_total_app_r by lia. rewrite lookup_total_drop. f_equal. lia.
Qed.

(** The bytes [off], ..., [off + n - 1] of a file. *)
Definition file_slice (f : Z -> Z) (off n : Z) : list Z := f <$> seqZ off n.

Lemma file_slice_length f off n : length (file_slice f off n) = Z.to_nat n.
Proof. unfold file_slice. by rewrite length_fmap, length_seqZ. Qed.

Lemma file_slice_ext f g off n : (forall i, off <= i < off + n -> f i = g i) -> file_slice f off n = file_slice g off n.
Proof.
  intros Hfg. unfold file_slice. apply list_fmap_ext. intros j x Hx. apply lookup_seqZ in Hx. apply Hfg. lia.
Qed.

Lemma file_slice_app f off n m : 0 <= n -> 0 <= m -> file_slice f off (n + m) = file_slice f off n ++ file_slice f (off + n) m.
Proof. intros. unfold file_slice. by rewrite seqZ_app, fmap_app by done. Qed.

(** A list is the slice of its own lookups. *)
Lemma slice_of_list (l : list Z) f off a n :
  0 <= a -> 0 <= n -> (Z.to_nat (a + n) <= length l)%nat ->
  (forall j, a <= j < a + n -> l !!! Z.to_nat j = f (off + (j - a))) ->
  take (Z.to_nat n) (drop (Z.to_nat a) l) = file_slice f off n.
Proof.
  intros Ha Hn Hl Hf. apply list_eq_same_length with (n := Z.to_nat n).
  - apply file_slice_length.
  - rewrite length_take, length_drop. lia.
  - intros j x y Hj Hx Hy. rewrite lookup_take_lt in Hx by lia. rewrite lookup_drop in Hx.
    unfold file_slice in Hy. rewrite list_lookup_fmap in Hy.
    rewrite lookup_seqZ_lt in Hy by lia. simpl in Hy. injection Hy as <-.
    apply list_lookup_total_correct in Hx. rewrite <- Hx.
    replace (Z.to_nat a + j)%nat with (Z.to_nat (a + Z.of_nat j)) by lia. rewrite Hf by lia. f_equal. lia.
Qed.

(** ** What a cache stands for *)

Section CacheLaws.
Context {B : Type} `{BackendLaws B}.
Implicit Types (pages : Pages) (b : B) (pg : CachePage) (s : Z).

(** The byte at a position: from the cached page, or from the file. *)
Definition pc_byte pages b (i : Z) : Z :=
  match pages !! (i / PAGE_SIZE) with
  | Some pg => cp_data pg !!! Z.to_nat (i mod PAGE_SIZE)
  | None => bk_byte b i
  end.

(** [pg] has the bytes that are stored. *)
Definition loaded b id pg : Prop := cp_data pg = bk_byte b <$> seqZ (id * PAGE_SIZE) PAGE_SIZE.

(** The cache of a file of size [s]: the valid size of every page is what the
    file has of it, everything past the end is zero, and a page that is not
    dirty holds what is stored. *)
Record pc_ok pages b s : Prop := {
  pco_page id pg : pages !! id = Some pg -> 0 <= id /\ length (cp_data pg) = page_len /\ cp_valid pg = clamp_page (s - id * PAGE_SIZE);
  pco_zero i : 0 <= i -> s <= i -> pc_byte pages b i = 0;
  pco_clean id pg : pages !! id = Some pg -> cp_dirty pg = false -> loaded b id pg
}.

Lemma pc_ok_empty b : bk_ok b -> pc_ok ∅ b (bk_size b).
Proof.
  intros Hb. split; [done| |done]. intros i Hi Hs. unfold pc_byte. rewrite lookup_empty.
  apply bk_byte_beyond; [done|]. pose proof (bk_stored_size b Hb). lia.
Qed.

Lemma pc_byte_at pages b id pg j :
  pages !! id = Some pg -> 0 <= j < PAGE_SIZE -> pc_byte pages b (id * PAGE_SIZE + j) = cp_data pg !!! Z.to_nat j.
Proof. intros Hp Hj. unfold pc_byte. destruct (page_pos id j Hj) as [-> ->]. by rewrite Hp. Qed.

Lemma pc_byte_insert pages b id pg i :
  pc_byte (<[id := pg]> pages) b i =
  if decide (i / PAGE_SIZE = id) then cp_data pg !!! Z.to_nat (i mod PAGE_SIZE) else pc_byte pages b i.
Proof.
  unfold pc_byte. case_decide as Hi; [by rewrite Hi, lookup_insert_eq|by rewrite lookup_insert_ne].
Qed.

Lemma loaded_length b id pg : loaded b id pg -> length (cp_data pg) = page_len.
Proof. intros ->. by rewrite length_fmap, length_seqZ. Qed.

Lemma loaded_byte b id pg j : loaded b id pg -> 0 <= j < PAGE_SIZE -> cp_data pg !!! Z.to_nat j = bk_byte b (id * PAGE_SIZE + j).
Proof.
  intros -> Hj. apply list_lookup_total_correct. rewrite list_lookup_fmap, lookup_seqZ_lt by lia. simpl. f_equal. f_equal. lia.
Qed.

Lemma pc_byte_loaded pages b id pg i :
  pages !! id = None -> loaded b id pg -> pc_byte (<[id := pg]> pages) b i = pc_byte pages b i.
Proof.
  intros Hn Hl. rewrite pc_byte_insert. case_decide as Hi; [|done]. unfold pc_byte. rewrite Hi, Hn.
  rewrite (loaded_byte b id) by (done || page_lia). f_equal. page_lia.
Qed.

Lemma pc_ok_loaded pages b s id pg :
  pc_ok pages b s -> pages !! id = None -> 0 <= id -> loaded b id pg -> cp_valid pg = clamp_page (s - id * PAGE_SIZE) ->
  pc_ok (<[id := pg]> pages) b s.
Proof.
  intros [Hp Hz Hc] Hn Hid Hl Hv. split.
  - intros id' pg' [[<- <-]|[_ Hl']]%lookup_insert_Some; [|by apply Hp]. split; [done|]. split; [by eapply loaded_length|done].
  - intros i Hi Hs. rewrite (pc_byte_loaded pages b id pg i Hn Hl). by apply Hz.
  - intros id' pg' [[<- <-]|[_ Hl']]%lookup_insert_Some; [done|by apply Hc].
Qed.

Lemma load_page_ok b o :
  bk_ok b -> 0 <= o ->
  exists pg, load_page b (bk_size b) (page_start_of o) = Ret pg /\ loaded b (o / PAGE_SIZE) pg /\
    cp_valid pg = clamp_page (bk_size b - o / PAGE_SIZE * PAGE_SIZE) /\ cp_dirty pg = false.
Proof.
  intros Hb Ho. rewrite page_start_div.
  destruct (bk_read_law b (o / PAGE_SIZE * PAGE_SIZE) Hb ltac:(page_lia) ltac:(page_lia)) as (n & pg & Hr & Hd & Hv & Hdi).
  unfold load_page. rewrite Hr. simpl. destruct (Z.ltb_spec (cp_valid pg) (clamp_page (bk_size b - o / PAGE_SIZE * PAGE_SIZE))).
  - eexists. split; [done|]. done.
  - exists pg. split; [done|]. split; [done|]. split; [lia|done].
Qed.

(** ** Reading *)

Lemma valid_slice pages b s id pg o :
  pc_ok pages b s -> pages !! id = Some pg -> 0 <= o < PAGE_SIZE -> id * PAGE_SIZE + o < s ->
  exists d, valid_data pg = Ret d /\ o <= Z.of_nat (length d) /\
    drop (Z.to_nat o) d = file_slice (pc_byte pages b) (id * PAGE_SIZE + o) (Z.min (PAGE_SIZE - o) (s - (id * PAGE_SIZE + o))).
Proof.
  intros [Hp _ _] Hpg Ho Hs. destruct (Hp id pg Hpg) as (Hid & Hlen & Hv). unfold valid_data.
  assert (cp_valid pg = Z.min (s - id * PAGE_SIZE) PAGE_SIZE) as Ev by page_lia.
  destruct (Z.leb_spec (cp_valid pg) PAGE_SIZE); [|page_lia]. simpl. eexists. split; [done|].
  rewrite length_take, Hlen. split; [page_lia|].
  replace (Z.min (PAGE_SIZE - o) (s - (id * PAGE_SIZE + o))) with (cp_valid pg - o) by page_lia.
  rewrite skipn_firstn_comm. replace (Z.to_nat (cp_valid pg) - Z.to_nat o)%nat with (Z.to_nat (cp_valid pg - o)) by page_lia.
  apply slice_of_list; [lia|page_lia|rewrite Hlen; page_lia|]. intros j Hj.
  rewrite <- (pc_byte_at pages b id pg) by (done || page_lia). f_equal. lia.
Qed.

(** The rounds the loop may still need. *)
Definition read_rounds pages s offset : nat :=
  if s <=? offset then 1
  else 2 * Z.to_nat (s / PAGE_SIZE + 1 - offset / PAGE_SIZE) + (if pages !! (offset / PAGE_SIZE) is Some _ then 0 else 1).

Lemma take_slice_app (f : Z -> Z) off n m k :
  0 <= n -> 0 <= m -> take k (file_slice f off (n + m)) = take k (file_slice f off n) ++ take (k - Z.to_nat n) (file_slice f (off + n) m).
Proof. intros. rewrite file_slice_app by done. by rewrite firstn_app, file_slice_length. Qed.

(** One fill of the buffer: it stops, or the buffer goes on right behind. *)
Lemma fill_slice `{BufferLaws F} (buffer : F) f off n m :
  buf_ok buffer -> 0 < n -> 0 <= m ->
  exists r buffer', buf_fill buffer (file_slice f off n) = Ret (r, buffer') /\ buf_ok buffer' /\ buf_total buffer' = buf_total buffer /\
    (should_stop r || (available buffer' =? 0)%nat = true ->
       buf_data buffer' = buf_data buffer ++ take (available buffer) (file_slice f off (n + m))) /\
    (should_stop r || (available buffer' =? 0)%nat = false ->
       buf_data buffer' ++ take (available buffer') (file_slice f (off + n) m) = buf_data buffer ++ take (available buffer) (file_slice f off (n + m))).
Proof.
  intros Hok Hn Hm. destruct (buf_fill_law buffer (file_slice f off n) Hok) as (r & b' & E & Hok' & Ht & Hd & Ha & Hs).
  exists r, b'. split; [done|]. split; [done|]. split; [done|].
  assert (available b' = available buffer - Z.to_nat n)%nat as Eav.
  { pose proof (buf_wrote_data b' Hok') as Hw'. pose proof (buf_wrote_data buffer Hok) as Hw. unfold available in *.
    rewrite Hd, length_app, length_take, file_slice_length in Hw'. lia. }
  rewrite file_slice_length in Hs. specialize (Hs ltac:(intros Hz; apply (f_equal length) in Hz; rewrite file_slice_length in Hz; simpl in Hz; lia)).
  rewrite take_slice_app by lia. rewrite Hd, Eav. split.
  - intros Hst. assert ((available buffer - Z.to_nat n = 0)%nat) as ->; [|by rewrite take_0, app_nil_r].
    apply orb_true_iff in Hst as [Hst|Hst%Nat.eqb_eq]; [|lia]. destruct (decide (available buffer <> 0%nat /\ (Z.to_nat n <= available buffer)%nat)) as [Hc|Hc]; [|lia].
    apply Hs in Hc. congruence.
  - intros _. by rewrite app_assoc.
Qed.

Lemma pc_read_loop_ok `{BufferLaws F} fuel b pages (buffer : F) offset :
  let s := bk_size b in
  bk_ok b -> pc_ok pages b s -> buf_ok buffer -> 0 <= offset -> (read_rounds pages s offset <= fuel)%nat ->
  exists pages' buffer', pc_read_loop fuel b s pages buffer offset = Some (pages', buffer', Ret (buf_wrote buffer')) /\
    pc_ok pages' b s /\ (forall i, pc_byte pages' b i = pc_byte pages b i) /\ buf_ok buffer' /\ buf_total buffer' = buf_total buffer /\
    buf_data buffer' = buf_data buffer ++ take (available buffer) (file_slice (pc_byte pages b) offset (s - offset)).
Proof.
  intros s Hb. revert pages buffer offset. induction fuel as [|fuel IH]; intros pages buffer offset Hpc Hbuf Ho Hf.
  { unfold read_rounds in Hf. destruct (Z.leb_spec s offset); [lia|]. destruct (pages !! _); page_lia. }
  simpl. unfold read_rounds in Hf. destruct (Z.leb_spec s offset) as [Hs|Hs].
  { exists pages, buffer. do 4 (split; [done|]). split; [done|]. unfold file_slice. rewrite seqZ_nil by lia. by rewrite firstn_nil, app_nil_r. }
  rewrite page_id_div. destruct (pages !! (offset / PAGE_SIZE)) as [page|] eqn:Ep; rewrite ?Ep in Hf.
  - set (o := offset mod PAGE_SIZE). assert (offset = offset / PAGE_SIZE * PAGE_SIZE + o /\ 0 <= o < PAGE_SIZE) as [Eo Hob] by (unfold o; page_lia).
    destruct (valid_slice pages b s (offset / PAGE_SIZE) page o Hpc Ep Hob ltac:(lia)) as (d & Ed & Hd & Esl). rewrite <- Eo in Esl.
    rewrite Ed. cbn [mbind outcome_bind]. destruct (Z.leb_spec o (Z.of_nat (length d))); [|lia]. cbn [assert_ mbind outcome_bind].
    set (n := Z.min (PAGE_SIZE - o) (s - offset)) in *. assert (0 < n <= s - offset) as Hn by lia.
    rewrite Esl, file_slice_length. rewrite Nat.min_l by lia. destruct (Nat.eqb_spec (Z.to_nat n) 0); [lia|].
    rewrite firstn_all2 by (rewrite file_slice_length; lia).
    destruct (fill_slice buffer (pc_byte pages b) offset n (s - offset - n) Hbuf ltac:(lia) ltac:(lia)) as (r & b' & E & Hok' & Ht & Hst & Hgo).
    rewrite E. replace (n + (s - offset - n)) with (s - offset) in Hst, Hgo by lia. destruct (should_stop r || (available b' =? 0)%nat).
    + exists pages, b'. do 5 (split; [done|]). by apply Hst.
    + specialize (Hgo eq_refl). pose proof (bk_size_u64 b Hb) as Hu. fold s in Hu. unfold is_u64 in Hu.
      rewrite Z2Nat.id by lia. rewrite wrap64_small by (unfold is_u64; lia).
      destruct (IH pages b' (offset + n) Hpc Hok' ltac:(lia)) as (p2 & b2 & E2 & ? & ? & ? & Ht2 & Hd2).
      { unfold read_rounds. unfold n in *. destruct (Z.leb_spec s (offset + Z.min (PAGE_SIZE - o) (s - offset))); [page_lia|].
        assert ((offset + Z.min (PAGE_SIZE - o) (s - offset)) / PAGE_SIZE = offset / PAGE_SIZE + 1) as -> by page_lia.
        destruct (pages !! (offset / PAGE_SIZE + 1)); page_lia. }
      exists p2, b2. do 4 (split; [done|]). split; [lia|]. rewrite Hd2, <- Hgo. do 3 f_equal. lia.
  - destruct (load_page_ok b offset Hb Ho) as (pg & El & Hl & Hv & _). fold s in El, Hv. rewrite El.
    destruct (IH (<[offset / PAGE_SIZE := pg]> pages) buffer offset) as (p2 & b2 & E2 & ? & Hb2 & ? & ? & Hd2); [|done|done| |].
    + apply pc_ok_loaded; [done..|page_lia|done|done].
    + unfold read_rounds. destruct (Z.leb_spec s offset); [lia|]. rewrite lookup_insert_eq. lia.
    + exists p2, b2. split; [done|]. split; [done|].
      split; [intros i; by rewrite Hb2, (pc_byte_loaded pages b (offset / PAGE_SIZE) pg i)|]. split; [done|]. split; [done|]. rewrite Hd2. do 2 f_equal.
      apply file_slice_ext. intros i _. by apply pc_byte_loaded.
Qed.

Lemma pc_read_ok `{BufferLaws F} b pages (buffer : F) offset :
  let s := bk_size b in
  bk_ok b -> pc_ok pages b s -> buf_ok buffer -> 0 <= offset ->
  exists pages' buffer', pc_read b pages buffer offset = Some (pages', buffer', Ret (buf_wrote buffer')) /\
    pc_ok pages' b s /\ (forall i, pc_byte pages' b i = pc_byte pages b i) /\ buf_ok buffer' /\ buf_total buffer' = buf_total buffer /\
    buf_data buffer' = buf_data buffer ++ take (available buffer) (file_slice (pc_byte pages b) offset (s - offset)).
Proof.
  intros s Hb Hpc Hbuf Ho. apply pc_read_loop_ok; [done..|]. unfold read_rounds, read_fuel. fold s.
  destruct (s <=? offset); [lia|]. destruct (pages !! _); lia.
Qed.

(** ** Writing *)

(** Bytes [d] written at [offset]. *)
Definition file_write (f : Z -> Z) (offset : Z) (d : list Z) (i : Z) : Z :=
  if decide (offset <= i < offset + Z.of_nat (length d)) then d !!! Z.to_nat (i - offset) else f i.

(** The page [page], in the cache or about to be put there, gets [d]. *)
Lemma write_page_ok pages b s id page o d :
  pc_ok pages b s -> 0 <= id -> 0 <= o -> o + Z.of_nat (length d) <= PAGE_SIZE -> d <> [] ->
  (pages !! id = Some page \/
   (pages !! id = None /\ loaded b id page /\ (cp_valid page = clamp_page (s - id * PAGE_SIZE) \/ (cp_valid page = 0 /\ s <= id * PAGE_SIZE + o)))) ->
  (forall id', s / PAGE_SIZE <= id' < id -> pages !! id' = None) ->
  let off := id * PAGE_SIZE + o in let e := o + Z.of_nat (length d) in
  let pages' := <[id := mkCachePage (splice (cp_data page) (Z.to_nat o) d) (if cp_valid page <? e then e else cp_valid page) true]> pages in
  pc_ok pages' b (Z.max s (off + Z.of_nat (length d))) /\ (forall i, pc_byte pages' b i = file_write (pc_byte pages b) off d i).
Proof.
  intros Hpc Hid Ho Hlen Hd Hpage Hhole off e pages'. assert (0 < Z.of_nat (length d)) as Hdl by (destruct d; [done|simpl; lia]).
  assert (length (cp_data page) = page_len) as Hpl.
  { destruct Hpage as [Hp|(_ & Hl & _)]; [by apply (pco_page _ _ _ Hpc id)|by eapply loaded_length]. }
  assert (forall j, 0 <= j < PAGE_SIZE -> cp_data page !!! Z.to_nat j = pc_byte pages b (id * PAGE_SIZE + j)) as Hbyte.
  { intros j Hj. destruct Hpage as [Hp|(Hn & Hl & _)]; [by rewrite (pc_byte_at pages b id page)|].
    rewrite (loaded_byte b id) by done. unfold pc_byte. destruct (page_pos id j Hj) as [-> _]. by rewrite Hn. }
  assert (forall i, pc_byte pages' b i = file_write (pc_byte pages b) off d i) as Hf.
  { intros i. unfold pages'. rewrite pc_byte_insert. unfold file_write, off. case_decide as Hi; [|rewrite decide_False by page_lia; done].
    simpl. rewrite splice_lookup by (rewrite Hpl; page_lia).
    destruct (decide (id * PAGE_SIZE + o <= i < id * PAGE_SIZE + o + Z.of_nat (length d))) as [Hr|Hr].
    - rewrite decide_True by page_lia. f_equal. page_lia.
    - rewrite decide_False by page_lia. rewrite Hbyte by page_lia. f_equal. page_lia. }
  split; [|done]. split.
  - intros id' pg' [[<- <-]|[Hne Hl']]%lookup_insert_Some; simpl.
    + split; [done|]. split; [rewrite splice_length by (rewrite Hpl; page_lia); done|]. unfold e, off in *.
      assert (cp_valid page = clamp_page (s - id * PAGE_SIZE) \/ (cp_valid page = 0 /\ s <= id * PAGE_SIZE + o)) as Hv.
      { destruct Hpage as [Hp|(_ & _ & Hv)]; [left; by apply (pco_page _ _ _ Hpc id)|done]. }
      zcase; page_lia.
    + destruct (pco_page _ _ _ Hpc id' pg' Hl') as (H1 & H2 & H3). split; [done|]. split; [done|]. rewrite H3. unfold off.
      destruct (decide (s / PAGE_SIZE <= id' < id)) as [Hh|Hh]; [rewrite Hhole in Hl' by done; done|]. page_lia.
  - intros i Hi Hs. rewrite Hf. unfold file_write. rewrite decide_False by lia. apply (pco_zero _ _ _ Hpc); lia.
  - intros id' pg' [[<- <-]|[Hne Hl']]%lookup_insert_Some; [done|]. by apply (pco_clean _ _ _ Hpc).
Qed.

Lemma file_write_nil f off i : file_write f off [] i = f i.
Proof. unfold file_write. rewrite decide_False; [done|]. simpl. lia. Qed.

Lemma file_write_app f off d1 d2 i :
  file_write (file_write f off d1) (off + Z.of_nat (length d1)) d2 i = file_write f off (d1 ++ d2) i.
Proof.
  unfold file_write. rewrite length_app.
  destruct (decide (off + Z.of_nat (length d1) <= i < off + Z.of_nat (length d1) + Z.of_nat (length d2))).
  - rewrite decide_True by lia. rewrite lookup_total_app_r by lia. f_equal. lia.
  - case_decide; [rewrite decide_True by lia; symmetry; apply lookup_total_app_l; lia|rewrite decide_False by lia; done].
Qed.

Lemma file_write_ext f g off d i : f i = g i -> file_write f off d i = file_write g off d i.
Proof. unfold file_write. by case_decide. Qed.

(** The states the loop of [write] goes through: the file is complete up to
    [s]; behind its old end no cached page lies before the one to be written;
    and a page that will be made without reading the file has nothing in it. *)
Record write_inv pages b s offset (d : list Z) : Prop := {
  wi_ok : pc_ok pages b s;
  wi_off : 0 <= offset;
  wi_size : s = bk_size b \/ (s = offset /\ bk_size b <= offset);
  wi_hole id : s / PAGE_SIZE <= id < offset / PAGE_SIZE -> pages !! id = None;
  wi_new : pages !! (offset / PAGE_SIZE) = None -> bk_size b <= offset ->
    bk_stored b <= offset / PAGE_SIZE * PAGE_SIZE /\ (d <> [] \/ s <= offset / PAGE_SIZE * PAGE_SIZE)
}.

(** The page the next bytes go to. *)
Definition write_target pages b offset : outcome CachePage :=
  match pages !! (offset / PAGE_SIZE) with
  | Some page => Ret page
  | None => if bk_size b <=? offset then Ret new_zeroed else load_page b (bk_size b) (page_start_of offset)
  end.

Lemma write_target_ok pages b s offset d :
  bk_ok b -> write_inv pages b s offset d ->
  exists page, write_target pages b offset = Ret page /\
    (pages !! (offset / PAGE_SIZE) = Some page \/
     (pages !! (offset / PAGE_SIZE) = None /\ loaded b (offset / PAGE_SIZE) page /\
      (cp_valid page = clamp_page (s - offset / PAGE_SIZE * PAGE_SIZE) \/ (cp_valid page = 0 /\ s <= offset)) /\
      (d = [] -> cp_valid page = clamp_page (s - offset / PAGE_SIZE * PAGE_SIZE)))).
Proof.
  intros Hb [Hok Ho Hs Hh Hn]. unfold write_target. destruct (pages !! (offset / PAGE_SIZE)) as [page|]; [eauto|].
  destruct (Z.leb_spec (bk_size b) offset) as [Hle|Hlt].
  - destruct (Hn eq_refl Hle) as [Hst Hd]. exists new_zeroed. split; [done|]. right. split; [done|]. split; [|split].
    + unfold loaded. symmetry. change (cp_data new_zeroed) with (replicate page_len 0). apply list_eq_same_length with (n := page_len); [apply length_replicate|by rewrite length_fmap, length_seqZ|].
      intros j x y Hj Hx Hy. apply lookup_replicate_1 in Hy as [-> _]. rewrite list_lookup_fmap, lookup_seqZ_lt in Hx by lia. simpl in Hx. injection Hx as <-.
      apply bk_byte_beyond; [done|lia].
    + right. split; [done|]. lia.
    + intros ->. change (cp_valid new_zeroed) with 0. destruct Hd; [done|page_lia].
  - destruct (load_page_ok b offset Hb Ho) as (pg & -> & Hl & Hv & _). exists pg. split; [done|]. right. assert (s = bk_size b) as -> by lia. auto.
Qed.

(** One round (or two, with the page put into the cache) of the loop. *)
Lemma pc_write_round `{Stream T} b pages (stream : T) offset wrote page :
  write_target pages b offset = Ret page ->
  exists k, (k <= 1)%nat /\ forall fuel, pc_write_loop (k + fuel) b (bk_size b) pages stream offset wrote =
    pc_write_loop fuel b (bk_size b) (<[offset / PAGE_SIZE := page]> pages) stream offset wrote.
Proof.
  unfold write_target. intros Ht. destruct (pages !! (offset / PAGE_SIZE)) as [page'|] eqn:Ep.
  - injection Ht as ->. exists 0%nat. split; [lia|]. intros fuel. by rewrite insert_id.
  - exists 1%nat. split; [lia|]. intros fuel. simpl. rewrite page_id_div, Ep, Ht. done.
Qed.

Lemma write_inv_next pages b s offset d1 d2 page :
  d1 <> [] -> bk_ok b -> write_inv pages b s offset (d1 ++ d2) -> write_target pages b offset = Ret page ->
  let o := offset mod PAGE_SIZE in let e := o + Z.of_nat (length d1) in e <= PAGE_SIZE -> (d2 <> [] -> e = PAGE_SIZE) ->
  let pages' := <[offset / PAGE_SIZE := mkCachePage (splice (cp_data page) (Z.to_nat o) d1) (if cp_valid page <? e then e else cp_valid page) true]> pages in
  let off' := offset + Z.of_nat (length d1) in
  write_inv pages' b (Z.max s off') off' d2 /\ (forall i, pc_byte pages' b i = file_write (pc_byte pages b) offset d1 i).
Proof.
  intros Hd1 Hb Hinv Ht o e He He2 pages' off'. pose proof Hinv as [Hok Ho Hs Hh Hn].
  assert (0 < Z.of_nat (length d1)) as Hdl by (destruct d1; [done|simpl; lia]).
  assert (offset = offset / PAGE_SIZE * PAGE_SIZE + o /\ 0 <= o < PAGE_SIZE) as [Eo Hob] by (unfold o; page_lia).
  destruct (write_target_ok pages b s offset (d1 ++ d2) Hb Hinv) as (page' & Et & Hcase). rewrite Ht in Et. injection Et as <-.
  destruct (write_page_ok pages b s (offset / PAGE_SIZE) page o d1 Hok ltac:(page_lia) ltac:(lia) ltac:(unfold e in He; lia) Hd1) as [Hok' Hf].
  { destruct Hcase as [?|(? & ? & [?|[? ?]] & _)]; [by left|right; auto|right; rewrite <- Eo; auto]. }
  { done. }
  fold e pages' in Hok', Hf. rewrite <- Eo in Hok', Hf. split; [|done]. split; [done|lia| | |].
  - unfold off'. lia.
  - intros id Hid. unfold off' in *. page_lia.
  - intros Hnone Hle. unfold off', pages', e in *. destruct (decide (o + Z.of_nat (length d1) = PAGE_SIZE)).
    + pose proof (bk_stored_size b Hb). split; [page_lia|right; page_lia].
    + exfalso. replace ((offset + Z.of_nat (length d1)) / PAGE_SIZE) with (offset / PAGE_SIZE) in Hnone by page_lia. by rewrite lookup_insert_eq in Hnone.
Qed.

Lemma pc_write_loop_ok `{StreamLaws T} b (Hb : bk_ok b) k : forall fuel pages (stream : T) offset wrote s,
  st_ok stream -> write_inv pages b s offset (st_rest stream) -> offset + Z.of_nat (length (st_rest stream)) < 2 ^ 64 ->
  (st_rest stream = [] \/ offset mod PAGE_SIZE + Z.of_nat (length (st_rest stream)) <= Z.of_nat k * PAGE_SIZE) -> (2 * k + 2 <= fuel)%nat ->
  let d := st_rest stream in
  exists pages' stream', pc_write_loop fuel b (bk_size b) pages stream offset wrote = Some (pages', stream', Ret (wrote + length d)%nat) /\
    pc_ok pages' b (if decide (d = []) then s else Z.max s (offset + Z.of_nat (length d))) /\
    (forall i, pc_byte pages' b i = file_write (pc_byte pages b) offset d i).
Proof.
  induction k as [|k IH]; intros fuel pages stream offset wrote s Hst Hinv Hu Hk Hf d.
  all: destruct (write_target_ok _ _ _ _ _ Hb Hinv) as (page & Ht & Hcase); destruct (pc_write_round b pages stream offset wrote page Ht) as (j & Hj & Ej).
  all: assert (0 <= offset) as Ho by apply Hinv; set (o := offset mod PAGE_SIZE) in *; assert (0 <= o < PAGE_SIZE) as Hob by (unfold o; clear -Ho; page_lia).
  all: destruct (st_poll_law stream (Z.to_nat (PAGE_SIZE - o)) Hst ltac:(lia)) as (stream' & Ep & Hst' & Er).
  all: replace fuel with (j + S (fuel - j - 1))%nat by lia; rewrite Ej; cbn [pc_write_loop]; rewrite page_id_div, lookup_insert_eq; fold o; rewrite Ep.
  all: destruct (decide (d = [])) as [Ed|Ed]; [|try (exfalso; subst d; destruct Hk; [done|]; destruct (st_rest stream); simpl in *; [done|lia])].
  1, 2: subst d; rewrite Ed; exists (<[offset / PAGE_SIZE := page]> pages), stream'; rewrite Nat.add_0_r; split; [done|].
  1, 2: destruct Hcase as [Hp|(Hn & Hl & _ & Hv)]; [rewrite insert_id by done; split; [apply Hinv|intros; by rewrite file_write_nil]|].
  1, 2: split; [apply pc_ok_loaded; [apply Hinv|done|clear -Ho; page_lia|done|by apply Hv]|intros i; rewrite file_write_nil; by apply pc_byte_loaded].
  set (n := Z.to_nat (PAGE_SIZE - o)) in *. assert (st_rest stream = take n d ++ drop n d) as Esp by (by rewrite take_drop).
  assert (take n d <> []) as Hne by (destruct d; [done|]; unfold n; destruct (Z.to_nat (PAGE_SIZE - o)) eqn:?; [lia|done]).
  replace (match st_rest stream with [] => None | _ => Some (take n (st_rest stream)) end) with (Some (take n d)) by (unfold d in *; destruct (st_rest stream); done).
  rewrite Esp in Hinv. destruct (write_inv_next pages b s offset (take n d) (drop n d) page Hne Hb Hinv Ht) as [Hinv' Hf'].
  { fold o. rewrite length_take. unfold n. lia. }
  { fold o. intros Hd2. rewrite length_take. assert (length (drop n d) <> 0%nat) as Hl by (by destruct (drop n d)). rewrite length_drop in Hl. unfold n in *. lia. }
  fold o in Hinv', Hf'. rewrite insert_insert_eq. replace (offset + (o + Z.of_nat (length (take n d)) - o)) with (offset + Z.of_nat (length (take n d))) by lia.
  rewrite wrap64_small by (unfold is_u64; rewrite length_take; fold d in Hu; lia).
  destruct (IH (fuel - j - 1)%nat _ stream' (offset + Z.of_nat (length (take n d))) (wrote + length (take n d))%nat _ Hst' ltac:(rewrite Er; exact Hinv')) as (p2 & st2 & E2 & Hok2 & Hf2).
  { rewrite Er. fold d. rewrite length_take, length_drop. fold d in Hu. lia. }
  { rewrite Er. fold d. destruct (decide (drop n d = [])) as [|Hd2]; [by left|right]. destruct Hk as [|Hk]; [done|]. fold d in Hk.
    assert (length (drop n d) <> 0%nat) as Hl by (by destruct (drop n d)). rewrite length_drop in Hl |- *. rewrite length_take.
    assert ((offset + Z.of_nat (n `min` length d)) mod PAGE_SIZE = 0) as ->; [|unfold n in *; lia].
    replace (n `min` length d)%nat with n by lia. unfold n. rewrite Z2Nat.id by lia. unfold o. clear -Ho. page_lia. }
  { lia. }
  fold d in Er. rewrite Er in E2, Hok2, Hf2. exists p2, st2. split; [|split].
  - rewrite E2. do 3 f_equal. rewrite length_take, length_drop. lia.
  - assert ((if decide (drop n d = []) then Z.max s (offset + Z.of_nat (length (take n d))) else
             Z.max (Z.max s (offset + Z.of_nat (length (take n d)))) (offset + Z.of_nat (length (take n d)) + Z.of_nat (length (drop n d)))) = Z.max s (offset + Z.of_nat (length d))) as <-; [|done].
    assert (length d = length (take n d) + length (drop n d))%nat as -> by (rewrite length_take, length_drop; lia).
    case_decide as Hd2; [rewrite Hd2; simpl; lia|lia].
  - intros i. rewrite Hf2. rewrite (file_write_ext _ _ _ _ i (Hf' i)), file_write_app. by rewrite take_drop.
Qed.

(** When a write at [offset] is a write to the file: no cached page lies
    between the end of the file and the page that is written, and a page that
    is made without reading the file had nothing stored in it. *)
Definition write_safe pages b offset : Prop :=
  (forall id, bk_size b / PAGE_SIZE <= id < offset / PAGE_SIZE -> pages !! id = None) /\
  (pages !! (offset / PAGE_SIZE) = None -> bk_size b <= offset -> bk_stored b <= offset / PAGE_SIZE * PAGE_SIZE).

Lemma pc_write_ok `{StreamLaws T} b pages (stream : T) offset :
  let d := st_rest stream in
  st_ok stream -> bk_ok b -> pc_ok pages b (bk_size b) -> d <> [] -> 0 <= offset -> offset + Z.of_nat (length d) < 2 ^ 64 -> write_safe pages b offset ->
  exists pages' stream', pc_write (write_fuel (length d)) b pages stream offset = Some (pages', stream', Ret (length d)) /\
    pc_ok pages' b (Z.max (bk_size b) (offset + Z.of_nat (length d))) /\
    (forall i, pc_byte pages' b i = file_write (pc_byte pages b) offset d i).
Proof.
  intros d Hst Hb Hok Hd Ho Hu [Hh Hn].
  destruct (pc_write_loop_ok b Hb (Z.to_nat (Z.of_nat (length d) / PAGE_SIZE + 2)) (write_fuel (length d)) pages stream offset 0 (bk_size b)) as (p & st & E & Hp & Hf); [done|..].
  - split; [done|done|by left|done|]. intros H1' H2'. split; [by apply Hn|by left].
  - done.
  - right. fold d. page_lia.
  - unfold write_fuel. page_lia.
  - exists p, st. split; [exact E|]. fold d in Hp. rewrite decide_False in Hp by done. done.
Qed.

(** ** Changing the size *)

Lemma foldr_delete_lookup pages ids id : foldr delete pages ids !! id = if decide (id ∈ ids) then None else pages !! id.
Proof.
  induction ids as [|x ids IH]; cbn [foldr]; [by rewrite decide_False by apply not_elem_of_nil|].
  destruct (decide (id = x)) as [->|Hne]; [rewrite lookup_delete_eq, decide_True by set_solver; done|].
  rewrite lookup_delete_ne, IH by done. destruct (decide (id ∈ ids)); [rewrite decide_True by set_solver|rewrite decide_False by set_solver]; done.
Qed.

(** The file system has cut its part of the file off at [n], or extended it with zeros. *)
Definition backend_resized b b' (n : Z) : Prop :=
  bk_ok b' /\ bk_size b' = n /\ forall i, 0 <= i -> bk_byte b' i = if decide (i < n) then bk_byte b i else 0.

(** What the pages that are dropped had before [n] is stored. *)
Definition shrink_safe pages b (n : Z) : Prop :=
  forall i, n / PAGE_SIZE * PAGE_SIZE <= i < n -> pc_byte pages b i = bk_byte b i.

(** No cached page lies behind the one with the end of the file. *)
Definition grow_safe pages b (n : Z) : Prop :=
  forall id, bk_size b / PAGE_SIZE < id -> id * PAGE_SIZE < n -> pages !! id = None.

Lemma pc_shrink_ok b b' pages n :
  bk_ok b -> pc_ok pages b (bk_size b) -> 0 <= n < bk_size b -> shrink_safe pages b n -> backend_resized b b' n ->
  exists pages', pc_resize b pages n = Ret pages' /\ pc_ok pages' b' n /\
    (forall i, 0 <= i < n -> pc_byte pages' b' i = pc_byte pages b i).
Proof.
  intros Hb [Hp Hz Hc] Hn Hsafe (Hb' & Hs' & Hbyte). unfold pc_resize. destruct (Z.ltb_spec n (bk_size b)); [|lia].
  eexists. split; [done|]. set (ids := seqZ _ _). assert (forall id, id ∈ ids <-> n / PAGE_SIZE <= id /\ id * PAGE_SIZE < bk_size b) as Hids.
  { intros id. unfold ids, pages_up_to. rewrite elem_of_seqZ, !page_id_div, !page_start_div, !Z.div_mul by done. clear -Hn. page_lia. }
  assert (forall i, 0 <= i -> pc_byte (foldr delete pages ids) b' i = if decide (i < n) then pc_byte pages b i else 0) as Hf.
  { intros i Hi. unfold pc_byte. rewrite foldr_delete_lookup. destruct (decide (i / PAGE_SIZE ∈ ids)) as [Hin|Hin].
    - rewrite Hbyte by done. case_decide as Hlt; [|done]. apply Hids in Hin. symmetry. apply (Hsafe i). clear -Hin Hlt. page_lia.
    - destruct (pages !! (i / PAGE_SIZE)) as [pg|] eqn:Epg; [|rewrite Hbyte by done; done]. case_decide as Hlt; [done|].
      rewrite Hids in Hin. assert (bk_size b <= i) as Hbig by (clear -Hin Hlt Hn; page_lia). specialize (Hz i Hi Hbig). unfold pc_byte in Hz. by rewrite Epg in Hz. }
  split; [|intros i Hi; rewrite Hf by lia; by rewrite decide_True by lia]. split.
  - intros id pg. rewrite foldr_delete_lookup. case_decide as Hin; [done|]. intros Hl. destruct (Hp id pg Hl) as (Q1 & Q2 & Q3).
    split; [done|]. split; [done|]. rewrite Hids in Hin. rewrite Q3. clear -Hin Hn Q1. page_lia.
  - intros i Hi Hs. rewrite Hf by done. by rewrite decide_False by lia.
  - intros id pg. rewrite foldr_delete_lookup. case_decide as Hin; [done|]. intros Hl Hd. rewrite Hids in Hin. pose proof (Hc id pg Hl Hd) as Hld.
    unfold loaded in *. rewrite Hld. apply (file_slice_ext (bk_byte b) (bk_byte b')). intros i Hi. destruct (Hp id pg Hl) as (Q1 & _).
    rewrite Hbyte by (clear -Hi Q1; page_lia). case_decide as Hlt; [done|]. apply bk_byte_beyond; [done|]. pose proof (bk_stored_size b Hb) as Hst. clear -Hin Hi Q1 Hn Hlt Hst. page_lia.
Qed.

(** Pages with the same bytes, their valid sizes those of the new file size. *)
Lemma grown_ok b b' pages pages' n :
  bk_ok b -> pc_ok pages b (bk_size b) -> bk_size b <= n -> backend_resized b b' n ->
  (forall id, is_Some (pages' !! id) <-> is_Some (pages !! id)) ->
  (forall id pg', pages' !! id = Some pg' -> exists pg, pages !! id = Some pg /\ length (cp_data pg') = page_len /\
     cp_valid pg' = clamp_page (n - id * PAGE_SIZE) /\ cp_dirty pg' = cp_dirty pg /\
     (forall j, 0 <= j < PAGE_SIZE -> cp_data pg' !!! Z.to_nat j = cp_data pg !!! Z.to_nat j)) ->
  pc_ok pages' b' n /\ (forall i, 0 <= i -> pc_byte pages' b' i = pc_byte pages b i).
Proof.
  intros Hb [Hp Hz Hc] Hn (Hb' & Hs' & Hbyte) Hdom Hpg.
  assert (forall i, 0 <= i -> pc_byte pages' b' i = pc_byte pages b i) as Hf.
  { intros i Hi. unfold pc_byte at 1. destruct (pages' !! (i / PAGE_SIZE)) as [pg'|] eqn:E'.
    - destruct (Hpg _ _ E') as (pg & Epg & _ & _ & _ & Hj). rewrite Hj by (clear; page_lia). unfold pc_byte. by rewrite Epg.
    - assert (pages !! (i / PAGE_SIZE) = None) as Hnone by (apply eq_None_not_Some; rewrite <- Hdom; by apply eq_None_not_Some).
      rewrite Hbyte by done. unfold pc_byte. rewrite Hnone. case_decide; [done|]. symmetry.
      apply bk_byte_beyond; [done|]. pose proof (bk_stored_size b Hb). lia. }
  split; [|done]. split; [|intros i Hi Hs; rewrite Hf by done; apply Hz; lia|].
  - intros id pg' Hl'. destruct (Hpg _ _ Hl') as (pg & Epg & Hlen & Hv & _). split; [by apply (Hp id pg)|]. done.
  - intros id pg' Hl' Hd. destruct (Hpg _ _ Hl') as (pg & Epg & Hlen & _ & Ed & Hj). rewrite Ed in Hd. pose proof (Hc id pg Epg Hd) as Hld.
    destruct (Hp id pg Epg) as (Q1 & Q2 & _). unfold loaded. fold (file_slice (bk_byte b') (id * PAGE_SIZE) PAGE_SIZE).
    rewrite <- (take_ge (cp_data pg') page_len), <- (drop_0 (cp_data pg')) by lia. apply (slice_of_list _ _ _ 0); [done|done|by rewrite Hlen|].
    intros j Hjr. rewrite Hj, (loaded_byte b id) by (done || lia). rewrite Z.sub_0_r, Hbyte by (clear -Q1 Hjr; page_lia). case_decide; [done|].
    apply bk_byte_beyond; [done|]. pose proof (bk_stored_size b Hb). lia.
Qed.

Lemma pc_grow_ok b b' pages n :
  bk_ok b -> pc_ok pages b (bk_size b) -> bk_size b <= n -> grow_safe pages b n -> backend_resized b b' n ->
  exists pages', pc_resize b pages n = Ret pages' /\ pc_ok pages' b' n /\ (forall i, 0 <= i -> pc_byte pages' b' i = pc_byte pages b i).
Proof.
  intros Hb Hok Hn Hsafe Hres. pose proof Hok as [Hp Hz _]. set (s := bk_size b) in *. pose proof (bk_size_u64 b Hb) as Hu. fold s in Hu. unfold is_u64 in Hu.
  pose proof (fun pages' => grown_ok b b' pages pages' n Hb Hok Hn Hres) as Hgen.
  assert (forall id pg, pages !! id = Some pg -> id <> s / PAGE_SIZE \/ s = n -> cp_valid pg = clamp_page (n - id * PAGE_SIZE)) as Hother.
  { intros id pg Hl Hne. destruct (Hp id pg Hl) as (Q1 & Q2 & ->). destruct (decide (s / PAGE_SIZE < id /\ id * PAGE_SIZE < n)) as [[Ha Hb2]|Hno].
    - rewrite Hsafe in Hl by done. done.
    - clear -Hne Hno Hn. page_lia. }
  unfold pc_resize. fold s. destruct (Z.ltb_spec n s); [lia|]. rewrite page_id_div, page_start_div, Z.div_mul by done. destruct (Z.ltb_spec s n) as [Hlt|Hge].
  - destruct (pages !! (s / PAGE_SIZE)) as [pg|] eqn:Epg.
    + destruct (Hp _ _ Epg) as (Q1 & Q2 & Q3). rewrite page_shift. destruct (Z.ltb_spec (cp_valid pg) (Z.min (n - s / PAGE_SIZE * PAGE_SIZE) PAGE_SIZE)) as [Hv|Hv].
      2: { exfalso. rewrite Q3 in Hv. clear -Hv Hlt Hu. page_lia. }
      eexists. split; [done|]. apply Hgen.
      * intros id. rewrite lookup_insert_is_Some. split; [intros [<-|[_ ?]]; [by rewrite Epg|done]|intros Hs; destruct (decide (s / PAGE_SIZE = id)); auto].
      * intros id pg' [[<- <-]|[Hne Hl]]%lookup_insert_Some; [|exists pg'; split; [done|]; split; [by apply (Hp id)|]; split; [apply Hother; auto|]; done].
        exists pg. simpl. assert ((Z.to_nat (cp_valid pg) + Z.to_nat (Z.min (n - s / PAGE_SIZE * PAGE_SIZE) PAGE_SIZE - cp_valid pg) <= page_len)%nat) as Hfit
          by (rewrite Q3 in *; clear -Hlt Hu; page_lia).
        split; [done|]. split; [rewrite splice_length; [done|]; rewrite length_replicate, Q2; exact Hfit|]. split; [clear -Hlt Hu; page_lia|]. split; [done|].
        intros j Hj. rewrite splice_lookup by (rewrite length_replicate, Q2; exact Hfit). case_decide as Hr; [|done].
        rewrite length_replicate in Hr. rewrite lookup_total_replicate_2 by lia. symmetry. rewrite <- (pc_byte_at pages b (s / PAGE_SIZE) pg j Epg Hj).
        apply Hz; rewrite Q3 in *; clear -Hr Hj Hlt Hu; page_lia.
    + exists pages. split; [done|]. apply Hgen; [done|]. intros id pg' Hl. exists pg'. split; [done|]. split; [by apply (Hp id)|]. split; [|done].
      apply Hother; [done|]. left. intros ->. by rewrite Epg in Hl.
  - exists pages. split; [done|]. apply Hgen; [done|]. intros id pg' Hl. exists pg'. split; [done|]. split; [by apply (Hp id)|]. split; [|done].
    apply Hother; [done|]. right. lia.
Qed.

(** ** Writing back *)

(** What a file system that keeps its files promises of [write_page]. *)
Class PersistLaws : Prop := {
  bk_write_law b pg off : bk_ok b -> 0 <= off -> length (cp_data pg) = page_len -> 0 <= cp_valid pg <= PAGE_SIZE -> off + cp_valid pg <= Z.max off (bk_size b) ->
    exists n b', bk_write_page b (cache_page_stream_new pg) off = Ret (n, b') /\ bk_ok b' /\ bk_size b' = bk_size b /\
      (forall i, 0 <= i -> bk_byte b' i = if decide (off <= i < off + cp_valid pg) then cp_data pg !!! Z.to_nat (i - off) else bk_byte b i)
}.

Lemma fsync_page_ok `{!PersistLaws} b pages id pg :
  bk_ok b -> pc_ok pages b (bk_size b) -> pages !! id = Some pg -> cp_dirty pg = true ->
  let pages' := <[id := mkCachePage (cp_data pg) (cp_valid pg) false]> pages in
  exists n b', bk_write_page b (cache_page_stream_new pg) (Z.shiftl id PAGE_SIZE_BITS) = Ret (n, b') /\ bk_ok b' /\ bk_size b' = bk_size b /\
    pc_ok pages' b' (bk_size b) /\ (forall i, 0 <= i -> pc_byte pages' b' i = pc_byte pages b i).
Proof.
  intros Hb [Hp Hz Hc] Hpg Hdirty pages'. destruct (Hp id pg Hpg) as (Q1 & Q2 & Q3). rewrite page_shift.
  destruct (bk_write_law b pg (id * PAGE_SIZE) Hb ltac:(clear -Q1; page_lia) Q2 ltac:(rewrite Q3; clear; page_lia) ltac:(rewrite Q3; clear; page_lia)) as (n & b' & E & Hb' & Hs & Hw).
  exists n, b'. split; [done|]. split; [done|]. split; [done|].
  assert (forall i, 0 <= i -> i / PAGE_SIZE <> id -> bk_byte b' i = bk_byte b i) as Hne.
  { intros i Hi Hid. rewrite Hw by done. rewrite decide_False; [done|]. rewrite Q3. clear -Hid. page_lia. }
  assert (forall i, 0 <= i -> pc_byte pages' b' i = pc_byte pages b i) as Hf.
  { intros i Hi. unfold pages'. rewrite pc_byte_insert. case_decide as Hid; [unfold pc_byte; by rewrite Hid, Hpg|].
    unfold pc_byte. destruct (pages !! (i / PAGE_SIZE)); [done|]. by apply Hne. }
  split; [|done]. split; [|intros i Hi Hs'; rewrite Hf by done; by apply Hz|].
  - intros id' pg' [[<- <-]|[_ Hl]]%lookup_insert_Some; [done|by apply Hp].
  - intros id' pg' [[<- <-]|[Hid Hl]]%lookup_insert_Some Hd.
    + unfold loaded. cbn [cp_data]. rewrite <- (take_ge (cp_data pg) page_len), <- (drop_0 (cp_data pg)) by lia.
      apply (slice_of_list _ _ _ 0); [done|done|by rewrite Q2|]. intros j Hj. rewrite Z.sub_0_r, Hw by (clear -Q1 Hj; page_lia). case_decide as Hr; [f_equal; lia|].
      rewrite <- (pc_byte_at pages b id pg) by (done || lia). assert (bk_size b <= id * PAGE_SIZE + j) as Hbig by (rewrite Q3 in Hr; clear -Hr Hj; page_lia).
      rewrite Hz by (done || (clear -Q1 Hj; page_lia)). symmetry. apply bk_byte_beyond; [done|]. pose proof (bk_stored_size b Hb). lia.
    + pose proof (Hc id' pg' Hl Hd) as Hld. unfold loaded in *. rewrite Hld. apply (file_slice_ext (bk_byte b) (bk_byte b')). intros i Hi. symmetry.
      destruct (Hp id' pg' Hl) as (Q4 & _). apply Hne; clear -Hi Hid Q4; page_lia.
Qed.

(** [fsync] brings the stored file to what the cache says it is. *)
Lemma fsync_loop_ok `{!PersistLaws} ids : forall b pages,
  bk_ok b -> pc_ok pages b (bk_size b) -> (forall id pg, pages !! id = Some pg -> cp_dirty pg = true -> id ∈ ids) ->
  exists b' pages', fsync_loop ids b pages = (b', pages', Ret tt) /\ bk_ok b' /\ bk_size b' = bk_size b /\
    pc_ok pages' b' (bk_size b) /\ (forall id pg, pages' !! id = Some pg -> cp_dirty pg = false) /\
    (forall i, 0 <= i -> pc_byte pages' b' i = pc_byte pages b i).
Proof.
  induction ids as [|id ids IH]; intros b pages Hb Hok Hd.
  - exists b, pages. do 4 (split; [done|]). split; [|done]. intros id pg Hl. destruct (cp_dirty pg) eqn:E; [|done]. specialize (Hd id pg Hl E). set_solver.
  - simpl. destruct (pages !! id) as [pg|] eqn:Epg; [destruct (cp_dirty pg) eqn:Edirty|].
    + destruct (fsync_page_ok b pages id pg Hb Hok Epg Edirty) as (n & b' & -> & Hb' & Hs & Hok' & Hf). rewrite <- Hs in Hok'.
      destruct (IH b' _ Hb' Hok') as (b2 & p2 & -> & ? & Hs2 & ? & ? & Hf2).
      { intros id' pg' [[<- <-]|[Hne Hl]]%lookup_insert_Some Hdd; [done|]. specialize (Hd id' pg' Hl Hdd). set_solver. }
      exists b2, p2. rewrite Hs in *. do 4 (split; [done|]). split; [done|]. intros i Hi. by rewrite Hf2, Hf.
    + apply IH; [done..|]. intros id' pg' Hl Hdd. specialize (Hd id' pg' Hl Hdd). assert (id' <> id) by congruence. set_solver.
    + apply IH; [done..|]. intros id' pg' Hl Hdd. specialize (Hd id' pg' Hl Hdd). assert (id' <> id) by congruence. set_solver.
Qed.


(** ** The page handed to a mapping *)

Lemma pc_with_page_ok b pages offset :
  bk_ok b -> pc_ok pages b (bk_size b) -> 0 <= offset ->
  let start := offset / PAGE_SIZE * PAGE_SIZE in
  exists r pages', pc_with_page b pages offset = Ret (r, pages') /\ pc_ok pages' b (bk_size b) /\ (forall i, pc_byte pages' b i = pc_byte pages b i) /\
    match r with
    | None => bk_size b < start
    | Some pg => start <= bk_size b /\ pages' !! (offset / PAGE_SIZE) = Some pg /\ cp_data pg = file_slice (pc_byte pages b) start PAGE_SIZE
    end.
Proof.
  intros Hb Hok Ho start. unfold pc_with_page. rewrite page_id_div, page_start_div, Z.div_mul by done. fold start.
  assert (forall p pg, pc_ok p b (bk_size b) -> p !! (offset / PAGE_SIZE) = Some pg -> cp_data pg = file_slice (pc_byte p b) start PAGE_SIZE) as Hsl.
  { intros p pg [Hp _ _] Hl. destruct (Hp _ _ Hl) as (_ & Hlen & _). rewrite <- (take_ge (cp_data pg) page_len) by lia.
    rewrite <- (drop_0 (cp_data pg)) at 1. apply (slice_of_list _ _ _ 0); [done|done|by rewrite Hlen|].
    intros j Hj. rewrite <- (pc_byte_at p b _ pg) by (done || lia). f_equal. unfold start. lia. }
  destruct (Z.ltb_spec (bk_size b) start); [by exists None, pages|].
  destruct (pages !! (offset / PAGE_SIZE)) as [pg|] eqn:Epg.
  - exists (Some pg), pages. do 3 (split; [done|]). split; [done|]. split; [done|]. by apply Hsl.
  - destruct (load_page_ok b offset Hb Ho) as (pg & El & Hl & Hv & _). rewrite page_start_div in El. fold start in El. rewrite El. simpl.
    assert (pc_ok (<[offset / PAGE_SIZE := pg]> pages) b (bk_size b)) as Hok' by (apply pc_ok_loaded; [done..|clear -Ho; page_lia|done|done]).
    exists (Some pg), (<[offset / PAGE_SIZE := pg]> pages). split; [done|]. split; [done|]. split; [intros i; by apply pc_byte_loaded|].
    split; [done|]. rewrite lookup_insert_eq. split; [done|]. rewrite (Hsl _ pg Hok') by apply lookup_insert_eq.
    apply file_slice_ext. intros i _. by apply pc_byte_loaded.
Qed.

End CacheLaws.

(** ** A file system that keeps its files

    The smallest one: a file is the list of its bytes. *)

Record DiskFile := mkDiskFile { df_bytes : list Z }.

Definition disk_read_page (f : DiskFile) (page : CachePage) (offset : Z) : outcome (Z * CachePage) :=
  '(_, page) ← cache_page_fill page (take page_len (drop (Z.to_nat offset) (df_bytes f)));
  Ret (cp_valid page, page).

Definition disk_write_page (f : DiskFile) (s : CachePageStream) (offset : Z) : outcome (Z * DiskFile) :=
  '(d, _) ← cps_poll_data s page_len;
  match d with
  | None => Ret (0, f)
  | Some d => Ret (Z.of_nat (length d),
                   mkDiskFile (take (Z.to_nat offset) (df_bytes f ++ replicate (Z.to_nat offset - length (df_bytes f)) 0) ++ d ++
                               drop (Z.to_nat offset + length d) (df_bytes f)))
  end.

#[export] Instance disk_backend : PageCacheBackend DiskFile := {
  bk_read_page := disk_read_page;
  bk_write_page := disk_write_page;
  bk_size f := Z.of_nat (length (df_bytes f))
}.

Definition disk_byte (f : DiskFile) (i : Z) : Z := if 0 <=? i then default 0 (df_bytes f !! Z.to_nat i) else 0.

Lemma disk_read_law f off :
  0 <= off -> exists n pg, disk_read_page f new_zeroed off = Ret (n, pg) /\ cp_data pg = disk_byte f <$> seqZ off PAGE_SIZE /\
    0 <= cp_valid pg <= clamp_page (Z.of_nat (length (df_bytes f)) - off) /\ cp_dirty pg = false.
Proof.
  intros Ho. unfold disk_read_page, cache_page_fill. change (cp_valid new_zeroed) with 0. change (cp_data new_zeroed) with (replicate page_len 0).
  set (d := take page_len (drop (Z.to_nat off) (df_bytes f))). assert (length d <= page_len)%nat as Hd by (unfold d; rewrite length_take; lia).
  change (0 <=? PAGE_SIZE) with true. change (Z.to_nat 0) with 0%nat. rewrite Nat.sub_0_r. change (page_len =? 0)%nat with false. cbn [assert_ mbind outcome_bind].
  rewrite Nat.min_l by done. rewrite Nat.ltb_irrefl. cbn [mbind outcome_bind]. eexists _, _. split; [done|]. cbn [cp_data cp_valid cp_dirty].
  split; [|unfold d; rewrite length_take, length_drop; split; [page_lia|done]]. rewrite firstn_all.
  apply list_eq_same_length with (n := page_len); [by rewrite length_fmap, length_seqZ|rewrite splice_length; rewrite length_replicate; lia|].
  intros j x y Hj Hx Hy. rewrite list_lookup_fmap, lookup_seqZ_lt in Hy by lia. simpl in Hy. injection Hy as <-.
  apply list_lookup_total_correct in Hx. rewrite <- Hx. rewrite splice_lookup by (rewrite length_replicate; lia).
  unfold disk_byte. destruct (Z.leb_spec 0 (off + Z.of_nat j)); [|lia]. case_decide as Hr.
  - rewrite Nat.sub_0_r. unfold d in *. rewrite length_take, length_drop in Hr. rewrite lookup_total_take_lt, lookup_total_drop by lia.
    replace (Z.to_nat (off + Z.of_nat j)) with (Z.to_nat off + j)%nat by lia. by rewrite list_lookup_lookup_total_lt by lia.
  - rewrite lookup_total_replicate_2 by lia. unfold d in Hr. rewrite length_take, length_drop in Hr. by rewrite lookup_ge_None_2 by lia.
Qed.

#[export, refine] Instance disk_laws : BackendLaws DiskFile := {
  bk_byte := disk_byte;
  bk_stored f := Z.of_nat (length (df_bytes f));
  bk_ok f := Z.of_nat (length (df_bytes f)) < 2 ^ 64
}.
Proof.
  - intros f Hf. split; [simpl; lia|exact Hf].
  - intros f _. simpl. lia.
  - intros f i _ Hi. unfold disk_byte. zcase; [|done]. by rewrite lookup_ge_None_2 by lia.
  - intros f off _ Ho _. by apply disk_read_law.
Defined.

#[export] Instance disk_persists : PersistLaws (B := DiskFile).
Proof.
  split. intros f pg off Hf Ho Hl Hv Hfit. simpl in Hf, Hfit. change (bk_write_page f) with (disk_write_page f). change (@bk_ok DiskFile _ disk_laws) with (fun f => Z.of_nat (length (df_bytes f)) < 2 ^ 64).
  change (@bk_size DiskFile _) with (fun f => Z.of_nat (length (df_bytes f))). change (@bk_byte DiskFile _ disk_laws) with disk_byte.
  unfold disk_write_page, cps_poll_data, cps_drained, cache_page_stream_new. cbn [cps_page cps_cur]. change (Z.of_nat 0) with 0.
  destruct (Z.leb_spec (cp_valid pg) 0).
  - exists 0, f. split; [done|]. split; [done|]. split; [done|]. intros i Hi. by rewrite decide_False by lia.
  - destruct (Z.leb_spec (cp_valid pg) PAGE_SIZE); [|lia]. cbn [assert_ mbind outcome_bind]. rewrite drop_0. set (d := take (Z.to_nat (cp_valid pg)) (cp_data pg)).
    assert (Z.of_nat (length d) = cp_valid pg) as Hd by (unfold d; rewrite length_take, Hl; lia).
    rewrite Nat.min_r by lia. rewrite firstn_all. eexists _, _. split; [done|]. cbn [df_bytes].
    replace (Z.to_nat off - length (df_bytes f))%nat with 0%nat by lia. rewrite app_nil_r.
    fold (splice (df_bytes f) (Z.to_nat off) d). assert (length (splice (df_bytes f) (Z.to_nat off) d) = length (df_bytes f)) as El by (apply splice_length; lia).
    rewrite El. split; [done|]. split; [done|]. intros i Hi. unfold disk_byte. simpl. destruct (Z.leb_spec 0 i); [|lia].
    destruct (decide (Z.to_nat i < length (df_bytes f))%nat).
    + rewrite list_lookup_lookup_total_lt by lia. simpl. rewrite splice_lookup by lia.
      destruct (decide (off <= i < off + cp_valid pg)); [rewrite decide_True by lia|rewrite decide_False by lia; by rewrite list_lookup_lookup_total_lt by lia].
      unfold d. rewrite lookup_total_take_lt by lia. f_equal. lia.
    + rewrite lookup_ge_None_2 by lia. rewrite decide_False by lia. by rewrite lookup_ge_None_2 by lia.
Qed.

(** A file of three bytes whose page has been written to. *)
Definition demo_cache : Pages := {[0 := mkCachePage ([7; 8; 9] ++ replicate 4093 0) 3 true]}.

Lemma demo_pages_ok : pc_ok demo_cache (mkDiskFile [1; 2; 3]) 3.
Proof.
  split.
  - intros id pg Hl. unfold demo_cache in Hl. apply lookup_singleton_Some in Hl as [<- <-]. split; [done|]. split; [|done]. cbn [cp_data]. by rewrite length_app, length_replicate.
  - intros i Hi Hs. unfold pc_byte, demo_cache. destruct (decide (i / PAGE_SIZE = 0)) as [Ez|Ez].
    + rewrite Ez, lookup_singleton_eq. cbn [cp_data]. rewrite lookup_total_app_r by (simpl; page_lia). apply lookup_total_replicate_2. simpl. page_lia.
    + rewrite lookup_singleton_ne by done. unfold bk_byte, disk_laws, disk_byte. zcase; [|done]. by rewrite lookup_ge_None_2 by (simpl; lia).
  - intros id pg Hl Hd. unfold demo_cache in Hl. by apply lookup_singleton_Some in Hl as [<- <-].
Qed.


(** Appending to a file whose last page is not in the cache makes the page
    without reading it: the part of the file in that page is lost, in the cache
    and, after the next sync, in the file. *)
Theorem append_loses_tail :
  match pc_write 8 (mkDiskFile [1; 2; 3]) ∅ (into_stream [4]) 3 with
  | Some (pages, _, Ret n) =>
      n = 1%nat /\ match pages !! 0 with Some pg => take 4 (cp_data pg) = [0; 0; 0; 4] | None => False end /\
      match pc_fsync (mkDiskFile [1; 2; 3]) pages with (f, _, Ret _) => df_bytes f = [0; 0; 0; 4] | _ => False end
  | _ => False
  end.
Proof. vm_compute. repeat split. Qed.
