(* ===== verification/Block.v ===== *)
(** * Block devices and partitions (src/kernel/block.rs, block/mbr.rs,
    src/driver/virtio/virtio_blk.rs)

    A device forwards requests for whole sectors to the queue of its disk;
    [read_some] and [write_some] cut transfers of any length at any offset into
    such requests and copy through pages.  Partitions of a disk share its queue.
    The drivers' queues are the class [BlockRequestQueue] with its laws; the
    instance is the virtio driver over the third-party crate's device, which is
    the class [VirtIOBlk].

    The device is an array of bytes to its users: [read_some_correct] and
    [write_some_correct]. *)

From S2P Require Import Prelude Io PageCache.

(** The bytes of [Page::alloc()] and of [Page::alloc_order(1)]. *)
Definition ONE_PAGE : nat := Z.to_nat 4096.
Definition TWO_PAGES : nat := Z.to_nat 8192.
#[global] Opaque ONE_PAGE TWO_PAGES.

(** ** Requests and queues *)

(** A page is its bytes; a request carries the pages it reads into or writes
    from. *)
Inductive BlockDeviceRequest :=
| BrRead (sector count : Z) (buffer : list (list Z))
| BrWrite (sector count : Z) (buffer : list (list Z)).

(** The result of a request is the new contents of its pages. *)
Class BlockRequestQueue (Q : Type) := {
  max_request_pages : Q -> Z;
  submit : Q -> BlockDeviceRequest -> Q * outcome (list (list Z))
}.

(** ** Devices *)

Definition make_device (major minor : Z) : Z :=
  Z.lor (Z.land (wrap32 (Z.shiftl major 8)) 0xff00) (Z.land minor 0xff).

Inductive BlockDeviceType :=
| BtDisk (queue : nat)
| BtPartition (disk_dev lba_offset : Z) (queue : nat).

Record BlockDevice := mkBlockDevice { bd_devid : Z; bd_sector_count : Z; bd_type : BlockDeviceType }.

Definition bd_queue (dev : BlockDevice) : nat :=
  match bd_type dev with BtDisk queue => queue | BtPartition _ _ queue => queue end.

(** [BLOCK_DEVICE_LIST]. *)
Notation DeviceList := (gmap Z BlockDevice).

Definition register_disk (devs : DeviceList) (devid size : Z) (queue : nat) : DeviceList * outcome BlockDevice :=
  let device := mkBlockDevice devid size (BtDisk queue) in
  match devs !! devid with
  | None => (<[devid := device]> devs, Ret device)
  | Some _ => (devs, Err EEXIST)
  end.

Definition device_get (devs : DeviceList) (devid : Z) : outcome BlockDevice := ok_or (devs !! devid) ENOENT.

Definition register_partition (devs : DeviceList) (self : BlockDevice) (idx : nat) (offset size : Z) : DeviceList * outcome BlockDevice :=
  match bd_type self with
  | BtPartition _ _ _ => (devs, Err EINVAL)
  | BtDisk queue =>
      let devid := make_device (Z.shiftr (bd_devid self) 8) (wrap32 (wrap32 (Z.land (bd_devid self) 0xff + Z.of_nat idx) + 1)) in
      let device := mkBlockDevice devid size (BtPartition (bd_devid self) offset queue) in
      match devs !! devid with
      | None => (<[devid := device]> devs, Ret device)
      | Some _ => (devs, Err EEXIST)
      end
  end.

Section Device.
Context {Q : Type} `{BlockRequestQueue Q}.

(** The queues of the disks, which devices share. *)
Notation Queues := (gmap nat Q).

(** What [Page::alloc] and [Page::alloc_order] find in a block of that many bytes. *)
Context (stale : nat -> list Z).

(** The sector of a request on the disk, [None] when it does not fit the device. *)
Definition request_sector (dev : BlockDevice) (sector count : Z) : option Z :=
  if bd_sector_count dev <? wrap64 (sector + count) then None
  else
    match bd_type dev with
    | BtPartition _ lba_offset _ => Some (wrap64 (sector + lba_offset))
    | BtDisk _ => Some sector
    end.

Definition commit_request (qs : Queues) (dev : BlockDevice) (req : BlockDeviceRequest) : Queues * outcome (list (list Z)) :=
  let req' :=
    match req with
    | BrRead sector count buffer => s ← request_sector dev sector count; Some (BrRead s count buffer)
    | BrWrite sector count buffer => s ← request_sector dev sector count; Some (BrWrite s count buffer)
    end in
  match req' with
  | None => (qs, Err EINVAL)
  | Some req =>
      match qs !! bd_queue dev with
      | Some q => let (q, r) := submit q req in (<[bd_queue dev := q]> qs, r)
      | None => (qs, Panic)
      end
  end.

(** [self.queue().max_request_pages()]. *)
Definition queue_max (qs : Queues) (dev : BlockDevice) : Z :=
  match qs !! bd_queue dev with Some q => max_request_pages q | None => 0 end.

(** ** [read_some] *)

(** The pages for [count] sectors. *)
Definition sector_pages (count : Z) : list (list Z) :=
  if count <=? 8 then [stale ONE_PAGE]
  else if count <=? 16 then [stale TWO_PAGES]
  else replicate (Z.to_nat ((count + 15) / 16)) (stale TWO_PAGES).

(** How many sectors the next request of [read_some] reads. *)
Definition read_count (max sector_count : Z) : Z :=
  if sector_count <=? 16 then sector_count else Z.min sector_count max.

Section Read.
Context {B : Type} `{Buffer B}.

(** The loop over the pages: [true] is the break out of both loops. *)
Fixpoint fill_pages (pages : list (list Z)) (first_sector_offset : nat) (b : B) (nfilled : nat) : B * outcome (bool * nat) :=
  match pages with
  | [] => (b, Ret (false, nfilled))
  | page :: pages =>
      match buf_fill b (drop first_sector_offset page) with
      | Ret (FDone n, b) => fill_pages pages 0 b (nfilled + n)
      | Ret (FPartial n, b) => (b, Ret (true, nfilled + n)%nat)
      | Ret (FFull, b) => (b, Ret (true, nfilled))
      | Err e => (b, Err e)
      | Panic => (b, Panic)
      end
  end.

Fixpoint read_some_loop (fuel : nat) (qs : Queues) (dev : BlockDevice) (sector_start : Z) (first_sector_offset : nat)
    (sector_count : Z) (b : B) (nfilled : nat) : option (Queues * B * outcome nat) :=
  match fuel with
  | O => None
  | S fuel =>
      if sector_count =? 0 then Some (qs, b, Ret nfilled)
      else
        let nread := read_count (queue_max qs dev) sector_count in
        let pages := sector_pages nread in
        let (qs, r) := commit_request qs dev (BrRead sector_start nread pages) in
        match r with
        | Err e => Some (qs, b, Err e)
        | Panic => Some (qs, b, Panic)
        | Ret pages =>
            let (b, r) := fill_pages pages first_sector_offset b nfilled in
            match r with
            | Err e => Some (qs, b, Err e)
            | Panic => Some (qs, b, Panic)
            | Ret (true, nfilled) => Some (qs, b, Ret nfilled)
            | Ret (false, nfilled) =>
                read_some_loop fuel qs dev (wrap64 (sector_start + nread)) (match pages with [] => first_sector_offset | _ => 0 end)
                  (wrap64 (sector_count - nread)) b nfilled
            end
        end
  end.

Definition read_some (fuel : nat) (qs : Queues) (dev : BlockDevice) (offset : Z) (b : B) : option (Queues * B * outcome FillResult) :=
  let sector_start := offset / 512 in
  let first_sector_offset := offset mod 512 in
  let sector_count := wrap64 (first_sector_offset + Z.of_nat (buf_total b) + 511) / 512 in
  match read_some_loop fuel qs dev sector_start (Z.to_nat first_sector_offset) sector_count b 0 with
  | Some (qs, b, Ret nfilled) => Some (qs, b, Ret (if (nfilled =? buf_total b)%nat then FDone nfilled else FPartial nfilled))
  | Some (qs, b, Err e) => Some (qs, b, Err e)
  | Some (qs, b, Panic) => Some (qs, b, Panic)
  | None => None
  end.
End Read.

(** ** [write_some] *)

(** The loop that copies the data into the pages; also the bytes copied. *)
Fixpoint copy_to_pages (pages : list (list Z)) (page_offset : nat) (data : list Z) (data_offset : nat) : list (list Z) * nat :=
  match pages with
  | [] => ([], data_offset)
  | page :: pages =>
      let copy_len := Nat.min (length data - data_offset) (length page - page_offset) in
      if (copy_len =? 0)%nat then (page :: pages, data_offset)
      else
        let page := splice page page_offset (take copy_len (drop data_offset data)) in
        let data_offset := (data_offset + copy_len)%nat in
        if (length data <=? data_offset)%nat then (page :: pages, data_offset)
        else let (pages, n) := copy_to_pages pages 0 data data_offset in (page :: pages, n)
  end.

Fixpoint write_some_loop (fuel : nat) (qs : Queues) (dev : BlockDevice) (sector_start : Z) (first_sector_offset : nat)
    (remaining_data : list Z) (nwritten : nat) : option (Queues * outcome nat) :=
  match fuel with
  | O => None
  | S fuel =>
      if bool_decide (remaining_data = []) then Some (qs, Ret nwritten)
      else
        let write_end := wrap64 (Z.of_nat first_sector_offset + Z.of_nat (length remaining_data)) in
        let sector_count := Z.min (wrap64 (write_end + 511) / 512) (queue_max qs dev) in
        let pages := sector_pages sector_count in
        let (qs, r) :=
          if negb (first_sector_offset =? 0)%nat || (Z.of_nat (length remaining_data) <? wrap64 (sector_count * 512))
          then commit_request qs dev (BrRead sector_start sector_count pages) else (qs, Ret pages) in
        match r with
        | Err e => Some (qs, Err e)
        | Panic => Some (qs, Panic)
        | Ret pages =>
            let (pages, bytes_written) := copy_to_pages pages first_sector_offset remaining_data 0 in
            let (qs, r) := commit_request qs dev (BrWrite sector_start sector_count pages) in
            match r with
            | Err e => Some (qs, Err e)
            | Panic => Some (qs, Panic)
            | Ret _ =>
                write_some_loop fuel qs dev (wrap64 (sector_start + sector_count)) 0
                  (drop bytes_written remaining_data) (nwritten + bytes_written)
            end
        end
  end.

Definition write_some (fuel : nat) (qs : Queues) (dev : BlockDevice) (offset : Z) (data : list Z) : option (Queues * outcome nat) :=
  write_some_loop fuel qs dev (offset / 512) (Z.to_nat (offset mod 512)) data 0.

(** ** The partition table *)

Record MBREntry := mkMBREntry { mbr_attr : Z; mbr_part_type : Z; mbr_lba_start : Z; mbr_cnt : Z }.

(** An entry of 16 bytes; the two CHS addresses are not looked at. *)
Definition mbr_entry (bs : list Z) : MBREntry :=
  mkMBREntry (bs !!! 0%nat) (bs !!! 4%nat) (little_endian_to_Z 8 (take 4 (drop 8 bs))) (little_endian_to_Z 8 (take 4 (drop 12 bs))).

(** [MBRPartTable::from_disk]. *)
Definition from_disk (fuel : nat) (qs : Queues) (disk : BlockDevice) (garbage : list Z) : option (Queues * outcome (list MBREntry)) :=
  match read_some fuel qs disk 0 (uninit_buffer_new 512 garbage) with
  | None => None
  | Some (qs, b, r) => Some (qs,
      r ← r; fill_ok_or r EIO;;
      mbr ← assume_filled_ref b;
      if negb (bool_decide (drop 510 mbr = [0x55; 0xaa])) then Err ENODEV
      else Ret ((fun i => mbr_entry (take 16 (drop (446 + 16 * i) mbr))) <$> seq 0 4))
  end.

Definition partitions (entries : list MBREntry) : list (Z * Z) :=
  (fun e => (mbr_lba_start e, mbr_cnt e)) <$> List.filter (fun e => negb (mbr_part_type e =? 0)) entries.

Fixpoint register_all (devs : DeviceList) (self : BlockDevice) (idx : nat) (ps : list (Z * Z)) : DeviceList * outcome unit :=
  match ps with
  | [] => (devs, Ret tt)
  | (lba_offset, sector_count) :: ps =>
      let (devs, r) := register_partition devs self idx lba_offset sector_count in
      match r with
      | Ret _ => register_all devs self (S idx) ps
      | Err e => (devs, Err e)
      | Panic => (devs, Panic)
      end
  end.

Definition partprobe (fuel : nat) (qs : Queues) (devs : DeviceList) (self : BlockDevice) (garbage : list Z) : option (Queues * DeviceList * outcome unit) :=
  match bd_type self with
  | BtPartition _ _ _ => Some (qs, devs, Err EINVAL)
  | BtDisk _ =>
      match from_disk fuel qs self garbage with
      | None => None
      | Some (qs, Ret table) => let (devs, r) := register_all devs self 0 (partitions table) in Some (qs, devs, r)
      | Some (qs, Err _) => Some (qs, devs, Ret tt)
      | Some (qs, Panic) => Some (qs, devs, Panic)
      end
  end.
End Device.

(** ** What a driver promises

    [q_disk] are the bytes of the disk and [q_accepts] the requests that the
    driver carries out completely, by their number of sectors and the sizes of
    their pages. *)
Class QueueLaws (Q : Type) `{BlockRequestQueue Q} := {
  q_disk : Q -> list Z;
  q_ok : Q -> Prop;
  q_accepts : Z -> list nat -> Prop;
  q_accepts_len count lens : q_accepts count lens -> count * 512 <= Z.of_nat (sum_list lens);
  q_max_law q : q_ok q -> 0 < max_request_pages q < 2 ^ 32 /\ max_request_pages q mod 16 = 0;
  q_read_law q sector count pages :
    q_ok q -> 0 <= sector -> 0 < count -> (sector + count) * 512 <= Z.of_nat (length (q_disk q)) -> q_accepts count (length <$> pages) ->
    exists pages', submit q (BrRead sector count pages) = (q, Ret pages') /\ length <$> pages' = length <$> pages
      /\ take (Z.to_nat (count * 512)) (concat pages') = take (Z.to_nat (count * 512)) (drop (Z.to_nat (sector * 512)) (q_disk q));
  q_write_law q sector count pages :
    q_ok q -> 0 <= sector -> 0 < count -> (sector + count) * 512 <= Z.of_nat (length (q_disk q)) -> q_accepts count (length <$> pages) ->
    exists q' pages', submit q (BrWrite sector count pages) = (q', Ret pages') /\ q_ok q' /\ max_request_pages q' = max_request_pages q
      /\ q_disk q' = splice (q_disk q) (Z.to_nat (sector * 512)) (take (Z.to_nat (count * 512)) (concat pages))
}.

Definition dev_base (dev : BlockDevice) : Z :=
  match bd_type dev with BtDisk _ => 0 | BtPartition _ lba_offset _ => lba_offset end.

(** Bytes of pages. *)
Lemma concat_length {A} (l : list (list A)) : length (concat l) = sum_list (length <$> l).
Proof. induction l as [|x l IH]; [done|]. csimpl. by rewrite length_app, IH. Qed.

Lemma sum_list_replicate n m : sum_list (replicate n m) = (n * m)%nat.
Proof. induction n as [|n IH]; [done|]. simpl. by rewrite IH. Qed.

Lemma take_drop_prefix {A} (X Y : list A) v f n :
  take v X = take v Y -> (f + n <= v)%nat -> take n (drop f X) = take n (drop f Y).
Proof.
  intros E Hle. rewrite !take_drop_commute. f_equal.
  replace (f + n)%nat with (Nat.min (f + n) v) by lia. by rewrite <- !take_take, E.
Qed.

Section DeviceOk.
Context {Q : Type} `{QueueLaws Q} (stale : nat -> list Z) (Hstale : forall n, length (stale n) = n).

(** The device is inside its disk. *)
Record dev_ok (qs : gmap nat Q) (dev : BlockDevice) (q : Q) : Prop := {
  do_queue : qs !! bd_queue dev = Some q;
  do_ok : q_ok q;
  do_base : 0 <= dev_base dev;
  do_count : 0 <= bd_sector_count dev;
  do_len : (dev_base dev + bd_sector_count dev) * 512 <= Z.of_nat (length (q_disk q)) < 2 ^ 63;
}.

Lemma request_sector_ok qs dev q s c :
  dev_ok qs dev q -> 0 <= s -> 0 < c -> s + c <= bd_sector_count dev -> request_sector dev s c = Some (dev_base dev + s).
Proof.
  intros [_ _ Hb Hn Hl] Hs Hc Hsc. unfold request_sector. rewrite wrap64_small by (unfold is_u64; lia).
  destruct (Z.ltb_spec (bd_sector_count dev) (s + c)); [lia|]. unfold dev_base in *.
  destruct (bd_type dev); [by f_equal|]. rewrite wrap64_small by (unfold is_u64; lia). f_equal. lia.
Qed.

Lemma commit_read_ok qs dev q s c pages :
  dev_ok qs dev q -> 0 <= s -> 0 < c -> s + c <= bd_sector_count dev -> q_accepts c (length <$> pages) ->
  exists pages', commit_request qs dev (BrRead s c pages) = (qs, Ret pages') /\ length <$> pages' = length <$> pages
    /\ take (Z.to_nat (c * 512)) (concat pages') = take (Z.to_nat (c * 512)) (drop (Z.to_nat ((dev_base dev + s) * 512)) (q_disk q)).
Proof.
  intros Hd Hs Hc Hsc Hacc. unfold commit_request. rewrite (request_sector_ok qs dev q s c) by done. simpl.
  destruct Hd as [Hq Hok Hb Hn Hl]. rewrite Hq.
  destruct (q_read_law q (dev_base dev + s) c pages Hok ltac:(lia) Hc ltac:(lia) Hacc) as (pages' & -> & ? & ?).
  exists pages'. by rewrite insert_id.
Qed.

Lemma commit_write_ok qs dev q s c pages :
  dev_ok qs dev q -> 0 <= s -> 0 < c -> s + c <= bd_sector_count dev -> q_accepts c (length <$> pages) ->
  exists q' pages', commit_request qs dev (BrWrite s c pages) = (<[bd_queue dev := q']> qs, Ret pages')
    /\ dev_ok (<[bd_queue dev := q']> qs) dev q' /\ max_request_pages q' = max_request_pages q
    /\ q_disk q' = splice (q_disk q) (Z.to_nat ((dev_base dev + s) * 512)) (take (Z.to_nat (c * 512)) (concat pages)).
Proof.
  intros Hd Hs Hc Hsc Hacc. unfold commit_request. rewrite (request_sector_ok qs dev q s c) by done. simpl.
  destruct Hd as [Hq Hok Hb Hn Hl]. rewrite Hq.
  destruct (q_write_law q (dev_base dev + s) c pages Hok ltac:(lia) Hc ltac:(lia) Hacc) as (q' & pages' & -> & Hok' & Hm & Hdisk).
  exists q', pages'. split; [done|]. split; [|done]. pose proof (q_accepts_len _ _ Hacc) as Hlen. split; try done.
  - by rewrite lookup_insert_eq.
  - rewrite Hdisk. rewrite splice_length; [done|]. rewrite length_take, concat_length. lia.
Qed.

(** The pages of a request. *)
Definition page_lens (count : Z) : list nat :=
  if count <=? 8 then [ONE_PAGE] else if count <=? 16 then [TWO_PAGES] else replicate (Z.to_nat ((count + 15) / 16)) TWO_PAGES.

Lemma ONE_PAGE_Z : Z.of_nat ONE_PAGE = 4096.
Proof. by vm_compute. Qed.
Lemma TWO_PAGES_Z : Z.of_nat TWO_PAGES = 8192.
Proof. by vm_compute. Qed.

Lemma sector_pages_lens count : length <$> sector_pages stale count = page_lens count.
Proof.
  unfold sector_pages, page_lens. destruct (count <=? 8), (count <=? 16); csimpl; rewrite ?fmap_replicate; by rewrite Hstale.
Qed.

Lemma page_lens_sum count :
  0 < count -> count * 512 <= Z.of_nat (sum_list (page_lens count))
  /\ (16 < count -> count mod 16 = 0 -> Z.of_nat (sum_list (page_lens count)) = count * 512).
Proof.
  intros Hc. unfold page_lens. pose proof ONE_PAGE_Z. pose proof TWO_PAGES_Z.
  destruct (Z.leb_spec count 8); [cbn; lia|]. destruct (Z.leb_spec count 16); [cbn; lia|].
  rewrite sum_list_replicate, Nat2Z.inj_mul, TWO_PAGES_Z.
  pose proof (Z.div_mod (count + 15) 16 ltac:(lia)). pose proof (Z.mod_pos_bound (count + 15) 16 ltac:(lia)).
  split; [lia|]. intros _ Hm. pose proof (Z.div_mod count 16 ltac:(lia)).
  assert ((count + 15) / 16 = count / 16) as -> by (symmetry; apply (Z.div_unique _ _ _ 15); lia). lia.
Qed.

Lemma page_lens_pos count : Forall (fun n => 512 <= n)%nat (page_lens count).
Proof.
  pose proof ONE_PAGE_Z. pose proof TWO_PAGES_Z. assert (512 <= ONE_PAGE /\ 512 <= TWO_PAGES)%nat as [? ?] by lia.
  unfold page_lens. destruct (count <=? 8), (count <=? 16); try (by apply Forall_replicate); by apply Forall_singleton.
Qed.

(** ** Reading *)

Section Reading.
Context {B : Type} `{BufferLaws B}.

Lemma fill_pages_ok pages fo (b : B) n :
  buf_ok b -> (fo < 512)%nat -> Forall (fun p => 512 <= length p)%nat pages -> pages <> [] ->
  let d := drop fo (concat pages) in
  exists b' brk, fill_pages pages fo b n = (b', Ret (brk, n + Nat.min (available b) (length d)))%nat /\ buf_ok b'
    /\ buf_total b' = buf_total b /\ buf_data b' = buf_data b ++ take (available b) d
    /\ (if brk then available b <= length d else length d <= available b)%nat.
Proof.
  revert fo b n. induction pages as [|p pages IH]; [done|]. intros fo b n Hb Hfo [Hp Hps]%Forall_cons _ d.
  destruct (buf_fill_law b (drop fo p) Hb) as (r & b1 & E & Hb1 & Ht1 & Hd1 & Hr & Hstop).
  assert (drop fo p <> []) as Hne. { intros E0. apply (f_equal length) in E0. rewrite length_drop in E0. simpl in E0. lia. }
  specialize (Hstop Hne). simpl. rewrite E.
  assert (d = drop fo p ++ concat pages) as -> by (unfold d; simpl; rewrite drop_app_le; [done|lia]).
  rewrite length_app. rewrite (length_drop p fo) in *.
  assert (buf_total b1 - buf_wrote b1 = available b - Nat.min (available b) (length p - fo))%nat as Hav.
  { rewrite (buf_wrote_data b1 Hb1), Hd1, length_app, length_take, length_drop, Ht1.
    pose proof (buf_wrote_data b Hb). unfold available. lia. }
  destruct r as [k|k|]; simpl in Hr, Hstop; try (assert (~ (available b <> 0 /\ length p - fo <= available b)%nat) as Hs by (intros Hc; by apply Hstop in Hc)).
  - destruct Hstop as [Hs _]. destruct (Hs eq_refl) as [Hav0 Hle]. destruct pages as [|p2 pages].
    + exists b1, false. simpl. rewrite app_nil_r. split; [apply (f_equal (fun x => (b1, Ret (false, x)))); lia|]. repeat (split; [done|]). lia.
    + destruct (IH 0%nat b1 (n + k)%nat Hb1 ltac:(lia) Hps ltac:(done)) as (b' & brk & -> & Hb' & Ht' & Hd' & Hbrk). rewrite drop_0 in *.
      unfold available in *. exists b', brk. split; [apply (f_equal (fun x => (b', Ret (brk, x)))); lia|]. split; [done|]. split; [congruence|]. split.
      * rewrite Hd', Hd1, <- app_assoc. f_equal. rewrite Hav, (take_ge (drop fo p)) by (rewrite length_drop; lia).
        rewrite take_app_ge by (rewrite length_drop; lia). rewrite length_drop. do 2 f_equal. lia.
      * destruct brk; lia.
  - exists b1, true. split; [apply (f_equal (fun x => (b1, Ret (true, x)))); lia|]. split; [done|]. split; [done|]. split; [|lia].
    rewrite Hd1, take_app_le; [done|]. rewrite length_drop. lia.
  - exists b1, true. split; [apply (f_equal (fun x => (b1, Ret (true, x)))); lia|]. split; [done|]. split; [done|]. split; [|lia].
    rewrite Hd1, take_app_le; [done|]. rewrite length_drop. lia.
Qed.

Lemma slice_split (D : list Z) a n m : take (n + m) (drop a D) = take n (drop a D) ++ take m (drop (a + n) D).
Proof. rewrite <- drop_drop. symmetry. apply take_take_drop. Qed.

Lemma read_count_spec max count :
  0 < max -> max mod 16 = 0 -> 0 < count ->
  let c := read_count max count in
  0 < c <= count /\ (c = count \/ 16 <= c /\ Z.of_nat (sum_list (page_lens c)) = c * 512).
Proof.
  intros Hm Hmm Hc. unfold read_count. destruct (Z.leb_spec count 16); [lia|]. split; [lia|].
  destruct (Z.min_spec count max) as [[_ ->]|[_ ->]]; [by left|right].
  assert (16 <= max) by (pose proof (Z.div_mod max 16 ltac:(lia)); lia). split; [done|].
  destruct (Z.eq_dec max 16) as [->|]; [vm_compute; reflexivity|]. apply page_lens_sum; lia.
Qed.

(** One round: the sectors of a request are read and copied out. *)
Lemma read_round qs dev q start fo c (b : B) n :
  dev_ok qs dev q -> buf_ok b -> (fo < 512)%nat -> 0 <= start -> 0 < c -> start + c <= bd_sector_count dev ->
  q_accepts c (page_lens c) ->
  exists pages b' brk k, commit_request qs dev (BrRead start c (sector_pages stale c)) = (qs, Ret pages) /\ pages <> []
    /\ fill_pages pages fo b n = (b', Ret (brk, n + k))%nat /\ buf_ok b' /\ buf_total b' = buf_total b
    /\ k = Nat.min (available b) (sum_list (page_lens c) - fo) /\ available b' = (available b - k)%nat
    /\ ((fo + k <= Z.to_nat (c * 512))%nat ->
         buf_data b' = buf_data b ++ take k (drop (Z.to_nat ((dev_base dev + start) * 512) + fo) (q_disk q)))
    /\ (if brk then available b <= sum_list (page_lens c) - fo else sum_list (page_lens c) - fo <= available b)%nat.
Proof.
  intros Hd Hb Hfo Hs Hc Hsc Hacc. rewrite <- (sector_pages_lens c) in Hacc.
  destruct (commit_read_ok qs dev q start c _ Hd Hs Hc Hsc Hacc) as (pages & Ecom & Hlens & Hbytes).
  rewrite sector_pages_lens in Hlens. pose proof (page_lens_pos c) as Hpos. rewrite <- Hlens in Hpos. rewrite Forall_fmap in Hpos.
  assert (pages <> []) as Hne. { intros ->. destruct (page_lens_sum c Hc) as [Hle _]. rewrite <- Hlens in Hle. simpl in Hle. lia. }
  destruct (fill_pages_ok pages fo b n Hb Hfo Hpos Hne) as (b' & brk & Ef & Hb' & Ht & Hd' & Hbrk).
  rewrite length_drop, concat_length, Hlens in *.
  exists pages, b', brk, (Nat.min (available b) (sum_list (page_lens c) - fo)). split; [done|]. split; [done|]. split; [exact Ef|].
  split; [done|]. split; [done|]. split; [done|]. split.
  { unfold available. rewrite Ht, (buf_wrote_data b' Hb'), Hd', length_app, length_take, length_drop, concat_length, Hlens.
    pose proof (buf_wrote_data b Hb). unfold available. lia. }
  split; [|exact Hbrk]. intros Hk. rewrite Hd'. f_equal.
  set (k := Nat.min (available b) (sum_list (page_lens c) - fo)) in *.
  replace (take (available b) (drop fo (concat pages))) with (take k (drop fo (concat pages))).
  2:{ unfold k. destruct (Nat.min_spec (available b) (sum_list (page_lens c) - fo)) as [[_ ->]|[? ->]]; [done|].
      rewrite !take_ge; [done|rewrite length_drop, concat_length, Hlens; lia..]. }
  rewrite (take_drop_prefix _ _ _ fo k Hbytes Hk). by rewrite drop_drop.
Qed.

Lemma read_loop_ok fuel : forall qs dev q start fo count (b : B) n,
  dev_ok qs dev q -> buf_ok b -> (fo < 512)%nat -> 0 <= start -> 0 <= count -> start + count <= bd_sector_count dev ->
  Z.of_nat (fo + available b) <= count * 512 -> (forall c, 0 < c <= count -> q_accepts c (page_lens c)) -> count < Z.of_nat fuel ->
  exists b', read_some_loop stale fuel qs dev start fo count b n = Some (qs, b', Ret (n + available b)%nat) /\ buf_ok b'
    /\ buf_total b' = buf_total b
    /\ buf_data b' = buf_data b ++ take (available b) (drop (Z.to_nat ((dev_base dev + start) * 512) + fo) (q_disk q)).
Proof.
  induction fuel as [|fuel IH]; intros qs dev q start fo count b n Hd Hb Hfo Hs Hc Hsc Hav Hacc Hf; [lia|]. simpl.
  destruct (Z.eqb_spec count 0) as [->|Hnz].
  { assert (available b = 0%nat) as -> by lia. exists b. rewrite Nat.add_0_r, take_0, app_nil_r. done. }
  assert (queue_max qs dev = max_request_pages q) as -> by (unfold queue_max; by rewrite (do_queue _ _ _ Hd)).
  destruct (q_max_law q (do_ok _ _ _ Hd)) as [Hm Hm16].
  destruct (read_count_spec (max_request_pages q) count (proj1 Hm) Hm16 ltac:(lia)) as [Hc1 Hc2].
  set (c := read_count (max_request_pages q) count) in *. pose proof (proj1 (page_lens_sum c ltac:(lia))) as Hsum.
  destruct (read_round qs dev q start fo c b n Hd Hb Hfo Hs ltac:(lia) ltac:(lia) (Hacc c ltac:(lia)))
    as (pages & b1 & brk & k & -> & Hpne & -> & Hb1 & Ht1 & Hk & Hav1 & Hdata & Hbrk).
  pose proof (do_len _ _ _ Hd) as Hlen. pose proof (do_base _ _ _ Hd) as Hbase.
  assert (fo + k <= Z.to_nat (c * 512))%nat as Hkc.
  { destruct Hc2 as [Hcc|[_ Hcc]]; lia. }
  specialize (Hdata Hkc).
  destruct brk.
  - assert (k = available b) as -> by lia. exists b1. done.
  - destruct pages as [|p pages]; [done|]. rewrite !wrap64_small by (unfold is_u64; lia).
    destruct (IH qs dev q (start + c) 0%nat (count - c) b1 (n + k)%nat Hd Hb1 ltac:(lia) ltac:(lia) ltac:(lia) ltac:(lia)) as (b' & -> & Hb' & Ht' & Hd').
    { destruct Hc2 as [Hcc|[_ Hcc]]; lia. }
    { intros c' Hc'. apply Hacc. lia. }
    { lia. }
    exists b'. split; [do 3 f_equal; lia|]. split; [done|]. split; [congruence|].
    rewrite Hd', Hdata, <- app_assoc. f_equal. rewrite Hav1.
    replace (available b) with (k + (available b - k))%nat at 2 by lia. rewrite slice_split. f_equal.
    destruct (Nat.eq_dec (available b - k)%nat 0%nat) as [->|Hrest]; [by rewrite !take_0|]. do 2 f_equal.
    assert (k = sum_list (page_lens c) - fo)%nat as -> by lia. destruct Hc2 as [Hcc|[_ Hcc]]; lia.
Qed.

(** C15: a block device is an array of bytes to its reader.  Reading any number of
    bytes at any offset inside the device, of a disk or of a partition, fills the
    buffer with exactly these bytes, whatever the requests it is cut into, for
    every driver that carries these requests out. *)
Theorem read_some_correct fuel qs dev q offset (b : B) :
  let total := Z.of_nat (buf_total b) in
  dev_ok qs dev q -> buf_ok b -> buf_data b = [] -> 0 <= offset -> offset + total <= bd_sector_count dev * 512 ->
  (forall c, 0 < c <= (offset mod 512 + total + 511) / 512 -> q_accepts c (page_lens c)) ->
  total + 1024 < 512 * Z.of_nat fuel ->
  exists b', read_some stale fuel qs dev offset b = Some (qs, b', Ret (FDone (buf_total b))) /\ buf_ok b'
    /\ buf_data b' = take (buf_total b) (drop (Z.to_nat (dev_base dev * 512 + offset)) (q_disk q)).
Proof.
  intros total Hd Hb Hempty Ho Hot Hacc Hf. unfold read_some. fold total.
  pose proof (do_len _ _ _ Hd) as Hlen. pose proof (do_base _ _ _ Hd) as Hbase.
  pose proof (Z.div_mod offset 512 ltac:(lia)) as Hdiv. pose proof (Z.mod_pos_bound offset 512 ltac:(lia)) as Hmod.
  rewrite wrap64_small by (unfold is_u64; lia). set (count := (offset mod 512 + total + 511) / 512) in *.
  pose proof (Z.div_mod (offset mod 512 + total + 511) 512 ltac:(lia)) as Hdc. pose proof (Z.mod_pos_bound (offset mod 512 + total + 511) 512 ltac:(lia)) as Hmc.
  fold count in Hdc. assert (available b = buf_total b) as Hav.
  { unfold available. rewrite (buf_wrote_data b Hb), Hempty. simpl. lia. }
  destruct (read_loop_ok fuel qs dev q (offset / 512) (Z.to_nat (offset mod 512)) count b 0 Hd Hb) as (b' & -> & Hb' & Ht & Hdata).
  all: try (rewrite ?Hav; lia). { exact Hacc. }
  exists b'. rewrite Ht, Hav, Nat.add_0_l, Nat.eqb_refl. split; [done|]. split; [done|]. rewrite Hdata, Hempty, Hav. simpl. do 2 f_equal. lia.
Qed.
End Reading.

(** ** Writing *)

Lemma splice_lookup_opt (l : list Z) n d j :
  (n + length d <= length l)%nat ->
  splice l n d !! j = if decide (n <= j < n + length d)%nat then d !! (j - n)%nat else l !! j.
Proof.
  intros Hl. unfold splice. destruct (decide _) as [Hj|Hj].
  - rewrite lookup_app_r by (rewrite length_take; lia). rewrite length_take, Nat.min_l by lia. rewrite lookup_app_l by lia. done.
  - destruct (decide (j < n)%nat).
    + rewrite lookup_app_l by (rewrite length_take; lia). by rewrite lookup_take_lt.
    + rewrite lookup_app_r by (rewrite length_take; lia). rewrite length_take, Nat.min_l by lia.
      rewrite lookup_app_r by lia. rewrite lookup_drop. f_equal. lia.
Qed.

(** Two adjacent pieces are one. *)
Lemma splice_app (l : list Z) n d1 d2 :
  (n + length d1 + length d2 <= length l)%nat ->
  splice (splice l n d1) (n + length d1) d2 = splice l n (d1 ++ d2).
Proof.
  intros Hl. apply list_eq. intros j. rewrite splice_lookup_opt by (rewrite splice_length; lia).
  rewrite (splice_lookup_opt l n (d1 ++ d2)) by (rewrite length_app; lia). rewrite (splice_lookup_opt l n d1) by lia.
  rewrite length_app. repeat case_decide; try lia; try done.
  - rewrite lookup_app_r by lia. f_equal. lia.
  - rewrite lookup_app_l by lia. done.
Qed.

(** A window of a list that is changed and put back. *)
Lemma splice_window (l X : list Z) s v fo d :
  (s + v <= length l)%nat -> (fo + length d <= v)%nat -> (v <= length X)%nat -> take v X = take v (drop s l) ->
  splice l s (take v (splice X fo d)) = splice l (s + fo) d.
Proof.
  intros Hl Hf Hv HX. apply list_eq. intros j.
  assert (length (take v (splice X fo d)) = v) as Hlen by (rewrite length_take, splice_length; lia).
  rewrite splice_lookup_opt by lia. rewrite (splice_lookup_opt l (s + fo)) by lia. rewrite Hlen.
  case_decide as H1.
  - rewrite lookup_take_lt by lia. rewrite splice_lookup_opt by lia. repeat case_decide; try lia; [f_equal; lia|].
    pose proof (f_equal (fun y => y !! (j - s)%nat) HX) as E. cbn beta in E. rewrite !lookup_take_lt, lookup_drop in E by lia.
    rewrite E. f_equal. lia.
  - rewrite decide_False by lia. done.
Qed.

Lemma splice_all (X : list Z) d v : length d = v -> take v (splice X 0 d) = d.
Proof. intros <-. unfold splice. simpl. rewrite take_app_length. done. Qed.

Lemma splice_nil (l : list Z) n : splice l n [] = l.
Proof. unfold splice. rewrite Nat.add_0_r. apply take_drop. Qed.

Lemma splice_pages (p X : list Z) fo d1 d2 :
  (fo + length d1 = length p)%nat -> (length d2 <= length X)%nat ->
  splice p fo d1 ++ splice X 0 d2 = splice (p ++ X) fo (d1 ++ d2).
Proof.
  intros H1 H2. unfold splice. rewrite length_app, (drop_ge p) by lia. rewrite (take_app_le p) by lia.
  rewrite (drop_app_ge p) by lia. simpl. rewrite app_nil_r, <- !app_assoc. do 4 f_equal. lia.
Qed.

Lemma copy_to_pages_ok pages : forall fo data off,
  (fo < 512)%nat -> (off <= length data)%nat -> Forall (fun p => 512 <= length p)%nat pages ->
  let k := Nat.min (length data - off) (length (concat pages) - fo) in
  exists pages', copy_to_pages pages fo data off = (pages', off + k)%nat /\ length <$> pages' = length <$> pages
    /\ concat pages' = splice (concat pages) fo (take k (drop off data)).
Proof.
  induction pages as [|p pages IH]; intros fo data off Hfo Hoff Hps k.
  { exists []. simpl in k. assert (k = 0%nat) as -> by (unfold k; lia). rewrite Nat.add_0_r. split; [done|]. split; [done|].
    simpl. by destruct fo. }
  apply Forall_cons in Hps as [Hp Hps]. simpl. set (cl := Nat.min (length data - off) (length p - fo)).
  unfold k. clear k. simpl. rewrite length_app. destruct (Nat.eqb_spec cl 0) as [E0|E0].
  { assert (length data - off = 0)%nat as E by (unfold cl in *; lia). rewrite E. simpl. rewrite Nat.add_0_r. exists (p :: pages).
    split; [done|]. split; [done|]. simpl. by rewrite splice_nil. }
  assert (length (take cl (drop off data)) = cl) as Hcl by (rewrite length_take, length_drop; unfold cl; lia).
  destruct (Nat.leb_spec (length data) (off + cl)) as [Hfit|Hmore].
  - assert (Nat.min (length data - off) (length p + length (concat pages) - fo) = cl) as -> by (unfold cl in *; lia).
    eexists. split; [reflexivity|]. csimpl. rewrite splice_length by (rewrite Hcl; unfold cl; lia). split; [done|].
    apply list_eq. intros j. rewrite (splice_lookup_opt (p ++ _)) by (rewrite Hcl, length_app; unfold cl; lia).
    rewrite !lookup_app, splice_lookup_opt, splice_length by (rewrite Hcl; unfold cl; lia). case_decide as Hj; [|done].
    destruct (take cl (drop off data) !! (j - fo)%nat) eqn:Hlk; [done|]. apply lookup_ge_None in Hlk. lia.
  - assert (cl = length p - fo)%nat as Ecl by (unfold cl in *; lia).
    destruct (IH 0%nat data (off + cl)%nat ltac:(lia) ltac:(lia) Hps) as (pages' & -> & Hlens & Hcon).
    set (k' := Nat.min (length data - (off + cl)) (length (concat pages) - 0)) in *.
    assert (Nat.min (length data - off) (length p + length (concat pages) - fo) = cl + k')%nat as -> by (unfold k'; lia).
    eexists. split; [f_equal; lia|]. csimpl. rewrite Hlens, splice_length by (rewrite Hcl; lia). split; [done|]. rewrite Hcon.
    rewrite <- take_take_drop, drop_drop. apply splice_pages; [rewrite Hcl|rewrite length_take, length_drop]; lia.
Qed.

(** The pages of a write request before the data goes in: read from the disk
    unless all of their sectors are overwritten. *)
Lemma write_prepare qs dev q start fo c k (whole : bool) :
  dev_ok qs dev q -> 0 <= start -> 0 < c -> start + c <= bd_sector_count dev -> q_accepts c (page_lens c) ->
  (whole = false -> fo = 0%nat /\ k = Z.to_nat (c * 512)) ->
  exists pages,
    (if whole then commit_request qs dev (BrRead start c (sector_pages stale c)) else (qs, Ret (sector_pages stale c))) = (qs, Ret pages)
    /\ length <$> pages = page_lens c
    /\ (forall d, length d = k -> (fo + k <= Z.to_nat (c * 512))%nat ->
         splice (q_disk q) (Z.to_nat ((dev_base dev + start) * 512)) (take (Z.to_nat (c * 512)) (splice (concat pages) fo d))
         = splice (q_disk q) (Z.to_nat ((dev_base dev + start) * 512) + fo) d).
Proof.
  intros Hd Hs Hc Hsc Hacc Hw. pose proof (do_len _ _ _ Hd) as Hlen. pose proof (do_base _ _ _ Hd) as Hbase.
  destruct whole.
  - rewrite <- (sector_pages_lens c) in Hacc.
    destruct (commit_read_ok qs dev q start c _ Hd Hs Hc Hsc Hacc) as (pages & -> & Hlens & Hbytes).
    rewrite sector_pages_lens in Hlens. exists pages. split; [done|]. split; [done|]. intros d Hdl Hk.
    pose proof (proj1 (page_lens_sum c Hc)) as Hsum. apply splice_window; [lia|lia| |done]. rewrite concat_length, Hlens. lia.
  - destruct (Hw eq_refl) as [-> Hk]. exists (sector_pages stale c). split; [done|]. split; [apply sector_pages_lens|].
    intros d Hdl _. rewrite splice_all by lia. f_equal. lia.
Qed.

(** One round: a piece of the data is on the disk, and the rest starts at the
    next sector. *)
Lemma write_round qs dev q start fo c (data : list Z) :
  dev_ok qs dev q -> (fo < 512)%nat -> 0 <= start -> data <> [] -> 0 < c ->
  (start * 512 + Z.of_nat fo + Z.of_nat (length data) <= bd_sector_count dev * 512) ->
  (c = (Z.of_nat fo + Z.of_nat (length data) + 511) / 512
   \/ 16 <= c /\ c < (Z.of_nat fo + Z.of_nat (length data) + 511) / 512 /\ Z.of_nat (sum_list (page_lens c)) = c * 512) ->
  q_accepts c (page_lens c) ->
  let k := Nat.min (length data) (sum_list (page_lens c) - fo) in
  exists pages pages' q' r,
    (if negb (fo =? 0)%nat || (Z.of_nat (length data) <? c * 512)
     then commit_request qs dev (BrRead start c (sector_pages stale c)) else (qs, Ret (sector_pages stale c))) = (qs, Ret pages)
    /\ copy_to_pages pages fo data 0 = (pages', k)
    /\ commit_request qs dev (BrWrite start c pages') = (<[bd_queue dev := q']> qs, Ret r)
    /\ dev_ok (<[bd_queue dev := q']> qs) dev q' /\ max_request_pages q' = max_request_pages q
    /\ q_disk q' = splice (q_disk q) (Z.to_nat ((dev_base dev + start) * 512) + fo) (take k data)
    /\ (0 < k)%nat /\ (k = length data \/ Z.of_nat (fo + k) = c * 512).
Proof.
  intros Hd Hfo Hs Hne Hc Hfit Hcc Hacc k. assert (0 < length data)%nat as Hpos by (destruct data; [done|simpl; lia]).
  pose proof (Z.div_mod (Z.of_nat fo + Z.of_nat (length data) + 511) 512 ltac:(lia)) as Hdm.
  pose proof (Z.mod_pos_bound (Z.of_nat fo + Z.of_nat (length data) + 511) 512 ltac:(lia)) as Hmb.
  pose proof (proj1 (page_lens_sum c Hc)) as Hsum.
  assert ((fo + k <= Z.to_nat (c * 512))%nat /\ (0 < k)%nat /\ (k = length data \/ Z.of_nat (fo + k) = c * 512)) as (Hk1 & Hk2 & Hk3).
  { unfold k. destruct Hcc as [->|(? & ? & Hs16)]; lia. }
  assert (start + c <= bd_sector_count dev) as Hsc by (destruct Hcc as [->|(? & ? & ?)]; lia).
  set (whole := negb (fo =? 0)%nat || (Z.of_nat (length data) <? c * 512)).
  destruct (write_prepare qs dev q start fo c k whole Hd Hs Hc Hsc Hacc) as (pages & Eprep & Hlens & Hsplice).
  { unfold whole. intros [E1 E2]%orb_false_iff. apply negb_false_iff, Nat.eqb_eq in E1. apply Z.ltb_ge in E2. split; [done|].
    unfold k. destruct Hcc as [Hcc|(? & ? & Hs16)]; lia. }
  pose proof (page_lens_pos c) as Hps. rewrite <- Hlens in Hps. rewrite Forall_fmap in Hps.
  destruct (copy_to_pages_ok pages fo data 0 Hfo ltac:(lia) Hps) as (pages' & Ecopy & Hlens' & Hcon).
  rewrite concat_length, Hlens, Nat.sub_0_r, Nat.add_0_l in Ecopy. rewrite (concat_length pages), Hlens, Nat.sub_0_r, drop_0 in Hcon.
  fold k in Ecopy, Hcon.
  rewrite <- Hlens, <- Hlens' in Hacc.
  destruct (commit_write_ok qs dev q start c pages' Hd Hs Hc Hsc Hacc) as (q' & r & Ew & Hd' & Hm & Hdisk).
  exists pages, pages', q', r. split; [exact Eprep|]. split; [exact Ecopy|]. split; [exact Ew|]. split; [done|]. split; [done|].
  split; [|done]. rewrite Hdisk, Hcon. apply Hsplice; [|done]. rewrite length_take. unfold k. lia.
Qed.

Lemma write_count_spec max n :
  0 < max -> max mod 16 = 0 -> 0 < n ->
  let c := Z.min n max in 0 < c /\ (c = n \/ 16 <= c /\ c < n /\ Z.of_nat (sum_list (page_lens c)) = c * 512).
Proof.
  intros Hm Hmm Hn. split; [lia|]. destruct (Z.min_spec n max) as [[_ ->]|[Hle ->]]; [by left|].
  destruct (Z.eq_dec n max) as [->|]; [by left|right].
  assert (16 <= max) by (pose proof (Z.div_mod max 16 ltac:(lia)); lia). split; [done|]. split; [lia|].
  destruct (Z.eq_dec max 16) as [->|]; [vm_compute; reflexivity|]. apply page_lens_sum; lia.
Qed.

Lemma write_loop_ok fuel : forall qs dev q start fo (data : list Z) n,
  dev_ok qs dev q -> (fo < 512)%nat -> 0 <= start ->
  (start * 512 + Z.of_nat fo + Z.of_nat (length data) <= bd_sector_count dev * 512) ->
  (forall c, 0 < c <= (Z.of_nat fo + Z.of_nat (length data) + 511) / 512 -> q_accepts c (page_lens c)) -> (length data < fuel)%nat ->
  exists q', write_some_loop stale fuel qs dev start fo data n = Some (<[bd_queue dev := q']> qs, Ret (n + length data)%nat)
    /\ dev_ok (<[bd_queue dev := q']> qs) dev q'
    /\ q_disk q' = splice (q_disk q) (Z.to_nat ((dev_base dev + start) * 512) + fo) data.
Proof.
  induction fuel as [|fuel IH]; intros qs dev q start fo data n Hd Hfo Hs Hfit Hacc Hf; [lia|]. simpl.
  pose proof (do_len _ _ _ Hd) as Hlen. pose proof (do_base _ _ _ Hd) as Hbase.
  case_bool_decide as Hne.
  { subst data. exists q. rewrite insert_id by apply Hd. rewrite splice_nil, Nat.add_0_r. done. }
  assert (0 < length data)%nat as Hpos by (destruct data; [done|simpl; lia]).
  assert (queue_max qs dev = max_request_pages q) as -> by (unfold queue_max; by rewrite (do_queue _ _ _ Hd)).
  destruct (q_max_law q (do_ok _ _ _ Hd)) as [Hm Hm16]. rewrite (wrap64_small (Z.of_nat fo + Z.of_nat (length data))) by (unfold is_u64; lia).
  rewrite (wrap64_small (Z.of_nat fo + Z.of_nat (length data) + 511)) by (unfold is_u64; lia).
  set (N := (Z.of_nat fo + Z.of_nat (length data) + 511) / 512) in *.
  assert (0 < N) as HN by (unfold N; apply Z.div_str_pos; lia).
  destruct (write_count_spec (max_request_pages q) N (proj1 Hm) Hm16 HN) as [Hc Hcc]. set (c := Z.min N (max_request_pages q)) in *.
  rewrite (wrap64_small (c * 512)) by (unfold is_u64; unfold c; lia).
  destruct (write_round qs dev q start fo c data Hd Hfo Hs Hne Hc Hfit Hcc (Hacc c ltac:(unfold c in *; lia)))
    as (pages & pages' & q1 & r & -> & -> & -> & Hd1 & Hm1 & Hdisk & Hk1 & Hk2).
  set (k := Nat.min (length data) (sum_list (page_lens c) - fo)) in *.
  pose proof (Z.div_mod (Z.of_nat fo + Z.of_nat (length data) + 511) 512 ltac:(lia)) as Hdm.
  pose proof (Z.mod_pos_bound (Z.of_nat fo + Z.of_nat (length data) + 511) 512 ltac:(lia)) as Hmb. fold N in Hdm.
  assert (c <= N) as HcN by (unfold c; lia). assert (k <= length data)%nat as Hkl by (unfold k; lia).
  rewrite (wrap64_small (start + c)) by (unfold is_u64; lia).
  destruct (IH (<[bd_queue dev := q1]> qs) dev q1 (start + c) 0%nat (drop k data) (n + k)%nat Hd1 ltac:(lia) ltac:(lia)) as (q' & -> & Hd' & Hdisk').
  { rewrite length_drop. lia. }
  { intros c' Hc'. apply Hacc. rewrite length_drop in Hc'. split; [lia|]. etransitivity; [apply Hc'|]. unfold N. apply Z.div_le_mono; lia. }
  { rewrite length_drop. lia. }
  rewrite insert_insert_eq in *. exists q'. split; [rewrite length_drop; do 3 f_equal; lia|]. split; [done|]. rewrite Hdisk', Hdisk.
  assert (length (take k data) = k) as Htk by (rewrite length_take; lia).
  destruct Hk2 as [Hk2|Hk2].
  - rewrite (drop_ge data), (take_ge data) by lia. by rewrite splice_nil.
  - replace (Z.to_nat ((dev_base dev + (start + c)) * 512) + 0)%nat with (Z.to_nat ((dev_base dev + start) * 512) + fo + length (take k data))%nat by lia.
    rewrite splice_app, take_drop; [done|]. rewrite Htk, length_drop. lia.
Qed.

End DeviceOk.

(** ** The virtio driver (src/driver/virtio/virtio_blk.rs)

    [VirtIOBlk] is the device of the virtio-drivers crate: it reads and writes
    whole blocks of 512 bytes at a block number. *)

Class VirtIOBlk (D : Type) := {
  read_blocks : D -> Z -> nat -> option (list Z);
  write_blocks : D -> Z -> list Z -> option D
}.

Class VirtIOBlkLaws (D : Type) `{VirtIOBlk D} := {
  blk_bytes : D -> list Z;
  read_blocks_law d block n : 0 <= block -> (Z.to_nat (block * 512) + n <= length (blk_bytes d))%nat ->
    read_blocks d block n = Some (take n (drop (Z.to_nat (block * 512)) (blk_bytes d)));
  write_blocks_law d block bs : 0 <= block -> (Z.to_nat (block * 512) + length bs <= length (blk_bytes d))%nat ->
    exists d', write_blocks d block bs = Some d' /\ blk_bytes d' = splice (blk_bytes d) (Z.to_nat (block * 512)) bs
}.

Record Virtio (D : Type) := mkVirtio { vq_dev : D }.
Arguments mkVirtio {D}.
Arguments vq_dev {D}.

Section Virtio.
Context {D : Type} `{VirtIOBlk D}.

(** The chunks of eight sectors are paired with the pages, one page for each. *)
Fixpoint virtio_read (d : D) (c : Chunks) (pages : list (list Z)) : outcome (list (list Z)) :=
  match chunks_next c, pages with
  | None, _ => Ret pages
  | _, [] => Ret []
  | Some ((start, len), c), page :: pages =>
      assert_ (len * 512 <=? Z.of_nat (length page));;
      match read_blocks d start (Z.to_nat (len * 512)) with
      | Some bs => rest ← virtio_read d c pages; Ret (splice page 0 bs :: rest)
      | None => Err EIO
      end
  end.

Fixpoint virtio_write (d : D) (c : Chunks) (pages : list (list Z)) : D * outcome unit :=
  match chunks_next c, pages with
  | None, _ => (d, Ret tt)
  | _, [] => (d, Ret tt)
  | Some ((start, len), c), page :: pages =>
      if Z.of_nat (length page) <? len * 512 then (d, Panic)
      else
        match write_blocks d start (take (Z.to_nat (len * 512)) page) with
        | Some d => virtio_write d c pages
        | None => (d, Err EIO)
        end
  end.

Definition virtio_submit (v : Virtio D) (req : BlockDeviceRequest) : Virtio D * outcome (list (list Z)) :=
  match req with
  | BrRead sector count buffer => (v, virtio_read (vq_dev v) (chunks_new sector count 8) buffer)
  | BrWrite sector count buffer =>
      let (d, r) := virtio_write (vq_dev v) (chunks_new sector count 8) buffer in (mkVirtio d, r;; Ret buffer)
  end.

#[export] Instance virtio_queue : BlockRequestQueue (Virtio D) := {
  max_request_pages _ := 1024;
  submit := virtio_submit
}.
End Virtio.

Section VirtioOk.
Context {D : Type} `{VirtIOBlkLaws D}.

(** The driver transfers what fits one chunk. *)
Definition virtio_accepts (count : Z) (lens : list nat) : Prop :=
  count <= 8 /\ exists n, lens = [n] /\ count * 512 <= Z.of_nat n.

Lemma chunks_one sector count :
  0 <= sector -> 0 < count <= 8 -> sector + count < 2 ^ 63 ->
  exists c, chunks_next (chunks_new sector count 8) = Some ((sector, count), c).
Proof.
  intros Hs Hc Hu. unfold chunks_next, chunks_new. cbn [ch_end ch_cur ch_len]. rewrite wrap64_small by (unfold is_u64; lia).
  destruct (Z.leb_spec (sector + count) sector); [lia|]. eexists. do 3 f_equal. lia.
Qed.

#[export, refine] Instance virtio_laws : QueueLaws (Virtio D) := {
  q_disk v := blk_bytes (vq_dev v);
  q_ok v := Z.of_nat (length (blk_bytes (vq_dev v))) < 2 ^ 63;
  q_accepts := virtio_accepts
}.
Proof.
  - intros count lens [_ (n & -> & Hn)]. simpl. lia.
  - intros v _. vm_compute. done.
  - intros v sector count pages Hok Hs Hc Hlen [Hc8 (n & Hn & Hle)].
    destruct pages as [|p [|]]; simplify_eq/=. unfold virtio_submit. simpl.
    destruct (chunks_one sector count) as [c ->]; [lia..|]. simpl. destruct (Z.leb_spec (count * 512) (Z.of_nat (length p))); [|lia]. simpl.
    rewrite read_blocks_law by lia.
    eexists. split; [by destruct (chunks_next c) as [[[? ?] ?]|]|]. csimpl. rewrite app_nil_r.
    assert (length (take (Z.to_nat (count * 512)) (drop (Z.to_nat (sector * 512)) (blk_bytes (vq_dev v)))) = Z.to_nat (count * 512)) as Hl
      by (rewrite length_take, length_drop; lia).
    rewrite splice_length by (rewrite Hl; lia). split; [done|]. by apply splice_all.
  - intros v sector count pages Hok Hs Hc Hlen [Hc8 (n & Hn & Hle)].
    destruct pages as [|p [|]]; simplify_eq/=. unfold virtio_submit. simpl.
    destruct (chunks_one sector count) as [c ->]; [lia..|]. destruct (Z.ltb_spec (Z.of_nat (length p)) (count * 512)); [lia|].
    rewrite app_nil_r. destruct (write_blocks_law (vq_dev v) sector (take (Z.to_nat (count * 512)) p)) as (d' & -> & Hd'); [lia|rewrite length_take; lia|].
    eexists (mkVirtio d'), _. split; [by destruct (chunks_next c) as [[[? ?] ?]|]|]. simpl. rewrite Hd'. split; [|done]. rewrite splice_length; [done|]. rewrite length_take. lia.
Defined.
End VirtioOk.

(** A device in memory. *)
#[export] Instance ram_blk : VirtIOBlk (list Z) := {
  read_blocks d block n :=
    if (Z.to_nat (block * 512) + n <=? length d)%nat then Some (take n (drop (Z.to_nat (block * 512)) d)) else None;
  write_blocks d block bs :=
    if (Z.to_nat (block * 512) + length bs <=? length d)%nat then Some (splice d (Z.to_nat (block * 512)) bs) else None
}.
#[export, refine] Instance ram_blk_laws : VirtIOBlkLaws (list Z) := { blk_bytes d := d }.
Proof.
  - intros d block n Hb Hn. simpl. by destruct (Nat.leb_spec (Z.to_nat (block * 512) + n) (length d)); [|lia].
  - intros d block bs Hb Hn. simpl. destruct (Nat.leb_spec (Z.to_nat (block * 512) + length bs) (length d)); [|lia]. eauto.
Defined.

(** ** The theorems at work *)

Definition demo_disk : Virtio (list Z) := mkVirtio (Z.of_nat <$> seq 0 1024).
Definition demo_dev : BlockDevice := mkBlockDevice 0x801 1 (BtPartition 0x800 1 0).
Definition demo_queues : gmap nat (Virtio (list Z)) := {[0%nat := demo_disk]}.
Definition zeroes (n : nat) : list Z := replicate n 0.

Lemma demo_dev_ok : dev_ok demo_queues demo_dev demo_disk.
Proof. split; vm_compute; try split; try done. Qed.

Lemma demo_accepts c : 0 < c <= 1 -> q_accepts (Q := Virtio (list Z)) c (page_lens c).
Proof.
  intros Hc. assert (c = 1) as -> by lia. split; [lia|]. exists ONE_PAGE. split; [reflexivity|]. by vm_compute.
Qed.

Lemma read_some_correct_witness :
  exists b, read_some zeroes 4 demo_queues demo_dev 3 (byte_buffer_new [0; 0]) = Some (demo_queues, b, Ret (FDone 2)) /\ buf_data b = [515; 516].
Proof.
  destruct (read_some_correct zeroes (fun n => length_replicate n 0) 4 demo_queues demo_dev demo_disk 3 (byte_buffer_new [0; 0])) as (b & E & _ & Hb).
  - exact demo_dev_ok.
  - vm_compute. repeat constructor.
  - reflexivity.
  - discriminate.
  - vm_compute. discriminate.
  - exact demo_accepts.
  - vm_compute. reflexivity.
  - exists b. split; [exact E|]. rewrite Hb. vm_compute. reflexivity.
Defined.


(** ** Where the drivers and the device do not agree

    For more than eight sectors [read_some] allocates blocks of two pages, but the
    virtio driver reads eight sectors into each: the second half of the block
    keeps what was in memory before. *)
Lemma virtio_large_read_stale :
  match read_some zeroes 10 {[0%nat := mkVirtio (replicate 8192 1)]} (mkBlockDevice 0 16 (BtDisk 0)) 0 (byte_buffer_new (replicate 8192 7)) with
  | Some (_, b, Ret (FDone n)) => bb_buf b = replicate 4096 1 ++ replicate 4096 0 /\ n = 8192%nat
  | _ => False
  end.
Proof. vm_compute. done. Qed.
