(* ===== verification/InodeFile.v ===== *)
(** * Files of the memory file system

    Models the [FileInode] of src/fs/tmpfs.rs on the page cache of PageCache.v,
    the reads, writes and truncations of src/kernel/vfs/dentry.rs, and the
    [InodeFile] of src/kernel/vfs/file/inode_file.rs with its cursor.

    The specification is a list of bytes.  The inode's lock is held by each
    operation, which is therefore one step; the times of an inode are left out. *)

From S2P Require Import Prelude Address Io OpenFlags Mode PageCache.

Definition EOVERFLOW : Z := 75.

(** ** The inode of a regular file *)

Record FileInode := mkFileInode { fi_mode : Z; fi_size : Z; fi_nlink : Z; fi_pages : gmap Z CachePage }.

Definition file_inode_new (size mode : Z) : FileInode := mkFileInode (mode_perm S_IFREG (mode_non_format mode)) size 1 ∅.

Definition set_pages (fi : FileInode) (pages : gmap Z CachePage) : FileInode := mkFileInode (fi_mode fi) (fi_size fi) (fi_nlink fi) pages.

(** Nothing is stored behind the cache: a page that is read is zero, and what
    is written back goes nowhere. *)
Definition tmpfs_read_page (fi : FileInode) (page : CachePage) (offset : Z) : outcome (Z * CachePage) :=
  let valid_size := clamp_page (fi_size fi - offset) in
  Ret (valid_size, mkCachePage (replicate page_len 0) valid_size (cp_dirty page)).

#[export] Instance tmpfs_backend : PageCacheBackend FileInode := {
  bk_read_page := tmpfs_read_page;
  bk_write_page fi _ _ := Ret (PAGE_SIZE, fi);
  bk_size := fi_size
}.

Definition fi_read `{Buffer F} (fi : FileInode) (buffer : F) (offset : Z) : option (FileInode * F * outcome nat) :=
  match pc_read fi (fi_pages fi) buffer offset with
  | Some (pages, buffer, r) => Some (set_pages fi pages, buffer, r)
  | None => None
  end.

Inductive WriteOffset := WPosition (offset : Z) | WEnd.

(** The second result is the end of the written bytes for [WriteOffset::End]. *)
Definition fi_write `{Stream T} (fuel : nat) (fi : FileInode) (stream : T) (offset : WriteOffset) : option (FileInode * T * outcome (nat * option Z)) :=
  let off := match offset with WPosition o => o | WEnd => fi_size fi end in
  match pc_write fuel fi (fi_pages fi) stream off with
  | Some (pages, stream, Ret wrote) =>
      let cursor_end := wrap64 (off + Z.of_nat wrote) in
      Some (mkFileInode (fi_mode fi) (Z.max (fi_size fi) cursor_end) (fi_nlink fi) pages, stream,
            Ret (wrote, match offset with WEnd => Some cursor_end | WPosition _ => None end))
  | Some (pages, stream, Err e) => Some (set_pages fi pages, stream, Err e)
  | Some (pages, stream, Panic) => Some (set_pages fi pages, stream, Panic)
  | None => None
  end.

Definition fi_truncate (fi : FileInode) (length : Z) : outcome FileInode :=
  pages ← pc_resize fi (fi_pages fi) length;
  Ret (mkFileInode (fi_mode fi) length (fi_nlink fi) pages).

Definition fi_chmod (fi : FileInode) (mode : Z) : FileInode :=
  mkFileInode (mode_perm (fi_mode fi) (mode_non_format mode)) (fi_size fi) (fi_nlink fi) (fi_pages fi).

(** ** Reads and writes through a directory entry

    The inode decides by its type; block and character devices are arguments. *)

Definition dentry_read `{Buffer F} (blk_read : F -> Z -> F * outcome nat) (chr_read : F -> F * outcome nat)
    (fi : FileInode) (buffer : F) (offset : Z) : option (FileInode * F * outcome nat) :=
  let m := mode_format (fi_mode fi) in
  if m =? S_IFDIR then Some (fi, buffer, Err EISDIR)
  else if m =? S_IFREG then fi_read fi buffer offset
  else if m =? S_IFBLK then let (buffer, r) := blk_read buffer offset in Some (fi, buffer, r)
  else if m =? S_IFCHR then let (buffer, r) := chr_read buffer in Some (fi, buffer, r)
  else Some (fi, buffer, Err EINVAL).

Definition dentry_write `{Stream T} (chr_write : T -> T * outcome nat)
    (fuel : nat) (fi : FileInode) (stream : T) (offset : WriteOffset) : option (FileInode * T * outcome (nat * option Z)) :=
  let m := mode_format (fi_mode fi) in
  if m =? S_IFDIR then Some (fi, stream, Err EISDIR)
  else if m =? S_IFREG then fi_write fuel fi stream offset
  else if m =? S_IFBLK then Some (fi, stream, Err EINVAL)
  else if m =? S_IFCHR then let (stream, r) := chr_write stream in Some (fi, stream, n ← r; Ret (n, None))
  else Some (fi, stream, Err EINVAL).

(** ** [InodeFile] *)

Record InodeFile := mkInodeFile { if_r : bool; if_w : bool; if_a : bool; if_mode : Z; if_cursor : Z }.

Definition inode_file_new (fi : FileInode) (flags : Z) : InodeFile :=
  let '(r, w, a) := as_rwa flags in
  mkInodeFile r w a (mode_format (fi_mode fi)) 0.

Definition set_cursor (f : InodeFile) (cursor : Z) : InodeFile := mkInodeFile (if_r f) (if_w f) (if_a f) (if_mode f) cursor.

Definition inode_file_sendfile_check (f : InodeFile) : outcome unit :=
  if (if_mode f =? S_IFREG) || (if_mode f =? S_IFBLK) then Ret tt else Err EBADF.

Definition inode_file_write `{Stream T} (chr_write : T -> T * outcome nat) (fuel : nat) (f : InodeFile) (fi : FileInode) (stream : T) (offset : option Z)
    : option (InodeFile * FileInode * T * outcome nat) :=
  if negb (if_w f) then Some (f, fi, stream, Err EBADF)
  else if if_a f then
    match dentry_write chr_write fuel fi stream WEnd with
    | Some (fi, stream, r) =>
        Some (match r with Ret (_, Some end_) => set_cursor f end_ | _ => f end, fi, stream, '(nwrote, _) ← r; Ret nwrote)
    | None => None
    end
  else
    match offset with
    | Some offset =>
        match dentry_write chr_write fuel fi stream (WPosition offset) with
        | Some (fi, stream, r) => Some (f, fi, stream, '(nwrote, _) ← r; Ret nwrote)
        | None => None
        end
    | None =>
        match dentry_write chr_write fuel fi stream (WPosition (if_cursor f)) with
        | Some (fi, stream, r) =>
            Some (match r with Ret (nwrote, _) => set_cursor f (wrap64 (if_cursor f + Z.of_nat nwrote)) | _ => f end,
                  fi, stream, '(nwrote, _) ← r; Ret nwrote)
        | None => None
        end
    end.

Definition inode_file_read `{Buffer F} (blk_read : F -> Z -> F * outcome nat) (chr_read : F -> F * outcome nat)
    (f : InodeFile) (fi : FileInode) (buffer : F) (offset : option Z) : option (InodeFile * FileInode * F * outcome nat) :=
  if negb (if_r f) then Some (f, fi, buffer, Err EBADF)
  else
    match offset with
    | Some offset =>
        match dentry_read blk_read chr_read fi buffer offset with
        | Some (fi, buffer, r) => Some (f, fi, buffer, r)
        | None => None
        end
    | None =>
        match dentry_read blk_read chr_read fi buffer (if_cursor f) with
        | Some (fi, buffer, r) =>
            Some (match r with Ret nread => set_cursor f (wrap64 (if_cursor f + Z.of_nat nread)) | _ => f end, fi, buffer, r)
        | None => None
        end
    end.

Inductive SeekOption := SeekSet (n : Z) | SeekCurrent (off : Z) | SeekEnd (off : Z).

(** [usize::checked_add_signed]. *)
Definition checked_add_signed (n off : Z) : option Z := if (0 <=? n + off) && (n + off <? 2 ^ 64) then Some (n + off) else None.

Definition inode_file_seek (f : InodeFile) (fi : FileInode) (option : SeekOption) : InodeFile * outcome Z :=
  let new_cursor := match option with
                    | SeekCurrent off => ok_or (checked_add_signed (if_cursor f) off) EOVERFLOW
                    | SeekSet n => Ret n
                    | SeekEnd off => ok_or (checked_add_signed (fi_size fi) off) EOVERFLOW
                    end in
  match new_cursor with Ret c => (set_cursor f c, Ret c) | r => (f, r) end.

(** ** The file system's part of the page cache *)

Definition file_inode_ok (fi : FileInode) : Prop := is_u64 (fi_size fi).

#[export, refine] Instance tmpfs_laws : BackendLaws FileInode := {
  bk_byte _ _ := 0;
  bk_stored _ := 0;
  bk_ok := file_inode_ok
}.
Proof.
  - done.
  - intros fi Hfi. unfold file_inode_ok, is_u64 in Hfi. simpl. lia.
  - done.
  - intros fi off _ Ho Hm. eexists _, _. split; [done|]. cbn [cp_data cp_valid cp_dirty new_zeroed]. split; [|simpl; split; [page_lia|done]].
    symmetry. apply list_eq_same_length with (n := page_len); [apply length_replicate|by rewrite length_fmap, length_seqZ|].
    intros j x y Hj Hx Hy. apply lookup_replicate_1 in Hy as [-> _]. rewrite list_lookup_fmap in Hx. by destruct (seqZ off PAGE_SIZE !! j); [injection Hx|].
Defined.

Lemma fi_bk_ok fi : file_inode_ok fi -> bk_ok fi.
Proof. done. Qed.

(** What the file contains. *)
Definition fi_byte (fi : FileInode) : Z -> Z := pc_byte (fi_pages fi) fi.
Definition fi_contents (fi : FileInode) : list Z := file_slice (fi_byte fi) 0 (fi_size fi).
Definition fi_ok (fi : FileInode) : Prop := file_inode_ok fi /\ mode_format (fi_mode fi) = S_IFREG /\ pc_ok (fi_pages fi) fi (fi_size fi).

Lemma pc_byte_inode pages fi fi' i : pc_byte pages fi i = pc_byte pages fi' i.
Proof. unfold pc_byte. by destruct (pages !! _). Qed.

Lemma pc_ok_inode pages fi fi' s : pc_ok pages fi s -> pc_ok pages fi' s.
Proof. intros [Hp Hz Hc]. split; [exact Hp| |exact Hc]. intros i Hi Hs. rewrite (pc_byte_inode pages fi' fi). by apply Hz. Qed.

Lemma mode_format_perm m p : m = S_IFREG -> mode_format (mode_perm m p) = S_IFREG.
Proof.
  intros ->. unfold mode_format, mode_perm. rewrite Z.land_lor_distr_l, <- Z.land_assoc.
  change (Z.land 511 S_IFMT) with 0. by rewrite Z.land_0_r, Z.lor_0_r.
Qed.

Lemma fi_new_ok mode : fi_ok (file_inode_new 0 mode) /\ fi_contents (file_inode_new 0 mode) = [].
Proof.
  split; [|done]. split; [done|]. split; [by apply mode_format_perm|].
  change (pc_ok ∅ (file_inode_new 0 mode) (bk_size (file_inode_new 0 mode))). by apply pc_ok_empty.
Qed.

(** ** Slices of a file are lists *)

Lemma file_slice_lookup f off n j : file_slice f off n !! j = if decide (Z.of_nat j < n) then Some (f (off + Z.of_nat j)) else None.
Proof.
  unfold file_slice. rewrite list_lookup_fmap. case_decide; [by rewrite lookup_seqZ_lt by lia|by rewrite lookup_seqZ_ge by lia].
Qed.

Lemma slice_drop f s off : 0 <= off -> drop (Z.to_nat off) (file_slice f 0 s) = file_slice f off (s - off).
Proof.
  intros Ho. apply list_eq. intros j. rewrite lookup_drop, !file_slice_lookup. repeat case_decide; try lia; [|done]. do 2 f_equal. lia.
Qed.

(** Writing and truncating a list of bytes; gaps are filled with zeros. *)
Definition bytes_write (l : list Z) (off : nat) (d : list Z) : list Z := take off (l ++ replicate (off - length l) 0) ++ d ++ drop (off + length d) l.
Definition bytes_truncate (l : list Z) (n : nat) : list Z := take n (l ++ replicate (n - length l) 0).

Lemma slice_pad_lookup f s n j :
  (forall i, 0 <= i -> s <= i -> f i = 0) -> (j < n)%nat ->
  (file_slice f 0 s ++ replicate (n - Z.to_nat s) 0) !! j = Some (f (Z.of_nat j)).
Proof.
  intros Hz Hj. destruct (decide (Z.of_nat j < s)).
  - rewrite lookup_app_l by (rewrite file_slice_length; lia). rewrite file_slice_lookup, decide_True by done. f_equal.
  - rewrite lookup_app_r by (rewrite file_slice_length; lia). rewrite file_slice_length. rewrite Hz by lia. apply lookup_replicate. split; [done|lia].
Qed.

Lemma slice_write f s off d :
  (forall i, 0 <= i -> s <= i -> f i = 0) -> 0 <= off -> 0 <= s -> d <> [] ->
  file_slice (file_write f off d) 0 (Z.max s (off + Z.of_nat (length d))) = bytes_write (file_slice f 0 s) (Z.to_nat off) d.
Proof.
  intros Hz Ho Hs Hd. unfold bytes_write. rewrite file_slice_length. apply list_eq. intros j. rewrite file_slice_lookup, Z.add_0_l. unfold file_write.
  assert (length (take (Z.to_nat off) (file_slice f 0 s ++ replicate (Z.to_nat off - Z.to_nat s) 0)) = Z.to_nat off) as Hl
    by (rewrite length_take, length_app, file_slice_length, length_replicate; lia).
  destruct (decide (j < Z.to_nat off)%nat) as [Hj|Hj].
  - rewrite lookup_app_l by lia. rewrite lookup_take_lt, slice_pad_lookup by (done || lia). rewrite decide_True, decide_False by lia. done.
  - rewrite lookup_app_r by lia. rewrite Hl. destruct (decide (j < Z.to_nat off + length d)%nat) as [Hj2|Hj2].
    + rewrite lookup_app_l by lia. rewrite !decide_True by lia. rewrite list_lookup_lookup_total_lt by lia. do 2 f_equal. lia.
    + rewrite lookup_app_r by lia. rewrite lookup_drop, file_slice_lookup. replace (Z.to_nat off + length d + (j - Z.to_nat off - length d))%nat with j by lia.
      repeat case_decide; try lia; done.
Qed.

Lemma slice_truncate f g s n :
  (forall i, 0 <= i -> s <= i -> f i = 0) -> 0 <= n -> 0 <= s -> (forall i, 0 <= i < n -> g i = f i) ->
  file_slice g 0 n = bytes_truncate (file_slice f 0 s) (Z.to_nat n).
Proof.
  intros Hz Hn Hs Hg. unfold bytes_truncate. rewrite file_slice_length. apply list_eq. intros j. rewrite file_slice_lookup, Z.add_0_l. case_decide as Hj.
  - rewrite lookup_take_lt, slice_pad_lookup by (done || lia). f_equal. apply Hg. lia.
  - by rewrite lookup_take_ge by lia.
Qed.

(** ** The operations on the inode *)

Lemma fi_zero fi : fi_ok fi -> forall i, 0 <= i -> fi_size fi <= i -> fi_byte fi i = 0.
Proof. intros (_ & _ & [_ Hz _]). exact Hz. Qed.

Lemma fi_read_ok `{BufferLaws F} fi (buffer : F) off :
  fi_ok fi -> buf_ok buffer -> 0 <= off ->
  exists fi' buffer', fi_read fi buffer off = Some (fi', buffer', Ret (buf_wrote buffer')) /\ fi_ok fi' /\ fi_size fi' = fi_size fi /\
    fi_contents fi' = fi_contents fi /\ buf_ok buffer' /\
    buf_data buffer' = buf_data buffer ++ take (available buffer) (drop (Z.to_nat off) (fi_contents fi)).
Proof.
  intros (Hs & Hm & Hok) Hb Ho. destruct (pc_read_ok fi (fi_pages fi) buffer off (fi_bk_ok fi Hs) Hok Hb Ho) as (p & b' & E & Hok' & Hf & Hb' & _ & Hd).
  unfold fi_read. rewrite E. exists (set_pages fi p), b'. split; [done|].
  split; [split; [done|]; split; [done|by apply (pc_ok_inode p fi)]|]. split; [done|].
  split; [unfold fi_contents; simpl; apply file_slice_ext; intros i _; unfold fi_byte; simpl; by rewrite (pc_byte_inode p _ fi), Hf|].
  split; [done|]. rewrite Hd. unfold fi_contents. rewrite slice_drop by done. done.
Qed.

(** The offset of a write is one at which the cache serves it: nothing of the
    file is cached between its end and the page of the offset.  A write at or
    before the end is always safe. *)
Definition fi_write_safe (fi : FileInode) (off : Z) : Prop :=
  forall id, fi_size fi / PAGE_SIZE <= id < off / PAGE_SIZE -> fi_pages fi !! id = None.

Lemma fi_write_safe_inside fi off : off <= fi_size fi -> fi_write_safe fi off.
Proof. intros Ho id Hid. page_lia. Qed.

Definition write_at (fi : FileInode) (offset : WriteOffset) : Z := match offset with WPosition o => o | WEnd => fi_size fi end.

Lemma fi_write_ok `{StreamLaws T} fi (stream : T) offset :
  let d := st_rest stream in let off := write_at fi offset in
  st_ok stream -> fi_ok fi -> d <> [] -> 0 <= off -> off + Z.of_nat (length d) < 2 ^ 64 -> fi_write_safe fi off ->
  exists fi' stream', fi_write (write_fuel (length d)) fi stream offset =
      Some (fi', stream', Ret (length d, match offset with WEnd => Some (off + Z.of_nat (length d)) | WPosition _ => None end)) /\
    fi_ok fi' /\ fi_contents fi' = bytes_write (fi_contents fi) (Z.to_nat off) d.
Proof.
  intros d off Hst Hfi Hd Ho Hu Hsafe. pose proof Hfi as (Hs & Hm & Hok). unfold file_inode_ok, is_u64 in Hs.
  destruct (pc_write_ok fi (fi_pages fi) stream off Hst (fi_bk_ok fi Hs) Hok Hd Ho Hu) as (p & st & E & Hok' & Hf).
  { split; [exact Hsafe|]. intros _ Hle. simpl. clear -Ho. page_lia. }
  unfold fi_write. fold (write_at fi offset). fold off d. fold d in E. rewrite E. rewrite wrap64_small by (unfold is_u64; lia).
  eexists _, st. split; [done|]. split.
  - split; [unfold file_inode_ok, is_u64; simpl; lia|]. split; [done|]. by apply (pc_ok_inode p fi).
  - unfold fi_contents. simpl. rewrite <- slice_write by (done || lia || by apply fi_zero). apply file_slice_ext.
    intros i _. unfold fi_byte. simpl. by rewrite (pc_byte_inode p _ fi), Hf.
Qed.

(** The size a file may be set to: cutting inside a page loses what the page had
    before the cut, so that part has to be zero; extending is safe unless a
    page behind the end is cached. *)
Definition fi_truncate_safe (fi : FileInode) (n : Z) : Prop :=
  (n < fi_size fi -> forall i, n / PAGE_SIZE * PAGE_SIZE <= i < n -> fi_byte fi i = 0) /\
  (fi_size fi <= n -> forall id, fi_size fi / PAGE_SIZE < id -> id * PAGE_SIZE < n -> fi_pages fi !! id = None).

Lemma fi_truncate_ok fi n :
  fi_ok fi -> is_u64 n -> fi_truncate_safe fi n ->
  exists fi', fi_truncate fi n = Ret fi' /\ fi_ok fi' /\ fi_contents fi' = bytes_truncate (fi_contents fi) (Z.to_nat n).
Proof.
  intros Hfi Hn [Hsh Hgr]. pose proof Hfi as (Hs & Hm & Hok). unfold file_inode_ok, is_u64 in *.
  set (fi1 := mkFileInode (fi_mode fi) n (fi_nlink fi) (fi_pages fi)).
  assert (backend_resized fi fi1 n) as Hres by (split; [done|]; split; [done|]; intros i Hi; simpl; by case_decide).
  assert (exists pages', pc_resize fi (fi_pages fi) n = Ret pages' /\ pc_ok pages' fi1 n /\ forall i, 0 <= i < n -> pc_byte pages' fi1 i = pc_byte (fi_pages fi) fi i) as (p & E & Hok' & Hf).
  { destruct (decide (n < fi_size fi)) as [Hlt|Hge].
    - apply pc_shrink_ok; [done|done|simpl; lia| |done]. intros i Hi. by apply Hsh.
    - destruct (pc_grow_ok fi fi1 (fi_pages fi) n (fi_bk_ok fi Hs) Hok ltac:(simpl; lia)) as (p & E & Hp & Hf); [intros id; apply Hgr; lia|done|].
      exists p. split; [done|]. split; [done|]. intros i Hi. apply Hf. lia. }
  unfold fi_truncate. rewrite E. simpl. eexists. split; [done|]. split.
  - split; [done|]. split; [done|]. by apply (pc_ok_inode p fi1).
  - unfold fi_contents. simpl. apply slice_truncate; [by apply fi_zero|lia|lia|]. intros i Hi. unfold fi_byte. simpl. rewrite (pc_byte_inode p _ fi1). by apply Hf.
Qed.

(** ** Open files on one inode *)

Record FSys := mkFSys { fs_inode : FileInode; fs_files : gmap nat InodeFile }.

Inductive FOp :=
| FRead (fd count : nat) (offset : option Z)
| FWrite (fd : nat) (data : list Z) (offset : option Z)
| FSeek (fd : nat) (option : SeekOption)
| FTruncate (fd : nat) (size : Z).

(** What a call returns: the bytes read, or a number. *)
Inductive FRes := RBytes (l : list Z) | RNum (n : Z).

Definition no_blk (b : ByteBuffer) (_ : Z) : ByteBuffer * outcome nat := (b, Err EINVAL).
Definition no_chr_read (b : ByteBuffer) : ByteBuffer * outcome nat := (b, Err EPERM).
Definition no_chr_write (s : ByteStream) : ByteStream * outcome nat := (s, Err EPERM).

Definition fs_exec (op : FOp) (s : FSys) : option (outcome FRes * FSys) :=
  let fi := fs_inode s in
  match op with
  | FRead fd count offset =>
      match fs_files s !! fd with
      | None => Some (Err EBADF, s)
      | Some f =>
          match inode_file_read no_blk no_chr_read f fi (byte_buffer_new (replicate count 0)) offset with
          | Some (f, fi, b, r) => Some (_ ← r; Ret (RBytes (bb_data b)), mkFSys fi (<[fd := f]> (fs_files s)))
          | None => None
          end
      end
  | FWrite fd data offset =>
      match fs_files s !! fd with
      | None => Some (Err EBADF, s)
      | Some f =>
          match inode_file_write no_chr_write (write_fuel (length data)) f fi (into_stream data) offset with
          | Some (f, fi, _, r) => Some (n ← r; Ret (RNum (Z.of_nat n)), mkFSys fi (<[fd := f]> (fs_files s)))
          | None => None
          end
      end
  | FSeek fd opt =>
      match fs_files s !! fd with
      | None => Some (Err EBADF, s)
      | Some f => let (f, r) := inode_file_seek f fi opt in Some (n ← r; Ret (RNum n), mkFSys fi (<[fd := f]> (fs_files s)))
      end
  | FTruncate fd n =>
      match fs_files s !! fd with
      | None => Some (Err EBADF, s)
      | Some _ => match fi_truncate fi n with
                  | Ret fi => Some (Ret (RNum 0), mkFSys fi (fs_files s))
                  | Err e => Some (Err e, s)
                  | Panic => Some (Panic, s)
                  end
      end
  end.

(** ** The specification: a list of bytes and the cursors *)

Notation FSpec := (list Z * gmap nat InodeFile)%type.

Definition spec_seek (l : list Z) (f : InodeFile) (opt : SeekOption) : outcome Z :=
  match opt with
  | SeekSet n => Ret n
  | SeekCurrent off => ok_or (checked_add_signed (if_cursor f) off) EOVERFLOW
  | SeekEnd off => ok_or (checked_add_signed (Z.of_nat (length l)) off) EOVERFLOW
  end.

Definition write_position (l : list Z) (f : InodeFile) (offset : option Z) : Z :=
  if if_a f then Z.of_nat (length l) else default (if_cursor f) offset.

Definition spec_exec (op : FOp) (s : FSpec) : outcome FRes * FSpec :=
  let (l, files) := s in
  match op with
  | FRead fd count offset =>
      match files !! fd with
      | Some f =>
          if if_r f then
            let d := take count (drop (Z.to_nat (default (if_cursor f) offset)) l) in
            let f := match offset with None => set_cursor f (if_cursor f + Z.of_nat (length d)) | Some _ => f end in
            (Ret (RBytes d), (l, <[fd := f]> files))
          else (Err EBADF, s)
      | None => (Err EBADF, s)
      end
  | FWrite fd data offset =>
      match files !! fd with
      | Some f =>
          if if_w f then
            let o := write_position l f offset in
            let moved := if_a f || bool_decide (offset = None) in
            let f := if moved then set_cursor f (o + Z.of_nat (length data)) else f in
            (Ret (RNum (Z.of_nat (length data))), (bytes_write l (Z.to_nat o) data, <[fd := f]> files))
          else (Err EBADF, s)
      | None => (Err EBADF, s)
      end
  | FSeek fd opt =>
      match files !! fd with
      | Some f => match spec_seek l f opt with
                  | Ret n => (Ret (RNum n), (l, <[fd := set_cursor f n]> files))
                  | Err e => (Err e, s)
                  | Panic => (Panic, s)
                  end
      | None => (Err EBADF, s)
      end
  | FTruncate fd n =>
      match files !! fd with
      | Some _ => (Ret (RNum 0), (bytes_truncate l (Z.to_nat n), files))
      | None => (Err EBADF, s)
      end
  end.

Definition fs_abs (s : FSys) : FSpec := (fi_contents (fs_inode s), fs_files s).

Definition fs_ok (s : FSys) : Prop := fi_ok (fs_inode s) /\ forall fd f, fs_files s !! fd = Some f -> is_u64 (if_cursor f).

(** The arguments are machine integers, a write has bytes and fits the address
    range, and writes and truncations are ones the page cache serves. *)
Definition op_safe (op : FOp) (s : FSys) : Prop :=
  let fi := fs_inode s in
  match op with
  | FRead _ _ offset => from_option is_u64 True offset
  | FWrite fd data offset =>
      from_option is_u64 True offset /\ data <> [] /\
      forall f, fs_files s !! fd = Some f -> let o := write_position (fi_contents fi) f offset in
        o + Z.of_nat (length data) < 2 ^ 64 /\ fi_write_safe fi o
  | FSeek _ opt => match opt with SeekSet n => is_u64 n | _ => True end
  | FTruncate _ n => is_u64 n /\ fi_truncate_safe fi n
  end.

Lemma fi_contents_length fi : fi_ok fi -> Z.of_nat (length (fi_contents fi)) = fi_size fi.
Proof. intros (Hs & _). unfold file_inode_ok, is_u64 in Hs. unfold fi_contents. rewrite file_slice_length. lia. Qed.

Lemma fs_ok_set s fi fd f : fs_ok s -> fi_ok fi -> is_u64 (if_cursor f) -> fs_ok (mkFSys fi (<[fd := f]> (fs_files s))).
Proof. intros [_ Hc] Hfi Hf. split; [done|]. intros fd' f' Hl'. simpl in Hl'. apply lookup_insert_Some in Hl' as [[<- <-]|[_ Hl]]; [done|by apply (Hc fd')]. Qed.

Lemma fs_read_ok s fd count offset :
  fs_ok s -> op_safe (FRead fd count offset) s ->
  exists r s', fs_exec (FRead fd count offset) s = Some (r, s') /\ fs_ok s' /\ spec_exec (FRead fd count offset) (fs_abs s) = (r, fs_abs s').
Proof.
  intros Hok Hs. pose proof Hok as [Hfi Hc]. simpl. destruct (fs_files s !! fd) as [f|] eqn:Ef; [|eauto].
  pose proof (Hc fd f Ef) as Hu. unfold inode_file_read. destruct (if_r f); simpl.
  2: { eexists _, _. split; [done|]. rewrite insert_id by done. split; [|done]. by destruct s. }
  set (o := default (if_cursor f) offset). assert (is_u64 o) as Ho by (unfold o; destruct offset; done).
  assert (buf_ok (byte_buffer_new (replicate count 0))) as Hbo by apply Nat.le_0_l.
  destruct (fi_read_ok (fs_inode s) (byte_buffer_new (replicate count 0)) o Hfi Hbo (proj1 Ho)) as (fi' & b' & E & Hfi' & Hsz & Hct & Hb' & Hd).
  change (buf_data b') with (bb_data b') in Hd. change (buf_data (byte_buffer_new (replicate count 0))) with (@nil Z) in Hd.
  change (available (byte_buffer_new (replicate count 0))) with (length (replicate count 0%Z) - 0)%nat in Hd. rewrite length_replicate, Nat.sub_0_r in Hd. simpl in Hd.
  pose proof (buf_wrote_data b' Hb') as Hw. change (buf_data b') with (bb_data b') in Hw. rewrite Hd in Hw.
  assert (dentry_read no_blk no_chr_read (fs_inode s) (byte_buffer_new (replicate count 0)) o = Some (fi', b', Ret (buf_wrote b'))) as Er.
  { unfold dentry_read. rewrite (proj1 (proj2 Hfi)). exact E. }
  destruct offset as [off|]; simpl in o; subst o; rewrite Er.
  - eexists _, _. split; [done|]. split; [by apply fs_ok_set|]. simpl. unfold fs_abs. simpl. by rewrite Hct, Hd.
  - assert (is_u64 (if_cursor f + Z.of_nat (buf_wrote b'))) as Hu'.
    { rewrite Hw, length_take, length_drop. pose proof (fi_contents_length _ Hfi). destruct Hfi as (Hs' & _). unfold file_inode_ok, is_u64 in *. lia. }
    eexists _, _. split; [done|]. rewrite wrap64_small by done. split; [by apply fs_ok_set|]. simpl. unfold fs_abs. simpl. simpl in Hw. by rewrite Hct, Hd, Hw.
Qed.

Lemma fs_write_ok s fd data offset :
  fs_ok s -> op_safe (FWrite fd data offset) s ->
  exists r s', fs_exec (FWrite fd data offset) s = Some (r, s') /\ fs_ok s' /\ spec_exec (FWrite fd data offset) (fs_abs s) = (r, fs_abs s').
Proof.
  intros Hok (Hs & Hne & Hsafe). pose proof Hok as [Hfi Hc]. simpl. destruct (fs_files s !! fd) as [f|] eqn:Ef; [|eauto].
  destruct (Hsafe f eq_refl) as [Hu Hws]. pose proof (Hc fd f Ef) as Huc. pose proof (fi_contents_length _ Hfi) as Hl.
  unfold inode_file_write. destruct (if_w f); simpl.
  2: { eexists _, _. split; [done|]. rewrite insert_id by done. split; [|done]. by destruct s. }
  set (wo := if if_a f then WEnd else WPosition (default (if_cursor f) offset)).
  assert (write_at (fs_inode s) wo = write_position (fi_contents (fs_inode s)) f offset) as Eo by (unfold wo, write_position; destruct (if_a f); simpl; [lia|done]).
  assert (is_u64 (write_at (fs_inode s) wo)) as Ho.
  { unfold wo. destruct (if_a f); simpl; [apply Hfi|]. destruct offset; [done|]. exact Huc. }
  rewrite <- Eo in Hu, Hws. set (o := write_at (fs_inode s) wo) in *.
  assert (st_rest (into_stream data) <> []) as Hne' by exact Hne.
  assert (o + Z.of_nat (length (st_rest (into_stream data))) < 2 ^ 64) as Hu2 by exact Hu.
  assert (st_ok (into_stream data)) as Hst by exact I.
  destruct (fi_write_ok (fs_inode s) (into_stream data) wo Hst Hfi Hne' (proj1 Ho) Hu2 Hws) as (fi' & st' & E & Hfi' & Hct). fold o in E, Hct.
  change (st_rest (into_stream data)) with data in E, Hct.
  assert (dentry_write no_chr_write (write_fuel (length data)) (fs_inode s) (into_stream data) wo =
    Some (fi', st', Ret (length data, match wo with WEnd => Some (o + Z.of_nat (length data)) | WPosition _ => None end))) as Ew.
  { unfold dentry_write. rewrite (proj1 (proj2 Hfi)). exact E. }
  assert (is_u64 (o + Z.of_nat (length data))) as Hu' by (unfold is_u64 in *; lia).
  unfold fs_abs. simpl. rewrite <- Eo. unfold wo in Ew. destruct (if_a f) eqn:Ea; [|destruct offset as [off|]]; simpl in Ew; rewrite Ew; simpl.
  - eexists _, _. split; [done|]. split; [by apply fs_ok_set|]. simpl. by rewrite Hct.
  - eexists _, _. split; [done|]. split; [by apply fs_ok_set|]. simpl. by rewrite Hct.
  - assert (o = if_cursor f) as Eoc by (unfold o, wo; by rewrite ?Ea). rewrite <- Eoc. rewrite wrap64_small by done.
    eexists _, _. split; [done|]. split; [by apply fs_ok_set|]. simpl. by rewrite Hct.
Qed.

Lemma fs_step_ok op s :
  fs_ok s -> op_safe op s -> exists r s', fs_exec op s = Some (r, s') /\ fs_ok s' /\ spec_exec op (fs_abs s) = (r, fs_abs s').
Proof.
  intros Hok Hs. destruct op as [fd count offset|fd data offset|fd opt|fd n]; [by apply fs_read_ok|by apply fs_write_ok| |].
  - pose proof Hok as [Hfi Hc]. simpl. destruct (fs_files s !! fd) as [f|] eqn:Ef; [|eauto]. unfold inode_file_seek, spec_seek.
    rewrite (fi_contents_length _ Hfi).
    assert (forall n off c, ok_or (checked_add_signed n off) EOVERFLOW = Ret c -> is_u64 c) as Hca.
    { intros n off c. unfold checked_add_signed, is_u64. destruct (Z.leb_spec 0 (n + off)), (Z.ltb_spec (n + off) (2 ^ 64)); simpl; intros [= <-]; lia. }
    destruct opt as [n|off|off]; simpl.
    + eexists _, _. split; [done|]. split; [by apply fs_ok_set|done].
    + destruct (checked_add_signed (if_cursor f) off) as [c|] eqn:E; simpl.
      * eexists _, _. split; [done|]. split; [|done]. apply fs_ok_set; [done|done|]. apply (Hca (if_cursor f) off). by rewrite E.
      * eexists _, _. split; [done|]. rewrite insert_id by done. by destruct s.
    + destruct (checked_add_signed (fi_size (fs_inode s)) off) as [c|] eqn:E; simpl.
      * eexists _, _. split; [done|]. split; [|done]. apply fs_ok_set; [done|done|]. apply (Hca (fi_size (fs_inode s)) off). by rewrite E.
      * eexists _, _. split; [done|]. rewrite insert_id by done. by destruct s.
  - pose proof Hok as [Hfi Hc]. destruct Hs as [Hu Hs]. simpl. destruct (fs_files s !! fd) as [f|] eqn:Ef; [|eauto].
    destruct (fi_truncate_ok _ n Hfi Hu Hs) as (fi' & -> & Hfi' & Hct). eexists _, _. split; [done|]. split; [by split|]. unfold fs_abs. simpl. by rewrite Hct.
Qed.

(** Sequences of calls. *)
Fixpoint fs_run (ops : list FOp) (s : FSys) : option (list (outcome FRes) * FSys) :=
  match ops with
  | [] => Some ([], s)
  | op :: ops =>
      match fs_exec op s with
      | Some (r, s) => match fs_run ops s with Some (rs, s) => Some (r :: rs, s) | None => None end
      | None => None
      end
  end.

Fixpoint spec_run (ops : list FOp) (s : FSpec) : list (outcome FRes) * FSpec :=
  match ops with
  | [] => ([], s)
  | op :: ops => let (r, s) := spec_exec op s in let (rs, s) := spec_run ops s in (r :: rs, s)
  end.

Fixpoint run_safe (ops : list FOp) (s : FSys) : Prop :=
  match ops with
  | [] => True
  | op :: ops => op_safe op s /\ match fs_exec op s with Some (_, s) => run_safe ops s | None => True end
  end.


Definition demo_file_ops : list FOp := [FWrite 0 [1; 2; 3] None; FWrite 1 [4; 5] None; FSeek 0 (SeekSet 1); FRead 0 3 None].

(** Two descriptors on an empty file, the second one opened for appending. *)
Definition demo_file_sys : FSys :=
  mkFSys (file_inode_new 0 0) {[0%nat := mkInodeFile true true false S_IFREG 0; 1%nat := mkInodeFile true true true S_IFREG 0]}.

Lemma demo_file_ok : fs_ok demo_file_sys.
Proof.
  split; [apply fi_new_ok|]. intros fd f Hl. simpl in Hl. apply lookup_insert_Some in Hl as [[_ <-]|[_ Hl]]; [done|].
  apply lookup_singleton_Some in Hl as [_ <-]. done.
Qed.


(** ** Where a file is not a sequence of bytes *)

Definition bytes_read (r : option (FileInode * ByteBuffer * outcome nat)) : option (outcome (list Z)) :=
  match r with Some (_, b, o) => Some (_ ← o; Ret (bb_data b)) | None => None end.

(** The inode after [data] was written at [off]. *)
Definition written (fi : FileInode) (off : Z) (data : list Z) : FileInode :=
  match fi_write (write_fuel (length data)) fi (into_stream data) (WPosition off) with Some (fi, _, _) => fi | None => fi end.

(** Truncation drops the page with the new end from the cache, although nothing
    of it is stored: the bytes before the cut become zero. *)
Theorem truncate_loses_bytes :
  match fi_truncate (written (file_inode_new 0 0) 0 [7; 8; 9]) 2 with
  | Ret fi => bytes_read (fi_read fi (byte_buffer_new (replicate 2 0)) 0) = Some (Ret [0; 0])
  | _ => False
  end.
Proof. vm_compute. reflexivity. Qed.

(** A write past the end, into another page, leaves the valid size of the page
    with the old end as it was.  The file then seems to end there, and a read
    that starts in the hole panics. *)
Theorem hole_stops_reads :
  let fi := written (written (file_inode_new 0 0) 0 [7; 8; 9]) 5000 [1] in
  fi_size fi = 5001 /\ bytes_read (fi_read fi (byte_buffer_new (replicate 8 0)) 0) = Some (Ret [7; 8; 9]) /\
  bytes_read (fi_read fi (byte_buffer_new (replicate 8 0)) 4) = Some Panic.
Proof. vm_compute. repeat split. Qed.

(** A write of no bytes at the end of a file whose page is not cached puts an
    empty page into the cache; reads of the file then panic. *)
Theorem empty_write_breaks_reads :
  match fi_truncate (file_inode_new 0 0) 10 with
  | Ret fi => bytes_read (fi_read fi (byte_buffer_new (replicate 2 0)) 5) = Some (Ret [0; 0]) /\
              bytes_read (fi_read (written fi 10 []) (byte_buffer_new (replicate 2 0)) 5) = Some Panic
  | _ => False
  end.
Proof. vm_compute. repeat split. Qed.
