(* ===== verification/Pipe.v ===== *)
(** * Pipes and socket pairs

    Models src/kernel/vfs/file/pipe.rs.

    The state protected by the pipe's mutex is a [PipeInner].  An [async]
    routine is modelled by its polls: the [_try] form is the code from the lock
    up to the next wait, the [_resume] form is the code from a wake-up on
    ([sig] says whether the thread has a pending signal).  The notifications of
    the two condition variables and the [SIGPIPE] sent to the current thread are
    returned as events. *)

From S2P Require Import Prelude Io OpenFlags.

Record PipeInner := mkPipe {
  buffer : list Z;
  read_closed : bool;
  write_closed : bool
}.

Inductive pipe_event := NotifyRead | NotifyWrite | RaiseSigpipe.

Definition PIPE_SIZE : nat := 4096.

(** [Pipe::ends]: both ends share the new pipe. *)
Definition pipe_ends : PipeInner := mkPipe [] false false.

(** The open flags [Pipe::new] gives to the read end and to the write end. *)
Definition pipe_new_flags (flags : Z) : Z * Z :=
  let read_flags := bf_remove flags (Z.lor O_WRONLY O_RDWR) in
  (read_flags, bf_insert read_flags O_WRONLY).

Definition buffer_is_empty (p : PipeInner) : bool :=
  match buffer p with [] => true | _ => false end.

Definition read_ready (p : PipeInner) (event : Z) : Z :=
  if bf_contains event Readable && (negb (buffer_is_empty p) || write_closed p)
  then bf_insert poll_empty Readable else poll_empty.

Definition write_ready (p : PipeInner) (event : Z) : Z :=
  if bf_contains event Writable && ((length (buffer p) <? PIPE_SIZE)%nat || read_closed p)
  then bf_insert poll_empty Writable else poll_empty.

Definition poll_read_try (p : PipeInner) (event : Z) : poll (outcome Z) :=
  let ready := read_ready p event in
  if ready =? 0 then Pending else Ready (Ret ready).

Definition poll_read_resume (sig : bool) (p : PipeInner) (event : Z) : poll (outcome Z) :=
  if sig then Ready (Err EINTR) else poll_read_try p event.

Definition poll_write_try (p : PipeInner) (event : Z) : poll (outcome Z) :=
  let ready := write_ready p event in
  if ready =? 0 then Pending else Ready (Ret ready).

Definition poll_write_resume (sig : bool) (p : PipeInner) (event : Z) : poll (outcome Z) :=
  if sig then Ready (Err EINTR) else poll_write_try p event.

(** [locked]: whether somebody else holds the pipe's mutex. *)
Definition poll_read_ready (locked : bool) (p : PipeInner) (event : Z) : outcome Z :=
  if locked then Ret poll_empty else Ret (read_ready p event).

Definition poll_write_ready (locked : bool) (p : PipeInner) (event : Z) : outcome Z :=
  if locked then Ret poll_empty else Ret (write_ready p event).

(** The end of [Pipe::read], once there is something to read.  [VecDeque] may
    keep its contents in two pieces ([as_slices]); [k] is where it cuts them. *)
Definition pipe_read_body `{Buffer B} (k : nat) (p : PipeInner) (b : B)
  : outcome (nat * B) * PipeInner * list pipe_event :=
  let data1 := take k (buffer p) in
  let data2 := drop k (buffer p) in
  match buf_fill b data1 with
  | Ret (r1, b1) =>
      match buf_fill b1 data2 with
      | Ret (r2, b2) =>
          let nread := (allow_partial r1 + allow_partial r2)%nat in
          if (length (buffer p) <? nread)%nat then (Panic, p, [])
          else (Ret (nread, b2),
                mkPipe (drop nread (buffer p)) (read_closed p) (write_closed p),
                [NotifyWrite])
      | Err e => (Err e, p, [])
      | Panic => (Panic, p, [])
      end
  | Err e => (Err e, p, [])
  | Panic => (Panic, p, [])
  end.

Definition pipe_read_try `{Buffer B} (k : nat) (p : PipeInner) (b : B)
  : poll (outcome (nat * B) * PipeInner * list pipe_event) :=
  if negb (write_closed p) && buffer_is_empty p then Pending
  else Ready (pipe_read_body k p b).

Definition pipe_read_resume `{Buffer B} (sig : bool) (k : nat) (p : PipeInner) (b : B)
  : poll (outcome (nat * B) * PipeInner * list pipe_event) :=
  if sig then Ready (Err EINTR, p, []) else pipe_read_try k p b.

(** The loop of [Pipe::write_atomic]: wait until the whole chunk fits. *)
Definition write_atomic_loop (p : PipeInner) (data : list Z)
  : poll (outcome nat * PipeInner * list pipe_event) :=
  if (PIPE_SIZE <? length (buffer p) + length data)%nat then Pending
  else Ready (Ret (length data),
              mkPipe (buffer p ++ data) (read_closed p) (write_closed p),
              [NotifyRead]).

Definition write_atomic_try (p : PipeInner) (data : list Z)
  : poll (outcome nat * PipeInner * list pipe_event) :=
  if read_closed p then Ready (Err EPIPE, p, [RaiseSigpipe])
  else write_atomic_loop p data.

Definition write_atomic_resume (sig : bool) (p : PipeInner) (data : list Z)
  : poll (outcome nat * PipeInner * list pipe_event) :=
  if sig then Ready (Err EINTR, p, [])
  else if read_closed p then Ready (Err EPIPE, p, [RaiseSigpipe])
  else write_atomic_loop p data.

(** [Pipe::write]: the state of the loop is the stream, the bytes written so
    far and the chunk a [write_atomic] is waiting to store. *)
Record Writer (T : Type) := mkWriter {
  wr_stream : T;
  wr_total : nat;
  wr_chunk : option (list Z)
}.
Arguments mkWriter {T}.
Arguments wr_stream {T}.
Arguments wr_total {T}.
Arguments wr_chunk {T}.

Inductive WriterStatus (T : Type) :=
| WFinished (r : outcome nat)
| WWaiting (w : Writer T)
| WContinue (w : Writer T).
Arguments WFinished {T}.
Arguments WWaiting {T}.
Arguments WContinue {T}.

(** What the loop of [Pipe::write] does with one poll of [write_atomic]. *)
Definition finish_chunk {T} (s : T) (total : nat) (data : list Z) (p : PipeInner)
    (r : poll (outcome nat * PipeInner * list pipe_event))
  : WriterStatus T * PipeInner * list pipe_event :=
  match r with
  | Pending => (WWaiting (mkWriter s total (Some data)), p, [])
  | Ready (Ret nwrote, p', ev) =>
      if (nwrote =? length data)%nat
      then (WContinue (mkWriter s (total + nwrote) None), p', ev)
      else (WFinished (Ret (total + nwrote)%nat), p', ev)
  | Ready (Err e, p', ev) => (WFinished (Err e), p', ev)
  | Ready (Panic, p', ev) => (WFinished Panic, p', ev)
  end.

Definition pipe_write_step `{Stream T} (sig : bool) (p : PipeInner) (w : Writer T)
  : WriterStatus T * PipeInner * list pipe_event :=
  match wr_chunk w with
  | None =>
      match poll_data (wr_stream w) PIPE_SIZE with
      | Ret (Some data, s') => finish_chunk s' (wr_total w) data p (write_atomic_try p data)
      | Ret (None, _) => (WFinished (Ret (wr_total w)), p, [])
      | Err e => (WFinished (Err e), p, [])
      | Panic => (WFinished Panic, p, [])
      end
  | Some data =>
      finish_chunk (wr_stream w) (wr_total w) data p (write_atomic_resume sig p data)
  end.

(** [PipeReadEnd::close] and [PipeWriteEnd::close]. *)
Definition read_end_close (p : PipeInner) : PipeInner * list pipe_event :=
  if read_closed p then (p, [])
  else (mkPipe (buffer p) true (write_closed p), [NotifyWrite]).

Definition write_end_close (p : PipeInner) : PipeInner * list pipe_event :=
  if write_closed p then (p, [])
  else (mkPipe (buffer p) (read_closed p) true, [NotifyRead]).

(** ** Socket pairs

    Two pipes: the left end reads the first and writes the second, the right
    end the other way round. *)

Record SocketPair := mkSocketPair { sp_first : PipeInner; sp_second : PipeInner }.

Inductive side := LeftEnd | RightEnd.

Definition socketpair_new (flags : Z) : SocketPair * Z :=
  (mkSocketPair pipe_ends pipe_ends, Z.lor flags O_RDWR).

Definition sp_read_pipe (sp : SocketPair) (e : side) : PipeInner :=
  match e with LeftEnd => sp_first sp | RightEnd => sp_second sp end.
Definition sp_write_pipe (sp : SocketPair) (e : side) : PipeInner :=
  match e with LeftEnd => sp_second sp | RightEnd => sp_first sp end.

Definition sp_poll_ready (lock_r lock_w : bool) (sp : SocketPair) (e : side) (event : Z) : outcome Z :=
  r ← (if bf_contains event Readable
       then poll_read_ready lock_r (sp_read_pipe sp e) Readable else Ret poll_empty);
  w ← (if bf_contains event Writable
       then poll_write_ready lock_w (sp_write_pipe sp e) Writable else Ret poll_empty);
  Ret (Z.lor r w).

Definition sp_poll_try (lock_r lock_w : bool) (sp : SocketPair) (e : side) (event : Z) : poll (outcome Z) :=
  match sp_poll_ready lock_r lock_w sp e event with
  | Ret ready =>
      if negb (ready =? 0) then Ready (Ret ready)
      else if bf_contains event Readable then poll_read_try (sp_read_pipe sp e) Readable
      else poll_write_try (sp_write_pipe sp e) Writable
  | o => Ready o
  end.

Definition sp_close (sp : SocketPair) (e : side) : SocketPair :=
  match e with
  | LeftEnd => mkSocketPair (fst (read_end_close (sp_first sp))) (fst (write_end_close (sp_second sp)))
  | RightEnd => mkSocketPair (fst (write_end_close (sp_first sp))) (fst (read_end_close (sp_second sp)))
  end.

(** ** One read, one write *)

Definition pipe_ok (p : PipeInner) : Prop := (length (buffer p) <= PIPE_SIZE)%nat.

(** A read into a kernel buffer takes the longest prefix that fits, wherever
    the deque cuts its contents. *)
Lemma pipe_read_body_spec `{BufferLaws B} k p (b : B) :
  buf_ok b ->
  let n := Nat.min (available b) (length (buffer p)) in
  exists b', pipe_read_body k p b =
    (Ret (n, b'), mkPipe (drop n (buffer p)) (read_closed p) (write_closed p), [NotifyWrite]) /\
    buf_ok b' /\ buf_data b' = buf_data b ++ take n (buffer p) /\ buf_total b' = buf_total b.
Proof.
  intros Hb n. unfold pipe_read_body.
  destruct (buf_fill_law b (take k (buffer p)) Hb) as (r1 & b1 & -> & Hb1 & Ht1 & Hd1 & Ha1 & _).
  destruct (buf_fill_law b1 (drop k (buffer p)) Hb1) as (r2 & b2 & -> & Hb2 & Ht2 & Hd2 & Ha2 & _).
  pose proof (buf_wrote_data b Hb) as Hw. pose proof (buf_wrote_data b1 Hb1) as Hw1.
  pose proof (buf_wrote_le b Hb). pose proof (buf_wrote_le b1 Hb1).
  assert (available b1 = available b - length (take k (buffer p)))%nat as Hav.
  { unfold available in *. rewrite Hw1, Hd1, length_app, length_take, length_take. lia. }
  assert (allow_partial r1 + allow_partial r2 = n)%nat as Hn.
  { rewrite Ha1, Ha2, Hav, length_take, length_drop. unfold n. lia. }
  rewrite Hn. replace (length (buffer p) <? n)%nat with false
    by (symmetry; apply Nat.ltb_ge; unfold n; lia).
  exists b2. split_and!; [done|done| |congruence].
  rewrite Hd2, Hd1, <- app_assoc. f_equal. rewrite Hav.
  assert (take n (buffer p) = take (available b) (buffer p)) as ->
    by (unfold n; by rewrite (Nat.min_comm (available b)), take_min_length).
  rewrite <- (take_drop k (buffer p)) at 4. by rewrite take_app.
Qed.

Lemma write_atomic_loop_spec p data r p' ev :
  write_atomic_loop p data = Ready (r, p', ev) ->
  r = Ret (length data) /\ buffer p' = buffer p ++ data /\
  read_closed p' = read_closed p /\ write_closed p' = write_closed p /\
  (length (buffer p') <= PIPE_SIZE)%nat.
Proof.
  unfold write_atomic_loop. destruct (Nat.ltb_spec PIPE_SIZE (length (buffer p) + length data)); [done|].
  intros [= <- <- <-]. simpl. rewrite length_app. by split_and!.
Qed.

(** ** A writer and its readers

    [sys] is a pipe, the status of a call to [write], and two logs: the bytes
    the writer stored and the bytes the readers got.  The steps interleave the
    polls of the writer with reads into arbitrary kernel buffers and with the
    closing of either end, in any order. *)

Section system.
Context `{StreamLaws T}.

Record sys := mkSys {
  sy_pipe : PipeInner;
  sy_status : WriterStatus T;
  sy_sent : list Z;
  sy_recvd : list Z
}.

Definition sys_init (s : T) : sys :=
  mkSys pipe_ends (WContinue (mkWriter s 0 None)) [] [].

Inductive sys_step : sys -> sys -> Prop :=
| step_write sig p w st' p' ev sent recvd :
    pipe_write_step sig p w = (st', p', ev) ->
    sys_step (mkSys p (WContinue w) sent recvd)
             (mkSys p' st' (sent ++ drop (length (buffer p)) (buffer p')) recvd)
| step_write_resume sig p w st' p' ev sent recvd :
    pipe_write_step sig p w = (st', p', ev) ->
    sys_step (mkSys p (WWaiting w) sent recvd)
             (mkSys p' st' (sent ++ drop (length (buffer p)) (buffer p')) recvd)
| step_read {B} `{BufferLaws B} sig k p st (b : B) n b' p' ev sent recvd got :
    buf_ok b ->
    pipe_read_resume sig k p b = Ready (Ret (n, b'), p', ev) ->
    buf_data b' = buf_data b ++ got ->
    sys_step (mkSys p st sent recvd) (mkSys p' st sent (recvd ++ got))
| step_close_read p st sent recvd :
    sys_step (mkSys p st sent recvd) (mkSys (read_end_close p).1 st sent recvd)
| step_close_write p st sent recvd :
    sys_step (mkSys p st sent recvd) (mkSys (write_end_close p).1 st sent recvd).

Definition chunk_bytes (w : Writer T) : list Z := default [] (wr_chunk w).

Definition writer_inv (data sent : list Z) (w : Writer T) : Prop :=
  sent ++ chunk_bytes w ++ st_rest (wr_stream w) = data /\
  wr_total w = length sent /\
  (length (chunk_bytes w) <= PIPE_SIZE)%nat /\
  st_ok (wr_stream w).

Definition status_inv (data sent : list Z) (st : WriterStatus T) : Prop :=
  match st with
  | WContinue w => writer_inv data sent w /\ wr_chunk w = None
  | WWaiting w => writer_inv data sent w
  | WFinished (Ret n) => sent = data /\ n = length data
  | WFinished _ => exists rest, sent ++ rest = data
  end.

Definition sys_inv (data : list Z) (y : sys) : Prop :=
  sy_sent y = sy_recvd y ++ buffer (sy_pipe y) /\
  pipe_ok (sy_pipe y) /\
  status_inv data (sy_sent y) (sy_status y).

Lemma finish_chunk_inv data sent s total p c r st' p' ev :
  (r = write_atomic_try p c \/ exists sig, r = write_atomic_resume sig p c) ->
  sent ++ c ++ st_rest s = data -> total = length sent -> (length c <= PIPE_SIZE)%nat -> st_ok s ->
  pipe_ok p ->
  finish_chunk s total c p r = (st', p', ev) ->
  exists new, buffer p' = buffer p ++ new /\ pipe_ok p' /\ status_inv data (sent ++ new) st'.
Proof.
  intros Hr Hdata Htot Hc Hst Hp Hf.
  assert (r = Pending \/ (exists e ev', r = Ready (Err e, p, ev')) \/ r = write_atomic_loop p c) as Hr'.
  { destruct Hr as [->|[sig ->]]; unfold write_atomic_try, write_atomic_resume.
    - destruct (read_closed p); naive_solver.
    - destruct sig; [naive_solver|]. destruct (read_closed p); naive_solver. }
  clear Hr. destruct Hr' as [->|[(e & ev' & ->)|Hr]]; simpl in Hf.
  - injection Hf as <- <- <-. exists []. rewrite !app_nil_r. by split_and!.
  - injection Hf as <- <- <-. exists []. rewrite !app_nil_r. split_and!; try done.
    simpl. by exists (c ++ st_rest s).
  - destruct r as [[[o q] ev']|]; simpl in Hf.
    + destruct (write_atomic_loop_spec p c o q ev') as (-> & Hb & Hrc & Hwc & Hle); [done|].
      rewrite Nat.eqb_refl in Hf. injection Hf as <- <- <-. exists c. split_and!; try done.
      unfold status_inv, writer_inv, chunk_bytes. simpl. rewrite length_app, <- app_assoc.
      split_and!; try done; lia.
    + injection Hf as <- <- <-. exists []. rewrite !app_nil_r. by split_and!.
Qed.

Lemma write_step_inv data sent sig p w st' p' ev :
  writer_inv data sent w -> pipe_ok p ->
  pipe_write_step sig p w = (st', p', ev) ->
  exists new, buffer p' = buffer p ++ new /\ pipe_ok p' /\ status_inv data (sent ++ new) st'.
Proof.
  intros (Hd & Ht & Hc & Hst) Hp Hw. unfold pipe_write_step, chunk_bytes in *.
  destruct (wr_chunk w) as [c|] eqn:E; simpl in *.
  - eapply finish_chunk_inv; eauto.
  - destruct (st_poll_law (wr_stream w) PIPE_SIZE Hst) as (s' & Hpd & Hst' & Hrest); [unfold PIPE_SIZE; lia|].
    rewrite Hpd in Hw. destruct (st_rest (wr_stream w)) as [|x xs] eqn:Es.
    + injection Hw as <- <- <-. exists []. rewrite !app_nil_r in *. by subst.
    + eapply finish_chunk_inv in Hw; eauto.
      * by rewrite Hrest, take_drop.
      * rewrite length_take. lia.
Qed.

Lemma sys_step_inv data y y' : sys_inv data y -> sys_step y y' -> sys_inv data y'.
Proof.
  intros (Hfifo & Hok & Hst) Hstep. destruct Hstep; simpl in *; subst.
  1-2: match goal with Hw : pipe_write_step _ _ _ = _ |- _ =>
         eapply write_step_inv in Hw as (new & Hb & Hok' & Hst') end;
       [|destruct_and?; done..];
       rewrite Hb, drop_app_length; split_and!; try done; simpl; by rewrite Hb, app_assoc.
  - match goal with Hr : pipe_read_resume _ _ _ _ = _ |- _ =>
      unfold pipe_read_resume, pipe_read_try in Hr end.
    destruct sig; [done|]. destruct (negb (write_closed p) && buffer_is_empty p); [done|].
    destruct (pipe_read_body_spec k p b) as (b2 & Heq & _ & Hd & _); [done|].
    rewrite Heq in *.
    match goal with Hr : Ready _ = Ready _ |- _ => injection Hr as <- <- <- <- end.
    match goal with Hg : buf_data b2 = _ |- _ => rewrite Hd in Hg; apply app_inv_head in Hg as <- end.
    split_and!; simpl; [|unfold pipe_ok in *; simpl; rewrite length_drop; lia|done].
    by rewrite <- app_assoc, take_drop.
  - unfold read_end_close. destruct (read_closed p); by split_and!.
  - unfold write_end_close. destruct (write_closed p); by split_and!.
Qed.

Lemma sys_init_inv s : st_ok s -> sys_inv (st_rest s) (sys_init s).
Proof.
  intros Hst. split_and!; simpl; [done|unfold pipe_ok; simpl; lia|].
  split; [|done]. unfold writer_inv, chunk_bytes. simpl. split_and!; [done..|lia|done].
Qed.

Lemma sys_reachable_inv s y : st_ok s -> rtc sys_step (sys_init s) y -> sys_inv (st_rest s) y.
Proof.
  intros Hst Hr. pose proof (sys_init_inv s Hst) as Hi. revert Hi.
  generalize (st_rest s) as data. intros data.
  induction Hr; [done|]. eauto using sys_step_inv.
Qed.
End system.

Arguments sys T : clear implicits.

(** ** The promises of a pipe *)

(** C1: In every reachable state of a pipe with one writer, any readers and any
    closings, in every interleaving: the bytes stored are the bytes received
    followed by the buffer (first in, first out, nothing lost or duplicated),
    the buffer is within its 4096 bytes, and a [write] that returns [Ok n] has
    stored its whole stream and [n] is the stream's length. *)
Theorem pipe_fifo `{StreamLaws T} (s : T) (y : sys T) :
  st_ok s -> rtc sys_step (sys_init s) y ->
  sy_sent y = sy_recvd y ++ buffer (sy_pipe y) /\
  (length (buffer (sy_pipe y)) <= PIPE_SIZE)%nat /\
  sy_sent y `prefix_of` st_rest s /\
  (forall n, sy_status y = WFinished (Ret n) -> sy_sent y = st_rest s /\ n = length (st_rest s)).
Proof.
  intros Hst Hr. destruct (sys_reachable_inv s y Hst Hr) as (Hf & Hok & Hinv). split_and!; [done|done| |].
  - destruct (sy_status y) as [[n|e|]|w|w]; simpl in Hinv.
    + destruct Hinv as [-> _]. done.
    + destruct Hinv as [rest <-]. by exists rest.
    + destruct Hinv as [rest <-]. by exists rest.
    + destruct Hinv as (<- & _). by eexists.
    + destruct Hinv as ((<- & _) & _). by eexists.
  - intros n Hn. by rewrite Hn in Hinv.
Qed.

Definition demo_stream : ByteStream := into_stream [104; 105; 33].
Definition demo_reader : ByteBuffer := byte_buffer_new [0; 0].

Lemma demo_run : exists y, rtc sys_step (sys_init demo_stream) y /\
  sy_status y = WFinished (Ret 3%nat) /\ sy_recvd y = [104; 105].
Proof.
  eexists. split; [|split].
  - eapply rtc_l; [eapply (step_write false); reflexivity|].
    eapply rtc_l; [eapply (step_read false 1 _ _ demo_reader _ _ _ _ _ _ [104; 105]);
                   [simpl; lia|reflexivity|reflexivity]|].
    eapply rtc_l; [eapply (step_write false); reflexivity|].
    apply rtc_refl.
  - reflexivity.
  - reflexivity.
Qed.

Lemma pipe_fifo_witness : exists y : sys ByteStream,
  sy_status y = WFinished (Ret 3%nat) /\ sy_recvd y ++ buffer (sy_pipe y) = [104; 105; 33].
Proof.
  destruct demo_run as (y & Hr & Hs & _). exists y. split; [done|].
  assert (st_ok demo_stream) as Hst by exact I.
  destruct (pipe_fifo demo_stream y Hst Hr) as (Hf & _ & _ & Hd).
  destruct (Hd _ Hs) as [Hd' _]. rewrite <- Hf, Hd'. reflexivity.
Defined.

(** Reader and writer never wait for each other.  A writer of a chunk of at
    most 4096 bytes (every chunk [write] produces) that waits leaves the reader
    something to read, and a reader that waits leaves room for any such chunk;
    a reader waits only while the write end is open and a writer only while
    the read end is open, so closing an end lets the other side go. *)
Theorem pipe_no_deadlock `{BufferLaws B} (k : nat) (p : PipeInner) (data : list Z) (b : B) :
  (length data <= PIPE_SIZE)%nat ->
  (write_atomic_try p data = Pending -> read_closed p = false /\ pipe_read_try k p b <> Pending) /\
  (pipe_read_try k p b = Pending -> write_closed p = false /\
     (read_closed p = false -> exists p', write_atomic_try p data = Ready (Ret (length data), p', [NotifyRead]))).
Proof.
  intros Hl. unfold write_atomic_try, write_atomic_loop, pipe_read_try, buffer_is_empty. split.
  - destruct (read_closed p); [done|]. destruct (buffer p) as [|x l] eqn:Eb.
    + simpl. destruct (Nat.ltb_spec PIPE_SIZE (length data)); [lia|done].
    + intros _. split; [done|]. by rewrite andb_false_r.
  - destruct (write_closed p); [done|]. destruct (buffer p) as [|x l] eqn:Eb; [|done].
    intros _. split; [done|]. intros ->. simpl.
    destruct (Nat.ltb_spec PIPE_SIZE (length data)); [lia|]. by eexists.
Qed.

Lemma pipe_no_deadlock_witness :
  write_atomic_try (mkPipe (replicate 4000 7) false false) (replicate 100 1) = Pending /\
  pipe_read_try 17 (mkPipe (replicate 4000 7) false false) demo_reader <> Pending.
Proof.
  assert (write_atomic_try (mkPipe (replicate 4000 7) false false) (replicate 100 1) = Pending) as Hp
    by (vm_compute; reflexivity).
  split; [exact Hp|].
  apply (pipe_no_deadlock 17 (mkPipe (replicate 4000 7) false false) (replicate 100 1) demo_reader);
    [apply Nat.leb_le; vm_compute; reflexivity|exact Hp].
Defined.

(** A read that does not wait takes exactly the longest prefix of the
    buffered bytes the caller's buffer can hold, appended to the caller's data
    in order, wherever the deque happens to cut its contents; end of file (no
    byte) is reported only for an empty pipe whose write end is closed or for a
    full caller's buffer; and the poll bits are raised exactly when the read
    would not wait. *)
Theorem pipe_read_correct `{BufferLaws B} (k : nat) (p : PipeInner) (b : B) :
  buf_ok b ->
  (read_ready p Readable = Readable <-> pipe_read_try k p b <> Pending) /\
  (pipe_read_try k p b <> Pending ->
   exists n b' p', pipe_read_try k p b = Ready (Ret (n, b'), p', [NotifyWrite]) /\
     n = Nat.min (available b) (length (buffer p)) /\
     buf_data b' = buf_data b ++ take n (buffer p) /\ buffer p' = drop n (buffer p) /\
     (n = 0%nat -> available b = 0%nat \/ (buffer p = [] /\ write_closed p = true))).
Proof.
  intros Hb. unfold pipe_read_try, read_ready, buffer_is_empty.
  destruct (buffer p) as [|x l] eqn:Eb, (write_closed p) eqn:Ew; simpl; split; try done.
  all: intros _; destruct (pipe_read_body_spec k p b Hb) as (b' & -> & _ & Hd & _).
  all: eexists _, _, _; split_and!; [done|by rewrite Eb|by rewrite Hd, Eb|by rewrite Eb|].
  all: rewrite Eb; simpl; intros; auto; left; lia.
Qed.

Lemma pipe_read_correct_witness :
  exists b', pipe_read_try 1 (mkPipe [1; 2; 3] false false) demo_reader =
    Ready (Ret (2%nat, b'), mkPipe [3] false false, [NotifyWrite]) /\ buf_data b' = [1; 2].
Proof.
  destruct (pipe_read_correct 1 (mkPipe [1; 2; 3] false false) demo_reader) as [_ Hr];
    [simpl; lia|].
  destruct Hr as (n & b' & p' & Heq & Hn & Hd & Hb & _); [done|].
  exists b'. simpl in Hn. subst n. simpl in Hd. split; [|exact Hd].
  rewrite Heq. destruct p' as [bf rc wc]. simpl in Hb. subst bf.
  vm_compute in Heq. injection Heq as _ <- <-. reflexivity.
Defined.
