(* ===== verification/UserMem.v ===== *)
(** * Access to user memory

    Models src/kernel/user/dataflow.rs.

    User memory is the map from the addresses that are mapped to their bytes;
    an access to any other address faults.  The copy loops are in assembly: each
    round copies one byte and then tests the number of bytes left, and a fault
    jumps behind the loop with that number still in the register (the entries
    of the fix-up table).  The loops test at the end, so that a copy of zero
    bytes would run on; callers exclude it, and the model takes it as a panic. *)

From S2P Require Import Prelude Io.

Notation UMem := (gmap Z Z).

Definition USER_MAX_ADDR : Z := 0x7fffffffffff.

(** ** [CheckedUserPointer] *)

Record CheckedUserPointer := mkUserPtr { up_ptr : Z; up_len : nat }.

Definition checked_new (ptr : Z) (len : nat) : outcome CheckedUserPointer :=
  if ptr =? 0 then Err EFAULT
  else if 2 ^ 64 <=? ptr + Z.of_nat len then Err EFAULT
  else if USER_MAX_ADDR <? ptr + Z.of_nat len then Err EFAULT
  else Ret (mkUserPtr ptr len).

Definition up_forward (p : CheckedUserPointer) (offset : nat) : outcome CheckedUserPointer :=
  assert_ (offset <=? up_len p)%nat;;
  Ret (mkUserPtr (up_ptr p + Z.of_nat offset) (up_len p - offset)).

(** The loop that copies from user memory: the bytes and how many are left. *)
Fixpoint load_loop (m : UMem) (addr : Z) (total : nat) : list Z * nat :=
  match total with
  | O => ([], O)
  | S n =>
      match m !! addr with
      | None => ([], total)
      | Some b => let (bs, e) := load_loop m (addr + 1) n in (b :: bs, e)
      end
  end.

(** The loop that copies to user memory. *)
Fixpoint store_loop (m : UMem) (addr : Z) (data : list Z) : UMem * nat :=
  match data with
  | [] => (m, O)
  | b :: data' =>
      match m !! addr with
      | None => (m, length data)
      | Some _ => store_loop (<[addr := b]> m) (addr + 1) data'
      end
  end.

Definition up_read (m : UMem) (p : CheckedUserPointer) (total : nat) : outcome (list Z) :=
  if (up_len p <? total)%nat then Err EINVAL
  else if (total =? 0)%nat then Panic
  else let (bs, error_bytes) := load_loop m (up_ptr p) total in
       if negb (error_bytes =? 0)%nat then Err EFAULT else Ret bs.

(** A write that faults has written the bytes before the fault. *)
Definition up_write (m : UMem) (p : CheckedUserPointer) (data : list Z) : UMem * outcome unit :=
  if (up_len p <? length data)%nat then (m, Err EINVAL)
  else if (length data =? 0)%nat then (m, Panic)
  else let (m, error_bytes) := store_loop m (up_ptr p) data in
       (m, if negb (error_bytes =? 0)%nat then Err EFAULT else Ret tt).

Definition up_zero (m : UMem) (p : CheckedUserPointer) : UMem * outcome unit :=
  if (up_len p =? 0)%nat then (m, Ret tt)
  else let (m, error_bytes) := store_loop m (up_ptr p) (replicate (up_len p) 0) in
       (m, if negb (error_bytes =? 0)%nat then Err EFAULT else Ret tt).

(** ** [UserPointer] and [UserPointerMut], for a type of [size_of_T] bytes *)

Definition user_pointer_read (m : UMem) (addr : Z) (size_of_T : nat) : outcome (list Z) :=
  p ← checked_new addr size_of_T;
  up_read m p size_of_T.

Definition user_pointer_write (m : UMem) (addr : Z) (value : list Z) : UMem * outcome unit :=
  match checked_new addr (length value) with
  | Ret p => up_write m p value
  | Err e => (m, Err e)
  | Panic => (m, Panic)
  end.

(** ** [UserBuffer] *)

Record UserBuffer := mkUserBuffer { ub_ptr : CheckedUserPointer; ub_size : nat; ub_cur : nat }.

Definition user_buffer_new (ptr : Z) (size : nat) : outcome UserBuffer :=
  p ← checked_new ptr size;
  Ret (mkUserBuffer p size 0).

Definition ub_remaining (b : UserBuffer) : nat := ub_size b - ub_cur b.

Definition ub_fill (m : UMem) (b : UserBuffer) (data : list Z) : UMem * outcome (FillResult * UserBuffer) :=
  let to_write := Nat.min (length data) (ub_remaining b) in
  if (to_write =? 0)%nat then (m, Ret (FFull, b))
  else
    let (m, r) := up_write m (ub_ptr b) (take to_write data) in
    (m, r;;
        p ← up_forward (ub_ptr b) to_write;
        let b := mkUserBuffer p (ub_size b) (ub_cur b + to_write) in
        Ret (if (to_write =? length data)%nat then FDone to_write else FPartial to_write, b)).

(** ** [UserString] *)

Definition USER_STRING_MAX_LEN : nat := 4096.

(** The scan for the terminating zero: what is left in the register.  A fault
    leaves the same value as a zero byte at that place. *)
Fixpoint strlen_loop (m : UMem) (addr : Z) (total : nat) : nat :=
  match total with
  | O => O
  | S n =>
      match m !! addr with
      | None => total
      | Some b => if b =? 0 then total else strlen_loop m (addr + 1) n
      end
  end.

(** The string is its address and length. *)
Definition user_string_new (m : UMem) (ptr : Z) : outcome (CheckedUserPointer * nat) :=
  p ← checked_new ptr USER_STRING_MAX_LEN;
  let result := strlen_loop m (up_ptr p) USER_STRING_MAX_LEN in
  if (result =? 0)%nat then Err EFAULT else Ret (p, (USER_STRING_MAX_LEN - result)%nat).

(** ** [UserStream] *)

Definition us_poll_data (m : UMem) (s : CheckedUserPointer) (buflen : nat) : outcome (option (list Z) * CheckedUserPointer) :=
  if (up_len s =? 0)%nat then Ret (None, s)
  else
    let to_read := Nat.min buflen (up_len s) in
    bs ← up_read m s to_read;
    s ← up_forward s to_read;
    Ret (Some bs, s).

Definition us_ignore (s : CheckedUserPointer) (len : nat) : outcome (option nat * CheckedUserPointer) :=
  if (up_len s =? 0)%nat then Ret (None, s)
  else
    let to_ignore := Nat.min len (up_len s) in
    s ← up_forward s to_ignore;
    Ret (Some to_ignore, s).

(** ** Memory that is mapped *)

Definition mapped (m : UMem) (addr : Z) (n : nat) : Prop :=
  forall i, (i < n)%nat -> is_Some (m !! (addr + Z.of_nat i)).

(** The bytes at an address. *)
Definition bytes_at (m : UMem) (addr : Z) (n : nat) : list Z :=
  (fun i => default 0 (m !! (addr + Z.of_nat i))) <$> seq 0 n.

Lemma mapped_S m addr n : mapped m addr (S n) <-> is_Some (m !! addr) /\ mapped m (addr + 1) n.
Proof.
  split.
  - intros Hm. split; [specialize (Hm 0%nat ltac:(lia)); by rewrite Z.add_0_r in Hm|].
    intros i Hi. specialize (Hm (S i) ltac:(lia)). by replace (addr + 1 + Z.of_nat i) with (addr + Z.of_nat (S i)) by lia.
  - intros [H0 Hm] [|i] Hi; [by rewrite Z.add_0_r|]. specialize (Hm i ltac:(lia)).
    by replace (addr + Z.of_nat (S i)) with (addr + 1 + Z.of_nat i) by lia.
Qed.

Lemma bytes_at_S m addr n : bytes_at m addr (S n) = default 0 (m !! addr) :: bytes_at m (addr + 1) n.
Proof.
  unfold bytes_at. simpl. rewrite Z.add_0_r. f_equal. rewrite <- seq_shift, <- list_fmap_compose.
  apply list_fmap_ext. intros i x _. simpl. do 2 f_equal. lia.
Qed.

Lemma load_loop_mapped m addr n : mapped m addr n -> load_loop m addr n = (bytes_at m addr n, O).
Proof.
  revert addr. induction n as [|n IH]; intros addr; [done|]. rewrite mapped_S, bytes_at_S. intros [[b Hb] Hm]. simpl.
  by rewrite Hb, IH.
Qed.

Lemma store_loop_mapped m addr data :
  mapped m addr (length data) ->
  exists m', store_loop m addr data = (m', O) /\
    forall a, m' !! a = if decide (addr <= a < addr + Z.of_nat (length data))
                        then data !! Z.to_nat (a - addr) else m !! a.
Proof.
  revert m addr. induction data as [|b data IH]; intros m addr; simpl.
  { intros _. exists m. split; [done|]. intros a. by rewrite decide_False by lia. }
  rewrite mapped_S. intros [[c ->] Hm]. destruct (IH (<[addr := b]> m) (addr + 1)) as (m' & -> & Hm').
  { intros i Hi. rewrite lookup_insert_ne by lia. by apply Hm. }
  exists m'. split; [done|]. intros a. rewrite Hm'. destruct (decide (a = addr)) as [->|Hne].
  - rewrite decide_False, decide_True by lia. by rewrite lookup_insert_eq, Z.sub_diag.
  - rewrite lookup_insert_ne by done. destruct (decide (addr + 1 <= a < _)).
    + rewrite decide_True by lia. by replace (Z.to_nat (a - addr)) with (S (Z.to_nat (a - (addr + 1)))) by lia.
    + by rewrite decide_False by lia.
Qed.

(** An access inside a valid pointer whose memory is mapped. *)
Definition ptr_ok (m : UMem) (p : CheckedUserPointer) : Prop := mapped m (up_ptr p) (up_len p).

Lemma mapped_le m a n k : (k <= n)%nat -> mapped m a n -> mapped m a k.
Proof. intros Hk Hm i Hi. apply Hm. lia. Qed.

Lemma up_read_ok m p n : ptr_ok m p -> (0 < n <= up_len p)%nat -> up_read m p n = Ret (bytes_at m (up_ptr p) n).
Proof.
  intros Hp Hn. unfold up_read. destruct (Nat.ltb_spec (up_len p) n); [lia|]. destruct (Nat.eqb_spec n 0); [lia|].
  rewrite load_loop_mapped by (by apply (mapped_le _ _ (up_len p)); [lia|]). done.
Qed.

Lemma up_write_ok m p data :
  ptr_ok m p -> (0 < length data <= up_len p)%nat ->
  exists m', up_write m p data = (m', Ret tt) /\
    forall a, m' !! a = if decide (up_ptr p <= a < up_ptr p + Z.of_nat (length data))
                        then data !! Z.to_nat (a - up_ptr p) else m !! a.
Proof.
  intros Hp Hn. unfold up_write. destruct (Nat.ltb_spec (up_len p) (length data)); [lia|].
  destruct (Nat.eqb_spec (length data) 0); [lia|].
  destruct (store_loop_mapped m (up_ptr p) data) as (m' & -> & Hm'); [by apply (mapped_le _ _ (up_len p)); [lia|]|].
  by exists m'.
Qed.

Lemma bytes_at_app m a n k : bytes_at m a (n + k) = bytes_at m a n ++ bytes_at m (a + Z.of_nat n) k.
Proof.
  revert a. induction n as [|n IH]; intros a; [simpl; by rewrite Z.add_0_r|]. simpl plus. rewrite !bytes_at_S. simpl.
  rewrite IH. do 3 f_equal. lia.
Qed.

Lemma length_bytes_at m a n : length (bytes_at m a n) = n.
Proof. unfold bytes_at. by rewrite length_fmap, length_seq. Qed.

Lemma bytes_at_ext m m' a n :
  (forall i, (i < n)%nat -> m' !! (a + Z.of_nat i) = m !! (a + Z.of_nat i)) -> bytes_at m' a n = bytes_at m a n.
Proof.
  intros He. unfold bytes_at. apply list_fmap_ext. intros i x Hx. apply lookup_seq in Hx as [-> Hi]. simpl. by rewrite He.
Qed.

(** Memory that holds [data] at [a]. *)
Lemma bytes_at_data m a data :
  (forall i, (i < length data)%nat -> m !! (a + Z.of_nat i) = data !! i) -> bytes_at m a (length data) = data.
Proof.
  intros Hd. apply list_eq. intros i. destruct (decide (i < length data)%nat) as [Hi|Hi].
  - unfold bytes_at. rewrite list_lookup_fmap, lookup_seq_lt by done. simpl. rewrite Hd by done.
    by destruct (lookup_lt_is_Some_2 data i Hi) as [x ->].
  - rewrite !lookup_ge_None_2; [done|lia|rewrite length_bytes_at; lia].
Qed.

Lemma checked_new_ok ptr len :
  0 < ptr -> ptr + Z.of_nat len <= USER_MAX_ADDR -> checked_new ptr len = Ret (mkUserPtr ptr len).
Proof.
  intros Hp Hl. unfold checked_new, USER_MAX_ADDR in *. zcases; done || lia.
Qed.

(** What was written, read back. *)
Lemma bytes_at_written (m' : UMem) a data :
  (forall x, a <= x < a + Z.of_nat (length data) -> m' !! x = data !! Z.to_nat (x - a)) ->
  bytes_at m' a (length data) = data.
Proof.
  intros Hw. apply bytes_at_data. intros i Hi. rewrite Hw by lia. f_equal. lia.
Qed.

(** Writing a value through a user pointer and reading it back gives the
    value, and no other byte of user memory changes, for every non-empty value
    that lies in mapped user space. *)
Theorem user_pointer_roundtrip m addr value :
  0 < addr -> addr + Z.of_nat (length value) <= USER_MAX_ADDR -> value <> [] -> mapped m addr (length value) ->
  exists m', user_pointer_write m addr value = (m', Ret tt) /\
    user_pointer_read m' addr (length value) = Ret value /\
    (forall a, ~ addr <= a < addr + Z.of_nat (length value) -> m' !! a = m !! a).
Proof.
  intros Ha Hl Hne Hm. assert (0 < length value)%nat as Hlen by (destruct value; [done|simpl; lia]).
  unfold user_pointer_write, user_pointer_read. rewrite !checked_new_ok by done.
  destruct (up_write_ok m (mkUserPtr addr (length value)) value Hm ltac:(simpl; lia)) as (m' & Hw & Hm'). simpl in Hm'.
  exists m'. split; [done|]. split; [|intros a Hout; by rewrite Hm', decide_False].
  cbn [mbind outcome_bind]. rewrite up_read_ok.
  - simpl. f_equal. apply bytes_at_written. intros x Hx. by rewrite Hm', decide_True.
  - intros i Hi. simpl in *. rewrite Hm', decide_True by lia.
    replace (Z.to_nat (addr + Z.of_nat i - addr)) with i by lia. by apply lookup_lt_is_Some_2.
  - simpl. lia.
Qed.

(** What a read that succeeds tells, and how one fails. *)
Lemma load_loop_mapped_inv m addr n bs : load_loop m addr n = (bs, O) -> mapped m addr n.
Proof.
  revert addr bs. induction n as [|n IH]; intros addr bs; [by intros _ i Hi; lia|]. simpl.
  destruct (m !! addr) as [b|] eqn:Hb; [|done]. destruct (load_loop m (addr + 1) n) as [bs' e] eqn:E. intros [= _ ->].
  apply mapped_S. split; [by rewrite Hb|]. by apply (IH _ bs').
Qed.

Lemma user_pointer_read_inv m addr n :
  (0 < n)%nat ->
  match user_pointer_read m addr n with
  | Ret _ => addr <> 0 /\ addr + Z.of_nat n <= USER_MAX_ADDR /\ mapped m addr n
  | Err e => e = EFAULT
  | Panic => False
  end.
Proof.
  intros Hn. unfold user_pointer_read, checked_new. destruct (Z.eqb_spec addr 0); [done|].
  destruct (Z.leb_spec (2 ^ 64) (addr + Z.of_nat n)); [done|]. destruct (Z.ltb_spec USER_MAX_ADDR (addr + Z.of_nat n)); [done|].
  simpl. unfold up_read. simpl. rewrite Nat.ltb_irrefl. destruct (Nat.eqb_spec n 0); [lia|].
  destruct (load_loop m addr n) as [bs e] eqn:E. destruct (Nat.eqb_spec e 0) as [->|]; simpl; [|done].
  split; [done|]. split; [lia|]. by apply (load_loop_mapped_inv _ _ _ bs).
Qed.

Definition demo_umem : UMem := list_to_map ((fun x => (x, 0)) <$> seqZ 0x1000 16).

Lemma demo_umem_mapped n : (n <= 16)%nat -> mapped demo_umem 0x1000 n.
Proof.
  intros Hn i Hi. exists 0. apply elem_of_list_to_map_1.
  - rewrite <- list_fmap_compose. apply NoDup_fmap; [by intros ? ?|apply NoDup_seqZ].
  - apply list_elem_of_fmap. exists (0x1000 + Z.of_nat i). split; [done|]. apply elem_of_seqZ. lia.
Qed.

Lemma user_pointer_roundtrip_witness :
  exists m', user_pointer_write demo_umem 0x1000 [7; 8; 9] = (m', Ret tt) /\ user_pointer_read m' 0x1000 3 = Ret [7; 8; 9].
Proof.
  destruct (user_pointer_roundtrip demo_umem 0x1000 [7; 8; 9]) as (m' & Hw & Hr & _).
  - lia.
  - vm_compute. discriminate.
  - done.
  - apply demo_umem_mapped. simpl. lia.
  - exists m'. split; [exact Hw|exact Hr].
Defined.

(** ** Filling a user buffer *)

(** The buffer has written [ub_cur] bytes from [base] on. *)
Definition ub_ok (m : UMem) (base : Z) (b : UserBuffer) : Prop :=
  (ub_cur b <= ub_size b)%nat /\ up_ptr (ub_ptr b) = base + Z.of_nat (ub_cur b) /\
  up_len (ub_ptr b) = (ub_size b - ub_cur b)%nat /\ mapped m base (ub_size b).

(** One fill appends what fits and says how much that was. *)
Lemma ub_fill_ok m base b data :
  ub_ok m base b -> data <> [] ->
  exists m' r b', ub_fill m b data = (m', Ret (r, b')) /\ ub_ok m' base b' /\ ub_size b' = ub_size b /\
    ub_cur b' = (ub_cur b + allow_partial r)%nat /\ allow_partial r = Nat.min (length data) (ub_remaining b) /\
    (should_stop r = false <-> (length data <= ub_remaining b)%nat) /\
    bytes_at m' base (ub_cur b') = bytes_at m base (ub_cur b) ++ take (ub_remaining b) data /\
    (forall a, ~ base + Z.of_nat (ub_cur b) <= a < base + Z.of_nat (ub_cur b') -> m' !! a = m !! a).
Proof.
  intros (Hc & Hp & Hl & Hm) Hne. assert (0 < length data)%nat as Hlen by (destruct data; [done|simpl; lia]).
  unfold ub_fill, ub_remaining in *. set (n := Nat.min (length data) (ub_size b - ub_cur b)).
  destruct (Nat.eqb_spec n 0) as [Hn|Hn].
  - exists m, FFull, b. replace (ub_size b - ub_cur b)%nat with 0%nat by lia. simpl. rewrite take_0, app_nil_r, Nat.add_0_r.
    split_and!; try done; lia.
  - assert (length (take n data) = n) as Htl by (rewrite length_take; lia).
    assert (mapped m (up_ptr (ub_ptr b)) (up_len (ub_ptr b))) as Hmp.
    { intros i Hi. rewrite Hp. replace (base + Z.of_nat (ub_cur b) + Z.of_nat i) with (base + Z.of_nat (ub_cur b + i)) by lia.
      apply Hm. lia. }
    destruct (up_write_ok m (ub_ptr b) (take n data) Hmp ltac:(lia)) as (m' & -> & Hm'). rewrite Htl, Hp in Hm'.
    unfold up_forward. destruct (Nat.leb_spec n (up_len (ub_ptr b))); [|lia]. cbn [assert_ mbind outcome_bind].
    set (r := if (n =? length data)%nat then FDone n else FPartial n).
    assert (allow_partial r = n) as Hr by (unfold r; by destruct (n =? length data)%nat).
    eexists m', r, _. split; [reflexivity|]. simpl. rewrite Hr. split; [|split; [done|split; [done|split; [done|split]]]].
    + split; [simpl; lia|]. split; [simpl; rewrite Hp; lia|]. split; [simpl; lia|]. simpl.
      intros i Hi. rewrite Hm'. case_decide; [|by apply Hm]. apply lookup_lt_is_Some_2. lia.
    + unfold r. destruct (Nat.eqb_spec n (length data)); simpl; [split; [lia|done]|split; [done|lia]].
    + split.
      * rewrite bytes_at_app. f_equal.
        -- apply bytes_at_ext. intros i Hi. rewrite Hm', decide_False by lia. done.
        -- replace (take (ub_size b - ub_cur b) data) with (take n data) by (unfold n; rewrite Nat.min_comm, <- take_take, firstn_all; done).
           rewrite <- Htl at 1. apply bytes_at_written. intros x Hx. rewrite Htl in Hx. by rewrite Hm', decide_True.
      * intros a Ha. rewrite Hm', decide_False by lia. done.
Qed.

(** A series of fills, as a file read does. *)
Fixpoint ub_fill_all (m : UMem) (b : UserBuffer) (chunks : list (list Z)) : UMem * outcome UserBuffer :=
  match chunks with
  | [] => (m, Ret b)
  | d :: chunks =>
      match ub_fill m b d with
      | (m, Ret (_, b)) => ub_fill_all m b chunks
      | (m, Err e) => (m, Err e)
      | (m, Panic) => (m, Panic)
      end
  end.

Lemma ub_fill_all_ok m base b chunks :
  ub_ok m base b -> Forall (fun d => d <> []) chunks ->
  exists m' b', ub_fill_all m b chunks = (m', Ret b') /\ ub_ok m' base b' /\ ub_size b' = ub_size b /\
    bytes_at m' base (ub_cur b') = take (ub_size b) (bytes_at m base (ub_cur b) ++ concat chunks) /\
    (forall a, ~ base <= a < base + Z.of_nat (ub_size b) -> m' !! a = m !! a).
Proof.
  intros Hok Hne. revert m b Hok. induction Hne as [|d chunks Hd Hne IH]; intros m b Hok; simpl.
  { exists m, b. split_and!; try done. rewrite app_nil_r, take_ge; [done|]. rewrite length_bytes_at. apply Hok. }
  pose proof Hok as (Hc & _).
  destruct (ub_fill_ok m base b d Hok Hd) as (m1 & r & b1 & -> & Hok1 & Hs1 & Hc1 & Hr & _ & Hb1 & Hf1).
  destruct (IH m1 b1 Hok1) as (m2 & b2 & -> & Hok2 & Hs2 & Hb2 & Hf2).
  exists m2, b2. split; [done|]. split; [done|]. split; [congruence|]. split.
  - rewrite Hb2, Hb1, Hs1, <- app_assoc. unfold ub_remaining in *.
    destruct (decide (length d <= ub_size b - ub_cur b)%nat).
    + by rewrite (take_ge d) by lia.
    + rewrite !take_app, !length_bytes_at. f_equal. rewrite length_take, take_take, Nat.min_id.
      replace (ub_size b - ub_cur b - Nat.min (ub_size b - ub_cur b) (length d))%nat with 0%nat by lia.
      replace (ub_size b - ub_cur b - length d)%nat with 0%nat by lia. by rewrite take_0, !app_nil_r.
  - intros a Ha. rewrite Hf2, Hf1; [done| |by rewrite Hs1]. destruct Hok1 as (Hc1' & _). rewrite Hs1 in Hc1'. lia.
Qed.

(** Whatever pieces a file delivers, a user buffer receives their
    concatenation from its first byte on, cut off at the size of the buffer,
    and the kernel writes nothing outside the buffer. *)
Theorem user_buffer_concat m ptr size chunks :
  0 < ptr -> ptr + Z.of_nat size <= USER_MAX_ADDR -> mapped m ptr size -> Forall (fun d => d <> []) chunks ->
  exists b m' b', user_buffer_new ptr size = Ret b /\ ub_fill_all m b chunks = (m', Ret b') /\
    bytes_at m' ptr (ub_cur b') = take size (concat chunks) /\
    (forall a, ~ ptr <= a < ptr + Z.of_nat size -> m' !! a = m !! a).
Proof.
  intros Hp Hl Hm Hne. unfold user_buffer_new. rewrite checked_new_ok by done. cbn [mbind outcome_bind].
  assert (ub_ok m ptr (mkUserBuffer (mkUserPtr ptr size) size 0)) as Hok by (split_and!; simpl; lia || done).
  destruct (ub_fill_all_ok m ptr _ chunks Hok Hne) as (m' & b' & Hfill & _ & _ & Hb & Hout).
  eexists _, m', b'. split; [done|]. split; [exact Hfill|]. split; [exact Hb|exact Hout].
Qed.

Lemma user_buffer_concat_witness :
  exists b m' b', user_buffer_new 0x1000 4 = Ret b /\ ub_fill_all demo_umem b [[1; 2]; [3; 4; 5]] = (m', Ret b') /\
    bytes_at m' 0x1000 (ub_cur b') = [1; 2; 3; 4].
Proof.
  destruct (user_buffer_concat demo_umem 0x1000 4 [[1; 2]; [3; 4; 5]]) as (b & m' & b' & Hn & Hf & Hb & _).
  - lia.
  - vm_compute. discriminate.
  - apply demo_umem_mapped. lia.
  - by repeat constructor.
  - exists b, m', b'. split; [exact Hn|]. split; [exact Hf|exact Hb].
Defined.

(** ** Strings *)

Lemma strlen_loop_ok m addr k total :
  (k < total)%nat -> mapped m addr k -> (forall i, (i < k)%nat -> m !! (addr + Z.of_nat i) <> Some 0) ->
  m !! (addr + Z.of_nat k) = Some 0 -> strlen_loop m addr total = (total - k)%nat.
Proof.
  revert addr total. induction k as [|k IH]; intros addr [|total] Hk Hm Hnz Hz; try lia; simpl.
  - rewrite Z.add_0_r in Hz. by rewrite Hz.
  - apply mapped_S in Hm as [[b Hb] Hm]. rewrite Hb. pose proof (Hnz 0%nat ltac:(lia)) as Hb0. rewrite Z.add_0_r, Hb in Hb0.
    destruct (Z.eqb_spec b 0); [congruence|]. rewrite IH; [done|lia|done| |].
    + intros i Hi. specialize (Hnz (S i) ltac:(lia)). by replace (addr + 1 + Z.of_nat i) with (addr + Z.of_nat (S i)) by lia.
    + by replace (addr + 1 + Z.of_nat k) with (addr + Z.of_nat (S k)) by lia.
Qed.

Lemma strlen_loop_long m addr total :
  mapped m addr total -> (forall i, (i < total)%nat -> m !! (addr + Z.of_nat i) <> Some 0) -> strlen_loop m addr total = O.
Proof.
  revert addr. induction total as [|n IH]; intros addr Hm Hnz; [done|]. simpl.
  apply mapped_S in Hm as [[b Hb] Hm]. rewrite Hb. pose proof (Hnz 0%nat ltac:(lia)) as Hb0. rewrite Z.add_0_r, Hb in Hb0.
  destruct (Z.eqb_spec b 0); [congruence|]. apply IH; [done|]. intros i Hi. specialize (Hnz (S i) ltac:(lia)).
  by replace (addr + 1 + Z.of_nat i) with (addr + Z.of_nat (S i)) by lia.
Qed.

(** A string argument whose terminator is among the first 4096 mapped bytes
    is accepted with exactly the length up to its first zero byte; one without
    a terminator there is [EFAULT]. *)
Theorem user_string_correct m ptr :
  0 < ptr -> ptr + Z.of_nat USER_STRING_MAX_LEN <= USER_MAX_ADDR ->
  (forall k, (k < USER_STRING_MAX_LEN)%nat -> mapped m ptr k ->
     (forall i, (i < k)%nat -> m !! (ptr + Z.of_nat i) <> Some 0) -> m !! (ptr + Z.of_nat k) = Some 0 ->
     user_string_new m ptr = Ret (mkUserPtr ptr USER_STRING_MAX_LEN, k)) /\
  (mapped m ptr USER_STRING_MAX_LEN ->
     (forall i, (i < USER_STRING_MAX_LEN)%nat -> m !! (ptr + Z.of_nat i) <> Some 0) ->
     user_string_new m ptr = Err EFAULT).
Proof.
  intros Hp Hl. unfold user_string_new. rewrite checked_new_ok by done. cbn [mbind outcome_bind]. cbn [up_ptr].
  set (N := USER_STRING_MAX_LEN) in *. clearbody N. split.
  - intros k Hk Hm Hnz Hz. rewrite (strlen_loop_ok m ptr k) by done. destruct (Nat.eqb_spec (N - k) 0); [lia|].
    do 2 f_equal. lia.
  - intros Hm Hnz. by rewrite strlen_loop_long.
Qed.

Lemma user_string_correct_witness :
  user_string_new (<[0x1002 := 0]> (<[0x1001 := 98]> (<[0x1000 := 97]> ∅))) 0x1000 =
    Ret (mkUserPtr 0x1000 USER_STRING_MAX_LEN, 2%nat).
Proof.
  destruct (user_string_correct (<[0x1002 := 0]> (<[0x1001 := 98]> (<[0x1000 := 97]> ∅))) 0x1000) as [H _].
  - lia.
  - vm_compute. discriminate.
  - apply H.
    + vm_compute. lia.
    + intros i Hi. assert (i = 0 \/ i = 1)%nat as [-> | ->] by lia; by eexists.
    + intros i Hi. assert (i = 0 \/ i = 1)%nat as [-> | ->] by lia; by vm_compute.
    + reflexivity.
Defined.

(** A string at an unmapped address is taken for the empty string, and one that
    runs into unmapped memory for the part before it, instead of [EFAULT]. *)
Theorem user_string_fault_accepted :
  user_string_new ∅ 0x1000 = Ret (mkUserPtr 0x1000 USER_STRING_MAX_LEN, 0%nat) /\
  user_string_new (<[0x1000 := 97]> ∅) 0x1000 = Ret (mkUserPtr 0x1000 USER_STRING_MAX_LEN, 1%nat).
Proof. by vm_compute. Qed.
