(* ===== verification/UserIo.v ===== *)
(** * Buffers and streams over user memory

    [UserBuffer] and [UserStream] of src/kernel/user/dataflow.rs as instances of
    the traits [Buffer] and [Stream], and the [IovStream] of
    src/kernel/syscall/file_rw.rs, which reads the pieces of a vector one after
    the other.  A buffer carries the user memory it writes to, a stream the one
    it reads; their laws hold where that memory is mapped. *)

From S2P Require Import Prelude Io UserMem.

(** ** [UserBuffer] *)

(** The indices of the type do not matter to the code: they are the memory, the
    address and the size the buffer was made with, for the laws to speak of. *)
Record UBuf (m0 : UMem) (base : Z) (size : nat) := mkUBuf { ubf_mem : UMem; ubf_buf : UserBuffer }.
Arguments mkUBuf {m0 base size}.
Arguments ubf_mem {m0 base size}.
Arguments ubf_buf {m0 base size}.

Section UBuf.
Context {m0 : UMem} {base : Z} {size : nat}.

Definition ubf_fill (b : UBuf m0 base size) (data : list Z) : outcome (FillResult * UBuf m0 base size) :=
  match ub_fill (ubf_mem b) (ubf_buf b) data with
  | (m, Ret (r, ub)) => Ret (r, mkUBuf m ub)
  | (_, Err e) => Err e
  | (_, Panic) => Panic
  end.

#[export] Instance UBuf_Buffer : Buffer (UBuf m0 base size) := {
  buf_total b := ub_size (ubf_buf b);
  buf_wrote b := ub_cur (ubf_buf b);
  buf_fill := ubf_fill
}.

(** The buffer has written from [base] on, and only there. *)
Record ubf_ok (b : UBuf m0 base size) : Prop := {
  ubf_inside : ub_ok (ubf_mem b) base (ubf_buf b);
  ubf_size : ub_size (ubf_buf b) = size;
  ubf_frame a : ~ base <= a < base + Z.of_nat (ub_cur (ubf_buf b)) -> ubf_mem b !! a = m0 !! a;
}.

#[export, refine] Instance UBuf_laws : BufferLaws (UBuf m0 base size) := {
  buf_data b := bytes_at (ubf_mem b) base (ub_cur (ubf_buf b));
  buf_ok := ubf_ok
}.
Proof.
  - intros b _. simpl. by rewrite length_bytes_at.
  - intros b [(Hc & _) _ _]. simpl. lia.
  - intros [m b] d [Hok Hsz Hfr]. simpl in Hok, Hsz, Hfr. destruct (decide (d = [])) as [->|Hne].
    + exists FFull, (mkUBuf m b). split; [done|]. split; [by split|]. split; [done|].
      rewrite take_nil, app_nil_r. split; [done|]. split; [simpl; lia|done].
    + destruct (ub_fill_ok m _ b d Hok Hne) as (m' & r & b' & Hf & Hok' & Hs & Hc & Ha & Hst & Hb & Hout).
      exists r, (mkUBuf m' b'). cbn [buf_fill buf_total UBuf_Buffer ubf_mem ubf_buf]. unfold ubf_fill. cbn [ubf_mem ubf_buf]. rewrite Hf.
      assert (available (mkUBuf m b : UBuf m0 base size) = ub_remaining b) as Hav by done. rewrite Hav.
      split; [done|]. split; [split; cbn [ubf_mem ubf_buf]; [done|congruence|]|].
      { intros a Hna. rewrite Hout by lia. apply Hfr. lia. }
      split; [done|]. split; [exact Hb|]. split; [lia|].
      intros _. rewrite Hst. split; [|tauto]. intros Hl. split; [|done]. destruct d; [done|]. simpl in Hl. lia.
Defined.
End UBuf.

(** A new buffer at a mapped address. *)
Lemma ubf_new_ok m p :
  ptr_ok m p -> ubf_ok (mkUBuf m (mkUserBuffer p (up_len p) 0) : UBuf m (up_ptr p) (up_len p)).
Proof.
  intros Hp. split; cbn [ubf_mem ubf_buf ub_size ub_cur ub_ptr]; [|done|done].
  split; [simpl; lia|]. split; [simpl; lia|]. split; [simpl; lia|exact Hp].
Qed.

(** ** [UserStream] *)

Record UStream := mkUStream { ust_mem : UMem; ust_ptr : CheckedUserPointer }.

Definition ust_poll (s : UStream) (buflen : nat) : outcome (option (list Z) * UStream) :=
  '(d, p) ← us_poll_data (ust_mem s) (ust_ptr s) buflen;
  Ret (d, mkUStream (ust_mem s) p).

Definition ust_ignore (s : UStream) (len : Z) : outcome (option nat * UStream) :=
  '(n, p) ← us_ignore (ust_ptr s) (Z.to_nat len);
  Ret (n, mkUStream (ust_mem s) p).

#[export] Instance UStream_Stream : Stream UStream := {
  st_total s := up_len (ust_ptr s);
  poll_data := ust_poll;
  st_ignore := ust_ignore
}.

(** The bytes a pointer stands for. *)
Definition ptr_bytes (m : UMem) (p : CheckedUserPointer) : list Z := bytes_at m (up_ptr p) (up_len p).

Lemma take_bytes_at m a n k : (k <= n)%nat -> take k (bytes_at m a n) = bytes_at m a k.
Proof.
  intros Hk. replace n with (k + (n - k))%nat by lia. rewrite bytes_at_app.
  rewrite take_app_length'; [done|by rewrite length_bytes_at].
Qed.

Lemma drop_bytes_at m a n k : (k <= n)%nat -> drop k (bytes_at m a n) = bytes_at m (a + Z.of_nat k) (n - k).
Proof.
  intros Hk. replace n with (k + (n - k))%nat at 1 by lia. rewrite bytes_at_app.
  rewrite drop_app_length'; [done|by rewrite length_bytes_at].
Qed.

Lemma mapped_drop m a n k : (k <= n)%nat -> mapped m a n -> mapped m (a + Z.of_nat k) (n - k).
Proof.
  intros Hk Hm i Hi. replace (a + Z.of_nat k + Z.of_nat i) with (a + Z.of_nat (k + i)) by lia. apply Hm. lia.
Qed.

(** One poll of a stream that is not empty. *)
Lemma us_poll_ok m p n :
  ptr_ok m p -> (0 < n)%nat -> (0 < up_len p)%nat ->
  exists p', us_poll_data m p n = Ret (Some (take n (ptr_bytes m p)), p')
    /\ ptr_ok m p' /\ ptr_bytes m p' = drop n (ptr_bytes m p)
    /\ up_len p' = (up_len p - n)%nat.
Proof.
  intros Hp Hn Hl. unfold us_poll_data. destruct (Nat.eqb_spec (up_len p) 0); [lia|].
  set (k := Nat.min n (up_len p)). rewrite up_read_ok by (done || unfold k; lia). cbn [mbind outcome_bind].
  unfold up_forward. destruct (Nat.leb_spec k (up_len p)) as [Hk|]; [|unfold k in *; lia].
  cbn [assert_ mbind outcome_bind]. exists (mkUserPtr (up_ptr p + Z.of_nat k) (up_len p - k)).
  unfold ptr_bytes. cbn [up_ptr up_len].
  assert (take n (bytes_at m (up_ptr p) (up_len p)) = bytes_at m (up_ptr p) k) as ->.
  { unfold k. destruct (Nat.min_spec n (up_len p)) as [[? ->]|[? ->]].
    - apply take_bytes_at. lia.
    - rewrite take_ge; [done|]. rewrite length_bytes_at. lia. }
  split; [done|]. split; [by apply mapped_drop|]. split; [|unfold k; lia].
  unfold k. destruct (Nat.min_spec n (up_len p)) as [[? ->]|[? ->]].
  - rewrite drop_bytes_at by lia. done.
  - rewrite (drop_ge (bytes_at _ _ _) n) by (rewrite length_bytes_at; lia). by rewrite Nat.sub_diag.
Qed.

#[export, refine] Instance UStream_laws : StreamLaws UStream := {
  st_rest s := ptr_bytes (ust_mem s) (ust_ptr s);
  st_ok s := ptr_ok (ust_mem s) (ust_ptr s)
}.
Proof.
  intros [m p] n Hok Hn. simpl in *. unfold ust_poll. simpl. destruct (decide (up_len p = 0%nat)) as [Hz|Hz].
  - exists (mkUStream m p). unfold us_poll_data. rewrite Hz.
    assert (ptr_bytes m p = []) as Hb by (unfold ptr_bytes; by rewrite Hz).
    cbn [Nat.eqb mbind outcome_bind ust_mem ust_ptr]. rewrite Hb. split; [done|]. split; [done|]. by rewrite drop_nil.
  - destruct (us_poll_ok m p n Hok Hn ltac:(lia)) as (p' & -> & Hok' & Hr & _). exists (mkUStream m p').
    cbn [mbind outcome_bind]. split; [|done].
    destruct (ptr_bytes m p) as [|x l] eqn:E; [|done].
    apply (f_equal length) in E. unfold ptr_bytes in E. rewrite length_bytes_at in E. simpl in E. lia.
Defined.

(** ** [IovStream] *)

Record IovStream := mkIov { iov_mem : UMem; iov_streams : list CheckedUserPointer; iov_current : nat; iov_total : nat }.

Definition iov_stream_new (m : UMem) (streams : list CheckedUserPointer) : IovStream :=
  mkIov m streams 0 (sum_list (up_len <$> streams)).

(** [while self.current < self.streams.len() && self.streams[self.current].is_drained()]. *)
Fixpoint skip_drained (streams : list CheckedUserPointer) (current : nat) : nat :=
  match streams with
  | p :: streams => if (up_len p =? 0)%nat then skip_drained streams (S current) else current
  | [] => current
  end.

(** [if self.streams[self.current].is_drained() { self.current += 1; }]. *)
Definition step_over (p : CheckedUserPointer) (current : nat) : nat :=
  if (up_len p =? 0)%nat then S current else current.

(** The loop of [poll_data]: [buf] is what has been filled. *)
Fixpoint iov_fill (fuel : nat) (m : UMem) (streams : list CheckedUserPointer) (current buflen : nat) (buf : list Z) :
    option (outcome (list Z * list CheckedUserPointer * nat)) :=
  match fuel with
  | O => None
  | S fuel =>
      if (buflen <=? length buf)%nat then Some (Ret (buf, streams, current))
      else
        let current := (skip_drained (drop current streams) current) in
        match streams !! current with
        | None => Some (Ret (buf, streams, current))
        | Some p =>
            match us_poll_data m p (buflen - length buf) with
            | Ret (None, p) => Some (Ret (buf, <[current := p]> streams, current))
            | Ret (Some data, p) =>
                let streams := <[current := p]> streams in
                if (length data =? 0)%nat then Some (Ret (buf, streams, current))
                else iov_fill fuel m streams (step_over p current) buflen (buf ++ data)
            | Err e => Some (Err e)
            | Panic => Some Panic
            end
        end
  end.

(** Every round that does not end the loop fills at least one byte. *)
Definition iov_poll_data (s : IovStream) (buflen : nat) : outcome (option (list Z) * IovStream) :=
  match iov_fill (S buflen) (iov_mem s) (iov_streams s) (iov_current s) buflen [] with
  | Some r =>
      '(buf, streams, current) ← r;
      let s := mkIov (iov_mem s) streams current (iov_total s) in
      Ret (if (length buf =? 0)%nat then None else Some buf, s)
  | None => Panic
  end.

Fixpoint iov_skip (fuel : nat) (streams : list CheckedUserPointer) (current len ignored : nat) :
    option (outcome (nat * list CheckedUserPointer * nat)) :=
  match fuel with
  | O => None
  | S fuel =>
      if (len <=? ignored)%nat then Some (Ret (ignored, streams, current))
      else
        let current := (skip_drained (drop current streams) current) in
        match streams !! current with
        | None => Some (Ret (ignored, streams, current))
        | Some p =>
            match us_ignore p (len - ignored) with
            | Ret (None, p) => Some (Ret (ignored, <[current := p]> streams, current))
            | Ret (Some n, p) =>
                let streams := <[current := p]> streams in
                if (n =? 0)%nat then Some (Ret (ignored, streams, current))
                else iov_skip fuel streams (step_over p current) len (ignored + n)
            | Err e => Some (Err e)
            | Panic => Some Panic
            end
        end
  end.

Definition iov_ignore (s : IovStream) (len : Z) : outcome (option nat * IovStream) :=
  match iov_skip (S (sum_list (up_len <$> iov_streams s))) (iov_streams s) (iov_current s) (Z.to_nat len) 0 with
  | Some r =>
      '(ignored, streams, current) ← r;
      Ret (if (ignored =? 0)%nat then None else Some ignored, mkIov (iov_mem s) streams current (iov_total s))
  | None => Panic
  end.

#[export] Instance IovStream_Stream : Stream IovStream := {
  st_total := iov_total;
  poll_data := iov_poll_data;
  st_ignore := iov_ignore
}.

(** The bytes left: those of the current piece and of the pieces behind it. *)
Definition iov_rest (m : UMem) (streams : list CheckedUserPointer) (current : nat) : list Z :=
  concat (ptr_bytes m <$> drop current streams).

Lemma ptr_bytes_nil m p : up_len p = 0%nat -> ptr_bytes m p = [].
Proof. intros H. unfold ptr_bytes. by rewrite H. Qed.

Lemma length_ptr_bytes m p : length (ptr_bytes m p) = up_len p.
Proof. apply length_bytes_at. Qed.

(** Skipping drained pieces does not skip any bytes. *)
Lemma skip_drained_ok m streams current :
  let c := skip_drained (drop current streams) current in
  iov_rest m streams c = iov_rest m streams current
  /\ match streams !! c with Some p => up_len p <> 0%nat | None => iov_rest m streams c = [] end.
Proof.
  remember (drop current streams) as l eqn:El. revert current El.
  induction l as [|p l IH]; intros current El; simpl.
  - split; [done|]. rewrite lookup_ge_None_2; [|apply (f_equal length) in El; rewrite length_drop in El; simpl in El; lia].
    unfold iov_rest. by rewrite <- El.
  - assert (streams !! current = Some p) as Hc.
    { rewrite <- (Nat.add_0_r current), <- lookup_drop, <- El. done. }
    assert (drop (S current) streams = l) as Hd.
    { rewrite <- Nat.add_1_r, <- drop_drop, <- El. done. }
    destruct (Nat.eqb_spec (up_len p) 0) as [Hz|Hz].
    + destruct (IH (S current) (eq_sym Hd)) as [H1 H2]. split; [|exact H2]. rewrite H1.
      unfold iov_rest. rewrite Hd, <- El. csimpl. by rewrite ptr_bytes_nil.
    + split; [done|]. by rewrite Hc.
Qed.

Lemma iov_rest_cons m streams c p :
  streams !! c = Some p -> iov_rest m streams c = ptr_bytes m p ++ iov_rest m streams (S c).
Proof. intros Hc. unfold iov_rest. by rewrite (drop_S _ _ _ Hc). Qed.

Lemma iov_rest_insert m streams c p p' :
  streams !! c = Some p ->
  iov_rest m (<[c := p']> streams) (step_over p' c) = ptr_bytes m p' ++ iov_rest m streams (S c).
Proof.
  intros Hc. assert (<[c := p']> streams !! c = Some p') as Hc'
    by (apply list_lookup_insert_eq; by eapply lookup_lt_Some).
  assert (iov_rest m (<[c := p']> streams) (S c) = iov_rest m streams (S c)) as E
    by (unfold iov_rest; by rewrite drop_insert_lt by lia).
  unfold step_over. destruct (Nat.eqb_spec (up_len p') 0) as [Hz|Hz].
  - rewrite E, ptr_bytes_nil; done.
  - by rewrite (iov_rest_cons _ _ _ p' Hc'), E.
Qed.

(** Filling across the pieces is filling from their concatenation. *)
Lemma take_across (l R : list Z) n :
  take n l ++ take (n - length (take n l)) (drop n l ++ R) = take n (l ++ R)
  /\ drop (n - length (take n l)) (drop n l ++ R) = drop n (l ++ R).
Proof.
  rewrite length_take. destruct (decide (n <= length l)%nat) as [Hn|Hn].
  - replace (n - Nat.min n (length l))%nat with 0%nat by lia.
    rewrite take_0, app_nil_r, drop_0, take_app_le, drop_app_le by done. done.
  - rewrite Nat.min_r by lia. rewrite (take_ge l n), (drop_ge l n) by lia. simpl.
    rewrite take_app_ge, drop_app_ge by lia. done.
Qed.

Lemma iov_fill_ok fuel m streams current buflen buf :
  Forall (ptr_ok m) streams -> (buflen - length buf < fuel)%nat ->
  exists streams' current',
    iov_fill fuel m streams current buflen buf
    = Some (Ret (buf ++ take (buflen - length buf) (iov_rest m streams current), streams', current'))
    /\ Forall (ptr_ok m) streams'
    /\ iov_rest m streams' current' = drop (buflen - length buf) (iov_rest m streams current).
Proof.
  revert streams current buf. induction fuel as [|fuel IH]; intros streams current buf Hok Hf; [lia|].
  cbn [iov_fill]. destruct (Nat.leb_spec buflen (length buf)) as [Hle|Hlt].
  { exists streams, current. replace (buflen - length buf)%nat with 0%nat by lia.
    by rewrite take_0, app_nil_r, drop_0. }
  destruct (skip_drained_ok m streams current) as [Hskip Hat].
  set (c := skip_drained (drop current streams) current) in *.
  destruct (streams !! c) as [p|] eqn:Hc.
  2:{ exists streams, c. rewrite <- Hskip, Hat, take_nil, app_nil_r, drop_nil. done. }
  set (n := (buflen - length buf)%nat) in *.
  assert (ptr_ok m p) as Hp by (by eapply Forall_lookup_1).
  destruct (us_poll_ok m p n Hp ltac:(lia) ltac:(lia)) as (p' & -> & Hp' & Hr & _).
  assert (length (take n (ptr_bytes m p)) = Nat.min n (up_len p)) as Hlen by (by rewrite length_take, length_ptr_bytes).
  destruct (Nat.eqb_spec (length (take n (ptr_bytes m p))) 0); [lia|].
  destruct (take_across (ptr_bytes m p) (iov_rest m streams (S c)) n) as [Ht Hd].
  destruct (IH (<[c := p']> streams) (step_over p' c) (buf ++ take n (ptr_bytes m p))) as (ss & cc & E & Hok' & Hrest).
  { by apply Forall_insert. }
  { rewrite length_app. lia. }
  exists ss, cc. rewrite E. rewrite (iov_rest_insert m streams c p p' Hc), Hr in *.
  rewrite length_app in *. replace (buflen - (length buf + length (take n (ptr_bytes m p))))%nat
    with (n - length (take n (ptr_bytes m p)))%nat in * by lia.
  rewrite <- app_assoc, Ht in *. rewrite Hd in Hrest. rewrite <- Hskip, (iov_rest_cons m streams c p Hc). done.
Qed.

#[export, refine] Instance IovStream_laws : StreamLaws IovStream := {
  st_rest s := iov_rest (iov_mem s) (iov_streams s) (iov_current s);
  st_ok s := Forall (ptr_ok (iov_mem s)) (iov_streams s)
}.
Proof.
  intros [m streams current total] n Hok Hn. cbn [iov_mem iov_streams iov_current] in *.
  destruct (iov_fill_ok (S n) m streams current n [] Hok ltac:(simpl; lia)) as (ss & cc & E & Hok' & Hr).
  exists (mkIov m ss cc total). cbn [poll_data IovStream_Stream iov_mem iov_streams iov_current].
  unfold iov_poll_data. cbn [iov_mem iov_streams iov_current iov_total]. rewrite E.
  cbn [mbind outcome_bind length app Nat.sub] in *. rewrite Nat.sub_0_r in *. split; [|done].
  destruct (iov_rest m streams current) as [|x l]; [by rewrite take_nil|].
  destruct n; [lia|]. done.
Defined.

(** The stream of a vector gives the bytes of its pieces, one after the other. *)
Lemma iov_stream_new_rest m streams :
  st_rest (iov_stream_new m streams) = concat (ptr_bytes m <$> streams).
Proof. done. Qed.
