(* ===== verification/Futex.v ===== *)
(** * Futexes

    Models src/kernel/task/futex.rs and the [futex] system call of
    src/kernel/syscall/procops.rs, on the tree interface of RBTree.v, the wait
    lists of WaitList.v and the user memory of UserMem.v.

    A [FutexItem] is shared through [Arc]s and never leaves its bucket, so its
    wait list lives in a store that is indexed by the order of creation; the
    trees of the buckets hold the keys and those indices.  The code between the
    acquisition and the release of a bucket's mutex is one step.  A waiter is
    named by its wait handle. *)

From S2P Require Import Prelude RBTree WaitList Io UserMem.

(** ** Operation codes *)

Inductive FutexOp :=
| FUTEX_WAIT | FUTEX_WAKE | FUTEX_FD | FUTEX_REQUEUE | FUTEX_CMP_REQUEUE | FUTEX_WAKE_OP
| FUTEX_LOCK_PI | FUTEX_UNLOCK_PI | FUTEX_TRYLOCK_PI | FUTEX_WAIT_BITSET | FUTEX_WAKE_BITSET.

Definition futexop_try_from (value : Z) : outcome FutexOp :=
  match value with
  | 0 => Ret FUTEX_WAIT
  | 1 => Ret FUTEX_WAKE
  | 2 => Ret FUTEX_FD
  | 3 => Ret FUTEX_REQUEUE
  | 4 => Ret FUTEX_CMP_REQUEUE
  | 5 => Ret FUTEX_WAKE_OP
  | 6 => Ret FUTEX_LOCK_PI
  | 7 => Ret FUTEX_UNLOCK_PI
  | 8 => Ret FUTEX_TRYLOCK_PI
  | 9 => Ret FUTEX_WAIT_BITSET
  | 10 => Ret FUTEX_WAKE_BITSET
  | _ => Err EINVAL
  end.

Definition FUTEX_PRIVATE : Z := 128.
Definition FUTEX_CLOCK_REALTIME : Z := 256.
Definition FUTEX_OP_MASK : Z := 0x0000000F.
Definition FUTEX_FLAGS_MASK : Z := 0xFFFFFFF0.

(** [FutexFlags::from_bits]. *)
Definition futexflags_from_bits (bits : Z) : option Z :=
  if Z.ldiff bits (Z.lor FUTEX_PRIVATE FUTEX_CLOCK_REALTIME) =? 0 then Some bits else None.

Definition parse_futexop (bits : Z) : outcome (FutexOp * Z) :=
  op ← futexop_try_from (Z.land bits FUTEX_OP_MASK);
  flags ← ok_or (futexflags_from_bits (Z.land bits FUTEX_FLAGS_MASK)) EINVAL;
  Ret (op, flags).

(** ** Keys *)

Record FutexKey := mkFutexKey { fk_addr : Z; fk_pid : option Z }.

#[export] Instance FutexKey_eq_dec : EqDecision FutexKey.
Proof. solve_decision. Defined.

Definition futex_hash (k : FutexKey) : Z := wrap64 (Z.shiftr (fk_addr k) 2 + default 0 (fk_pid k)).

(** The derived [Ord]: by address, then [None] before [Some], then by pid. *)
Definition futex_key_rank (k : FutexKey) : Z :=
  fk_addr k * 2 ^ 33 + match fk_pid k with None => 0 | Some p => p + 1 end.

Record FutexItem := mkFutexItem { fi_key : FutexKey; fi_list : nat }.

#[export] Instance FutexItem_keyed : Keyed FutexItem := fun i => futex_key_rank (fi_key i).

Definition FUTEX_BUCKETS_NUM : Z := 100.

(** ** The table *)

Section futex.
Context {T : Type} `{RBTree FutexItem T}.

Record FutexTable := mkFutexTable { futex_buckets : list T; ft_lists : list WL }.

Definition futex_table_new : FutexTable :=
  mkFutexTable (replicate (Z.to_nat FUTEX_BUCKETS_NUM) (rb_new (V:=FutexItem))) [].

Definition get_bucket (tb : FutexTable) (k : FutexKey) : outcome (nat * T) :=
  let idx := Z.to_nat (futex_hash k mod Z.of_nat (length (futex_buckets tb))) in
  b ← expect (futex_buckets tb !! idx);
  Ret (idx, b).

Definition futex_find (b : T) (k : FutexKey) : option FutexItem := rb_find (futex_key_rank k) b.

(** The item, the bucket and the store of the wait lists. *)
Definition find_or_insert (b : T) (lists : list WL) (k : FutexKey) : FutexItem * T * list WL :=
  match futex_find b k with
  | Some item => (item, b, lists)
  | None =>
      let item := mkFutexItem k (length lists) in
      (item, rb_insert item b, lists ++ [wl_new])
  end.

(** [User::<u32>] read. *)
Definition read_u32 (m : UMem) (addr : Z) : outcome Z :=
  bs ← user_pointer_read m addr 4;
  Ret (little_endian_to_Z 8 bs).

(** The part of [futex_wait] that holds the bucket ... *)
Definition futex_wait_lookup (m : UMem) (uaddr : Z) (pid : option Z) (expected_val : Z) (tb : FutexTable)
    : outcome (nat * FutexTable) :=
  let key := mkFutexKey uaddr pid in
  '(idx, b) ← get_bucket tb key;
  val ← read_u32 m uaddr;
  if negb (val =? expected_val) then Err EAGAIN
  else let '(item, b, lists) := find_or_insert b (ft_lists tb) key in
       Ret (fi_list item, mkFutexTable (<[idx := b]> (futex_buckets tb)) lists).

(** ... and the part after it: handle [h] enters the wait list. *)
Definition futex_wait_enter (h : nat) (item : nat) (tb : FutexTable) : outcome FutexTable :=
  l ← expect (ft_lists tb !! item);
  '(l, _) ← add_to_list l h None;
  Ret (mkFutexTable (futex_buckets tb) (<[item := l]> (ft_lists tb))).

(** Both, with nobody in between. *)
Definition futex_wait (m : UMem) (h : nat) (uaddr : Z) (pid : option Z) (expected_val : Z) (tb : FutexTable)
    : outcome FutexTable :=
  '(item, tb) ← futex_wait_lookup m uaddr pid expected_val tb;
  futex_wait_enter h item tb.

(** The loop of [futex_wake]; every round but the last one takes a waiter off
    the list, so that the number of waiters plus one rounds are enough. *)
Fixpoint futex_wake_loop (fuel : nat) (l : WL) (max_wake_count count : Z) : Z * list nat * WL :=
  match fuel with
  | O => (count, [], l)
  | S n =>
      let '(not_empty, ws, l) := wl_notify_one l in
      if negb not_empty || (count =? max_wake_count) then (count, ws, l)
      else let '(count, ws', l) := futex_wake_loop n l max_wake_count (wrap32 (count + 1)) in
           (count, ws ++ ws', l)
  end.

(** The number returned, the tasks woken up and the table. *)
Definition futex_wake (uaddr : Z) (pid : option Z) (max_wake_count : Z) (tb : FutexTable)
    : outcome (Z * list nat * FutexTable) :=
  let key := mkFutexKey uaddr pid in
  '(idx, b) ← get_bucket tb key;
  match futex_find b key with
  | Some item =>
      l ← expect (ft_lists tb !! fi_list item);
      let '(count, ws, l) := futex_wake_loop (S (length (wl_waiters l))) l max_wake_count 0 in
      Ret (count, ws, mkFutexTable (futex_buckets tb) (<[fi_list item := l]> (ft_lists tb)))
  | None => Ret (0, [], tb)
  end.

(** The loop over the items of a bucket in [futex_wake_process]; the inner loop
    is [notify_one] until it finds nobody. *)
Fixpoint wake_items (items : list FutexItem) (pid : Z) (lists : list WL) (total : Z) : outcome (Z * list nat * list WL) :=
  match items with
  | [] => Ret (total, [], lists)
  | item :: items =>
      if negb (bool_decide (fk_pid (fi_key item) = Some pid)) then wake_items items pid lists total
      else
        l ← expect (lists !! fi_list item);
        let '(n, ws, l) := notify_all_loop (length (wl_waiters l)) l in
        '(total, ws', lists) ← wake_items items pid (<[fi_list item := l]> lists) (wrap64 (total + Z.of_nat n));
        Ret (total, ws ++ ws', lists)
  end.

Fixpoint wake_buckets (buckets : list T) (pid : Z) (lists : list WL) (total : Z) : outcome (Z * list nat * list WL) :=
  match buckets with
  | [] => Ret (total, [], lists)
  | b :: buckets =>
      '(total, ws, lists) ← wake_items (rb_iter b) pid lists total;
      '(total, ws', lists) ← wake_buckets buckets pid lists total;
      Ret (total, ws ++ ws', lists)
  end.

Definition futex_wake_process (pid : Z) (tb : FutexTable) : outcome (Z * list nat * FutexTable) :=
  '(total, ws, lists) ← wake_buckets (futex_buckets tb) pid (ft_lists tb) 0;
  Ret (total, ws, mkFutexTable (futex_buckets tb) lists).

(** The order in which [double_lock_bucket] locks the two buckets. *)
Definition double_lock_bucket (tb : FutexTable) (key0 key1 : FutexKey) : outcome (list nat) :=
  '(idx0, _) ← get_bucket tb key0;
  '(idx1, _) ← get_bucket tb key1;
  Ret (if (idx0 <? idx1)%nat then [idx0; idx1] else [idx1; idx0]).

(** [futex_requeue] ends in [todo!()] unless the keys share a bucket. *)
Definition futex_requeue (uaddr : Z) (pid : option Z) (wake_count requeue_uaddr : Z) (tb : FutexTable)
    : outcome (Z * list nat * FutexTable) :=
  '(idx0, _) ← get_bucket tb (mkFutexKey uaddr pid);
  '(idx1, _) ← get_bucket tb (mkFutexKey requeue_uaddr pid);
  if (idx0 =? idx1)%nat then futex_wake uaddr pid wake_count tb
  else _ ← double_lock_bucket tb (mkFutexKey uaddr pid) (mkFutexKey requeue_uaddr pid); Panic.

(** ** The robust list *)

Record RobustListHead := mkRobustListHead { rl_next : Z; rl_futex_offset : Z; rl_list_op_pending : Z }.

(** [get_robust_list] of src/kernel/task/thread.rs. *)
Definition get_robust_list (m : UMem) (address : option Z) : option RobustListHead :=
  addr ← address;
  match user_pointer_read m addr 24 with
  | Ret bs => Some (mkRobustListHead (little_endian_to_Z 8 (take 8 bs))
                      (let o := little_endian_to_Z 8 (take 8 (drop 8 bs)) in if o <? 2 ^ 63 then o else o - 2 ^ 64)
                      (little_endian_to_Z 8 (drop 16 bs)))
  | _ => None
  end.

Definition futex_addr (r : RobustListHead) (entry_ptr : Z) : Z := wrap64 (rl_futex_offset r + entry_ptr).

(** [usize::MAX as u32]. *)
Definition WAKE_EVERYBODY : Z := wrap32 usize_max.

(** The loop of [wake_all], which stops early when the list cannot be read.
    [None] is a loop that is still running after [fuel] entries. *)
Fixpoint wake_all_loop (fuel : nat) (m : UMem) (r : RobustListHead) (entry_ptr : Z) (tb : FutexTable)
    : option (outcome unit * list nat * FutexTable) :=
  match fuel with
  | O => None
  | S n =>
      match futex_wake (futex_addr r entry_ptr) None WAKE_EVERYBODY tb with
      | Ret (_, ws, tb) =>
          match user_pointer_read m entry_ptr 8 with
          | Ret bs =>
              let entry_ptr := little_endian_to_Z 8 bs in
              if (entry_ptr =? rl_next r) || (entry_ptr =? 0) then Some (Ret tt, ws, tb)
              else match wake_all_loop n m r entry_ptr tb with
                   | Some (o, ws', tb) => Some (o, ws ++ ws', tb)
                   | None => None
                   end
          | Err e => Some (Err e, ws, tb)
          | Panic => Some (Panic, ws, tb)
          end
      | Err e => Some (Err e, [], tb)
      | Panic => Some (Panic, [], tb)
      end
  end.

Definition robust_wake_all (fuel : nat) (m : UMem) (r : RobustListHead) (tb : FutexTable)
    : option (outcome unit * list nat * FutexTable) :=
  if rl_next r =? 0 then Some (Ret tt, [], tb)
  else
    match wake_all_loop fuel m r (rl_next r) tb with
    | Some (Ret _, ws, tb) =>
        if rl_list_op_pending r =? 0 then Some (Ret tt, ws, tb)
        else match futex_wake (futex_addr r (rl_list_op_pending r)) None WAKE_EVERYBODY tb with
             | Ret (_, ws', tb) => Some (Ret tt, ws ++ ws', tb)
             | Err e => Some (Err e, ws, tb)
             | Panic => Some (Panic, ws, tb)
             end
    | other => other
    end.

(** ** The system call

    It returns a number, having woken tasks up, or it has put the caller's wait
    handle on a list. *)
Inductive FutexRet := FxReturn (n : Z) (woken : list nat) | FxBlocked.

Definition sys_futex (m : UMem) (h : nat) (this_pid thread_count uaddr op val : Z) (tb : FutexTable)
    : outcome (FutexRet * UMem * FutexTable) :=
  '(futex_op, futex_flag) ← parse_futexop op;
  let pid := if bf_contains futex_flag FUTEX_PRIVATE then Some this_pid else None in
  let wait := tb ← futex_wait m h uaddr pid val tb; Ret (FxBlocked, m, tb) in
  let wake := '(n, ws, tb) ← futex_wake uaddr pid val tb; Ret (FxReturn n ws, m, tb) in
  match futex_op with
  | FUTEX_WAIT | FUTEX_WAIT_BITSET =>
      if bf_contains futex_flag FUTEX_PRIVATE && (val =? 2) && (thread_count <=? 1) then
        v ← read_u32 m uaddr;
        if v =? val then
          match user_pointer_write m uaddr (Z_to_little_endian 4 8 0) with
          | (m, Ret _) => Ret (FxReturn 0 [], m, tb)
          | (_, Err e) => Err e
          | (_, Panic) => Panic
          end
        else wait
      else wait
  | FUTEX_WAKE | FUTEX_WAKE_BITSET => wake
  | _ => Panic
  end.
End futex.
Arguments FutexTable T : clear implicits.

(** ** The invariant of the table *)

Definition futex_key_ok (k : FutexKey) : Prop :=
  is_u64 (fk_addr k) /\ match fk_pid k with Some p => is_u32 p | None => True end.

Lemma futex_key_rank_inj k k' : futex_key_ok k -> futex_key_ok k' -> futex_key_rank k = futex_key_rank k' -> k = k'.
Proof.
  destruct k as [a p], k' as [a' p']. unfold futex_key_ok, futex_key_rank, is_u64, is_u32. simpl.
  intros [Ha Hp] [Ha' Hp'] E. destruct p as [p|], p' as [p'|].
  - assert (a = a' /\ p = p') as [-> ->] by lia. done.
  - assert (a = a') by lia. lia.
  - assert (a = a') by lia. lia.
  - assert (a = a') as -> by lia. done.
Qed.

Definition futex_index (k : FutexKey) : nat := Z.to_nat (futex_hash k mod FUTEX_BUCKETS_NUM).

Lemma futex_index_lt k : (futex_index k < 100)%nat.
Proof. unfold futex_index, FUTEX_BUCKETS_NUM. pose proof (Z.mod_pos_bound (futex_hash k) 100). lia. Qed.

Section theory.
Context {T : Type} `{RBTree FutexItem T, !RBTreeLaws FutexItem T}.
Implicit Types (tb : FutexTable T) (k : FutexKey) (l : WL).

Record futex_ok tb : Prop := {
  fo_length : length (futex_buckets tb) = 100%nat;
  fo_sorted i b : futex_buckets tb !! i = Some b -> SortedBy (rb_iter b);
  fo_item i b it : futex_buckets tb !! i = Some b -> it ∈ rb_iter b ->
    futex_key_ok (fi_key it) /\ futex_index (fi_key it) = i /\ (fi_list it < length (ft_lists tb))%nat;
  fo_unique i b it i' b' it' : futex_buckets tb !! i = Some b -> it ∈ rb_iter b ->
    futex_buckets tb !! i' = Some b' -> it' ∈ rb_iter b' -> fi_list it = fi_list it' -> it = it';
  fo_nodup l : l ∈ ft_lists tb -> NoDup (wl_waiters l)
}.

Lemma futex_table_new_ok : futex_ok futex_table_new.
Proof.
  assert (forall i b, futex_buckets (T:=T) futex_table_new !! i = Some b -> rb_iter b = []) as Hb.
  { intros i b [-> _]%lookup_replicate. apply rb_iter_new. }
  constructor.
  - done.
  - intros i b Hi. rewrite (Hb i b Hi). constructor.
  - intros i b it Hi Hit. rewrite (Hb i b Hi) in Hit. by apply elem_of_nil in Hit.
  - intros i b it ? ? ? Hi Hit. rewrite (Hb i b Hi) in Hit. by apply elem_of_nil in Hit.
  - intros l Hl. by apply elem_of_nil in Hl.
Qed.

Lemma get_bucket_ok tb k :
  futex_ok tb -> exists b, futex_buckets tb !! futex_index k = Some b /\ get_bucket tb k = Ret (futex_index k, b).
Proof.
  intros Hok. destruct (lookup_lt_is_Some_2 (futex_buckets tb) (futex_index k)) as [b Hb].
  { rewrite (fo_length tb Hok). apply futex_index_lt. }
  exists b. split; [done|]. unfold get_bucket. rewrite (fo_length tb Hok).
  change (Z.of_nat 100) with FUTEX_BUCKETS_NUM. fold (futex_index k). by rewrite Hb.
Qed.

(** The item of a key, and its wait list. *)
Definition futex_item tb k : option FutexItem := b ← futex_buckets tb !! futex_index k; futex_find b k.
Definition futex_list tb k : WL := default wl_new (it ← futex_item tb k; ft_lists tb !! fi_list it).
Definition futex_waiters tb k : list nat := wl_waiters (futex_list tb k).

Lemma futex_item_Some tb k it :
  futex_ok tb -> futex_key_ok k ->
  futex_item tb k = Some it <-> fi_key it = k /\ exists i b, futex_buckets tb !! i = Some b /\ it ∈ rb_iter b.
Proof.
  intros Hok Hk. unfold futex_item, futex_find. split.
  - destruct (futex_buckets tb !! futex_index k) as [b|] eqn:Eb; [|done]. simpl.
    intros [Hit Hkey]%rb_find_Some; [|by apply (fo_sorted tb Hok _ _ Eb)].
    split; [|eauto]. apply futex_key_rank_inj; [by eapply (fo_item tb Hok)|done|done].
  - intros [<- (i & b & Hb & Hit)]. destruct (fo_item tb Hok i b it Hb Hit) as (_ & <- & _). rewrite Hb. simpl.
    apply rb_find_Some; [by apply (fo_sorted tb Hok _ _ Hb)|]. done.
Qed.

Lemma futex_item_list tb k it : futex_ok tb -> futex_key_ok k -> futex_item tb k = Some it -> ft_lists tb !! fi_list it = Some (futex_list tb k).
Proof.
  intros Hok Hk Hit. pose proof Hit as (_ & i & b & Hb & Hin)%futex_item_Some; [|done..].
  destruct (fo_item tb Hok i b it Hb Hin) as (_ & _ & Hlt). destruct (lookup_lt_is_Some_2 _ _ Hlt) as [l Hl].
  unfold futex_list. rewrite Hit. simpl. by rewrite Hl.
Qed.

Lemma futex_list_nodup tb k : futex_ok tb -> NoDup (futex_waiters tb k).
Proof.
  intros Hok. unfold futex_waiters, futex_list. destruct (futex_item tb k) as [it|]; [|constructor]. simpl.
  destruct (ft_lists tb !! fi_list it) as [l|] eqn:E; [|constructor]. simpl. apply (fo_nodup tb Hok).
  by eapply list_elem_of_lookup_2.
Qed.

(** Replacing the wait list of one key. *)
Lemma futex_set_list tb k it l :
  futex_ok tb -> futex_key_ok k -> futex_item tb k = Some it -> NoDup (wl_waiters l) ->
  let tb' := mkFutexTable (futex_buckets tb) (<[fi_list it := l]> (ft_lists tb)) in
  futex_ok tb' /\ futex_list tb' k = l /\ (forall k', futex_key_ok k' -> k' <> k -> futex_list tb' k' = futex_list tb k').
Proof.
  intros Hok Hk Hit Hl tb'. pose proof (futex_item_list tb k it Hok Hk Hit) as Hlk.
  assert (fi_list it < length (ft_lists tb))%nat as Hlt by (apply lookup_lt_is_Some; eauto).
  split; [|split].
  - destruct Hok as [H1 H2 H3 H4 H5]. constructor; simpl; auto.
    + intros i b x Hb Hx. rewrite length_insert. by apply (H3 i b).
    + intros x [j Hj]%list_elem_of_lookup_1. apply list_lookup_insert_Some in Hj as [(_ & <- & _)|[_ Hj]]; [done|].
      apply H5. by eapply list_elem_of_lookup_2.
  - unfold futex_list, futex_item in *. simpl. rewrite Hit. simpl. by rewrite list_lookup_insert_eq.
  - intros k' Hk' Hne. unfold futex_list. change (futex_item tb' k') with (futex_item tb k').
    destruct (futex_item tb k') as [it'|] eqn:Hit'; [|done]. simpl. rewrite list_lookup_insert_ne; [done|].
    intros E. apply Hne. apply futex_item_Some in Hit as [<- (i & b & Hb & Hin)]; [|done..].
    apply futex_item_Some in Hit' as [<- (i' & b' & Hb' & Hin')]; [|done..].
    by rewrite (fo_unique tb Hok i b it i' b' it').
Qed.

(** A new item in the bucket of its key. *)
Lemma futex_insert_ok tb k b :
  futex_ok tb -> futex_key_ok k -> futex_buckets tb !! futex_index k = Some b -> futex_find b k = None ->
  let it := mkFutexItem k (length (ft_lists tb)) in
  let tb' := mkFutexTable (<[futex_index k := rb_insert it b]> (futex_buckets tb)) (ft_lists tb ++ [wl_new]) in
  futex_ok tb' /\
  (forall x, (exists i c, futex_buckets tb' !! i = Some c /\ x ∈ rb_iter c) <->
             x = it \/ exists i c, futex_buckets tb !! i = Some c /\ x ∈ rb_iter c).
Proof.
  intros Hok Hk Hb Hf it tb'. pose proof (fo_sorted tb Hok _ _ Hb) as Hs.
  apply rb_find_None in Hf; [|done]. assert (rb_iter (rb_insert it b) = insert_sorted it (rb_iter b)) as Hi by by apply rb_iter_insert.
  assert (forall i c, futex_buckets tb' !! i = Some c -> (i = futex_index k /\ c = rb_insert it b) \/ futex_buckets tb !! i = Some c) as Hc.
  { intros i c Hc. apply list_lookup_insert_Some in Hc as [(-> & -> & _)|[_ Hc]]; auto. }
  assert (forall i c x, futex_buckets tb' !! i = Some c -> x ∈ rb_iter c ->
    (i = futex_index k /\ x = it) \/ exists c0, futex_buckets tb !! i = Some c0 /\ x ∈ rb_iter c0) as Hx.
  { intros i c x Hic Hxc. destruct (Hc i c Hic) as [[-> ->]|Hold]; [|eauto].
    rewrite Hi in Hxc. apply insert_sorted_elem in Hxc as [->|Hxc]; eauto. }
  pose proof (fo_length tb Hok) as Hlen. pose proof (futex_index_lt k) as Hlt.
  assert (forall i c x, futex_buckets tb !! i = Some c -> x ∈ rb_iter c -> fi_list x <> fi_list it) as Hold.
  { intros i c x Hic Hxc E. destruct (fo_item tb Hok i c x Hic Hxc) as (_ & _ & H1). simpl in E. lia. }
  split.
  - constructor; simpl.
    + by rewrite length_insert.
    + intros i c Hic. destruct (Hc i c Hic) as [[-> ->]|Hc']; [apply rb_insert_sorted; [done|by apply rb_find_None]|by apply (fo_sorted tb Hok i c)].
    + intros i c x Hic Hxc. rewrite length_app. simpl. destruct (Hx i c x Hic Hxc) as [[-> ->]|(c0 & H1 & H2)]; [simpl; split; [done|lia]|].
      destruct (fo_item tb Hok i c0 x H1 H2) as (? & ? & ?). split; [done|]. split; [done|lia].
    + intros i c x i' c' x' Hic Hxc Hic' Hxc' E.
      destruct (Hx i c x Hic Hxc) as [[_ ->]|(c0 & H1 & H2)], (Hx i' c' x' Hic' Hxc') as [[_ ->]|(c1 & H3 & H4)]; auto.
      * by destruct (Hold i' c1 x').
      * by destruct (Hold i c0 x).
      * by apply (fo_unique tb Hok i c0 x i' c1 x').
    + intros l [Hl| ->%list_elem_of_singleton]%elem_of_app; [by apply (fo_nodup tb Hok)|constructor].
  - intros x. split.
    + intros (i & c & Hic & Hxc). destruct (Hx i c x Hic Hxc) as [[_ ->]|(c0 & H1 & H2)]; eauto.
    + intros [->|(i & c & Hic & Hxc)].
      * exists (futex_index k), (rb_insert it b). split; [apply list_lookup_insert_eq; lia|]. rewrite Hi. apply insert_sorted_elem. auto.
      * destruct (decide (i = futex_index k)) as [->|Hne].
        -- exists (futex_index k), (rb_insert it b). split; [apply list_lookup_insert_eq; lia|]. rewrite Hi. apply insert_sorted_elem.
           rewrite Hb in Hic. injection Hic as <-. auto.
        -- exists i, c. split; [|done]. simpl. by rewrite list_lookup_insert_ne.
Qed.

(** Making sure a key has an item changes no wait list. *)
Lemma find_or_insert_ok tb k b :
  futex_ok tb -> futex_key_ok k -> futex_buckets tb !! futex_index k = Some b ->
  let '(it, b', lists) := find_or_insert b (ft_lists tb) k in
  let tb' := mkFutexTable (<[futex_index k := b']> (futex_buckets tb)) lists in
  futex_ok tb' /\ futex_item tb' k = Some it /\ (forall k', futex_key_ok k' -> futex_list tb' k' = futex_list tb k').
Proof.
  intros Hok Hk Hb. unfold find_or_insert. destruct (futex_find b k) as [it|] eqn:Hf.
  { rewrite list_insert_id by done. destruct tb as [bs ls]. split; [done|]. split; [|done].
    unfold futex_item. simpl in *. by rewrite Hb. }
  destruct (futex_insert_ok tb k b Hok Hk Hb Hf) as [Hok' Hx]. set (it := mkFutexItem k _) in *. set (tb' := mkFutexTable _ _) in *.
  split; [done|]. assert (futex_item tb' k = Some it) as Hit by (apply futex_item_Some; [done..|]; split; [done|apply Hx; auto]).
  split; [done|]. intros k' Hk'. destruct (decide (k' = k)) as [->|Hne].
  - unfold futex_list. rewrite Hit. simpl. rewrite lookup_app_r, Nat.sub_diag by lia. simpl.
    unfold futex_item. rewrite Hb. simpl. by rewrite Hf.
  - assert (futex_item tb' k' = futex_item tb k') as E.
    { apply option_eq. intros x. rewrite !futex_item_Some by done. rewrite Hx. split; [|by intros [? ?]; auto].
      intros [H1 [->|H2]]; [by destruct Hne|done]. }
    unfold futex_list. rewrite E. destruct (futex_item tb k') as [x|] eqn:Ex; [|done]. simpl.
    pose proof (futex_item_list tb k' x Hok Hk' Ex) as Hl. rewrite lookup_app_l by (apply lookup_lt_is_Some; eauto). done.
Qed.
End theory.

(** ** Waking *)

(** The handles [hs] have been told to wake up, and no others. *)
Definition wl_told (l l' : WL) (hs : list nat) : Prop :=
  (forall h, h ∈ hs -> wo_woken_up (wl_obj l' h) = true) /\ (forall h, h ∉ hs -> wl_obj l' h = wl_obj l h).

Definition wakers (l : WL) (hs : list nat) : list nat := concat (map (fun h => option_list (wo_waker (wl_obj l h))) hs).

Lemma wl_told_cons l l1 l2 h hs : h ∉ hs -> wo_woken_up (wl_obj l1 h) = true -> (forall x, x <> h -> wl_obj l1 x = wl_obj l x) ->
  wl_told l1 l2 hs -> wl_told l l2 (h :: hs) /\ wakers l1 hs = wakers l hs.
Proof.
  intros Hh Hw Hx [H1 H2]. split; [split|].
  - intros x [->|Hin]%elem_of_cons; [by rewrite H2|by apply H1].
  - intros x [Hne Hn]%not_elem_of_cons. by rewrite H2, Hx.
  - unfold wakers. clear H1 H2. induction hs as [|y hs IH]; [done|]. apply not_elem_of_cons in Hh as [Hy Hh]. cbn. rewrite Hx by done. f_equal. by apply IH.
Qed.

(** The loop of [futex_wake] takes one waiter more than it counts. *)
Lemma futex_wake_loop_ok hs l fuel max count :
  wl_waiters l = hs -> NoDup hs -> (length hs < fuel)%nat -> 0 <= count <= max -> is_u32 max ->
  let n := Z.to_nat (max - count + 1) in
  exists l', futex_wake_loop fuel l max count = (Z.min max (count + Z.of_nat (length hs)), wakers l (take n hs), l') /\
    wl_waiters l' = drop n hs /\ wl_told l l' (take n hs).
Proof.
  revert l fuel count. induction hs as [|h hs IH]; intros l fuel count Hl Hnd Hf Hc Hm n.
  - destruct fuel as [|fuel]; [simpl in Hf; lia|]. simpl. pose proof (wl_notify_one_ok l) as H1. rewrite Hl in H1. rewrite H1 by constructor.
    exists l. simpl. rewrite take_nil, drop_nil. split; [f_equal; f_equal; lia|]. split; [done|]. split; [by intros ? ?%elem_of_nil|done].
  - destruct fuel as [|fuel]; [simpl in Hf; lia|]. simpl in Hf. pose proof (wl_notify_one_ok l) as H1. rewrite Hl in H1.
    destruct (H1 Hnd) as (l1 & E1 & Hl1 & Hw & Hx). apply NoDup_cons in Hnd as [Hh Hnd].
    simpl. rewrite E1. simpl. destruct (Z.eqb_spec count max) as [->|Hne].
    + exists l1. assert (n = 1%nat) as -> by lia. simpl. rewrite take_0, drop_0. split; [|split; [done|]].
      * assert (Z.min max (max + Z.of_nat (S (length hs))) = max) as -> by lia. unfold wakers. simpl. by rewrite app_nil_r.
      * apply (wl_told_cons l l1 l1); [apply not_elem_of_nil|done|done|]. split; [by intros ? ?%elem_of_nil|done].
    + assert (wrap32 (count + 1) = count + 1) as -> by (apply wrap32_small; unfold is_u32 in *; lia).
      destruct (IH l1 fuel (count + 1)) as (l2 & E2 & Hl2 & Ht); [done..|lia|lia|done|]. rewrite E2.
      exists l2. assert (n = S (Z.to_nat (max - (count + 1) + 1))) as -> by lia. simpl.
      destruct (wl_told_cons l l1 l2 h (take (Z.to_nat (max - (count + 1) + 1)) hs)) as [Ht' Hws]; [|done..|].
      { intros Hin. apply Hh. apply list_elem_of_lookup_1 in Hin as [j Hj]. apply lookup_take_Some in Hj as [Hj _]. by eapply list_elem_of_lookup_2. }
      rewrite Hws. split; [|done]. do 2 f_equal. lia.
Qed.

Lemma notify_all_loop_ok hs l :
  wl_waiters l = hs -> NoDup hs ->
  exists l', notify_all_loop (length hs) l = (length hs, wakers l hs, l') /\ wl_waiters l' = [] /\ wl_told l l' hs.
Proof.
  revert l. induction hs as [|h hs IH]; intros l Hl Hnd.
  - exists l. split; [done|]. split; [done|]. split; [by intros ? ?%elem_of_nil|done].
  - pose proof (wl_notify_one_ok l) as H1. rewrite Hl in H1. destruct (H1 Hnd) as (l1 & E1 & Hl1 & Hw & Hx).
    apply NoDup_cons in Hnd as [Hh Hnd]. destruct (IH l1 Hl1 Hnd) as (l2 & E2 & Hl2 & Ht).
    destruct (wl_told_cons l l1 l2 h hs Hh Hw Hx Ht) as [Ht' Hws].
    unfold wl_notify_one in E1. rewrite Hl in E1. cbn [length notify_all_loop]. rewrite Hl.
    destruct (notify_waiter_unchecked l h) as [w l1'] eqn:En. injection E1 as Ew <-. rewrite E2. exists l2.
    split; [|done]. rewrite Hws, Ew. done.
Qed.

(** ** What the table promises

    For every key the waiters in the order of their arrival, and the waiters
    that have been told to go on.  Two such states are the same when they agree
    on every key. *)
Record FxSpec := mkFxSpec { fs_wait : FutexKey -> list nat; fs_woken : nat -> Prop }.

#[export] Instance FxSpec_equiv : Equiv FxSpec := fun a b =>
  (forall k, fs_wait a k = fs_wait b k) /\ (forall h, fs_woken a h <-> fs_woken b h).

#[export] Instance FxSpec_equivalence : Equivalence (≡@{FxSpec}).
Proof.
  split.
  - by intros a.
  - intros a b [H1 H2]. split; [done|]. intros h. by rewrite H2.
  - intros a b c [H1 H2] [H3 H4]. split; [intros k; by rewrite H1|intros h; by rewrite H2].
Qed.

Definition fs_init : FxSpec := mkFxSpec (fun _ => []) (fun _ => False).
Definition fs_append (k : FutexKey) (h : nat) (a : FxSpec) : FxSpec :=
  mkFxSpec (fun k' => if decide (k' = k) then fs_wait a k ++ [h] else fs_wait a k') (fs_woken a).
(** The first [n] waiters of [k] go on. *)
Definition fs_take (k : FutexKey) (n : nat) (a : FxSpec) : FxSpec :=
  mkFxSpec (fun k' => if decide (k' = k) then drop n (fs_wait a k) else fs_wait a k')
           (fun h => fs_woken a h \/ h ∈ take n (fs_wait a k)).
(** All waiters of the keys in [P] go on. *)
Definition fs_flush (P : FutexKey -> bool) (a : FxSpec) : FxSpec :=
  mkFxSpec (fun k => if P k then [] else fs_wait a k)
           (fun h => fs_woken a h \/ exists k, P k = true /\ h ∈ fs_wait a k).

(** A handle that has not been used yet. *)
Definition fs_fresh (a : FxSpec) (h : nat) : Prop := (forall k, h ∉ fs_wait a k) /\ ~ fs_woken a h.

#[export] Instance fs_fresh_proper : Proper ((≡) ==> (=) ==> iff) fs_fresh.
Proof. intros a b [H1 H2] h _ <-. unfold fs_fresh. setoid_rewrite H1. by rewrite H2. Qed.

Section refinement.
Context {T : Type} `{RBTree FutexItem T, !RBTreeLaws FutexItem T}.
Implicit Types (tb : FutexTable T) (k : FutexKey) (l : WL) (a : FxSpec).

Record futex_rel tb a : Prop := {
  fr_ok : futex_ok tb;
  fr_wait k : futex_key_ok k -> futex_waiters tb k = fs_wait a k;
  fr_asleep k h : h ∈ fs_wait a k -> futex_key_ok k /\ wo_woken_up (wl_obj (futex_list tb k) h) = false;
  fr_woken h : fs_woken a h -> exists k, futex_key_ok k /\ wo_woken_up (wl_obj (futex_list tb k) h) = true;
  fr_fresh k h : futex_key_ok k -> fs_fresh a h -> wl_obj (futex_list tb k) h = wait_object_new
}.

#[local] Instance futex_rel_proper tb : Proper ((≡) ==> iff) (futex_rel tb).
Proof.
  assert (forall a b, a ≡ b -> futex_rel tb a -> futex_rel tb b) as Himp.
  { intros a b E [H1 H2 H3 H4 H5]. pose proof E as [Ew Ek]. constructor; [done|..].
    - intros k Hk. rewrite <- Ew. auto.
    - intros k h. rewrite <- Ew. auto.
    - intros h. rewrite <- Ek. auto.
    - intros k h Hk. rewrite <- E. auto. }
  intros a b E. split; apply Himp; [done|by symmetry].
Qed.

Lemma futex_list_new k : futex_list (T:=T) futex_table_new k = wl_new.
Proof.
  unfold futex_list, futex_item. destruct (futex_buckets _ !! _) as [b|] eqn:Hb; [|done]. simpl.
  apply lookup_replicate in Hb as [-> _]. unfold futex_find, rb_find. by rewrite rb_iter_new.
Qed.

Lemma futex_rel_init : futex_rel futex_table_new fs_init.
Proof.
  constructor.
  - apply futex_table_new_ok.
  - intros k _. unfold futex_waiters. by rewrite futex_list_new.
  - intros k h Hh. by apply elem_of_nil in Hh.
  - done.
  - intros k h _ _. by rewrite futex_list_new.
Qed.

(** The first [n] waiters of a key are told. *)
Lemma futex_rel_take tb a k it l n :
  futex_rel tb a -> futex_key_ok k -> futex_item tb k = Some it ->
  wl_waiters l = drop n (fs_wait a k) -> wl_told (futex_list tb k) l (take n (fs_wait a k)) ->
  futex_rel (mkFutexTable (futex_buckets tb) (<[fi_list it := l]> (ft_lists tb))) (fs_take k n a).
Proof.
  intros Hr Hk Hit Hl [Ht1 Ht2]. pose proof (fr_ok _ _ Hr) as Hok.
  pose proof (futex_list_nodup tb k Hok) as Hnd. rewrite (fr_wait _ _ Hr k Hk) in Hnd.
  rewrite <- (take_drop n (fs_wait a k)) in Hnd. apply NoDup_app in Hnd as (_ & Hdis & Hnd).
  destruct (futex_set_list tb k it l Hok Hk Hit) as (Hok' & Hlk & Hlo); [by rewrite Hl|]. set (tb' := mkFutexTable _ _) in *.
  assert (forall k' h, futex_key_ok k' -> wo_woken_up (wl_obj (futex_list tb k') h) = true -> wo_woken_up (wl_obj (futex_list tb' k') h) = true) as Hmono.
  { intros k' h Hk' Hw. destruct (decide (k' = k)) as [->|Hne]; [|by rewrite Hlo]. rewrite Hlk.
    destruct (decide (h ∈ take n (fs_wait a k))); [auto|by rewrite Ht2]. }
  constructor; [done|..].
  - intros k' Hk'. unfold futex_waiters. simpl. case_decide as Hd; [subst k'; by rewrite Hlk|]. rewrite Hlo by done. by apply (fr_wait _ _ Hr).
  - intros k' h. simpl. case_decide as Hd; [subst k'|].
    + intros Hh. split; [done|]. rewrite Hlk, Ht2 by naive_solver. apply (fr_asleep _ _ Hr k h).
      rewrite <- (take_drop n (fs_wait a k)). set_solver.
    + intros Hh. destruct (fr_asleep _ _ Hr k' h Hh) as [Hk' Hw]. by rewrite Hlo.
  - intros h [Hh|Hh].
    + destruct (fr_woken _ _ Hr h Hh) as (k' & Hk' & Hw). exists k'. auto.
    + exists k. split; [done|]. rewrite Hlk. auto.
  - intros k' h Hk' [Hf1 Hf2]. simpl in Hf1, Hf2. assert (fs_fresh a h) as Hf.
    { split; [|tauto]. intros k'' Hin. specialize (Hf1 k''). case_decide as Hd; [subst k''|done].
      rewrite <- (take_drop n (fs_wait a k)) in Hin. set_solver. }
    destruct (decide (k' = k)) as [->|Hne]; [|rewrite Hlo by done; by apply (fr_fresh _ _ Hr)].
    rewrite Hlk, Ht2 by tauto. by apply (fr_fresh _ _ Hr).
Qed.

Lemma futex_wake_rel tb a uaddr pid max :
  futex_rel tb a -> futex_key_ok (mkFutexKey uaddr pid) -> is_u32 max ->
  let k := mkFutexKey uaddr pid in let n := Z.to_nat (max + 1) in
  exists ws tb', futex_wake uaddr pid max tb = Ret (Z.min max (Z.of_nat (length (fs_wait a k))), ws, tb') /\
    futex_rel tb' (fs_take k n a) /\ ws = wakers (futex_list tb k) (take n (fs_wait a k)).
Proof.
  intros Hr Hk Hm k n. pose proof (fr_ok _ _ Hr) as Hok. unfold futex_wake. fold k.
  destruct (get_bucket_ok tb k Hok) as (b & Hb & ->). cbn [mbind outcome_bind].
  assert (futex_item tb k = futex_find b k) as Hi by (unfold futex_item; by rewrite Hb).
  pose proof (fr_wait _ _ Hr k Hk) as Hw. destruct (futex_find b k) as [it|] eqn:Hf.
  - rewrite (futex_item_list tb k it Hok Hk Hi). cbn [mbind outcome_bind expect].
    pose proof (futex_list_nodup tb k Hok) as Hnd. rewrite Hw in Hnd.
    destruct (futex_wake_loop_ok (fs_wait a k) (futex_list tb k) (S (length (wl_waiters (futex_list tb k)))) max 0)
      as (l & El & Hl & Ht); [done|done|unfold futex_waiters in Hw; rewrite Hw; lia|unfold is_u32 in Hm; lia|done|].
    rewrite El. rewrite Z.sub_0_r in *. fold n in Hl, Ht |- *.
    eexists _, _. split; [reflexivity|]. split; [by apply futex_rel_take|done].
  - assert (fs_wait a k = []) as E by (rewrite <- Hw; unfold futex_waiters, futex_list; by rewrite Hi).
    rewrite E, take_nil. eexists _, tb. split; [simpl; rewrite Z.min_r by (unfold is_u32 in Hm; lia); reflexivity|].
    split; [|done]. assert (fs_take k n a ≡ a) as Eq; [|by rewrite Eq]. split; simpl.
    + intros k'. case_decide as Hd; [subst k'; by rewrite E, drop_nil|done].
    + intros h. rewrite E, take_nil. set_solver.
Qed.

Lemma futex_wait_rel tb a m h uaddr pid expected :
  futex_rel tb a -> futex_key_ok (mkFutexKey uaddr pid) -> fs_fresh a h ->
  read_u32 m uaddr = Ret expected ->
  exists tb', futex_wait m h uaddr pid expected tb = Ret tb' /\ futex_rel tb' (fs_append (mkFutexKey uaddr pid) h a).
Proof.
  intros Hr Hk Hf Hv. pose proof (fr_ok _ _ Hr) as Hok. unfold futex_wait, futex_wait_lookup. set (k := mkFutexKey uaddr pid) in *.
  destruct (get_bucket_ok tb k Hok) as (b & Hb & ->). simpl. rewrite Hv. simpl. rewrite Z.eqb_refl. simpl.
  pose proof (find_or_insert_ok tb k b Hok Hk Hb) as Hi. destruct (find_or_insert b (ft_lists tb) k) as [[it b'] lists].
  destruct Hi as (Hok1 & Hit & Hl1). simpl. set (tb1 := mkFutexTable _ _) in *.
  unfold futex_wait_enter. simpl. change lists with (ft_lists tb1). rewrite (futex_item_list tb1 k it Hok1 Hk Hit). simpl.
  set (l := set_obj _ h _). pose proof (fr_wait _ _ Hr k Hk) as Hw. unfold futex_waiters in Hw.
  assert (wl_waiters l = fs_wait a k ++ [h]) as Hlw by (unfold l; simpl; by rewrite Hl1, Hw).
  assert (forall x, wl_obj l x = wl_obj (futex_list tb k) x) as Hobj.
  { intros x. unfold l. rewrite Hl1 by done. destruct (decide (x = h)) as [->|Hne]; [by rewrite wl_obj_set_eq|].
    by rewrite wl_obj_set_ne. }
  destruct (futex_set_list tb1 k it l Hok1 Hk Hit) as (Hok2 & Hlk & Hlo).
  { rewrite Hlw. apply NoDup_app. split; [rewrite <- Hw; by apply futex_list_nodup|]. split; [|apply NoDup_singleton].
    intros x Hx ->%list_elem_of_singleton. by apply (proj1 Hf k). }
  eexists. split; [reflexivity|].
  change (futex_rel (mkFutexTable (futex_buckets tb1) (<[fi_list it := l]> (ft_lists tb1))) (fs_append k h a)).
  set (tb2 := mkFutexTable (futex_buckets tb1) _) in *.
  assert (forall k' x, futex_key_ok k' -> wl_obj (futex_list tb2 k') x = wl_obj (futex_list tb k') x) as Hsame.
  { intros k' x Hk'. destruct (decide (k' = k)) as [->|Hne]; [by rewrite Hlk|]. by rewrite Hlo, Hl1. }
  constructor; [done|..].
  - intros k' Hk'. unfold futex_waiters. simpl. case_decide as Hd; [subst k'; by rewrite Hlk|].
    rewrite Hlo, Hl1 by done. by apply (fr_wait _ _ Hr).
  - intros k' x. simpl. case_decide as Hd; [subst k'|].
    + intros [Hx| ->%list_elem_of_singleton]%elem_of_app; rewrite Hsame by done.
      * by apply (fr_asleep _ _ Hr).
      * split; [done|]. by rewrite (fr_fresh _ _ Hr k h).
    + intros Hx. destruct (fr_asleep _ _ Hr k' x Hx) as [Hk' ?]. by rewrite Hsame.
  - intros x Hx. destruct (fr_woken _ _ Hr x Hx) as (k' & Hk' & Hw'). exists k'. by rewrite Hsame.
  - intros k' x Hk' [Hf1 Hf2]. rewrite Hsame by done. apply (fr_fresh _ _ Hr); [done|]. split; [|done].
    intros k'' Hin. apply (Hf1 k''). simpl. case_decide as Hd; [subst k''; set_solver|done].
Qed.

Lemma futex_wait_err tb a m h uaddr pid expected :
  futex_rel tb a ->
  match read_u32 m uaddr with
  | Ret v => v <> expected -> futex_wait m h uaddr pid expected tb = Err EAGAIN
  | Err e => futex_wait m h uaddr pid expected tb = Err e
  | Panic => futex_wait m h uaddr pid expected tb = Panic
  end.
Proof.
  intros Hr. unfold futex_wait, futex_wait_lookup.
  destruct (get_bucket_ok tb (mkFutexKey uaddr pid) (fr_ok _ _ Hr)) as (b & Hb & ->). simpl.
  destruct (read_u32 m uaddr) as [v|e|]; [|done..]. simpl. intros Hne. apply Z.eqb_neq in Hne. by rewrite Hne.
Qed.

Lemma fs_flush_take Q k a :
  fs_flush Q (fs_take k (length (fs_wait a k)) a) ≡ fs_flush (fun k' => bool_decide (k' = k) || Q k') a.
Proof.
  split; simpl.
  - intros k'. case_bool_decide as Hd; [subst k'|]; simpl; destruct (Q _); try done; case_decide; try done. by rewrite drop_all.
  - intros h. rewrite take_ge by lia. split.
    + intros [[Hh|Hh]|(k' & Hq & Hh)]; [auto|right; exists k; by rewrite bool_decide_eq_true_2|].
      case_decide as Hd; [subst k'; rewrite drop_all in Hh; by apply elem_of_nil in Hh|]. right. exists k'. by rewrite Hq, orb_true_r.
    + intros [Hh|(k' & Hq & Hh)]; [auto|]. case_bool_decide as Hd; [subst k'; auto|]. right. exists k'. split; [done|]. by rewrite decide_False.
Qed.

#[local] Instance fs_flush_proper : Proper (pointwise_relation _ (=) ==> (≡) ==> (≡)) fs_flush.
Proof.
  intros P Q HPQ a b [H1 H2]. split; simpl.
  - intros k. by rewrite HPQ, H1.
  - intros h. rewrite H2. setoid_rewrite H1. by setoid_rewrite HPQ.
Qed.

Definition wakes_key (pid : Z) (items : list FutexItem) (k : FutexKey) : bool :=
  bool_decide (fk_pid k = Some pid) && bool_decide (k ∈ fi_key <$> items).

Lemma wakes_key_nil pid a : fs_flush (wakes_key pid []) a ≡ a.
Proof.
  assert (forall k, wakes_key pid [] k = false) as E
    by (intros k; unfold wakes_key; rewrite (bool_decide_eq_false_2 (k ∈ _)) by set_solver; apply andb_false_r).
  split; simpl; [intros k; by rewrite E|]. intros h. split; [|auto]. intros [Hh|(k & Hk & _)]; [done|]. by rewrite E in Hk.
Qed.

Lemma wakes_key_cons pid it items k :
  wakes_key pid (it :: items) k = (bool_decide (fk_pid k = Some pid) && bool_decide (k = fi_key it)) || wakes_key pid items k.
Proof.
  unfold wakes_key. rewrite fmap_cons. rewrite (bool_decide_ext (k ∈ _ :: _) _ (elem_of_cons _ _ _)), bool_decide_or. by destruct (bool_decide (fk_pid k = _)).
Qed.

Lemma wake_items_rel items tb a pid total :
  futex_rel tb a -> (forall it, it ∈ items -> exists i b, futex_buckets tb !! i = Some b /\ it ∈ rb_iter b) ->
  exists total' ws lists, wake_items items pid (ft_lists tb) total = Ret (total', ws, lists) /\
    futex_rel (mkFutexTable (futex_buckets tb) lists) (fs_flush (wakes_key pid items) a).
Proof.
  revert tb a total. induction items as [|it items IH]; intros tb a total Hr Hin; simpl.
  { eexists _, _, _. split; [reflexivity|]. destruct tb. by rewrite wakes_key_nil. }
  destruct (Hin it) as (i & b & Hb & Hit); [set_solver|]. pose proof (fr_ok _ _ Hr) as Hok.
  destruct (fo_item tb Hok i b it Hb Hit) as (Hk & _ & _). set (k := fi_key it) in *.
  case_bool_decide as Hp; simpl.
  - assert (futex_item tb k = Some it) as Hi by (apply futex_item_Some; eauto).
    rewrite (futex_item_list tb k it Hok Hk Hi). cbn [mbind outcome_bind expect].
    pose proof (fr_wait _ _ Hr k Hk) as Hw. pose proof (futex_list_nodup tb k Hok) as Hnd. rewrite Hw in Hnd. unfold futex_waiters in Hw.
    destruct (notify_all_loop_ok (fs_wait a k) (futex_list tb k) Hw Hnd) as (l & El & Hl & Ht). rewrite Hw, El.
    assert (futex_rel (mkFutexTable (futex_buckets tb) (<[fi_list it := l]> (ft_lists tb))) (fs_take k (length (fs_wait a k)) a)) as Hr1.
    { apply futex_rel_take; [done..|by rewrite drop_all|by rewrite take_ge]. }
    destruct (IH _ _ (wrap64 (total + Z.of_nat (length (fs_wait a k)))) Hr1) as (t' & ws & lists & E & Hr2).
    { intros x Hx. apply Hin. set_solver. }
    simpl in E. rewrite E. simpl. eexists _, _, _. split; [reflexivity|]. rewrite fs_flush_take in Hr2.
    refine (proj1 (futex_rel_proper _ _ _ _) Hr2). apply fs_flush_proper; [|reflexivity]. intros k'. rewrite wakes_key_cons. f_equal. fold k.
    destruct (decide (k' = k)) as [->|Hne]; [by rewrite !bool_decide_eq_true_2|].
    by rewrite (bool_decide_eq_false_2 (k' = k)), andb_false_r.
  - destruct (IH tb a total Hr) as (t' & ws & lists & E & Hr2); [intros x Hx; apply Hin; set_solver|].
    rewrite E. eexists _, _, _. split; [reflexivity|].
    refine (proj1 (futex_rel_proper _ _ _ _) Hr2). apply fs_flush_proper; [|reflexivity]. intros k'. rewrite wakes_key_cons. fold k.
    destruct (decide (k' = k)) as [->|Hne]; [by rewrite bool_decide_eq_false_2|].
    by rewrite (bool_decide_eq_false_2 (k' = k)), andb_false_r.
Qed.

Lemma wake_items_app xs ys pid lists total :
  wake_items (xs ++ ys) pid lists total =
  ('(total, ws, lists) ← wake_items xs pid lists total;
   '(total, ws', lists) ← wake_items ys pid lists total;
   Ret (total, ws ++ ws', lists)).
Proof.
  revert lists total. induction xs as [|x xs IH]; intros lists total; simpl.
  - by destruct (wake_items ys pid lists total) as [[[? ?] ?]| |].
  - destruct (negb _); [apply IH|]. destruct (lists !! fi_list x) as [l|]; [|done]. simpl.
    destruct (notify_all_loop _ l) as [[n ws] l']. rewrite IH.
    destruct (wake_items xs _ _ _) as [[[? ?] ?]| |]; [|done..]. simpl.
    destruct (wake_items ys _ _ _) as [[[? ?] ?]| |]; [|done..]. simpl. by rewrite (assoc_L (++)).
Qed.

Lemma wake_buckets_items (bs : list T) pid lists total :
  wake_buckets bs pid lists total = wake_items (concat (map rb_iter bs)) pid lists total.
Proof.
  revert lists total. induction bs as [|b bs IH]; intros lists total; [done|]. simpl. rewrite wake_items_app.
  destruct (wake_items (rb_iter b) _ _ _) as [[[? ?] ?]| |]; [|done..]. simpl. by rewrite IH.
Qed.

Lemma futex_wake_process_rel tb a pid :
  futex_rel tb a ->
  exists total ws tb', futex_wake_process pid tb = Ret (total, ws, tb') /\
    futex_rel tb' (fs_flush (fun k => bool_decide (fk_pid k = Some pid)) a).
Proof.
  intros Hr. pose proof (fr_ok _ _ Hr) as Hok. unfold futex_wake_process. rewrite wake_buckets_items.
  assert (forall it, it ∈ concat (map rb_iter (futex_buckets tb)) <-> exists i b, futex_buckets tb !! i = Some b /\ it ∈ rb_iter b) as Hc.
  { intros it. rewrite list_elem_of_In, in_concat. setoid_rewrite in_map_iff. setoid_rewrite <- list_elem_of_In. split.
    - intros (x & (b & <- & [i Hb]%list_elem_of_lookup_1) & Hit). eauto.
    - intros (i & b & Hb & Hit). exists (rb_iter b). split; [|done]. exists b. split; [done|]. by eapply list_elem_of_lookup_2. }
  destruct (wake_items_rel _ tb a pid 0 Hr (fun it H1 => proj1 (Hc it) H1)) as (t & ws & lists & -> & Hr').
  simpl. eexists _, _, _. split; [reflexivity|].
  assert (forall k, fs_wait a k <> [] -> k ∈ fi_key <$> concat (map rb_iter (futex_buckets tb))) as Hall.
  { intros k Hne. destruct (fs_wait a k) as [|h hs] eqn:E; [done|]. destruct (fr_asleep _ _ Hr k h) as [Hk _]; [rewrite E; set_solver|].
    rewrite <- (fr_wait _ _ Hr k Hk) in E. unfold futex_waiters, futex_list in E.
    destruct (futex_item tb k) as [it|] eqn:Ei; [|done]. apply futex_item_Some in Ei as [<- Hb]; [|done..].
    apply list_elem_of_fmap. exists it. split; [done|]. by apply Hc. }
  assert (fs_flush (wakes_key pid (concat (map rb_iter (futex_buckets tb)))) a ≡ fs_flush (fun k => bool_decide (fk_pid k = Some pid)) a) as Eq;
    [|by rewrite <- Eq]. unfold wakes_key. split; simpl.
  - intros k. case_bool_decide as Hp; [|done]. simpl. case_bool_decide as Hin; [done|].
    destruct (fs_wait a k) as [|h hs] eqn:E; [done|]. destruct Hin. apply Hall. by rewrite E.
  - intros h. split; intros [Hh|(k & Hk & Hh)]; auto; right; exists k; (split; [|done]).
    + by apply andb_true_iff in Hk as [? _].
    + rewrite Hk. simpl. apply bool_decide_eq_true_2, Hall. intros E. rewrite E in Hh. by apply elem_of_nil in Hh.
Qed.
End refinement.

(** ** Sequences of operations *)

Inductive FxOp :=
| FxWait (m : UMem) (h : nat) (uaddr : Z) (pid : option Z) (expected_val : Z)
| FxWake (uaddr : Z) (pid : option Z) (max_wake_count : Z)
| FxWakeProcess (pid : Z).

Definition fx_exec `{RBTree FutexItem T} (op : FxOp) (tb : FutexTable T) : outcome Z * FutexTable T :=
  match op with
  | FxWait m h uaddr pid v =>
      match futex_wait m h uaddr pid v tb with Ret tb' => (Ret 0, tb') | Err e => (Err e, tb) | Panic => (Panic, tb) end
  | FxWake uaddr pid max =>
      match futex_wake uaddr pid max tb with Ret (n, _, tb') => (Ret n, tb') | Err e => (Err e, tb) | Panic => (Panic, tb) end
  | FxWakeProcess pid =>
      match futex_wake_process pid tb with Ret (_, _, tb') => (Ret 0, tb') | Err e => (Err e, tb) | Panic => (Panic, tb) end
  end.

Definition fx_spec (op : FxOp) (a : FxSpec) : outcome Z * FxSpec :=
  match op with
  | FxWait m h uaddr pid v =>
      match read_u32 m uaddr with
      | Ret x => if x =? v then (Ret 0, fs_append (mkFutexKey uaddr pid) h a) else (Err EAGAIN, a)
      | Err e => (Err e, a)
      | Panic => (Panic, a)
      end
  | FxWake uaddr pid max =>
      let k := mkFutexKey uaddr pid in
      (Ret (Z.min max (Z.of_nat (length (fs_wait a k)))), fs_take k (Z.to_nat (max + 1)) a)
  | FxWakeProcess pid => (Ret 0, fs_flush (fun k => bool_decide (fk_pid k = Some pid)) a)
  end.

Definition fx_valid (op : FxOp) : Prop :=
  match op with
  | FxWait _ _ uaddr pid _ => futex_key_ok (mkFutexKey uaddr pid)
  | FxWake uaddr pid max => futex_key_ok (mkFutexKey uaddr pid) /\ is_u32 max
  | FxWakeProcess pid => True
  end.
Definition fx_handle (op : FxOp) : option nat := match op with FxWait _ h _ _ _ => Some h | _ => None end.

Fixpoint fx_run {S} (step : FxOp -> S -> outcome Z * S) (ops : list FxOp) (s : S) : list (outcome Z) * S :=
  match ops with
  | [] => ([], s)
  | op :: ops => let (r, s) := step op s in let (rs, s) := fx_run step ops s in (r :: rs, s)
  end.

Lemma fx_spec_fresh op a h : fs_fresh a h -> fx_handle op <> Some h -> fs_fresh (fx_spec op a).2 h.
Proof.
  intros [Hf1 Hf2] Hh. destruct op as [m x uaddr pid v|uaddr pid max|pid]; simpl in *.
  - destruct (read_u32 m uaddr); [|by split..]. destruct (_ =? _); [|by split]. split; [|done]. simpl. intros k.
    case_decide; [|done]. rewrite elem_of_app, list_elem_of_singleton. intros [?|<-]; [by apply (Hf1 (mkFutexKey uaddr pid))|done].
  - set (k := mkFutexKey uaddr pid). assert (h ∉ fs_wait a k) as Hk by apply Hf1.
    rewrite <- (take_drop (Z.to_nat (max + 1)) (fs_wait a k)) in Hk. split; simpl; [|set_solver].
    intros k'. case_decide; [set_solver|done].
  - split; simpl; [|naive_solver]. intros k. case_bool_decide; [apply not_elem_of_nil|done].
Qed.

Lemma fx_step_rel `{RBTree FutexItem T, !RBTreeLaws FutexItem T} op (tb : FutexTable T) a :
  futex_rel tb a -> fx_valid op -> (forall h, fx_handle op = Some h -> fs_fresh a h) ->
  (fx_exec op tb).1 = (fx_spec op a).1 /\ futex_rel (fx_exec op tb).2 (fx_spec op a).2.
Proof.
  intros Hr Hv Hf. destruct op as [m h uaddr pid v|uaddr pid max|pid]; simpl in *.
  - pose proof (futex_wait_err tb a m h uaddr pid v Hr) as He. destruct (read_u32 m uaddr) as [x|e|] eqn:Ev.
    + destruct (Z.eqb_spec x v) as [->|Hne]; [|by rewrite He].
      destruct (futex_wait_rel tb a m h uaddr pid v) as (tb' & -> & Hr'); auto.
    + by rewrite He.
    + by rewrite He.
  - destruct Hv as [Hk Hm]. destruct (futex_wake_rel tb a uaddr pid max Hr Hk Hm) as (ws & tb' & -> & Hr' & _). done.
  - destruct (futex_wake_process_rel tb a pid Hr) as (t & ws & tb' & -> & Hr'). done.
Qed.

Lemma fx_run_rel `{RBTree FutexItem T, !RBTreeLaws FutexItem T} ops (tb : FutexTable T) a :
  futex_rel tb a -> Forall fx_valid ops -> NoDup (omap fx_handle ops) -> (forall h, h ∈ omap fx_handle ops -> fs_fresh a h) ->
  (fx_run fx_exec ops tb).1 = (fx_run fx_spec ops a).1 /\ futex_rel (fx_run fx_exec ops tb).2 (fx_run fx_spec ops a).2.
Proof.
  revert tb a. induction ops as [|op ops IH]; intros tb a Hr Hv Hnd Hf; [done|]. apply Forall_cons in Hv as [Hv Hvs].
  destruct (fx_step_rel op tb a Hr Hv) as [E Hr1].
  { intros h Hh. apply Hf. simpl. rewrite Hh. set_solver. }
  assert (NoDup (omap fx_handle ops) /\ forall h, h ∈ omap fx_handle ops -> fs_fresh a h /\ fx_handle op <> Some h) as [Hnd1 Hf1].
  { simpl in Hnd, Hf. destruct (fx_handle op) as [x|].
    - apply NoDup_cons in Hnd as [Hx Hnd]. split; [done|]. intros h Hh. split; [apply Hf; set_solver|by intros [= ->]].
    - split; [done|]. intros h Hh. split; [by apply Hf|done]. }
  simpl. destruct (fx_exec op tb) as [r tb1], (fx_spec op a) as [r' a1] eqn:Es. simpl in E, Hr1. subst r'.
  destruct (IH tb1 a1 Hr1 Hvs Hnd1) as [E2 Hr2].
  { intros h Hh. change a1 with ((r, a1).2). rewrite <- Es. apply fx_spec_fresh; by apply Hf1. }
  destruct (fx_run fx_exec ops tb1) as [rs tb2], (fx_run fx_spec ops a1) as [rs' a2]. simpl in *. by subst.
Qed.


Definition demo_futex_ops : list FxOp :=
  [FxWait demo_umem 1 0x1000 None 0; FxWait demo_umem 2 0x1000 None 0; FxWait demo_umem 3 0x1000 None 0;
   FxWait demo_umem 4 0x1004 (Some 7) 0; FxWait demo_umem 5 0x1004 (Some 7) 1; FxWake 0x1000 None 1; FxWakeProcess 7].


(** ** The robust list *)

Section robust.
Context {T : Type} `{RBTree FutexItem T, !RBTreeLaws FutexItem T}.
Implicit Types (tb : FutexTable T) (a : FxSpec) (r : RobustListHead).

Definition next_entry (m : UMem) (e : Z) : outcome Z := bs ← user_pointer_read m e 8; Ret (little_endian_to_Z 8 bs).

(** The entries of a list that leads back to its first entry or to null. *)
Fixpoint robust_chain (m : UMem) (r : RobustListHead) (e : Z) (es : list Z) : Prop :=
  match es with
  | [] => next_entry m e = Ret (rl_next r) \/ next_entry m e = Ret 0
  | e' :: es => next_entry m e = Ret e' /\ e' <> rl_next r /\ e' <> 0 /\ robust_chain m r e' es
  end.

Definition robust_key (r : RobustListHead) (e : Z) : FutexKey := mkFutexKey (futex_addr r e) None.

(** Everybody (at most 2^32 waiters) on the entries [es] goes on. *)
Definition everybody : nat := Z.to_nat (WAKE_EVERYBODY + 1).
Definition fs_robust (r : RobustListHead) (es : list Z) (a : FxSpec) : FxSpec :=
  foldl (fun a e => fs_take (robust_key r e) everybody a) a es.

Lemma robust_wake tb a r e :
  futex_rel tb a ->
  exists n ws tb', futex_wake (futex_addr r e) None WAKE_EVERYBODY tb = Ret (n, ws, tb') /\
    futex_rel tb' (fs_take (robust_key r e) everybody a).
Proof.
  intros Hr. unfold everybody. destruct (futex_wake_rel tb a (futex_addr r e) None WAKE_EVERYBODY Hr) as (ws & tb' & E & Hr' & _).
  - split; [apply wrap64_range|done].
  - unfold WAKE_EVERYBODY, is_u32, wrap32. pose proof (Z.mod_pos_bound usize_max (2 ^ 32)). lia.
  - eexists _, ws, tb'. split; [exact E|exact Hr'].
Qed.

#[local] Opaque everybody.

Lemma wake_all_loop_rel m r es e tb a fuel :
  futex_rel tb a -> robust_chain m r e es -> (length es < fuel)%nat ->
  exists ws tb', wake_all_loop fuel m r e tb = Some (Ret tt, ws, tb') /\ futex_rel tb' (fs_robust r (e :: es) a).
Proof.
  revert e tb a fuel. induction es as [|e' es IH]; intros e tb a [|fuel] Hr Hc Hf; try (simpl in Hf; lia);
    destruct (robust_wake tb a r e Hr) as (n & ws & tb' & E & Hr'); cbn [wake_all_loop]; rewrite E; simpl in Hc; unfold next_entry in Hc.
  - destruct (user_pointer_read m e 8) as [bs| |]; simpl in Hc; try (by destruct Hc).
    assert (((little_endian_to_Z 8 bs =? rl_next r) || (little_endian_to_Z 8 bs =? 0)) = true) as ->
      by (destruct Hc as [[= ->]|[= ->]]; rewrite Z.eqb_refl; auto using orb_true_r).
    exists ws, tb'. split; [reflexivity|exact Hr'].
  - destruct Hc as (Hn & Hne & Hnz & Hc). destruct (user_pointer_read m e 8) as [bs| |]; simpl in Hn; try discriminate.
    injection Hn as ->. apply Z.eqb_neq in Hne, Hnz. rewrite Hne, Hnz. simpl.
    destruct (IH e' tb' _ fuel Hr' Hc) as (ws' & tb2 & -> & Hr2); [simpl in Hf; lia|].
    exists (ws ++ ws'), tb2. split; [reflexivity|exact Hr2].
Qed.

(** Walking a robust list that leads back to its first entry or to null
    terminates, and lets everybody go on who waits (without
    [FUTEX_PRIVATE_FLAG]) on a futex of the list or on the pending one. *)
Theorem robust_list_terminates m r es tb a fuel :
  futex_rel tb a -> rl_next r <> 0 -> robust_chain m r (rl_next r) es -> (length es < fuel)%nat ->
  exists ws tb', robust_wake_all fuel m r tb = Some (Ret tt, ws, tb') /\
    futex_rel tb' (fs_robust r (rl_next r :: es ++ if rl_list_op_pending r =? 0 then [] else [rl_list_op_pending r]) a).
Proof.
  intros Hr Hn Hc Hf. unfold robust_wake_all. apply Z.eqb_neq in Hn. rewrite Hn.
  destruct (wake_all_loop_rel m r es (rl_next r) tb a fuel Hr Hc Hf) as (ws & tb1 & -> & Hr1).
  destruct (rl_list_op_pending r =? 0); [rewrite app_nil_r; exists ws, tb1; split; [reflexivity|exact Hr1]|].
  destruct (robust_wake tb1 _ r (rl_list_op_pending r) Hr1) as (n & ws' & tb2 & -> & Hr2).
  eexists _, _. split; [reflexivity|]. unfold fs_robust in *. by rewrite app_comm_cons, foldl_app.
Qed.

(** A list whose entries form a cycle that does not contain the first one keeps
    the loop running for ever. *)
Theorem robust_list_cycle m r e1 e2 tb a fuel :
  futex_rel tb a -> next_entry m e1 = Ret e2 -> next_entry m e2 = Ret e1 ->
  e1 <> rl_next r -> e2 <> rl_next r -> e1 <> 0 -> e2 <> 0 ->
  wake_all_loop fuel m r e1 tb = None.
Proof.
  revert e1 e2 tb a. induction fuel as [|fuel IH]; intros e1 e2 tb a Hr H1 H2 Hn1 Hn2 Hz1 Hz2; [done|].
  destruct (robust_wake tb a r e1 Hr) as (n & ws & tb' & E & Hr'). cbn [wake_all_loop]. rewrite E.
  unfold next_entry in H1. destruct (user_pointer_read m e1 8) as [bs| |] eqn:E1; simpl in H1; try discriminate. injection H1 as <-.
  rewrite (proj2 (Z.eqb_neq _ _) Hn2), (proj2 (Z.eqb_neq _ 0) Hz2). simpl.
  erewrite (IH _ e1 tb'); [reflexivity|exact Hr'|done|unfold next_entry; rewrite E1; done|done..].
Qed.
End robust.

(** ** The system call *)

Definition futex_op_bits (op : Z) : Z := Z.land op FUTEX_OP_MASK.
(** No flags but [FUTEX_PRIVATE_FLAG] and [FUTEX_CLOCK_REALTIME]. *)
Definition futex_flags_known (op : Z) : bool := Z.ldiff (Z.land op FUTEX_FLAGS_MASK) 384 =? 0.

Lemma futexop_try_from_ok v :
  0 <= v <= 15 -> if v <=? 10 then exists o, futexop_try_from v = Ret o else futexop_try_from v = Err EINVAL.
Proof.
  intros Hv. assert (v = 0 \/ v = 1 \/ v = 2 \/ v = 3 \/ v = 4 \/ v = 5 \/ v = 6 \/ v = 7 \/ v = 8 \/ v = 9 \/ v = 10 \/
    v = 11 \/ v = 12 \/ v = 13 \/ v = 14 \/ v = 15) as Hd by lia.
  repeat destruct Hd as [-> |Hd]; try subst v; simpl; eauto.
Qed.

Lemma futex_op_bits_range op : 0 <= futex_op_bits op <= 15.
Proof.
  unfold futex_op_bits, FUTEX_OP_MASK. change (Z.land op 0xF) with (Z.land op (Z.ones 4)).
  rewrite Z.land_ones by lia. pose proof (Z.mod_pos_bound op (2 ^ 4)). lia.
Qed.

(** The discriminants. *)
Definition futexop_code (f : FutexOp) : Z :=
  match f with
  | FUTEX_WAIT => 0 | FUTEX_WAKE => 1 | FUTEX_FD => 2 | FUTEX_REQUEUE => 3 | FUTEX_CMP_REQUEUE => 4 | FUTEX_WAKE_OP => 5
  | FUTEX_LOCK_PI => 6 | FUTEX_UNLOCK_PI => 7 | FUTEX_TRYLOCK_PI => 8 | FUTEX_WAIT_BITSET => 9 | FUTEX_WAKE_BITSET => 10
  end.

Lemma futexop_try_from_code v f : 0 <= v <= 15 -> futexop_try_from v = Ret f -> v = futexop_code f.
Proof.
  intros Hv Hf. assert (v = 0 \/ v = 1 \/ v = 2 \/ v = 3 \/ v = 4 \/ v = 5 \/ v = 6 \/ v = 7 \/ v = 8 \/ v = 9 \/ v = 10 \/
    v = 11 \/ v = 12 \/ v = 13 \/ v = 14 \/ v = 15) as Hd by lia.
  repeat destruct Hd as [-> |Hd]; try subst v; simpl in Hf; try discriminate; by injection Hf as <-.
Qed.

Lemma parse_futexop_ok op :
  parse_futexop op =
  if (futex_op_bits op <=? 10) && futex_flags_known op then
    o ← futexop_try_from (futex_op_bits op); Ret (o, Z.land op FUTEX_FLAGS_MASK)
  else Err EINVAL.
Proof.
  unfold parse_futexop, futexflags_from_bits. change (Z.lor FUTEX_PRIVATE FUTEX_CLOCK_REALTIME) with 384.
  fold (futex_op_bits op). fold (futex_flags_known op).
  pose proof (futex_op_bits_range op) as Hb.
  pose proof (futexop_try_from_ok (futex_op_bits op) Hb) as Ho. destruct (futex_op_bits op <=? 10); simpl.
  - destruct Ho as [o ->]. simpl. by destruct (futex_flags_known op).
  - by rewrite Ho.
Qed.

Lemma read_u32_inv m addr :
  match read_u32 m addr with
  | Ret _ => addr <> 0 /\ addr + 4 <= USER_MAX_ADDR /\ mapped m addr 4
  | Err e => e = EFAULT
  | Panic => False
  end.
Proof.
  pose proof (user_pointer_read_inv m addr 4 ltac:(lia)) as Hi. unfold read_u32.
  destruct (user_pointer_read m addr 4); simpl; [|done..]. done.
Qed.

Lemma write_zero_ok m addr v :
  0 <= addr -> read_u32 m addr = Ret v ->
  exists m', user_pointer_write m addr (Z_to_little_endian 4 8 0) = (m', Ret tt) /\ read_u32 m' addr = Ret 0.
Proof.
  intros Ha Hv. pose proof (read_u32_inv m addr) as Hi. rewrite Hv in Hi. destruct Hi as (Hnz & Hle & Hm).
  destruct (user_pointer_roundtrip m addr (Z_to_little_endian 4 8 0)) as (m' & Hw & Hr & _); [lia|exact Hle|done|exact Hm|].
  exists m'. split; [done|]. unfold read_u32. change 4%nat with (length (Z_to_little_endian 4 8 0)). by rewrite Hr.
Qed.

(** What [sys_futex] may answer; [o] is the operation and [known] whether all
    the flags are known. *)
Definition sys_futex_answer `{RBTree FutexItem T} (m : UMem) (h : nat) (thread_count uaddr val o : Z) (known : bool)
    (key : FutexKey) (tb : FutexTable T) (a : FxSpec) (res : outcome (FutexRet * UMem * FutexTable T)) : Prop :=
  match res with
  | Ret (FxBlocked, m', tb') =>
      (o = 0 \/ o = 9) /\ m' = m /\ read_u32 m uaddr = Ret val /\ futex_rel tb' (fs_append key h a)
  | Ret (FxReturn n _, m', tb') =>
      ((o = 1 \/ o = 10) /\ m' = m /\ n = Z.min val (Z.of_nat (length (fs_wait a key))) /\
         futex_rel tb' (fs_take key (Z.to_nat (val + 1)) a)) \/
      ((o = 0 \/ o = 9) /\ val = 2 /\ thread_count <= 1 /\ n = 0 /\ tb' = tb /\ read_u32 m uaddr = Ret 2 /\ read_u32 m' uaddr = Ret 0)
  | Err e =>
      (e = EINVAL /\ (10 < o \/ known = false)) \/
      ((o = 0 \/ o = 9) /\ e = EFAULT /\ forall v, read_u32 m uaddr <> Ret v) \/
      ((o = 0 \/ o = 9) /\ e = EAGAIN /\ exists v, read_u32 m uaddr = Ret v /\ v <> val)
  | Panic => 2 <= o <= 8 /\ known = true
  end.

Section syscall.
Context {T : Type} `{RBTree FutexItem T, !RBTreeLaws FutexItem T}.
Context (m : UMem) (h : nat) (this_pid thread_count uaddr val : Z) (tb : FutexTable T) (a : FxSpec).
Context (Hrel : futex_rel tb a) (Hfresh : fs_fresh a h) (Hpid : is_u32 this_pid) (Huaddr : is_u64 uaddr) (Hval : is_u32 val).

Definition sys_key (flags : Z) : FutexKey := mkFutexKey uaddr (if bf_contains flags FUTEX_PRIVATE then Some this_pid else None).

Lemma sys_key_ok flags : futex_key_ok (sys_key flags).
Proof. split; simpl; [done|]. by destruct (bf_contains _ _). Qed.

Lemma sys_wait_answer o known flags :
  o = 0 \/ o = 9 ->
  sys_futex_answer m h thread_count uaddr val o known (sys_key flags) tb a
    (tb ← futex_wait m h uaddr (fk_pid (sys_key flags)) val tb; Ret (FxBlocked, m, tb)).
Proof.
  intros Ho. pose proof (futex_wait_err tb a m h uaddr (fk_pid (sys_key flags)) val Hrel) as He.
  pose proof (read_u32_inv m uaddr) as Hi. destruct (read_u32 m uaddr) as [v|e|] eqn:Ev; [|subst e|done].
  - destruct (Z.eq_dec v val) as [->|Hne].
    + destruct (futex_wait_rel tb a m h uaddr (fk_pid (sys_key flags)) val) as (tb' & -> & Hr'); [done|apply (sys_key_ok flags)|done..|].
      simpl. done.
    + rewrite He by done. simpl. right. right. rewrite Ev. eauto.
  - rewrite He. simpl. right. left. rewrite Ev. split; [done|]. split; [done|discriminate].
Qed.

Lemma sys_wake_answer o known flags :
  o = 1 \/ o = 10 ->
  sys_futex_answer m h thread_count uaddr val o known (sys_key flags) tb a
    ('(n, ws, tb) ← futex_wake uaddr (fk_pid (sys_key flags)) val tb; Ret (FxReturn n ws, m, tb)).
Proof.
  intros Ho. destruct (futex_wake_rel tb a uaddr (fk_pid (sys_key flags)) val Hrel (sys_key_ok flags) Hval) as (ws & tb' & -> & Hr' & _).
  simpl. left. done.
Qed.

Lemma sys_alone_answer o known flags :
  o = 0 \/ o = 9 -> val = 2 -> thread_count <= 1 -> read_u32 m uaddr = Ret 2 ->
  sys_futex_answer m h thread_count uaddr val o known (sys_key flags) tb a
    match user_pointer_write m uaddr (Z_to_little_endian 4 8 0) with
    | (m, Ret _) => Ret (FxReturn 0 [], m, tb)
    | (_, Err e) => Err e
    | (_, Panic) => Panic
    end.
Proof.
  intros Ho Hv Ht Hr. destruct (write_zero_ok m uaddr 2) as (m' & -> & Hm'); [unfold is_u64 in Huaddr; lia|done|].
  simpl. right. done.
Qed.

Lemma sys_alone_or_wait_answer o known flags :
  o = 0 \/ o = 9 ->
  sys_futex_answer m h thread_count uaddr val o known (sys_key flags) tb a
    (let wait := tb ← futex_wait m h uaddr (fk_pid (sys_key flags)) val tb; Ret (FxBlocked, m, tb) in
     if bf_contains flags FUTEX_PRIVATE && (val =? 2) && (thread_count <=? 1) then
       v ← read_u32 m uaddr;
       if v =? val then
         match user_pointer_write m uaddr (Z_to_little_endian 4 8 0) with
         | (m, Ret _) => Ret (FxReturn 0 [], m, tb)
         | (_, Err e) => Err e
         | (_, Panic) => Panic
         end
       else wait
     else wait).
Proof.
  intros Ho. cbv zeta. pose proof (sys_wait_answer o known flags Ho) as Hw. destruct (bf_contains flags FUTEX_PRIVATE && (val =? 2) && (thread_count <=? 1)) eqn:Ec; [|done].
  apply andb_true_iff in Ec as [[_ Hv%Z.eqb_eq]%andb_true_iff Ht%Z.leb_le]. pose proof (read_u32_inv m uaddr) as Hi.
  destruct (read_u32 m uaddr) as [v|e|] eqn:Ev; [|subst e; simpl; right; left; rewrite Ev; split; [done|]; split; [done|discriminate]|done].
  cbn [mbind outcome_bind]. destruct (Z.eqb_spec v val) as [E|]; [|done]. subst v. rewrite Hv in Ev. by apply sys_alone_answer.
Qed.

End syscall.


(** [FUTEX_WAKE] with limit 1 lets two waiters go on, and says one. *)
Theorem futex_wakes_one_more :
  match futex_wake 0x1000 None 1
    (fx_run fx_exec [FxWait demo_umem 1 0x1000 None 0; FxWait demo_umem 2 0x1000 None 0; FxWait demo_umem 3 0x1000 None 0]
       (futex_table_new (T:=list FutexItem))).2 with
  | Ret (n, _, tb) => n = 1 /\ futex_waiters tb (mkFutexKey 0x1000 None) = [3%nat]
  | _ => False
  end.
Proof. vm_compute. split; reflexivity. Qed.

(** A waiter has released the bucket and is not yet on the list when its waker
    comes: the wake finds nobody, and the waiter sleeps. *)
Theorem futex_lost_wakeup :
  match (
    '(item, tb) ← futex_wait_lookup demo_umem 0x1000 None 0 (futex_table_new (T:=list FutexItem));
    '(n, _, tb) ← futex_wake 0x1000 None 1 tb;
    tb ← futex_wait_enter 1 item tb;
    Ret (n, futex_waiters tb (mkFutexKey 0x1000 None))) with
  | Ret (n, ws) => n = 0 /\ ws = [1%nat]
  | _ => False
  end.
Proof. vm_compute. split; reflexivity. Qed.
