(* ===== verification/Signal.v ===== *)
(** * Signals

    Models crates/posix_types/src/signal (signal.rs, sig_action.rs),
    src/kernel/task/signal.rs, src/kernel/task/signal/signal_action.rs and the
    trap context of crates/dlutos_hal/src/arch/riscv64/trap/trap_context.rs.

    The action lists are behind [Arc]s that threads share, so they live in a
    store and a [SignalList] holds the address of its list.  The heap of pending
    signals is the ascending list of its elements. *)

From Stdlib Require Import Sorted.
From S2P Require Import Prelude Address Io UserMem.

(** ** Signal numbers and sets *)

Definition SIGILL : Z := 4.
Definition SIGBUS : Z := 7.
Definition SIGKILL : Z := 9.
Definition SIGSEGV : Z := 11.
Definition SIGCHLD : Z := 17.
Definition SIGCONT : Z := 18.
Definition SIGSTOP : Z := 19.
Definition SIGTSTP : Z := 20.
Definition SIGTTIN : Z := 21.
Definition SIGTTOU : Z := 22.
Definition SIGURG : Z := 23.
Definition SIGWINCH : Z := 28.
Definition SIGSYS : Z := 31.
Definition SIGNUM_MAX : Z := 64.

Definition signal_try_from_raw (signo : Z) : outcome Z :=
  if signo <? SIGNUM_MAX then Ret signo else Err EINVAL.

(** [SIGNAL_IGNORE!], [SIGNAL_NOW!] and [SIGNAL_STOP!]. *)
Definition signal_ignore (s : Z) : bool := (s =? SIGCHLD) || (s =? SIGURG) || (s =? SIGWINCH).
Definition signal_now (s : Z) : bool := (s =? SIGKILL) || (s =? SIGSTOP).
Definition signal_stop (s : Z) : bool := (s =? SIGSTOP) || (s =? SIGTSTP) || (s =? SIGTTIN) || (s =? SIGTTOU).

(** A set of signals; a shift uses the low six bits of the count. *)
Definition sigset_empty : Z := 0.
Definition sigset_mask (set mask : Z) : Z := Z.lor set mask.
Definition sigset_unmask (set mask : Z) : Z := Z.ldiff set mask.
Definition sigset_from (s : Z) : Z := sigset_mask sigset_empty (Z.shiftl 1 (Z.land (wrap32 (s - 1)) 63)).
Definition sigset_include (set s : Z) : bool := negb (Z.land set (sigset_from s) =? 0).

(** ** Actions *)

Definition SA_SIGINFO : Z := 0x4.
Definition SIG_DFL : Z := 0.
Definition SIG_IGN : Z := 1.

(** [struct sigaction] as user space sees it. *)
Record SigAction := mkSigAction { sa_handler : Z; sa_flags : Z; sa_mask : Z }.

Definition sig_action_default : SigAction := mkSigAction SIG_DFL 0 sigset_empty.
Definition sig_action_ignore : SigAction := mkSigAction SIG_IGN 0 sigset_empty.
Definition sig_action_new : SigAction := mkSigAction 0 0 sigset_empty.
Definition sig_action_handler (a : SigAction) (h : Z) : SigAction := mkSigAction h (sa_flags a) (sa_mask a).
Definition sig_action_restorer (a : SigAction) (_ : Z) : SigAction := a.
Definition sig_action_mask (a : SigAction) (m : Z) : SigAction := mkSigAction (sa_handler a) (sa_flags a) m.

Inductive SignalAction :=
| SADefault
| SAIgnore
| SimpleHandler (handler : Z) (restorer : option Z) (mask : Z) (siginfo : bool).

#[export] Instance SignalAction_eq_dec : EqDecision SignalAction.
Proof. solve_decision. Defined.

Definition signal_action_new : SignalAction := SimpleHandler 0 None sigset_empty false.
Definition signal_action_set_siginfo (a : SignalAction) : outcome SignalAction :=
  match a with SimpleHandler h r m _ => Ret (SimpleHandler h r m true) | _ => Panic end.
Definition signal_action_handler (a : SignalAction) (h : Z) : outcome SignalAction :=
  match a with SimpleHandler _ r m i => Ret (SimpleHandler h r m i) | _ => Panic end.
Definition signal_action_mask (a : SignalAction) (m : Z) : outcome SignalAction :=
  match a with SimpleHandler h r _ i => Ret (SimpleHandler h r m i) | _ => Panic end.

(** [SigAction::try_into]. *)
Definition sig_action_try_into (a : SigAction) : outcome SignalAction :=
  if sa_handler a =? SIG_DFL then Ret SADefault
  else if sa_handler a =? SIG_IGN then Ret SAIgnore
  else
    action ← (if bf_contains (sa_flags a) SA_SIGINFO then signal_action_set_siginfo signal_action_new
              else Ret signal_action_new);
    action ← signal_action_handler action (sa_handler a);
    signal_action_mask action (sa_mask a).

(** [From<SignalAction> for SigAction]. *)
Definition sig_action_from (a : SignalAction) : SigAction :=
  match a with
  | SADefault => sig_action_default
  | SAIgnore => sig_action_ignore
  | SimpleHandler h r m _ =>
      let action := sig_action_mask (sig_action_handler sig_action_new h) m in
      match r with Some r => sig_action_restorer action r | None => action end
  end.

(** ** [SignalActionList], behind an [Arc] *)

Notation ActionStore := (gmap Z (gmap Z SignalAction)).

Definition actions_of (st : ActionStore) (id : Z) : gmap Z SignalAction := default ∅ (st !! id).

Definition actions_set (st : ActionStore) (id s : Z) (a : SignalAction) : ActionStore :=
  match a with
  | SADefault => <[id := delete s (actions_of st id)]> st
  | _ => <[id := <[s := a]> (actions_of st id)]> st
  end.

Definition actions_get (st : ActionStore) (id s : Z) : SignalAction :=
  match actions_of st id !! s with None => SADefault | Some a => a end.

Definition remove_non_ignore (st : ActionStore) (id : Z) : ActionStore :=
  <[id := filter (fun p => p.2 = SAIgnore) (actions_of st id)]> st.

(** ** [SignalList] *)

Record SignalList := mkSigList {
  sl_mask : Z;
  sl_pending : list Z;
  sl_signal_waker : bool;   (** whether there is one *)
  sl_stop_waker : bool;
  sl_actions : Z
}.

Fixpoint pending_push (s : Z) (l : list Z) : list Z :=
  match l with
  | [] => [s]
  | x :: l' => if s <=? x then s :: l else x :: pending_push s l'
  end.

Definition set_sl_mask (l : SignalList) (m : Z) : SignalList :=
  mkSigList m (sl_pending l) (sl_signal_waker l) (sl_stop_waker l) (sl_actions l).
Definition set_pending (l : SignalList) (p : list Z) : SignalList :=
  mkSigList (sl_mask l) p (sl_signal_waker l) (sl_stop_waker l) (sl_actions l).

Definition sl_pop (l : SignalList) : option Z * SignalList :=
  match sl_pending l with
  | [] => (None, l)
  | s :: rest => (Some s, set_pending l rest)
  end.

(** Whom [raise] wakes up. *)
Inductive Woken := WokeNone | WokeStopped | WokeSignal.

Definition sl_raise (st : ActionStore) (l : SignalList) (s : Z) : SignalList * Woken :=
  match actions_get st (sl_actions l) s with
  | SAIgnore => (l, WokeNone)
  | a =>
      if signal_ignore s && match a with SADefault => true | _ => false end then (l, WokeNone)
      else
        let l := set_pending (set_sl_mask l (sigset_mask (sl_mask l) (sigset_from s)))
                   (pending_push s (sl_pending l)) in
        if s =? SIGCONT then
          (mkSigList (sl_mask l) (sl_pending l) (sl_signal_waker l) false (sl_actions l),
           if sl_stop_waker l then WokeStopped else WokeNone)
        else
          (mkSigList (sl_mask l) (sl_pending l) false (sl_stop_waker l) (sl_actions l),
           if sl_signal_waker l then WokeSignal else WokeNone)
  end.

Definition sl_new (st : ActionStore) (id : Z) : ActionStore * SignalList :=
  (<[id := ∅]> st, mkSigList sigset_empty [] false false id).

Definition sl_set_action (st : ActionStore) (l : SignalList) (s : Z) (a : SignalAction) : outcome ActionStore :=
  if signal_now s then Err EINVAL else Ret (actions_set st (sl_actions l) s a).
Definition sl_get_action (st : ActionStore) (l : SignalList) (s : Z) : SignalAction := actions_get st (sl_actions l) s.

Definition sl_set_signal_waker (l : SignalList) (w : bool) : SignalList :=
  mkSigList (sl_mask l) (sl_pending l) w (sl_stop_waker l) (sl_actions l).
Definition sl_clear_non_ignore (st : ActionStore) (l : SignalList) : ActionStore := remove_non_ignore st (sl_actions l).
Definition sl_clear_pending (l : SignalList) : SignalList := set_pending l [].
Definition sl_has_pending_signal (l : SignalList) : bool := match sl_pending l with [] => false | _ => true end.

(** [new_cloned] copies the actions to a new list at [id]; [new_shared] and
    [clone] keep the [Arc]. *)
Definition sl_new_cloned (st : ActionStore) (id : Z) (l : SignalList) : ActionStore * SignalList :=
  (<[id := actions_of st (sl_actions l)]> st, mkSigList (sl_mask l) [] false false id).
Definition sl_new_shared (l : SignalList) : SignalList := mkSigList (sl_mask l) [] false false (sl_actions l).

(** ** The trap context *)

Record Registers := mkRegs {
  r_tp : Z; r_ra : Z; r_sp : Z; r_gp : Z; r_a0 : Z; r_a1 : Z; r_a2 : Z; r_a3 : Z; r_a4 : Z; r_t1 : Z;
  r_a5 : Z; r_a6 : Z; r_a7 : Z; r_t3 : Z; r_t4 : Z; r_t5 : Z; r_t2 : Z; r_t6 : Z;
  r_s0 : Z; r_s1 : Z; r_s2 : Z; r_s3 : Z; r_s4 : Z; r_s5 : Z; r_s6 : Z; r_s7 : Z; r_s8 : Z; r_s9 : Z;
  r_s10 : Z; r_s11 : Z; r_t0 : Z
}.

Record TrapContext := mkTrap { tc_regs : Registers; tc_sstatus : Z; tc_sepc : Z; tc_scause : Z; tc_stval : Z }.

Definition get_stack_pointer (c : TrapContext) : Z := r_sp (tc_regs c).

(** [SPIE] and [SPP] of the status register. *)
Definition is_interrupt_enabled (c : TrapContext) : bool := Z.testbit (tc_sstatus c) 5.
Definition is_user_mode (c : TrapContext) : bool := negb (Z.testbit (tc_sstatus c) 8).

Definition set_user_call_frame (c : TrapContext) (pc : Z) (sp ra : option Z) (args : list Z) : TrapContext :=
  let r := tc_regs c in
  mkTrap (mkRegs (r_tp r) (default (r_ra r) ra) (default (r_sp r) sp) (r_gp r)
            (default (r_a0 r) (args !! 0%nat)) (default (r_a1 r) (args !! 1%nat)) (default (r_a2 r) (args !! 2%nat))
            (default (r_a3 r) (args !! 3%nat)) (default (r_a4 r) (args !! 4%nat)) (r_t1 r)
            (default (r_a5 r) (args !! 5%nat)) (r_a6 r) (r_a7 r) (r_t3 r) (r_t4 r) (r_t5 r) (r_t2 r) (r_t6 r)
            (r_s0 r) (r_s1 r) (r_s2 r) (r_s3 r) (r_s4 r) (r_s5 r) (r_s6 r) (r_s7 r) (r_s8 r) (r_s9 r)
            (r_s10 r) (r_s11 r) (r_t0 r))
    (tc_sstatus c) pc (tc_scause c) (tc_stval c).

Definition set_user_return_value (c : TrapContext) (v : Z) : TrapContext :=
  set_user_call_frame c (tc_sepc c) None None [v].

(** The layout in memory ([repr(C)]): the words in order, then the padding to
    the alignment of 16 bytes. *)
Definition regs_words (r : Registers) : list Z :=
  [r_tp r; r_ra r; r_sp r; r_gp r; r_a0 r; r_a1 r; r_a2 r; r_a3 r; r_a4 r; r_t1 r;
   r_a5 r; r_a6 r; r_a7 r; r_t3 r; r_t4 r; r_t5 r; r_t2 r; r_t6 r;
   r_s0 r; r_s1 r; r_s2 r; r_s3 r; r_s4 r; r_s5 r; r_s6 r; r_s7 r; r_s8 r; r_s9 r; r_s10 r; r_s11 r; r_t0 r].

Definition tc_words (c : TrapContext) : list Z :=
  regs_words (tc_regs c) ++ [tc_sstatus c; tc_sepc c; tc_scause c; tc_stval c].

Definition regs_of_words (w : nat -> Z) : Registers :=
  mkRegs (w 0%nat) (w 1%nat) (w 2%nat) (w 3%nat) (w 4%nat) (w 5%nat) (w 6%nat) (w 7%nat) (w 8%nat) (w 9%nat)
    (w 10%nat) (w 11%nat) (w 12%nat) (w 13%nat) (w 14%nat) (w 15%nat) (w 16%nat) (w 17%nat)
    (w 18%nat) (w 19%nat) (w 20%nat) (w 21%nat) (w 22%nat) (w 23%nat) (w 24%nat) (w 25%nat) (w 26%nat) (w 27%nat)
    (w 28%nat) (w 29%nat) (w 30%nat).

Definition tc_of_words (w : nat -> Z) : TrapContext :=
  mkTrap (regs_of_words w) (w 31%nat) (w 32%nat) (w 33%nat) (w 34%nat).

(** Little-endian words. *)
Fixpoint le_bytes (n : nat) (w : Z) : list Z :=
  match n with O => [] | S n' => w mod 256 :: le_bytes n' (w / 256) end.
Fixpoint le_word (bs : list Z) : Z := match bs with [] => 0 | b :: bs => b + 256 * le_word bs end.

Definition word_at (bs : list Z) (i : nat) : Z := le_word (take 8 (drop (8 * i) bs)).

Definition SIZE_TRAP_CONTEXT : nat := 288.
Definition SIZE_FPU_STATE : nat := 264.
Definition SIZE_SIGSET : nat := 8.
Definition SAVED_DATA_SIZE : nat := SIZE_TRAP_CONTEXT + SIZE_FPU_STATE + SIZE_SIGSET.

Definition tc_bytes (c : TrapContext) : list Z := concat (le_bytes 8 <$> tc_words c) ++ replicate 8 0.
Definition tc_of_bytes (bs : list Z) : TrapContext := tc_of_words (word_at bs).

(** ** Calling a handler and returning from it

    The state of the floating-point unit is its [SIZE_FPU_STATE] bytes. *)

Section handlers.
Context (vdso_rt_sigreturn : Z).

(** Copy an object into the buffer, all of it or [EFAULT]. *)
Definition copy_object (m : UMem) (b : UserBuffer) (bytes : list Z) : UMem * outcome UserBuffer :=
  let (m, r) := ub_fill m b bytes in
  (m, '(r, b) ← r; fill_ok_or r EFAULT;; Ret b).

Definition save_frame (m : UMem) (addr : Z) (ctx : TrapContext) (fpu : list Z) (old_mask : Z) : UMem * outcome unit :=
  match user_buffer_new addr SAVED_DATA_SIZE with
  | Ret b =>
      match copy_object m b (tc_bytes ctx) with
      | (m, Ret b) =>
          match copy_object m b fpu with
          | (m, Ret b) => let (m, r) := copy_object m b (le_bytes 8 old_mask) in (m, r;; Ret tt)
          | (m, Err e) => (m, Err e)
          | (m, Panic) => (m, Panic)
          end
      | (m, Err e) => (m, Err e)
      | (m, Panic) => (m, Panic)
      end
  | Err e => (m, Err e)
  | Panic => (m, Panic)
  end.

(** [SignalAction::handle]. *)
Definition action_handle (a : SignalAction) (s old_mask : Z) (m : UMem) (ctx : TrapContext) (fpu : list Z)
  : UMem * outcome TrapContext :=
  match a with
  | SimpleHandler handler restorer _ siginfo =>
      let saved_data_addr := floor_to (addr_sub (get_stack_pointer ctx) (Z.of_nat SAVED_DATA_SIZE)) 16 in
      let (m, r) := save_frame m saved_data_addr ctx fpu old_mask in
      (m, r;;
          let return_address := default vdso_rt_sigreturn restorer in
          Ret (set_user_call_frame ctx handler (Some saved_data_addr) (Some return_address)
                 (take (if siginfo then 3 else 1) [s; 0; 0])))
  | _ => (m, Panic)
  end.

(** [SignalList::restore]: the context, the floating-point state and the mask.
    A failure may have replaced the context already. *)
Definition sl_restore (l : SignalList) (m : UMem) (ctx : TrapContext) (fpu : list Z)
  : TrapContext * list Z * SignalList * outcome unit :=
  let old_trap_ctx_vaddr := get_stack_pointer ctx in
  let old_fpu_state_vaddr := wrap64 (old_trap_ctx_vaddr + Z.of_nat SIZE_TRAP_CONTEXT) in
  let old_mask_vaddr := wrap64 (old_fpu_state_vaddr + Z.of_nat SIZE_FPU_STATE) in
  match user_pointer_read m old_trap_ctx_vaddr SIZE_TRAP_CONTEXT with
  | Ret bs =>
      let ctx := tc_of_bytes bs in
      if negb (is_user_mode ctx) || negb (is_interrupt_enabled ctx) then (ctx, fpu, l, Err EFAULT)
      else
        match user_pointer_read m old_fpu_state_vaddr SIZE_FPU_STATE with
        | Ret fpu =>
            match user_pointer_read m old_mask_vaddr SIZE_SIGSET with
            | Ret bs => (ctx, fpu, set_sl_mask l (le_word bs), Ret tt)
            | Err e => (ctx, fpu, l, Err e)
            | Panic => (ctx, fpu, l, Panic)
            end
        | Err e => (ctx, fpu, l, Err e)
        | Panic => (ctx, fpu, l, Panic)
        end
  | Err e => (ctx, fpu, l, Err e)
  | Panic => (ctx, fpu, l, Panic)
  end.

(** ** Handling pending signals *)

(** What the thread has at hand. *)
Record SigTask := mkSigTask { st_list : SignalList; st_mem : UMem; st_ctx : TrapContext; st_fpu : list Z }.

Definition set_list (t : SigTask) (l : SignalList) : SigTask := mkSigTask l (st_mem t) (st_ctx t) (st_fpu t).

Inductive HandleStep :=
| HReturn              (** back to user space *)
| HContinue            (** look at the next signal *)
| HStopped (s : Z)     (** the thread is stopped and tells its parent *)
| HKilled (s : Z).     (** [force_kill] *)

(** One round of the loop of [SignalList::handle]. *)
Definition handle_iter (st : ActionStore) (t : SigTask) : outcome (SigTask * HandleStep) :=
  match sl_pop (st_list t) with
  | (None, _) => Ret (t, HReturn)
  | (Some s, l) =>
      match actions_get st (sl_actions l) s with
      | SimpleHandler _ _ mask _ as action =>
          let old_mask := sl_mask l in
          let l := set_sl_mask l (sigset_mask old_mask mask) in
          match action_handle action s old_mask (st_mem t) (st_ctx t) (st_fpu t) with
          | (m, Ret ctx) => Ret (mkSigTask l m ctx (st_fpu t), HReturn)
          | (m, Err e) =>
              let l := set_sl_mask l old_mask in
              let (l, _) := sl_raise st l (if e =? EFAULT then SIGSEGV else SIGSYS) in
              Ret (mkSigTask l m (st_ctx t) (st_fpu t), HContinue)
          | (m, Panic) => Panic
          end
      | _ =>
          let l := set_sl_mask l (sigset_unmask (sl_mask l) (sigset_from s)) in
          if signal_ignore s then Ret (set_list t l, HContinue)
          else if s =? SIGCONT then Ret (set_list t l, HContinue)
          else if signal_stop s then
            (* the thread blocks; [stop_waker] must not be set *)
            assert_ (negb (sl_stop_waker l));;
            Ret (set_list t (mkSigList (sl_mask l) (sl_pending l) (sl_signal_waker l) true (sl_actions l)), HStopped s)
          else Ret (set_list t l, HKilled s)
      end
  end.

(** The loop, until it returns or the thread stops; [None] when out of fuel. *)
Fixpoint handle_loop (fuel : nat) (st : ActionStore) (t : SigTask) : option (outcome (SigTask * HandleStep)) :=
  match fuel with
  | O => None
  | S n =>
      match handle_iter st t with
      | Ret (t, HContinue) => handle_loop n st t
      | r => Some r
      end
  end.
End handlers.

(** ** The saved frame *)

Lemma length_le_bytes n w : length (le_bytes n w) = n.
Proof. revert w. induction n; intros; simpl; [done|by f_equal]. Qed.

Lemma le_word_bytes n w : 0 <= w < 256 ^ Z.of_nat n -> le_word (le_bytes n w) = w.
Proof.
  revert w. induction n as [|n IH]; intros w Hw; simpl; [simpl in Hw; lia|].
  replace (256 ^ Z.of_nat (S n)) with (256 * 256 ^ Z.of_nat n) in Hw by (rewrite <- Z.pow_succ_r by lia; f_equal; lia).
  rewrite IH; [pose proof (Z.div_mod w 256); lia|]. split; [apply Z.div_pos; lia|]. apply Z.div_lt_upper_bound; lia.
Qed.

Lemma word_at_words ws pad i w :
  Forall is_u64 ws -> ws !! i = Some w -> word_at (concat (le_bytes 8 <$> ws) ++ pad) i = w.
Proof.
  intros Hall. revert i. induction Hall as [|x ws Hx Hall IH]; intros i Hi; [done|]. unfold word_at in *.
  rewrite fmap_cons. cbn [concat]. rewrite <- app_assoc. destruct i as [|i]; simpl in Hi.
  - injection Hi as ->. rewrite Nat.mul_0_r, drop_0, take_app_le by (rewrite length_le_bytes; lia).
    rewrite take_ge by (rewrite length_le_bytes; lia). by apply le_word_bytes.
  - rewrite <- (IH i Hi). f_equal. f_equal. rewrite drop_app_ge by (rewrite length_le_bytes; lia). f_equal.
    rewrite length_le_bytes. lia.
Qed.

Definition ctx_ok (c : TrapContext) : Prop := Forall is_u64 (tc_words c).

Lemma tc_roundtrip c : ctx_ok c -> tc_of_bytes (tc_bytes c) = c.
Proof.
  intros Hc. unfold tc_of_bytes, tc_bytes.
  assert (forall i w, tc_words c !! i = Some w -> word_at (concat (le_bytes 8 <$> tc_words c) ++ replicate 8 0) i = w) as Hw
    by (intros; by apply word_at_words).
  set (f := word_at _) in *. clearbody f. destruct c as [r a b d e]. destruct r. unfold tc_of_words, regs_of_words.
  rewrite (Hw 0%nat _ eq_refl), (Hw 1%nat _ eq_refl), (Hw 2%nat _ eq_refl), (Hw 3%nat _ eq_refl), (Hw 4%nat _ eq_refl),
    (Hw 5%nat _ eq_refl), (Hw 6%nat _ eq_refl), (Hw 7%nat _ eq_refl), (Hw 8%nat _ eq_refl), (Hw 9%nat _ eq_refl),
    (Hw 10%nat _ eq_refl), (Hw 11%nat _ eq_refl), (Hw 12%nat _ eq_refl), (Hw 13%nat _ eq_refl), (Hw 14%nat _ eq_refl),
    (Hw 15%nat _ eq_refl), (Hw 16%nat _ eq_refl), (Hw 17%nat _ eq_refl), (Hw 18%nat _ eq_refl), (Hw 19%nat _ eq_refl),
    (Hw 20%nat _ eq_refl), (Hw 21%nat _ eq_refl), (Hw 22%nat _ eq_refl), (Hw 23%nat _ eq_refl), (Hw 24%nat _ eq_refl),
    (Hw 25%nat _ eq_refl), (Hw 26%nat _ eq_refl), (Hw 27%nat _ eq_refl), (Hw 28%nat _ eq_refl), (Hw 29%nat _ eq_refl),
    (Hw 30%nat _ eq_refl), (Hw 31%nat _ eq_refl), (Hw 32%nat _ eq_refl), (Hw 33%nat _ eq_refl), (Hw 34%nat _ eq_refl).
  reflexivity.
Qed.

Lemma length_concat_words ws : length (concat (le_bytes 8 <$> ws)) = (8 * length ws)%nat.
Proof. induction ws as [|w ws IH]; [done|]. rewrite fmap_cons. cbn [concat]. rewrite length_app, length_le_bytes, IH. simpl. lia. Qed.

Lemma length_tc_bytes c : length (tc_bytes c) = SIZE_TRAP_CONTEXT.
Proof. unfold tc_bytes. rewrite length_app, length_concat_words, length_replicate. by destruct c as [[] ? ? ? ?]. Qed.

Lemma copy_object_ok m base b bytes :
  ub_ok m base b -> bytes <> [] -> (length bytes <= ub_remaining b)%nat ->
  exists m' b', copy_object m b bytes = (m', Ret b') /\ ub_ok m' base b' /\ ub_size b' = ub_size b /\
    ub_cur b' = (ub_cur b + length bytes)%nat /\
    bytes_at m' base (ub_cur b') = bytes_at m base (ub_cur b) ++ bytes /\
    (forall a, ~ base <= a < base + Z.of_nat (ub_size b) -> m' !! a = m !! a).
Proof.
  intros Hok Hne Hlen. unfold copy_object.
  destruct (ub_fill_ok m base b bytes Hok Hne) as (m' & r & b' & -> & Hok' & Hs & Hc & Hr & Hstop & Hb & Hout).
  cbn [mbind outcome_bind]. destruct r as [n|n|]; simpl in Hstop, Hr, Hc; try (exfalso; apply Hstop in Hlen; done).
  cbn [fill_ok_or mbind outcome_bind]. exists m', b'. split; [done|]. split; [done|]. split; [done|].
  split; [lia|]. split; [by rewrite Hb, (take_ge bytes) by lia|].
  intros a Ha. apply Hout. destruct Hok' as (Hc' & _). lia.
Qed.

Ltac frame_sizes :=
  unfold ub_remaining, SAVED_DATA_SIZE, SIZE_TRAP_CONTEXT, SIZE_FPU_STATE, SIZE_SIGSET in *; cbn [ub_size ub_cur] in *.

Lemma save_frame_ok m addr ctx fpu mask :
  0 < addr -> addr + Z.of_nat SAVED_DATA_SIZE <= USER_MAX_ADDR -> mapped m addr SAVED_DATA_SIZE ->
  length fpu = SIZE_FPU_STATE ->
  exists m', save_frame m addr ctx fpu mask = (m', Ret tt) /\ mapped m' addr SAVED_DATA_SIZE /\
    bytes_at m' addr SAVED_DATA_SIZE = tc_bytes ctx ++ fpu ++ le_bytes 8 mask /\
    (forall a, ~ addr <= a < addr + Z.of_nat SAVED_DATA_SIZE -> m' !! a = m !! a).
Proof.
  intros Ha Hl Hm Hf. unfold save_frame, user_buffer_new. rewrite checked_new_ok by done. cbn [mbind outcome_bind].
  pose (b0 := mkUserBuffer (mkUserPtr addr SAVED_DATA_SIZE) SAVED_DATA_SIZE 0). fold b0.
  pose proof (length_tc_bytes ctx) as Htc. pose proof (length_le_bytes 8 mask) as Hmk.
  assert (ub_ok m addr b0) as Hok0 by (split_and!; simpl; lia || done).
  destruct (copy_object_ok m addr b0 (tc_bytes ctx) Hok0) as (m1 & b1 & -> & Hok1 & Hs1 & Hc1 & Hb1 & Ho1);
    [intros E; rewrite E in Htc; done|rewrite Htc; unfold b0; frame_sizes; lia|].
  rewrite Htc in Hc1. cbn [b0 ub_size ub_cur] in Hs1, Hc1, Hb1, Ho1.
  destruct (copy_object_ok m1 addr b1 fpu Hok1) as (m2 & b2 & -> & Hok2 & Hs2 & Hc2 & Hb2 & Ho2);
    [intros ->; done|rewrite Hf; unfold ub_remaining; rewrite Hs1, Hc1; frame_sizes; lia|].
  rewrite Hf in Hc2. rewrite Hs1 in Hs2, Ho2.
  destruct (copy_object_ok m2 addr b2 (le_bytes 8 mask) Hok2) as (m3 & b3 & -> & Hok3 & Hs3 & Hc3 & Hb3 & Ho3);
    [done|rewrite Hmk; unfold ub_remaining; rewrite Hs2, Hc2, Hc1; frame_sizes; lia|].
  cbn [mbind outcome_bind]. exists m3. rewrite Hs2 in Hs3, Ho3. split; [done|].
  assert (ub_cur b3 = SAVED_DATA_SIZE) as Hc3'.
  { rewrite Hc3, Hc2, Hc1, Hmk. unfold SAVED_DATA_SIZE, SIZE_SIGSET. lia. }
  split; [rewrite <- Hs3; apply Hok3|]. split.
  - rewrite <- Hc3', Hb3, Hb2, Hb1. change (bytes_at m addr 0) with (@nil Z). by rewrite app_nil_l, <- app_assoc.
  - intros a Hout. by rewrite Ho3, Ho2, Ho1.
Qed.

Lemma user_pointer_read_ok m addr n :
  0 < addr -> addr + Z.of_nat n <= USER_MAX_ADDR -> (0 < n)%nat -> mapped m addr n ->
  user_pointer_read m addr n = Ret (bytes_at m addr n).
Proof.
  intros Ha Hl Hn Hm. unfold user_pointer_read. rewrite checked_new_ok by done. cbn [mbind outcome_bind].
  by rewrite up_read_ok by (simpl; done || lia).
Qed.

Lemma mapped_sub m a n k j : (k + j <= n)%nat -> mapped m a n -> mapped m (a + Z.of_nat k) j.
Proof. intros Hk Hm i Hi. replace (a + Z.of_nat k + Z.of_nat i) with (a + Z.of_nat (k + i)) by lia. apply Hm. lia. Qed.

(** Reading the parts of a saved frame. *)
Lemma restore_frame l m addr ctx fpu mask ctx2 fpu2 :
  0 < addr -> addr + Z.of_nat SAVED_DATA_SIZE <= USER_MAX_ADDR -> mapped m addr SAVED_DATA_SIZE ->
  ctx_ok ctx -> is_user_mode ctx = true -> is_interrupt_enabled ctx = true -> length fpu = SIZE_FPU_STATE -> is_u64 mask ->
  bytes_at m addr SAVED_DATA_SIZE = tc_bytes ctx ++ fpu ++ le_bytes 8 mask -> get_stack_pointer ctx2 = addr ->
  sl_restore l m ctx2 fpu2 = (ctx, fpu, set_sl_mask l mask, Ret tt).
Proof.
  intros Ha Hl Hm Hctx Hum Hie Hf Hmask Hb Hsp. unfold sl_restore. rewrite Hsp. unfold USER_MAX_ADDR in *.
  unfold SAVED_DATA_SIZE in *. rewrite !bytes_at_app in Hb. pose proof (length_tc_bytes ctx) as Htc.
  rewrite <- app_assoc in Hb. apply app_inj_1 in Hb as [Hb1 Hb]; [|by rewrite length_bytes_at].
  apply app_inj_1 in Hb as [Hb2 Hb3]; [|by rewrite length_bytes_at].
  assert (wrap64 (addr + Z.of_nat SIZE_TRAP_CONTEXT) = addr + Z.of_nat SIZE_TRAP_CONTEXT) as ->
    by (apply wrap64_small; unfold is_u64; lia).
  assert (wrap64 (addr + Z.of_nat SIZE_TRAP_CONTEXT + Z.of_nat SIZE_FPU_STATE) = addr + Z.of_nat (SIZE_TRAP_CONTEXT + SIZE_FPU_STATE)) as ->
    by (rewrite wrap64_small; [lia|unfold is_u64; lia]).
  rewrite user_pointer_read_ok; [|done|unfold USER_MAX_ADDR; lia|unfold SIZE_TRAP_CONTEXT; lia|by eapply mapped_le; [|done]; lia].
  rewrite Hb1, tc_roundtrip by done. rewrite Hum, Hie. cbn [negb orb].
  rewrite user_pointer_read_ok; [|lia|unfold USER_MAX_ADDR; lia|unfold SIZE_FPU_STATE; lia|by eapply mapped_sub; [|done]; lia].
  rewrite Hb2.
  rewrite user_pointer_read_ok; [|lia|unfold USER_MAX_ADDR; lia|unfold SIZE_SIGSET; lia|by eapply mapped_sub; [|done]; lia].
  rewrite Hb3, le_word_bytes by done. done.
Qed.

(** Where the frame goes. *)
Definition frame_addr (ctx : TrapContext) : Z :=
  floor_to (addr_sub (get_stack_pointer ctx) (Z.of_nat SAVED_DATA_SIZE)) 16.

Lemma frame_addr_ok ctx :
  Z.of_nat SAVED_DATA_SIZE + 16 <= get_stack_pointer ctx <= USER_MAX_ADDR ->
  0 < frame_addr ctx /\ frame_addr ctx + Z.of_nat SAVED_DATA_SIZE <= get_stack_pointer ctx /\ frame_addr ctx mod 16 = 0.
Proof.
  intros Hsp. unfold frame_addr, addr_sub. unfold USER_MAX_ADDR in Hsp. frame_sizes.
  rewrite wrap64_small by (unfold is_u64; lia).
  destruct (floor_to_spec (get_stack_pointer ctx - Z.of_nat (288 + 264 + 8)) 16) as [H1 H2]; [unfold is_u64; lia|lia|].
  split; [lia|]. split; [lia|done].
Qed.

(** C29: delivering a signal to a handler and [rt_sigreturn] are inverse.  With
    room on a mapped stack, the thread continues at the handler with the signal
    number as its argument, the return address of the restorer (or of the vdso)
    and an aligned stack below its old one, no memory outside the frame has
    changed, and a restore at the same stack pointer brings the registers, the
    floating-point state and the signal mask back, whatever the handler did to
    registers and to memory outside the frame. *)
Theorem signal_frame_roundtrip vdso handler restorer mask siginfo s old_mask m ctx fpu :
  Z.of_nat SAVED_DATA_SIZE + 16 <= get_stack_pointer ctx <= USER_MAX_ADDR ->
  mapped m (frame_addr ctx) SAVED_DATA_SIZE ->
  ctx_ok ctx -> is_user_mode ctx = true -> is_interrupt_enabled ctx = true ->
  length fpu = SIZE_FPU_STATE -> is_u64 old_mask ->
  exists m' ctx',
    action_handle vdso (SimpleHandler handler restorer mask siginfo) s old_mask m ctx fpu = (m', Ret ctx') /\
    get_stack_pointer ctx' = frame_addr ctx /\ frame_addr ctx mod 16 = 0 /\
    frame_addr ctx + Z.of_nat SAVED_DATA_SIZE <= get_stack_pointer ctx /\
    tc_sepc ctx' = handler /\ r_a0 (tc_regs ctx') = s /\ r_ra (tc_regs ctx') = default vdso restorer /\
    tc_sstatus ctx' = tc_sstatus ctx /\
    (forall a, ~ frame_addr ctx <= a < frame_addr ctx + Z.of_nat SAVED_DATA_SIZE -> m' !! a = m !! a) /\
    forall l m2 ctx2 fpu2,
      (forall i, (i < SAVED_DATA_SIZE)%nat -> m2 !! (frame_addr ctx + Z.of_nat i) = m' !! (frame_addr ctx + Z.of_nat i)) ->
      get_stack_pointer ctx2 = frame_addr ctx ->
      sl_restore l m2 ctx2 fpu2 = (ctx, fpu, set_sl_mask l old_mask, Ret tt).
Proof.
  intros Hsp Hm Hctx Hum Hie Hf Hmask. destruct (frame_addr_ok ctx Hsp) as (Ha & Hl & Hal).
  destruct (save_frame_ok m (frame_addr ctx) ctx fpu old_mask Ha ltac:(lia) Hm Hf) as (m' & Hs & Hm' & Hb & Hout).
  exists m', (set_user_call_frame ctx handler (Some (frame_addr ctx)) (Some (default vdso restorer)) (take (if siginfo then 3 else 1) [s; 0; 0])).
  split; [unfold action_handle; fold (frame_addr ctx); by rewrite Hs|].
  do 3 (split; [done|]). split; [done|]. split; [by destruct siginfo|]. do 2 (split; [done|]). split; [done|].
  intros l m2 ctx2 fpu2 Hkeep Hsp2. apply (restore_frame l m2 (frame_addr ctx)); try done; [lia| |].
  - intros i Hi. rewrite Hkeep by done. by apply Hm'.
  - by rewrite <- Hb; apply bytes_at_ext.
Qed.

Definition demo_regs (sp : Z) : Registers :=
  mkRegs 1 2 sp 4 5 6 7 8 9 10 11 12 13 14 15 16 17 18 19 20 21 22 23 24 25 26 27 28 29 30 31.
Definition demo_ctx : TrapContext := mkTrap (demo_regs 0x1400) 0x20 0x500 8 0.
Definition demo_stack : UMem := list_to_map ((fun x => (x, 0)) <$> seqZ 0x1000 0x400).

Lemma demo_stack_mapped a n : 0x1000 <= a -> a + Z.of_nat n <= 0x1400 -> mapped demo_stack a n.
Proof.
  intros H1 H2 i Hi. exists 0. apply elem_of_list_to_map_1.
  - rewrite <- list_fmap_compose. apply NoDup_fmap; [by intros ? ?|apply NoDup_seqZ].
  - apply list_elem_of_fmap. exists (a + Z.of_nat i). split; [done|]. apply elem_of_seqZ. lia.
Qed.

Lemma demo_ctx_ok : ctx_ok demo_ctx.
Proof. unfold ctx_ok, is_u64. repeat constructor; vm_compute; discriminate. Qed.

Lemma signal_frame_roundtrip_witness :
  exists m' ctx',
    action_handle 0x7000 (SimpleHandler 0x600 None 0 false) SIGCHLD 3 demo_stack demo_ctx (replicate SIZE_FPU_STATE 1) = (m', Ret ctx') /\
    forall l, sl_restore l m' ctx' [] = (demo_ctx, replicate SIZE_FPU_STATE 1, set_sl_mask l 3, Ret tt).
Proof.
  destruct (signal_frame_roundtrip 0x7000 0x600 None 0 false SIGCHLD 3 demo_stack demo_ctx (replicate SIZE_FPU_STATE 1))
    as (m' & ctx' & Hh & Hsp & _ & _ & _ & _ & _ & _ & _ & Hr).
  - split; vm_compute; discriminate.
  - apply demo_stack_mapped; vm_compute; discriminate.
  - exact demo_ctx_ok.
  - reflexivity.
  - reflexivity.
  - apply length_replicate.
  - split; [discriminate|reflexivity].
  - exists m', ctx'. split; [exact Hh|]. intros l. apply Hr; [reflexivity|exact Hsp].
Defined.

(** ** Handling terminates *)

Definition ub_inv (b : UserBuffer) : Prop :=
  (ub_cur b <= ub_size b)%nat /\ up_len (ub_ptr b) = (ub_size b - ub_cur b)%nat.

Lemma copy_object_total m b bytes :
  ub_inv b -> match (copy_object m b bytes).2 with Ret b' => ub_inv b' | Err _ => True | Panic => False end.
Proof.
  intros [Hc Hl]. unfold copy_object, ub_fill, ub_remaining, up_write. rewrite Hl.
  set (n := Nat.min (length bytes) (ub_size b - ub_cur b)).
  destruct (Nat.eqb_spec n 0); [done|]. assert (length (take n bytes) = n) as -> by (rewrite length_take; lia).
  destruct (Nat.ltb_spec (ub_size b - ub_cur b) n); [done|]. destruct (Nat.eqb_spec n 0); [lia|].
  destruct (store_loop _ _ _) as [m' e]. destruct (negb (e =? 0)%nat); [done|]. cbn [mbind outcome_bind].
  unfold up_forward. rewrite Hl. destruct (Nat.leb_spec n (ub_size b - ub_cur b)); [|lia].
  cbn [assert_ mbind outcome_bind]. destruct (n =? length bytes)%nat; [|done]. simpl. split; simpl; lia.
Qed.

Lemma save_frame_total m addr ctx fpu mask : (save_frame m addr ctx fpu mask).2 <> Panic.
Proof.
  unfold save_frame, user_buffer_new. destruct (checked_new addr SAVED_DATA_SIZE) as [p|e|] eqn:Hn.
  2: done. 2: (unfold checked_new in Hn; repeat case_match; done).
  assert (ub_inv (mkUserBuffer p SAVED_DATA_SIZE 0)) as H0.
  { unfold checked_new in Hn. repeat case_match; try done. injection Hn as <-. split; [apply Nat.le_0_l|done]. }
  cbn [mbind outcome_bind]. pose proof (copy_object_total m _ (tc_bytes ctx) H0) as H1.
  destruct (copy_object _ _ _) as [m1 [b1|e|]]; try done. simpl in H1.
  pose proof (copy_object_total m1 b1 fpu H1) as H2.
  destruct (copy_object _ _ _) as [m2 [b2|e|]]; try done. simpl in H2.
  pose proof (copy_object_total m2 b2 (le_bytes 8 mask) H2) as H3.
  by destruct (copy_object _ _ _) as [m3 [b3|e|]].
Qed.

Lemma action_handle_total vdso h r k i s old_mask m ctx fpu :
  (action_handle vdso (SimpleHandler h r k i) s old_mask m ctx fpu).2 <> Panic.
Proof.
  unfold action_handle. pose proof (save_frame_total m (frame_addr ctx) ctx fpu old_mask) as Hs. unfold frame_addr in Hs.
  by destruct (save_frame _ _ _ _ _) as [m' [[]|e|]].
Qed.

Definition is_handler (a : SignalAction) : bool := match a with SimpleHandler _ _ _ _ => true | _ => false end.

(** How many rounds a pending signal can cost: a handler whose frame cannot be
    written raises another signal. *)
Definition weight (st : ActionStore) (id : Z) (p : list Z) : nat :=
  sum_list_with (fun s => if is_handler (actions_get st id s) then 2%nat else 1%nat) p.

Lemma weight_push st id s p :
  weight st id (pending_push s p) = ((if is_handler (actions_get st id s) then 2 else 1) + weight st id p)%nat.
Proof. unfold weight. induction p as [|x p IH]; simpl; [done|]. destruct (s <=? x); simpl; [done|]. rewrite IH. lia. Qed.

Lemma weight_le st id p : (weight st id p <= 2 * length p)%nat.
Proof. unfold weight. induction p as [|x p IH]; simpl; [done|]. destruct (is_handler _); lia. Qed.

Lemma sl_raise_weight st l s :
  is_handler (actions_get st (sl_actions l) s) = false -> sl_stop_waker l = false ->
  let l' := (sl_raise st l s).1 in
  sl_actions l' = sl_actions l /\ sl_stop_waker l' = false /\
  (weight st (sl_actions l) (sl_pending l') <= S (weight st (sl_actions l) (sl_pending l)))%nat.
Proof.
  intros Hh Hw. unfold sl_raise. pose proof (weight_push st (sl_actions l) s (sl_pending l)) as Hp. rewrite Hh in Hp.
  destruct (actions_get st (sl_actions l) s); [| |done].
  - destruct (signal_ignore s && true); [simpl; split_and!; auto; lia|].
    destruct (s =? SIGCONT); simpl; rewrite Hp; split_and!; auto.
  - simpl. split_and!; auto.
Qed.

(** A round leaves the loop, or costs some weight. *)
Lemma handle_iter_progress vdso st t :
  is_handler (actions_get st (sl_actions (st_list t)) SIGSEGV) = false ->
  is_handler (actions_get st (sl_actions (st_list t)) SIGSYS) = false ->
  sl_stop_waker (st_list t) = false ->
  exists t' step, handle_iter vdso st t = Ret (t', step) /\
    (step = HContinue ->
     sl_actions (st_list t') = sl_actions (st_list t) /\ sl_stop_waker (st_list t') = false /\
     (weight st (sl_actions (st_list t)) (sl_pending (st_list t')) < weight st (sl_actions (st_list t)) (sl_pending (st_list t)))%nat).
Proof.
  intros Hv Hy Hw. unfold handle_iter, sl_pop. destruct (sl_pending (st_list t)) as [|s p] eqn:Hp; [by eexists _, _|].
  cbn [sl_actions set_pending]. set (id := sl_actions (st_list t)) in *.
  assert (weight st id (s :: p) = ((if is_handler (actions_get st id s) then 2 else 1) + weight st id p)%nat) as Hwt by done.
  destruct (actions_get st id s) as [| |h r k i] eqn:Ha; simpl in Hwt.
  1, 2: destruct (signal_ignore s); [by eexists _, _; split; [done|]; intros _; simpl; split_and!; auto; lia|];
    destruct (s =? SIGCONT); [by eexists _, _; split; [done|]; intros _; simpl; split_and!; auto; lia|];
    destruct (signal_stop s); [|by eexists _, _]; simpl; rewrite Hw; by eexists _, _.
  pose proof (action_handle_total vdso h r k i s (sl_mask (set_pending (st_list t) p)) (st_mem t) (st_ctx t) (st_fpu t)) as Ht.
  destruct (action_handle _ _ _ _ _ _ _) as [m' [c|e|]]; [by eexists _, _| |done]. clear Ht.
  set (l := set_sl_mask _ _).
  destruct (sl_raise_weight st l (if e =? EFAULT then SIGSEGV else SIGSYS)) as (H1 & H2 & H3).
  { by destruct (e =? EFAULT). }
  { done. }
  destruct (sl_raise st l _) as [l' w]. eexists _, _. split; [done|]. intros _. simpl in *. split_and!; auto. fold id in H3. lia.
Qed.

(** C38: handling pending signals terminates.  When neither [SIGSEGV] nor
    [SIGSYS], which a frame that cannot be written raises, has a handler of its
    own, two rounds per pending signal and one more are enough for the loop to
    leave, without a panic, to user space, to a stop or to a kill. *)
Theorem signal_handle_terminates vdso st t fuel :
  is_handler (actions_get st (sl_actions (st_list t)) SIGSEGV) = false ->
  is_handler (actions_get st (sl_actions (st_list t)) SIGSYS) = false ->
  sl_stop_waker (st_list t) = false ->
  (2 * length (sl_pending (st_list t)) < fuel)%nat ->
  exists t' step, handle_loop vdso fuel st t = Some (Ret (t', step)) /\ step <> HContinue.
Proof.
  intros Hv Hy Hw Hf. pose proof (weight_le st (sl_actions (st_list t)) (sl_pending (st_list t))) as Hle.
  assert (weight st (sl_actions (st_list t)) (sl_pending (st_list t)) < fuel)%nat as Hwf by lia. clear Hf Hle.
  revert t Hv Hy Hw Hwf. induction fuel as [|n IH]; intros t Hv Hy Hw Hf; [lia|]. simpl.
  destruct (handle_iter_progress vdso st t Hv Hy Hw) as (t' & step & -> & Hs).
  destruct step as [| |s|s]; [by eexists _, _| |by eexists _, _|by eexists _, _].
  destruct (Hs eq_refl) as (Hid & Hw' & Hlt). apply IH; rewrite ?Hid; auto; lia.
Qed.

(** A thread with a handler for signal 10, a stack that is not mapped and two
    pending signals. *)
Definition demo_task (st_sp : Z) (p : list Z) : SigTask :=
  mkSigTask (mkSigList 0 p false false 1) ∅ (mkTrap (demo_regs st_sp) 0x20 0x500 8 0) (replicate SIZE_FPU_STATE 0).
Definition demo_actions (s : Z) : ActionStore := {[ 1 := {[ s := SimpleHandler 0x600 None 0 false ]} ]}.

Lemma signal_handle_terminates_witness :
  exists t' step, handle_loop 0x7000 5 (demo_actions 10) (demo_task 0x1400 [10; 18]) = Some (Ret (t', step)) /\ step <> HContinue.
Proof. apply signal_handle_terminates; [reflexivity|reflexivity|reflexivity|simpl; lia]. Defined.

(** ** Actions: [sigaction], [fork], [clone] and [execve] *)

Lemma actions_get_set st id s a id' s' :
  actions_get (actions_set st id s a) id' s' = if decide (id = id' /\ s = s') then a else actions_get st id' s'.
Proof.
  unfold actions_get, actions_set, actions_of.
  destruct (decide (id = id')) as [<-|Hid].
  - destruct (decide (s = s')) as [<-|Hs].
    + rewrite decide_True by done. destruct a; rewrite lookup_insert_eq; simpl; by rewrite ?lookup_delete_eq, ?lookup_insert_eq.
    + rewrite decide_False by tauto. destruct a; rewrite lookup_insert_eq; simpl; by rewrite ?lookup_delete_ne, ?lookup_insert_ne.
  - rewrite decide_False by tauto. destruct a; by rewrite lookup_insert_ne.
Qed.

Lemma actions_get_exec st id id' s :
  actions_get (remove_non_ignore st id) id' s =
  if decide (id = id' /\ actions_get st id s <> SAIgnore) then SADefault else actions_get st id' s.
Proof.
  unfold actions_get, remove_non_ignore. destruct (decide (id = id')) as [<-|Hid].
  - replace (actions_of (<[id:=filter (fun p => p.2 = SAIgnore) (actions_of st id)]> st) id)
      with (filter (fun p : Z * SignalAction => p.2 = SAIgnore) (actions_of st id))
      by (unfold actions_of at 2; by rewrite lookup_insert_eq).
    generalize (actions_of st id) as m. intros m. destruct (m !! s) as [a|] eqn:Hm.
    + destruct (decide (a = SAIgnore)) as [->|Ha].
      * rewrite (map_lookup_filter_Some_2 (fun p : Z * SignalAction => p.2 = SAIgnore) m s SAIgnore Hm eq_refl).
        by rewrite decide_False by tauto.
      * rewrite map_lookup_filter_None_2, decide_True by naive_solver. done.
    + rewrite map_lookup_filter_None_2, decide_True by naive_solver. done.
  - rewrite decide_False by tauto. unfold actions_of. by rewrite lookup_insert_ne.
Qed.

Lemma actions_get_cloned st id l id' s :
  actions_get (sl_new_cloned st id l).1 id' s = if decide (id = id') then actions_get st (sl_actions l) s else actions_get st id' s.
Proof.
  unfold actions_get, sl_new_cloned, actions_of. simpl. case_decide as Hid; [subst; by rewrite lookup_insert_eq|by rewrite lookup_insert_ne].
Qed.

(** who sees a change of an action.  [set_action] sets the action of that
    signal in that list only; a child made by [fork] starts with the parent's
    actions and no later change of one is seen by the other; a thread made with
    shared handlers sees the changes of the other; [execve] keeps exactly the
    ignored signals ignored and gives the others their default action. *)
Theorem signal_actions_sharing st l id s a :
  signal_now s = false -> id <> sl_actions l ->
  let '(st1, child) := sl_new_cloned st id l in
  let thread := sl_new_shared l in
  (forall s', sl_get_action st1 child s' = sl_get_action st l s' /\ sl_get_action st1 l s' = sl_get_action st l s') /\
  sl_pending child = [] /\ sl_mask child = sl_mask l /\
  (exists st2, sl_set_action st1 child s a = Ret st2 /\ sl_get_action st2 child s = a /\
     forall s', sl_get_action st2 l s' = sl_get_action st l s') /\
  (exists st2, sl_set_action st1 l s a = Ret st2 /\
     (forall s', sl_get_action st2 child s' = sl_get_action st l s') /\
     forall s', sl_get_action st2 thread s' = if decide (s = s') then a else sl_get_action st l s') /\
  forall s', sl_get_action (sl_clear_non_ignore st1 child) l s' = sl_get_action st l s' /\
    sl_get_action (sl_clear_non_ignore st l) l s' =
      match sl_get_action st l s' with SAIgnore => SAIgnore | _ => SADefault end.
Proof.
  intros Hs Hid. pose proof (actions_get_cloned st id l) as Hcl. destruct (sl_new_cloned st id l) as [st1 child] eqn:Hc.
  unfold sl_new_cloned in Hc. simpl in Hcl. injection Hc as _ <-. unfold sl_get_action, sl_set_action, sl_clear_non_ignore.
  rewrite Hs. simpl. split; [|split; [done|split; [done|split; [|split]]]].
  - intros s'. rewrite !Hcl, decide_True, decide_False by done. done.
  - eexists. split; [done|]. split; [by rewrite actions_get_set, decide_True|]. intros s'.
    rewrite actions_get_set, decide_False, Hcl, decide_False by naive_solver. done.
  - eexists. split; [done|]. split; intros s'; rewrite actions_get_set.
    + rewrite decide_False, Hcl, decide_True by naive_solver. done.
    + rewrite Hcl, (decide_False (P := id = sl_actions l)) by done. repeat case_decide; tauto || done.
  - intros s'. rewrite !actions_get_exec, (decide_False (P := id = sl_actions l /\ _)), Hcl, decide_False by naive_solver.
    split; [done|]. case_decide as Hd; destruct (actions_get st (sl_actions l) s'); try done; naive_solver.
Qed.

Lemma signal_actions_sharing_witness :
  sl_pending (sl_new_cloned (demo_actions 10) 2 (mkSigList 0 [10] false false 1)).2 = [] /\
  sl_get_action (sl_clear_non_ignore (demo_actions 10) (mkSigList 0 [10] false false 1)) (mkSigList 0 [10] false false 1) 10 = SADefault.
Proof.
  destruct (signal_actions_sharing (demo_actions 10) (mkSigList 0 [10] false false 1) 2 12 SAIgnore) as (_ & Hp & _ & _ & _ & He);
    [reflexivity|discriminate|]. split; [exact Hp|]. destruct (He 10) as [_ He']. rewrite He'. reflexivity.
Defined.

(** ** [SIGKILL] and [SIGSTOP] *)

(** What the kernel does to the action lists: a new process, [sigaction],
    [fork] and [execve]. *)
Inductive action_step : ActionStore -> ActionStore -> Prop :=
| ActNew st id : action_step st (sl_new st id).1
| ActSet st l s a st' : sl_set_action st l s a = Ret st' -> action_step st st'
| ActFork st id l : action_step st (sl_new_cloned st id l).1
| ActExec st l : action_step st (sl_clear_non_ignore st l).

Definition now_default (st : ActionStore) : Prop :=
  forall id s, signal_now s = true -> actions_get st id s = SADefault.

Lemma action_step_now st st' : action_step st st' -> now_default st -> now_default st'.
Proof.
  intros Hstep Hst id s Hs. destruct Hstep as [st id'|st l s' a st' Hset|st id' l|st l].
  - unfold actions_get, actions_of. simpl. destruct (decide (id' = id)) as [->|]; [by rewrite lookup_insert_eq|].
    rewrite lookup_insert_ne by done. by apply (Hst id s).
  - unfold sl_set_action in Hset. destruct (signal_now s') eqn:Hs'; [done|]. injection Hset as <-.
    rewrite actions_get_set. case_decide as Hd; [destruct Hd; congruence|by apply Hst].
  - rewrite actions_get_cloned. case_decide; by apply Hst.
  - unfold sl_clear_non_ignore. rewrite actions_get_exec. case_decide; [done|by apply Hst].
Qed.

Lemma reachable_now st : rtc action_step ∅ st -> now_default st.
Proof.
  intros Hr. assert (now_default ∅) as H0 by (intros id s _; unfold actions_get, actions_of; by rewrite lookup_empty).
  revert H0. induction Hr as [|st st1 st2 Hstep Hr IH]; intros H0; [done|]. apply IH. by eapply action_step_now.
Qed.

Lemma pending_push_elem s p x : x ∈ pending_push s p <-> x = s \/ x ∈ p.
Proof.
  induction p as [|y p IH]; simpl; [set_solver|]. destruct (s <=? y); [set_solver|]. rewrite !elem_of_cons, IH. tauto.
Qed.

Lemma pending_push_sorted s p : Sorted Z.le p -> Sorted Z.le (pending_push s p).
Proof.
  induction p as [|y p IH]; intros Hp; simpl; [by repeat constructor|]. apply Sorted_inv in Hp as [Hp Hy].
  destruct (Z.leb_spec s y); [by repeat constructor|]. constructor; [by apply IH|].
  destruct p as [|z p]; simpl; [constructor; lia|]. inversion Hy; subst. destruct (s <=? z); constructor; lia.
Qed.

(** [SIGKILL] and [SIGSTOP] can be neither caught nor ignored nor blocked.
    After any sequence of process creations, [sigaction]s, [fork]s and
    [execve]s, raising one of them makes it pending whatever the mask (and the
    heap stays in order), [set_action] refuses it, and when it comes to the
    front the thread is killed, or stopped. *)
Theorem signal_now_enforced st vdso l s :
  rtc action_step ∅ st -> signal_now s = true -> Sorted Z.le (sl_pending l) ->
  (forall a, sl_set_action st l s a = Err EINVAL) /\
  let l' := (sl_raise st l s).1 in
  s ∈ sl_pending l' /\ Sorted Z.le (sl_pending l') /\
  (forall x, x ∈ sl_pending l -> x ∈ sl_pending l') /\
  forall t p, sl_pending (st_list t) = s :: p -> sl_stop_waker (st_list t) = false ->
    exists t', handle_iter vdso st t = Ret (t', if s =? SIGKILL then HKilled s else HStopped s) /\
      sl_pending (st_list t') = p.
Proof.
  intros Hr Hs Hp. pose proof (reachable_now st Hr) as Hd. split; [intros a; unfold sl_set_action; by rewrite Hs|].
  assert (s = SIGKILL \/ s = SIGSTOP) as Hks by (unfold signal_now in Hs; lia).
  assert (sl_pending (sl_raise st l s).1 = pending_push s (sl_pending l)) as Hpend.
  { unfold sl_raise. rewrite (Hd (sl_actions l) s Hs). by destruct Hks as [-> | ->]. }
  cbn zeta. rewrite Hpend. split; [apply pending_push_elem; by left|]. split; [by apply pending_push_sorted|].
  split; [intros x Hx; apply pending_push_elem; by right|]. intros t p Ht Hw. unfold handle_iter, sl_pop. rewrite Ht.
  cbn [set_pending sl_actions]. rewrite (Hd _ s Hs). destruct Hks as [-> | ->]; simpl; rewrite ?Hw; by eexists.
Qed.

Lemma signal_now_enforced_witness :
  rtc action_step ∅ (demo_actions 10) /\
  exists t', handle_iter 0x7000 (demo_actions 10) (demo_task 0x1400 [9; 10]) = Ret (t', HKilled 9).
Proof.
  assert (rtc action_step ∅ (demo_actions 10)) as Hr.
  { apply (rtc_l _ _ (sl_new ∅ 1).1); [apply ActNew|]. apply rtc_once.
    apply (ActSet _ (sl_new ∅ 1).2 10 (SimpleHandler 0x600 None 0 false)). reflexivity. }
  split; [exact Hr|].
  destruct (signal_now_enforced (demo_actions 10) 0x7000 (mkSigList 0 [10] false false 1) 9 Hr eq_refl) as (_ & _ & _ & _ & Hh).
  - repeat constructor.
  - destruct (Hh (demo_task 0x1400 [9; 10]) [10] eq_refl eq_refl) as (t' & Ht & _). exists t'. exact Ht.
Defined.

(** ** What the handling does not do *)

(** A blocked signal is delivered all the same: the check of the mask is
    commented out. *)
Theorem blocked_signal_delivered :
  let l := (sl_raise ∅ (mkSigList (sigset_from 15) [] false false 1) 15).1 in
  sigset_include (sigset_from 15) 15 = true /\ sl_pending l = [15] /\
  match handle_loop 0x7000 3 ∅ (mkSigTask l ∅ demo_ctx []) with Some (Ret (_, HKilled 15)) => True | _ => False end.
Proof. split; [reflexivity|]. split; [reflexivity|]. vm_compute. exact I. Qed.

(** A pending signal whose action becomes [SIG_IGN] before it is handled takes
    the default action: the thread is killed. *)
Theorem ignored_pending_kills :
  let l := (sl_raise ∅ (mkSigList 0 [] false false 1) 10).1 in
  match sl_set_action ∅ l 10 SAIgnore with
  | Ret st => match handle_loop 0x7000 3 st (mkSigTask l ∅ demo_ctx []) with Some (Ret (_, HKilled 10)) => True | _ => False end
  | _ => False
  end.
Proof. vm_compute. exact I. Qed.

(** With a handler for [SIGSEGV] and no stack to put a frame on, the loop never
    leaves: each failed frame raises [SIGSEGV] again. *)
Theorem segv_handler_loops fuel :
  let t := mkSigTask (mkSigList (sigset_from SIGSEGV) [SIGSEGV] false false 1) ∅ demo_ctx (replicate SIZE_FPU_STATE 0) in
  handle_loop 0x7000 fuel (demo_actions SIGSEGV) t = None.
Proof.
  intros t. assert (handle_iter 0x7000 (demo_actions SIGSEGV) t = Ret (t, HContinue)) as Hi by (vm_compute; reflexivity).
  induction fuel as [|n IH]; [done|]. cbn [handle_loop]. by rewrite Hi.
Qed.

(** [raise] masks the signal before its handler runs and the mask saved in the
    frame includes it, so it is still masked after [rt_sigreturn]. *)
Theorem signal_stays_masked :
  let l := (sl_raise (demo_actions 10) (mkSigList 0 [] false false 1) 10).1 in
  match handle_iter 0x7000 (demo_actions 10) (mkSigTask l demo_stack demo_ctx (replicate SIZE_FPU_STATE 0)) with
  | Ret (t, HReturn) =>
      match sl_restore (st_list t) (st_mem t) (st_ctx t) [] with
      | (ctx, _, l, Ret _) => tc_sepc ctx = tc_sepc demo_ctx /\ sigset_include (sl_mask l) 10 = true
      | _ => False
      end
  | _ => False
  end.
Proof. vm_compute. split; reflexivity. Qed.

(** [SIGKILL] does not wake a stopped thread: only [SIGCONT] takes the waker. *)
Theorem kill_leaves_stopped st l :
  sl_stop_waker l = true -> sl_stop_waker (sl_raise st l SIGKILL).1 = true.
Proof. intros Hw. unfold sl_raise. by destruct (actions_get st (sl_actions l) SIGKILL). Qed.

(** Signal 0, which [kill] uses to probe, is a signal that kills; signal 64 is
    refused. *)
Theorem signal_zero_kills :
  signal_try_from_raw 0 = Ret 0 /\ signal_try_from_raw 64 = Err EINVAL /\
  match handle_loop 0x7000 3 ∅ (mkSigTask (sl_raise ∅ (mkSigList 0 [] false false 1) 0).1 ∅ demo_ctx []) with
  | Some (Ret (_, HKilled 0)) => True | _ => False
  end.
Proof. split; [reflexivity|]. split; [reflexivity|]. vm_compute. exact I. Qed.

(** [sigaction] does not give back the [SA_SIGINFO] flag it was given. *)
Theorem siginfo_not_returned :
  match sig_action_try_into (mkSigAction 0x600 SA_SIGINFO 0) with
  | Ret a => sa_flags (sig_action_from a) = 0
  | _ => False
  end.
Proof. reflexivity. Qed.
