(* ===== verification/Terminal.v ===== *)
(** * The terminal line discipline

    Models src/kernel/terminal.rs and src/kernel/vfs/file/terminal_file.rs.

    The state behind the mutex is [TerminalInner]; each operation that takes the
    mutex is one step.  What an operation does to the outside is a list of
    events: bytes for the device, a signal for the foreground group of the
    terminal's session, a wake-up of the readers.  The weak reference to the
    session is its identity, and whether [upgrade] succeeds is an argument. *)

From S2P Require Import Prelude Io UserMem Signal.

Definition NCCS : nat := 19.

Definition VINTR : nat := 0.
Definition VQUIT : nat := 1.
Definition VERASE : nat := 2.
Definition VKILL : nat := 3.
Definition VEOF : nat := 4.
Definition VMIN : nat := 6.
Definition VSUSP : nat := 10.
Definition VEOL : nat := 11.
Definition VEOL2 : nat := 16.

Definition INLCR : Z := 0x0040.
Definition IGNCR : Z := 0x0080.
Definition ICRNL : Z := 0x0100.
Definition IXOFF : Z := 0x1000.
Definition OPOST : Z := 0x0001.
Definition ONLCR : Z := 0x0004.
Definition ISIG : Z := 0x0001.
Definition ICANON : Z := 0x0002.
Definition ECHO : Z := 0x0008.
Definition ECHOE : Z := 0x0010.
Definition ECHOK : Z := 0x0020.
Definition ECHONL : Z := 0x0040.
Definition NOFLSH : Z := 0x0080.
Definition ECHOCTL : Z := 0x0200.
Definition ECHOKE : Z := 0x0800.
Definition IEXTEN : Z := 0x8000.

(** [all()] of the three [bitflags!] types. *)
Definition IFLAGS_ALL : Z := 0x7fff.
Definition OFLAGS_ALL : Z := 0x00ff.
Definition LFLAGS_ALL : Z := 0xdfff.

Definition B38400 : Z := 0xf.
Definition CS8 : Z := 0x30.
Definition CREAD : Z := 0x80.
Definition HUPCL : Z := 0x400.
Definition N_TTY : Z := 0.

(** ** [Termios]

    [UserTermios] has the same fields. *)
Record Termios := mkTermios {
  t_iflag : Z; t_oflag : Z; t_cflag : Z; t_lflag : Z; t_line : Z; t_cc : list Z
}.

Definition cc_at (t : Termios) (i : nat) : Z := nth i (t_cc t) 0.
Definition veof (t : Termios) : Z := cc_at t VEOF.
Definition veol (t : Termios) : Z := cc_at t VEOL.
Definition veol2 (t : Termios) : Z := cc_at t VEOL2.
Definition vintr (t : Termios) : Z := cc_at t VINTR.
Definition vquit (t : Termios) : Z := cc_at t VQUIT.
Definition vsusp (t : Termios) : Z := cc_at t VSUSP.
Definition verase (t : Termios) : Z := cc_at t VERASE.
Definition vkill (t : Termios) : Z := cc_at t VKILL.

Definition echo (t : Termios) : bool := bf_contains (t_lflag t) ECHO.
Definition echoe (t : Termios) : bool := bf_contains (t_lflag t) ECHOE.
Definition echoctl (t : Termios) : bool := bf_contains (t_lflag t) ECHOCTL.
Definition echoke (t : Termios) : bool := bf_contains (t_lflag t) ECHOKE.
Definition echok (t : Termios) : bool := bf_contains (t_lflag t) ECHOK.
Definition echonl (t : Termios) : bool := bf_contains (t_lflag t) ECHONL.
Definition isig (t : Termios) : bool := bf_contains (t_lflag t) ISIG.
Definition icanon (t : Termios) : bool := bf_contains (t_lflag t) ICANON.
Definition iexten (t : Termios) : bool := bf_contains (t_lflag t) IEXTEN.
Definition igncr (t : Termios) : bool := bf_contains (t_iflag t) IGNCR.
Definition icrnl (t : Termios) : bool := bf_contains (t_iflag t) ICRNL.
Definition inlcr (t : Termios) : bool := bf_contains (t_iflag t) INLCR.
Definition noflsh (t : Termios) : bool := bf_contains (t_lflag t) NOFLSH.

(** [CTRL!] of the characters the code uses. *)
Definition CTRL_C : Z := 0x03.
Definition CTRL_D : Z := 0x04.
Definition CTRL_H : Z := 0x08.
Definition CTRL_Q : Z := 0x11.
Definition CTRL_S : Z := 0x13.
Definition CTRL_U : Z := 0x15.
Definition CTRL_Z : Z := 0x1a.
Definition CTRL_backslash : Z := 0x1c.

Definition standard_cc (idx : nat) : Z :=
  if (idx =? VINTR)%nat then CTRL_C
  else if (idx =? VQUIT)%nat then CTRL_backslash
  else if (idx =? VERASE)%nat then 0x7f
  else if (idx =? VKILL)%nat then CTRL_U
  else if (idx =? VEOF)%nat then CTRL_D
  else if (idx =? VSUSP)%nat then CTRL_Z
  else if (idx =? VMIN)%nat then 1
  else 0.

Definition new_standard : Termios :=
  mkTermios (Z.lor ICRNL IXOFF) (Z.lor OPOST ONLCR)
    (Z.lor B38400 (Z.lor CS8 (Z.lor CREAD HUPCL)))
    (Z.lor ISIG (Z.lor ICANON (Z.lor ECHO (Z.lor ECHOE (Z.lor ECHOK (Z.lor ECHOCTL (Z.lor ECHOKE IEXTEN)))))))
    N_TTY (standard_cc <$> seq 0 NCCS).

Definition get_user (t : Termios) : Termios :=
  mkTermios (t_iflag t) (t_oflag t) (t_cflag t) (t_lflag t) (t_line t) (t_cc t).

(** The assignments of the [SetTermios] request: [as u16] and
    [from_bits_truncate]. *)
Definition set_user (u : Termios) : Termios :=
  mkTermios (Z.land (t_iflag u mod 2 ^ 16) IFLAGS_ALL) (Z.land (t_oflag u mod 2 ^ 16) OFLAGS_ALL)
    (t_cflag u) (Z.land (t_lflag u mod 2 ^ 16) LFLAGS_ALL) (t_line u) (t_cc u).

(** ** [Terminal] *)

Record TerminalInner := mkTerm { tm_termio : Termios; tm_session : option Z; tm_buffer : list Z }.

Inductive tty_event :=
| TWrite (data : list Z)           (** bytes for the device *)
| TRaise (session signal : Z)      (** [session.raise_foreground(signal)] *)
| TNotify.                         (** [cv.notify_all()] *)

Definition terminal_new : TerminalInner := mkTerm new_standard None [].

Definition set_buffer (i : TerminalInner) (b : list Z) : TerminalInner := mkTerm (tm_termio i) (tm_session i) b.
Definition clear_read_buffer (i : TerminalInner) : TerminalInner := set_buffer i [].

Definition ch_tab : Z := 9.
Definition ch_nl : Z := 10.
Definition ch_cr : Z := 13.
Definition ch_space : Z := 32.
Definition ch_caret : Z := 94.

(** Where [erase] stops. *)
Definition erase_stops (t : Termios) (back : Z) : bool :=
  (back =? ch_nl) || (back =? veof t) || (back =? veol t) || (back =? veol2 t).

Definition erase (i : TerminalInner) (echo_ : bool) : option Z * TerminalInner * list tty_event :=
  match last (tm_buffer i) with
  | None => (None, i, [])
  | Some back =>
      if erase_stops (tm_termio i) back then (None, i, [])
      else
        (Some back, set_buffer i (removelast (tm_buffer i)),
         if echo_ && echo (tm_termio i) && echoe (tm_termio i) then [TWrite [CTRL_H; ch_space; CTRL_H]] else [])
  end.

(** [while self.erase(inner, echo).is_some() {}]. *)
Fixpoint erase_loop (n : nat) (i : TerminalInner) (echo_ : bool) : option (TerminalInner * list tty_event) :=
  match n with
  | O => None
  | S n =>
      match erase i echo_ with
      | (None, i, ev) => Some (i, ev)
      | (Some _, i, ev) =>
          match erase_loop n i echo_ with
          | Some (i, ev') => Some (i, ev ++ ev')
          | None => None
          end
      end
  end.

Definition echo_char (t : Termios) (ch : Z) : list tty_event :=
  if (ch =? ch_tab) || (ch =? ch_nl) || (ch =? CTRL_Q) || (ch =? CTRL_S) || (32 <=? ch) then [TWrite [ch]]
  else if negb (echo t) then [TWrite [ch]]
  else if negb (echoctl t) then [TWrite [ch]]
  else if negb (iexten t) then [TWrite [ch]]
  else [TWrite [ch_caret; ch + 0x40]].

Section alive.
Context (alive : Z -> bool).

(** [inner.session.upgrade()]. *)
Definition session_upgrade (i : TerminalInner) : option Z :=
  match tm_session i with
  | Some s => if alive s then Some s else None
  | None => None
  end.

Definition tty_signal (i : TerminalInner) (signal : Z) : TerminalInner * list tty_event :=
  (if noflsh (tm_termio i) then i else clear_read_buffer i,
   match session_upgrade i with Some s => [TRaise s signal] | None => [] end).

Definition echo_and_signal (i : TerminalInner) (ch signal : Z) : TerminalInner * list tty_event :=
  let ev := echo_char (tm_termio i) ch in
  let (i, ev') := tty_signal i signal in
  (i, ev ++ ev').

Definition do_commit_char (i : TerminalInner) (ch : Z) : TerminalInner * list tty_event :=
  let t := tm_termio i in
  (set_buffer i (tm_buffer i ++ [ch]),
   (if echo t || ((ch =? ch_nl) && echonl t) then echo_char t ch else [])
   ++ (if (ch =? ch_nl) || negb (icanon t) then [TNotify] else [])).

(** The last [match] of [commit_char]. *)
Definition commit_input (i : TerminalInner) (ch : Z) : TerminalInner * list tty_event :=
  let t := tm_termio i in
  if (ch =? ch_cr) && igncr t then (i, [])
  else if (ch =? ch_cr) && icrnl t then do_commit_char i ch_nl
  else if (ch =? ch_nl) && inlcr t then do_commit_char i ch_cr
  else do_commit_char i ch.

(** The second [match]; [None] of the loop cannot happen (see [erase_loop_ok]). *)
Definition commit_canon (i : TerminalInner) (ch : Z) : outcome (TerminalInner * list tty_event) :=
  let t := tm_termio i in
  if icanon t && negb (ch =? 0xff) then
    if ch =? veof t then Ret (i, [TNotify])
    else if ch =? verase t then
      let '(_, i, ev) := erase i true in Ret (i, ev)
    else if ch =? vkill t then
      if echok t then
        '(i, ev) ← expect (erase_loop (S (length (tm_buffer i))) i false);
        Ret (i, ev ++ [TWrite [ch_nl]])
      else if echoke t && iexten t then expect (erase_loop (S (length (tm_buffer i))) i true)
      else Ret (i, [])
    else Ret (commit_input i ch)
  else Ret (commit_input i ch).

Definition SIGINT : Z := 2.
Definition SIGQUIT : Z := 3.

Definition commit_char (i : TerminalInner) (ch : Z) : outcome (TerminalInner * list tty_event) :=
  let t := tm_termio i in
  if isig t && negb (ch =? 0xff) then
    if ch =? vintr t then Ret (echo_and_signal i ch SIGINT)
    else if ch =? vquit t then Ret (echo_and_signal i ch SIGQUIT)
    else if ch =? vsusp t then Ret (echo_and_signal i ch SIGTSTP)
    else commit_canon i ch
  else commit_canon i ch.
End alive.

(** ** Reading *)

Definition is_delim (t : Termios) (ch : Z) : bool :=
  (ch =? ch_nl) || (negb (veol t =? 0) && (ch =? veol t)) || (negb (veol2 t =? 0) && (ch =? veol2 t)).

Definition line_ready (i : TerminalInner) : bool :=
  negb (icanon (tm_termio i)) || existsb (is_delim (tm_termio i)) (tm_buffer i).

Definition tty_is_empty (i : TerminalInner) : bool := match tm_buffer i with [] => true | _ => false end.

(** One round of the loop of [poll_in], and the round after the sleep. *)
Definition poll_in_try (i : TerminalInner) : poll (outcome unit) :=
  if negb (tty_is_empty i) && line_ready i then Ready (Ret tt) else Pending.
Definition poll_in_resume (sig : bool) (i : TerminalInner) : poll (outcome unit) :=
  if sig then Ready (Err EINTR) else poll_in_try i.

(** [iter().position(p)]. *)
Fixpoint position (p : Z -> bool) (l : list Z) : option nat :=
  match l with
  | [] => None
  | x :: l => if p x then Some O else S <$> position p l
  end.

Definition TMP_BUFFER_LEN : nat := 32.

(** How many bytes [read] takes out of a buffer that is ready. *)
Definition read_length (i : TerminalInner) (avail : nat) : nat :=
  let length_ :=
    if icanon (tm_termio i) then
      match position (is_delim (tm_termio i)) (tm_buffer i) with
      | Some pos => (pos + 1)%nat
      | None => length (tm_buffer i)
      end
    else Nat.min avail (length (tm_buffer i)) in
  Nat.min length_ TMP_BUFFER_LEN.

(** [Terminal::read] up to its sleep. *)
Definition tty_read_loop `{Buffer B} (i : TerminalInner) (b : B) : poll (outcome (nat * B) * TerminalInner) :=
  if (available b =? 0)%nat then Ready ('(r, b) ← buf_fill b []; Ret (allow_partial r, b), i)
  else if tty_is_empty i || negb (line_ready i) then Pending
  else
    let n := read_length i (available b) in
    Ready ('(r, b) ← buf_fill b (take n (tm_buffer i)); Ret (allow_partial r, b),
           set_buffer i (drop n (tm_buffer i))).

Definition tty_read_try `{Buffer B} (i : TerminalInner) (b : B) : poll (outcome (nat * B) * TerminalInner) :=
  if (available b =? 0)%nat then Ready ('(r, b) ← buf_fill b []; Ret (allow_partial r, b), i)
  else tty_read_loop i b.
Definition tty_read_resume `{Buffer B} (sig : bool) (i : TerminalInner) (b : B)
  : poll (outcome (nat * B) * TerminalInner) :=
  if sig then Ready (Err EINTR, i) else tty_read_loop i b.

(** ** Requests

    What the terminal asks of a session, for a world [W] of sessions. *)
Class SessionOps (W : Type) := {
  ses_alive : W -> Z -> bool;
  ses_foreground : W -> Z -> option Z;                       (** its [pgid] *)
  ses_set_foreground_pgid : W -> Z -> Z -> outcome W;
  ses_drop_control_terminal : W -> Z -> W
}.

Definition TCGETS : Z := 0x5401.
Definition TCSETS : Z := 0x5402.
Definition TCSETSW : Z := 0x5403.
Definition TCSETSF : Z := 0x5404.
Definition TIOCGPGRP : Z := 0x540f.
Definition TIOCSPGRP : Z := 0x5410.
Definition TIOCGWINSZ : Z := 0x5413.

Inductive TerminalIORequest :=
| GetProcessGroup (p : CheckedUserPointer)
| SetProcessGroup (p : CheckedUserPointer)
| GetWindowSize (p : CheckedUserPointer)
| GetTermios (p : CheckedUserPointer)
| SetTermios (p : CheckedUserPointer).

(** [UserTermios] and [UserWindowSize] in memory. *)
Definition USER_TERMIOS_SIZE : nat := 36.
Definition USER_WINDOW_SIZE_SIZE : nat := 8.
Definition termios_bytes (t : Termios) : list Z :=
  le_bytes 4 (t_iflag t) ++ le_bytes 4 (t_oflag t) ++ le_bytes 4 (t_cflag t) ++ le_bytes 4 (t_lflag t)
  ++ [t_line t] ++ t_cc t.
Definition termios_of_bytes (bs : list Z) : Termios :=
  mkTermios (le_word (take 4 bs)) (le_word (take 4 (drop 4 bs))) (le_word (take 4 (drop 8 bs)))
    (le_word (take 4 (drop 12 bs))) (nth 16 bs 0) (drop 17 bs).
Definition window_size_bytes : list Z := le_bytes 2 40 ++ le_bytes 2 80 ++ le_bytes 2 0 ++ le_bytes 2 0.

Definition tty_ioctl `{SessionOps W} (w : W) (i : TerminalInner) (m : UMem) (r : TerminalIORequest)
  : W * TerminalInner * UMem * outcome unit :=
  match r with
  | GetProcessGroup p =>
      match session_upgrade (ses_alive w) i with
      | Some s =>
          match ses_foreground w s with
          | Some pgid => let (m, r) := up_write m p (le_bytes 4 pgid) in (w, i, m, r)
          | None => (w, i, m, Err ENOTTY)
          end
      | None => (w, i, m, Err ENOTTY)
      end
  | SetProcessGroup p =>
      match up_read m p 4 with
      | Ret bs =>
          match session_upgrade (ses_alive w) i with
          | Some s =>
              match ses_set_foreground_pgid w s (le_word bs) with
              | Ret w => (w, i, m, Ret tt)
              | Err e => (w, i, m, Err e)
              | Panic => (w, i, m, Panic)
              end
          | None => (w, i, m, Err ENOTTY)
          end
      | Err e => (w, i, m, Err e)
      | Panic => (w, i, m, Panic)
      end
  | GetWindowSize p => let (m, r) := up_write m p window_size_bytes in (w, i, m, r)
  | GetTermios p => let (m, r) := up_write m p (termios_bytes (get_user (tm_termio i))) in (w, i, m, r)
  | SetTermios p =>
      match up_read m p USER_TERMIOS_SIZE with
      | Ret bs => (w, mkTerm (set_user (termios_of_bytes bs)) (tm_session i) (tm_buffer i), m, Ret tt)
      | Err e => (w, i, m, Err e)
      | Panic => (w, i, m, Panic)
      end
  end.

(** [Terminal::set_session]: [session] is the one that wants the terminal.  The
    first branch shadows it with the old session. *)
Definition set_session `{SessionOps W} (w : W) (i : TerminalInner) (session : Z) (forced : bool)
  : outcome (W * TerminalInner) :=
  match session_upgrade (ses_alive w) i with
  | Some old =>
      if negb forced then Err EPERM
      else Ret (ses_drop_control_terminal w old, mkTerm (tm_termio i) (Some old) (tm_buffer i))
  | None => Ret (w, mkTerm (tm_termio i) (Some session) (tm_buffer i))
  end.

Definition drop_session (i : TerminalInner) : TerminalInner := mkTerm (tm_termio i) None (tm_buffer i).

(** ** [TerminalFile] *)

(** [TerminalFile::write]: the stream goes to the device in chunks; the events
    of a write that fails are not kept. *)
Definition tty_file_write `{Stream T} (fuel : nat) (s : T) : option (outcome (nat * T * list tty_event)) :=
  read_till_end fuel s 128 (fun data ev => Ret (ev ++ [TWrite data])) [] 0.

(** [TerminalFile::poll]: [readable] says that the event asks for it. *)
Definition tty_file_poll (readable : bool) (i : TerminalInner) : poll (outcome unit) :=
  if negb readable then Ready (Ret tt) else poll_in_try i.

Definition tty_file_request (request arg3 : Z) : outcome TerminalIORequest :=
  let request := wrap32 request in
  if request =? TCGETS then p ← checked_new arg3 USER_TERMIOS_SIZE; Ret (GetTermios p)
  else if (request =? TCSETS) || (request =? TCSETSW) || (request =? TCSETSF) then
    p ← checked_new arg3 USER_TERMIOS_SIZE; Ret (SetTermios p)
  else if request =? TIOCGPGRP then p ← checked_new arg3 4; Ret (GetProcessGroup p)
  else if request =? TIOCSPGRP then p ← checked_new arg3 4; Ret (SetProcessGroup p)
  else if request =? TIOCGWINSZ then p ← checked_new arg3 USER_WINDOW_SIZE_SIZE; Ret (GetWindowSize p)
  else Err EINVAL.

Definition tty_file_ioctl `{SessionOps W} (w : W) (i : TerminalInner) (m : UMem) (request arg3 : Z)
  : W * TerminalInner * UMem * outcome unit :=
  match tty_file_request request arg3 with
  | Ret r => tty_ioctl w i m r
  | Err e => (w, i, m, Err e)
  | Panic => (w, i, m, Panic)
  end.

(** ** The abstract terminal

    In canonical mode a terminal is the list of complete lines and the line
    being typed. *)

Record tty_spec := mkSpec { sp_lines : list (list Z); sp_cur : list Z }.

(** The longest prefix that ends where [erase] stops. *)
Fixpoint keep_upto (stop : Z -> bool) (l : list Z) : list Z :=
  match l with
  | [] => []
  | x :: l =>
      match keep_upto stop l with
      | [] => if stop x then [x] else []
      | k => x :: k
      end
  end.

Definition rub_out (stop : Z -> bool) (l : list Z) : list Z :=
  match last l with
  | Some x => if stop x then l else removelast l
  | None => l
  end.

(** The character that [commit_input] stores, if any. *)
Definition input_char (t : Termios) (ch : Z) : option Z :=
  if (ch =? ch_cr) && igncr t then None
  else if (ch =? ch_cr) && icrnl t then Some ch_nl
  else if (ch =? ch_nl) && inlcr t then Some ch_cr
  else Some ch.

Definition is_signal_char (t : Termios) (ch : Z) : bool :=
  isig t && negb (ch =? 0xff) && ((ch =? vintr t) || (ch =? vquit t) || (ch =? vsusp t)).

Definition spec_input (t : Termios) (s : tty_spec) (ch : Z) : tty_spec :=
  if is_signal_char t ch then (if noflsh t then s else mkSpec [] [])
  else if negb (ch =? 0xff) && (ch =? veof t) then s
  else if negb (ch =? 0xff) && (ch =? verase t) then mkSpec (sp_lines s) (rub_out (erase_stops t) (sp_cur s))
  else if negb (ch =? 0xff) && (ch =? vkill t) then
    if echok t || (echoke t && iexten t) then mkSpec (sp_lines s) (keep_upto (erase_stops t) (sp_cur s)) else s
  else
    match input_char t ch with
    | None => s
    | Some c =>
        if is_delim t c then mkSpec (sp_lines s ++ [sp_cur s ++ [c]]) [] else mkSpec (sp_lines s) (sp_cur s ++ [c])
    end.

(** A read gets the first line, or the first 32 bytes of it. *)
Definition spec_read (s : tty_spec) : option (list Z * tty_spec) :=
  match sp_lines s with
  | [] => None
  | l :: ls =>
      Some (take TMP_BUFFER_LEN l,
            mkSpec (match drop TMP_BUFFER_LEN l with [] => ls | l' => l' :: ls end) (sp_cur s))
  end.

(** The signal a character stands for. *)
Definition spec_signal (t : Termios) (ch : Z) : option Z :=
  if is_signal_char t ch then
    Some (if ch =? vintr t then SIGINT else if ch =? vquit t then SIGQUIT else SIGTSTP)
  else None.

(** The signals among the events. *)
Fixpoint raised (ev : list tty_event) : list (Z * Z) :=
  match ev with
  | [] => []
  | TRaise s g :: ev => (s, g) :: raised ev
  | _ :: ev => raised ev
  end.

Definition no_delim (t : Termios) (l : list Z) : Prop := Forall (fun x => is_delim t x = false) l.
Definition is_line (t : Termios) (l : list Z) : Prop :=
  exists l' d, l = l' ++ [d] /\ is_delim t d = true /\ no_delim t l'.

(** The buffer holds the lines and what has been typed of the next one. *)
Definition tty_abs (t : Termios) (s : tty_spec) (buf : list Z) : Prop :=
  buf = concat (sp_lines s) ++ sp_cur s /\ Forall (is_line t) (sp_lines s) /\ no_delim t (sp_cur s).

Lemma raised_app ev1 ev2 : raised (ev1 ++ ev2) = raised ev1 ++ raised ev2.
Proof. induction ev1 as [|[] ev1 IH]; simpl; [done|done|by rewrite IH|done]. Qed.

Lemma raised_echo_char t ch : raised (echo_char t ch) = [].
Proof. unfold echo_char. by repeat case_match. Qed.

Lemma keep_upto_snoc stop l x : keep_upto stop (l ++ [x]) = if stop x then l ++ [x] else keep_upto stop l.
Proof.
  induction l as [|y l IH]; simpl; [done|]. rewrite IH. destruct (stop x); [by destruct l|done].
Qed.

Lemma keep_upto_prefix stop l : keep_upto stop l `prefix_of` l.
Proof.
  induction l as [|y l IH]; simpl; [done|]. destruct (keep_upto stop l) as [|k ks] eqn:E; [|by apply prefix_cons].
  destruct (stop y); [apply prefix_cons, prefix_nil|apply prefix_nil].
Qed.

Lemma rub_out_prefix stop l : rub_out stop l `prefix_of` l.
Proof.
  unfold rub_out. destruct l as [|x l _] using rev_ind; [done|]. rewrite last_snoc, removelast_last.
  destruct (stop x); [done|by exists [x]].
Qed.

Lemma no_delim_prefix t l l' : l `prefix_of` l' -> no_delim t l' -> no_delim t l.
Proof. intros [k ->] [H _]%Forall_app. done. Qed.

Lemma is_delim_stops t x : is_delim t x = true -> erase_stops t x = true.
Proof. unfold is_delim, erase_stops. rewrite !orb_true_iff, !andb_true_iff. tauto. Qed.

(** The last character of complete lines stops an erasure. *)
Lemma lines_last t ls x : Forall (is_line t) ls -> last (concat ls) = Some x -> erase_stops t x = true.
Proof.
  intros Hls. destruct ls as [|l ls _] using rev_ind; [done|]. apply Forall_app in Hls as [_ Hl]. apply Forall_inv in Hl.
  destruct Hl as (l' & d & -> & Hd & _). rewrite concat_app. simpl. rewrite app_nil_r, app_assoc, last_snoc.
  intros [= <-]. by apply is_delim_stops.
Qed.

Lemma erase_abs i e ls cur :
  tty_abs (tm_termio i) (mkSpec ls cur) (tm_buffer i) ->
  let stop := erase_stops (tm_termio i) in
  exists o ev, erase i e = (o, set_buffer i (concat ls ++ rub_out stop cur), ev) /\ raised ev = [] /\
    (o = None <-> cur = [] \/ exists l x, cur = l ++ [x] /\ stop x = true).
Proof.
  intros (Hb & Hls & Hc) stop. simpl in *. unfold erase, rub_out.
  destruct cur as [|x cur _] using rev_ind.
  - rewrite app_nil_r in Hb |- *. assert (i = set_buffer i (concat ls)) as Hi by (rewrite <- Hb; by destruct i).
    rewrite Hb. destruct (last (concat ls)) as [y|] eqn:Hy.
    + rewrite (lines_last _ _ _ Hls Hy). exists None, []. simpl. rewrite <- Hi. do 2 (split; [done|]). split; [by left|done].
    + exists None, []. simpl. rewrite <- Hi. do 2 (split; [done|]). split; [by left|done].
  - rewrite app_assoc in Hb. rewrite Hb, !last_snoc, !removelast_last. fold stop. destruct (stop x) eqn:Hx.
    + exists None, []. rewrite app_assoc, <- Hb. split; [by destruct i|]. split; [done|]. split; [|done]. intros _. right. by exists cur, x.
    + eexists (Some x), _. split; [done|]. split; [by destruct (_ && _)|]. split; [done|]. intros [?|(l & y & [<- <-]%app_inj_tail & Hy)]; [by destruct cur|congruence].
Qed.

Lemma tty_abs_prefix t ls cur cur' buf :
  tty_abs t (mkSpec ls cur) buf -> cur' `prefix_of` cur -> tty_abs t (mkSpec ls cur') (concat ls ++ cur').
Proof. intros (_ & Hls & Hc) Hp. split_and!; [done|done|]. by eapply no_delim_prefix. Qed.

(** The loop ends and removes what can be erased of the current line. *)
Lemma erase_loop_ok n i e ls cur :
  tty_abs (tm_termio i) (mkSpec ls cur) (tm_buffer i) -> (length cur < n)%nat ->
  exists ev, erase_loop n i e = Some (set_buffer i (concat ls ++ keep_upto (erase_stops (tm_termio i)) cur), ev) /\
    raised ev = [].
Proof.
  revert i cur. induction n as [|n IH]; intros i cur Habs Hn; [lia|]. cbn [erase_loop].
  destruct (erase_abs i e ls cur Habs) as (o & ev & -> & Hev & Ho).
  destruct cur as [|x cur _] using rev_ind.
  - destruct o as [z|]; [discriminate (proj2 Ho (or_introl eq_refl))|]. by exists ev.
  - unfold rub_out. rewrite last_snoc, removelast_last, keep_upto_snoc.
    destruct (erase_stops (tm_termio i) x) eqn:Hx.
    + destruct o as [z|]; [|by exists ev]. discriminate (proj2 Ho (or_intror (ex_intro _ cur (ex_intro _ x (conj eq_refl Hx))))).
    + destruct o as [z|].
      * assert (cur `prefix_of` cur ++ [x]) as Hp by by exists [x].
        pose proof (tty_abs_prefix _ _ _ cur _ Habs Hp) as Habs'. rewrite length_app in Hn. simpl in Hn.
        destruct (IH (set_buffer i (concat ls ++ cur)) cur Habs' ltac:(lia)) as (ev' & -> & Hev'). eexists. split; [done|].
        by rewrite raised_app, Hev, Hev'.
      * exfalso. destruct (proj1 Ho eq_refl) as [E|(l & y & [<- <-]%app_inj_tail & Hy)]; [by destruct cur|congruence].
Qed.

Lemma tty_abs_put t ls cur buf c :
  tty_abs t (mkSpec ls cur) buf ->
  tty_abs t (if is_delim t c then mkSpec (ls ++ [cur ++ [c]]) [] else mkSpec ls (cur ++ [c])) (buf ++ [c]).
Proof.
  intros (-> & Hls & Hc). simpl in *. destruct (is_delim t c) eqn:Hd.
  - split_and!; simpl.
    + rewrite concat_app. simpl. by rewrite !app_nil_r, app_assoc.
    + apply Forall_app. split; [done|]. apply Forall_singleton. by exists cur, c.
    + constructor.
  - split_and!; simpl; [by rewrite app_assoc|done|]. apply Forall_app. split; [done|by apply Forall_singleton].
Qed.

Lemma commit_input_ok i ch :
  exists ev, commit_input i ch =
    (match input_char (tm_termio i) ch with Some c => set_buffer i (tm_buffer i ++ [c]) | None => i end, ev) /\
    raised ev = [].
Proof.
  unfold commit_input, input_char, do_commit_char.
  repeat case_match; eexists; (split; [done|]); by rewrite ?raised_app, ?raised_echo_char.
Qed.

Lemma commit_canon_ok i ch s :
  icanon (tm_termio i) = true -> tty_abs (tm_termio i) s (tm_buffer i) ->
  is_signal_char (tm_termio i) ch = false ->
  exists b ev, commit_canon i ch = Ret (set_buffer i b, ev) /\ raised ev = [] /\
    tty_abs (tm_termio i) (spec_input (tm_termio i) s ch) b.
Proof.
  intros Hcan Habs Hsig. destruct s as [ls cur]. unfold commit_canon, spec_input. rewrite Hsig, Hcan. cbn [andb sp_lines sp_cur].
  assert (i = set_buffer i (tm_buffer i)) as Hi by by destruct i.
  assert (length cur < S (length (tm_buffer i)))%nat as Hlen
    by (destruct Habs as (-> & _); simpl; rewrite length_app; lia).
  destruct (ch =? 0xff); cbn [negb andb]; [|destruct (ch =? veof (tm_termio i)); [|destruct (ch =? verase (tm_termio i));
    [|destruct (ch =? vkill (tm_termio i))]]].
  2: { eexists _, _. rewrite <- Hi. by split_and!. }
  2: { destruct (erase_abs i true ls cur Habs) as (o & ev & -> & Hev & _). eexists _, _. split; [done|]. split; [done|].
       eapply tty_abs_prefix, rub_out_prefix. done. }
  2: { destruct (echok (tm_termio i)); cbn [orb].
       - destruct (erase_loop_ok _ i false ls cur Habs Hlen) as (ev & -> & Hev). eexists _, _. split; [done|].
         split; [by rewrite raised_app, Hev|]. eapply tty_abs_prefix, keep_upto_prefix. done.
       - destruct (echoke (tm_termio i) && iexten (tm_termio i)).
         + destruct (erase_loop_ok _ i true ls cur Habs Hlen) as (ev & -> & Hev). eexists _, _. split; [done|]. split; [done|].
           eapply tty_abs_prefix, keep_upto_prefix. done.
         + eexists _, _. rewrite <- Hi. by split_and!. }
  all: destruct (commit_input_ok i ch) as (ev & -> & Hev); destruct (input_char (tm_termio i) ch) as [c|];
    eexists _, ev; [split; [done|split; [done|by apply tty_abs_put]]|rewrite <- Hi; by split_and!].
Qed.

Lemma commit_char_ok alive i ch s :
  icanon (tm_termio i) = true -> tty_abs (tm_termio i) s (tm_buffer i) ->
  exists b ev, commit_char alive i ch = Ret (set_buffer i b, ev) /\
    raised ev = match session_upgrade alive i, spec_signal (tm_termio i) ch with
                | Some sid, Some g => [(sid, g)] | _, _ => [] end /\
    tty_abs (tm_termio i) (spec_input (tm_termio i) s ch) b.
Proof.
  intros Hcan Habs. unfold commit_char, spec_signal. destruct (is_signal_char (tm_termio i) ch) eqn:Hsig.
  - unfold spec_input. rewrite Hsig. unfold is_signal_char in Hsig. apply andb_true_iff in Hsig as [Hs Hch]. rewrite Hs.
    assert (forall g, exists b ev, Ret (echo_and_signal alive i ch g) = Ret (set_buffer i b, ev) /\
      raised ev = match session_upgrade alive i with Some sid => [(sid, g)] | None => [] end /\
      tty_abs (tm_termio i) (if noflsh (tm_termio i) then s else mkSpec [] []) b) as Hecho.
    { intros g. unfold echo_and_signal, tty_signal. destruct (noflsh (tm_termio i)); eexists _, _.
      - split; [assert (i = set_buffer i (tm_buffer i)) as <- by (by destruct i); done|].
        rewrite raised_app, raised_echo_char. split; [by destruct (session_upgrade alive i)|done].
      - split; [done|]. rewrite raised_app, raised_echo_char. split; [by destruct (session_upgrade alive i)|].
        split_and!; [done|constructor|constructor]. }
    destruct (ch =? vintr (tm_termio i)); [|destruct (ch =? vquit (tm_termio i)); [|destruct (ch =? vsusp (tm_termio i)); [|done]]];
      edestruct Hecho as (b' & ev' & -> & Hr & Ha);
      eexists _, _; (split; [done|split; [by rewrite Hr; destruct (session_upgrade alive i)|done]]).
  - destruct (commit_canon_ok i ch s Hcan Habs Hsig) as (b & ev & Hc & Hev & Ha). exists b, ev. rewrite Hev.
    split; [|split; [by destruct (session_upgrade alive i)|done]]. unfold is_signal_char in Hsig.
    destruct (isig (tm_termio i) && negb (ch =? 255)); [|done].
    destruct (ch =? vintr (tm_termio i)); [done|]. destruct (ch =? vquit (tm_termio i)); [done|].
    destruct (ch =? vsusp (tm_termio i)); [done|]. done.
Qed.

(** ** Canonical reads *)

Lemma position_line t l rest : is_line t l -> position (is_delim t) (l ++ rest) = Some (length l - 1)%nat.
Proof.
  intros (l' & d & -> & Hd & Hl'). induction Hl' as [|x l' Hx Hl' IH]; simpl; [by rewrite Hd|].
  rewrite Hx, IH. simpl. rewrite !length_app. simpl. f_equal. lia.
Qed.

Lemma is_line_length t l : is_line t l -> (0 < length l)%nat.
Proof. intros (l' & d & -> & _). rewrite length_app. simpl. lia. Qed.

(** The rest of a line that is longer than one read. *)
Lemma is_line_drop t l n : is_line t l -> (n < length l)%nat -> is_line t (drop n l).
Proof.
  intros (l' & d & -> & Hd & Hl') Hn. rewrite length_app in Hn. simpl in Hn.
  exists (drop n l'), d. rewrite drop_app_le by lia. split; [done|]. split; [done|]. by apply Forall_drop.
Qed.

Lemma line_ready_lines t l ls cur :
  is_line t l -> existsb (is_delim t) (concat (l :: ls) ++ cur) = true.
Proof.
  intros (l' & d & -> & Hd & _). apply existsb_exists. exists d. split; [|done].
  apply list_elem_of_In. simpl. set_solver.
Qed.

Lemma no_line_not_ready t cur : no_delim t cur -> existsb (is_delim t) cur = false.
Proof. induction 1 as [|x l Hx _ IH]; simpl; [done|]. by rewrite Hx, IH. Qed.

(** What is left of the buffer when a read took [n] bytes of the first line. *)
Lemma tty_abs_take t l ls cur :
  Forall (is_line t) (l :: ls) -> no_delim t cur ->
  let n := Nat.min (length l) TMP_BUFFER_LEN in
  tty_abs t (mkSpec (match drop TMP_BUFFER_LEN l with [] => ls | l' => l' :: ls end) cur)
    (drop n (concat (l :: ls) ++ cur)).
Proof.
  intros [Hl Hls]%Forall_cons Hc n. simpl. rewrite <- app_assoc, drop_app_le by lia.
  destruct (drop TMP_BUFFER_LEN l) as [|x l'] eqn:Hd.
  - apply (f_equal length) in Hd. rewrite length_drop in Hd. simpl in Hd. rewrite drop_ge by lia. by split_and!.
  - assert (length l > TMP_BUFFER_LEN)%nat as Hgt by (apply (f_equal length) in Hd; rewrite length_drop in Hd; simpl in Hd; lia).
    replace n with TMP_BUFFER_LEN by lia. rewrite Hd. split_and!; simpl; [by rewrite <- app_assoc| |done].
    constructor; [|done]. rewrite <- Hd. by apply is_line_drop.
Qed.

Lemma tty_read_ok `{BufferLaws B} i s (b : B) :
  icanon (tm_termio i) = true -> tty_abs (tm_termio i) s (tm_buffer i) -> buf_ok b -> available b <> 0%nat ->
  match spec_read s with
  | None => tty_read_try i b = Pending
  | Some (data, s') => exists b' buf',
      tty_read_try i b = Ready (Ret (Nat.min (available b) (length data), b'), set_buffer i buf') /\
      buf_ok b' /\ buf_data b' = buf_data b ++ take (available b) data /\ tty_abs (tm_termio i) s' buf'
  end.
Proof.
  intros Hcan Habs Hb Hav. unfold tty_read_try, tty_read_loop. destruct (Nat.eqb_spec (available b) 0) as [|_]; [done|].
  destruct s as [ls cur], Habs as (Hbuf & Hls & Hc). cbn [sp_lines sp_cur] in *. unfold tty_is_empty, line_ready, spec_read.
  rewrite Hcan. cbn [negb orb sp_lines sp_cur]. destruct ls as [|l ls].
  - simpl in Hbuf. rewrite Hbuf, (no_line_not_ready _ _ Hc). by destruct cur.
  - pose proof (Forall_inv Hls) as Hl. pose proof (is_line_length _ _ Hl) as Hlen.
    assert (existsb (is_delim (tm_termio i)) (tm_buffer i) = true) as -> by (rewrite Hbuf; by apply line_ready_lines).
    destruct (tm_buffer i) as [|x buf] eqn:Hx; [apply (f_equal length) in Hbuf; simpl in Hbuf; rewrite !length_app in Hbuf; lia|].
    cbn [orb negb]. rewrite <- Hx in *. unfold read_length. rewrite Hcan. pose proof Hbuf as Hbuf'. simpl in Hbuf'.
    rewrite <- app_assoc in Hbuf'. rewrite Hbuf', position_line, <- Hbuf' by done.
    replace (length l - 1 + 1)%nat with (length l) by lia. set (n := Nat.min (length l) TMP_BUFFER_LEN).
    assert (take n (tm_buffer i) = take TMP_BUFFER_LEN l) as Htake.
    { rewrite Hbuf', take_app_le by lia. unfold n. destruct (Nat.le_ge_cases (length l) TMP_BUFFER_LEN) as [Hle|Hge].
      - rewrite Nat.min_l by done. by rewrite !take_ge by lia.
      - by rewrite Nat.min_r. }
    destruct (buf_fill_law b (take n (tm_buffer i)) Hb) as (r & b' & -> & Hb' & _ & Hd & Hp & _).
    cbn [mbind outcome_bind]. eexists b', _. rewrite Hp, Htake in *. split; [done|]. split; [done|]. split; [done|].
    rewrite Hbuf. by apply tty_abs_take.
Qed.

(** C33: In canonical mode the terminal is a line editor.  Whatever is typed,
    its buffer is the complete lines followed by the line being typed: the
    erase character removes one character and the kill character the rest of
    the current line, neither ever touches a complete line, a delimiter
    completes the line, a signal character raises its signal in the foreground
    of the terminal's session (no other character does) and flushes the buffer
    unless [NOFLSH] is set.  A read waits exactly when there is no complete
    line, and otherwise takes the first one, or its first 32 bytes. *)
Theorem tty_refines `{BufferLaws B} alive i s :
  icanon (tm_termio i) = true -> tty_abs (tm_termio i) s (tm_buffer i) ->
  (forall ch, exists buf ev, commit_char alive i ch = Ret (set_buffer i buf, ev) /\
     raised ev = match session_upgrade alive i, spec_signal (tm_termio i) ch with
                 | Some sid, Some g => [(sid, g)] | _, _ => [] end /\
     tty_abs (tm_termio i) (spec_input (tm_termio i) s ch) buf) /\
  (forall b : B, buf_ok b -> available b <> 0%nat ->
     match spec_read s with
     | None => tty_read_try i b = Pending
     | Some (data, s') => exists b' buf,
         tty_read_try i b = Ready (Ret (Nat.min (available b) (length data), b'), set_buffer i buf) /\
         buf_ok b' /\ buf_data b' = buf_data b ++ take (available b) data /\ tty_abs (tm_termio i) s' buf
     end).
Proof.
  intros Hcan Habs. split; [intros ch; by apply commit_char_ok|]. intros b Hb Hav. by apply tty_read_ok.
Qed.

(** The words "ls", a newline and a half-typed line. *)
Definition demo_tty : TerminalInner := mkTerm new_standard (Some 1) [108; 115; 10; 120].
Definition demo_spec : tty_spec := mkSpec [[108; 115; 10]] [120].
Definition demo_line_buffer : ByteBuffer := byte_buffer_new (replicate 64 0).

Lemma demo_tty_abs : tty_abs (tm_termio demo_tty) demo_spec (tm_buffer demo_tty).
Proof.
  split_and!; [reflexivity| |by repeat constructor]. constructor; [|constructor].
  exists [108; 115], 10. split_and!; [done|done|by repeat constructor].
Qed.

Lemma demo_line_buffer_ok : buf_ok demo_line_buffer.
Proof. unfold demo_line_buffer. simpl. lia. Qed.

Lemma tty_refines_witness :
  (exists buf ev, commit_char (fun _ => true) demo_tty 0x7f = Ret (set_buffer demo_tty buf, ev) /\
     tty_abs new_standard (mkSpec [[108; 115; 10]] []) buf) /\
  exists b' buf, tty_read_try demo_tty demo_line_buffer = Ready (Ret (3%nat, b'), set_buffer demo_tty buf) /\
    buf_data b' = [108; 115; 10].
Proof.
  destruct (tty_refines (B := ByteBuffer) (fun _ => true) demo_tty demo_spec eq_refl demo_tty_abs) as [Hc Hr]. split.
  - destruct (Hc 0x7f) as (buf & ev & H1 & _ & H2). exists buf, ev. split; [exact H1|exact H2].
  - specialize (Hr demo_line_buffer demo_line_buffer_ok). cbn [demo_spec spec_read sp_lines sp_cur] in Hr.
    destruct Hr as (b' & buf & H1 & _ & H2 & _); [vm_compute; discriminate|].
    exists b', buf. split; [exact H1|exact H2].
Defined.

(** ** [tcsetattr] and [tcgetattr] *)

Definition termios_wf (t : Termios) : Prop :=
  is_u32 (t_iflag t) /\ is_u32 (t_oflag t) /\ is_u32 (t_cflag t) /\ is_u32 (t_lflag t) /\ length (t_cc t) = NCCS.

(** The bits the kernel knows. *)
Definition known_bits (t : Termios) : Termios :=
  mkTermios (Z.land (t_iflag t) IFLAGS_ALL) (Z.land (t_oflag t) OFLAGS_ALL) (t_cflag t)
    (Z.land (t_lflag t) LFLAGS_ALL) (t_line t) (t_cc t).

Lemma land_low16 x mask : Z.land mask (2 ^ 16 - 1) = mask -> Z.land (x mod 2 ^ 16) mask = Z.land x mask.
Proof.
  intros <-. rewrite <- Z.land_ones by lia. change (2 ^ 16 - 1) with (Z.ones 16).
  rewrite <- !Z.land_assoc. f_equal. rewrite Z.land_comm, <- Z.land_assoc, Z.land_diag. done.
Qed.

Lemma set_user_known u : set_user u = known_bits u.
Proof. unfold set_user, known_bits. by rewrite !land_low16. Qed.

Lemma length_termios_bytes t : length (t_cc t) = NCCS -> length (termios_bytes t) = USER_TERMIOS_SIZE.
Proof. intros H. unfold termios_bytes. rewrite !length_app, !length_le_bytes, H. done. Qed.

Lemma termios_roundtrip t : termios_wf t -> termios_of_bytes (termios_bytes t) = t.
Proof.
  intros (Hi & Ho & Hc & Hl & _). unfold is_u32 in *. destruct t as [i o c l li cc]. simpl in *.
  unfold termios_of_bytes, termios_bytes. cbn [t_iflag t_oflag t_cflag t_lflag t_line t_cc].
  assert (forall a w rest, a = 4%nat -> take a (le_bytes 4 w ++ rest) = le_bytes 4 w) as Htake
    by (intros a w rest ->; by rewrite take_app_le, take_ge by (rewrite length_le_bytes; lia)).
  assert (forall k w rest, drop (4 + k) (le_bytes 4 w ++ rest) = drop k rest) as Hdrop
    by (intros k w rest; rewrite drop_app_ge by (rewrite length_le_bytes; lia); f_equal; rewrite length_le_bytes; lia).
  rewrite Htake by done. rewrite (Hdrop 0%nat), (Hdrop 4%nat), (Hdrop 8%nat), (Hdrop 13%nat), (Hdrop 0%nat), (Hdrop 4%nat), (Hdrop 9%nat),
    (Hdrop 0%nat), (Hdrop 5%nat), (Hdrop 1%nat). rewrite !drop_0, !Htake by done.
  rewrite !le_word_bytes by (change (256 ^ Z.of_nat 4) with (2 ^ 32); lia). simpl. by rewrite drop_0.
Qed.

Lemma up_write_bytes m a data :
  mapped m a (length data) -> (0 < length data)%nat ->
  exists m', up_write m (mkUserPtr a (length data)) data = (m', Ret tt) /\ bytes_at m' a (length data) = data /\
    (forall x, ~ a <= x < a + Z.of_nat (length data) -> m' !! x = m !! x).
Proof.
  intros Hm Hl. destruct (up_write_ok m (mkUserPtr a (length data)) data Hm ltac:(simpl; lia)) as (m' & -> & Hm'). simpl in Hm'.
  exists m'. split; [done|]. split; [|intros x Hx; by rewrite Hm', decide_False].
  apply bytes_at_written. intros x Hx. by rewrite Hm', decide_True.
Qed.

(** What [tcsetattr] sets is what [tcgetattr] reports: every flag the
    kernel knows, the control flags, the line discipline and all control
    characters come back as they were given (unknown flags are dropped), and
    neither changes the input buffer or the session; any other request number
    is [EINVAL] and a bad pointer [EFAULT] without any effect. *)
Theorem tty_termios_roundtrip `{SessionOps W} (w : W) i m a a2 u :
  0 < a -> a + 36 <= USER_MAX_ADDR -> mapped m a USER_TERMIOS_SIZE ->
  0 < a2 -> a2 + 36 <= USER_MAX_ADDR -> mapped m a2 USER_TERMIOS_SIZE ->
  termios_wf u -> bytes_at m a USER_TERMIOS_SIZE = termios_bytes u ->
  (exists i' m', tty_file_ioctl w i m TCSETS a = (w, i', m, Ret tt) /\
     tm_buffer i' = tm_buffer i /\ tm_session i' = tm_session i /\
     tty_file_ioctl w i' m TCGETS a2 = (w, i', m', Ret tt) /\
     bytes_at m' a2 USER_TERMIOS_SIZE = termios_bytes (known_bits u) /\
     (forall x, ~ a2 <= x < a2 + 36 -> m' !! x = m !! x)) /\
  tty_file_ioctl w i m TCSETS 0 = (w, i, m, Err EFAULT) /\
  (forall arg, tty_file_ioctl w i m 0x5405 arg = (w, i, m, Err EINVAL)).
Proof.
  intros Ha Hl Hm Ha2 Hl2 Hm2 Hu Hb. split; [|split; [reflexivity|intros arg; reflexivity]].
  set (i' := mkTerm (known_bits u) (tm_session i) (tm_buffer i)).
  assert (length (termios_bytes (known_bits u)) = USER_TERMIOS_SIZE) as Hlen
    by (apply length_termios_bytes; by destruct Hu as (_ & _ & _ & _ & Hcc)).
  destruct (up_write_bytes m a2 (termios_bytes (known_bits u))) as (m' & Hw & Hb' & Hout);
    [by rewrite Hlen|rewrite Hlen; unfold USER_TERMIOS_SIZE; lia|]. rewrite Hlen in Hw, Hb', Hout.
  exists i', m'. split; [|split; [done|split; [done|split; [|done]]]].
  - unfold tty_file_ioctl, tty_file_request. change (wrap32 TCSETS =? TCGETS) with false. change (wrap32 TCSETS =? TCSETS) with true.
    cbn [orb]. rewrite checked_new_ok by (unfold USER_TERMIOS_SIZE; lia). cbn [mbind outcome_bind tty_ioctl].
    rewrite up_read_ok by (done || (unfold USER_TERMIOS_SIZE; simpl; lia)). cbn [up_ptr].
    by rewrite Hb, termios_roundtrip, set_user_known.
  - unfold tty_file_ioctl, tty_file_request. change (wrap32 TCGETS =? TCGETS) with true.
    rewrite checked_new_ok by (unfold USER_TERMIOS_SIZE; lia). cbn [mbind outcome_bind tty_ioctl].
    change (get_user (tm_termio i')) with (known_bits u). by rewrite Hw.
Qed.

(** A world without sessions. *)
#[export] Instance no_sessions : SessionOps unit := {
  ses_alive _ _ := false;
  ses_foreground _ _ := None;
  ses_set_foreground_pgid w _ _ := Err EPERM;
  ses_drop_control_terminal w _ := w
}.

Definition demo_tty_mem : UMem :=
  list_to_map (imap (fun k b => (0x1000 + Z.of_nat k, b)) (termios_bytes new_standard)) ∪
  list_to_map ((fun x => (x, 0)) <$> seqZ 0x2000 36).

Lemma mapped_dec m a n : forallb (fun k => match m !! (a + Z.of_nat k) with Some _ => true | None => false end) (seq 0 n) = true -> mapped m a n.
Proof.
  intros Hf k Hk. pose proof (proj1 (forallb_forall _ _) Hf k ltac:(apply in_seq; lia)) as Hs. simpl in Hs.
  by destruct (m !! (a + Z.of_nat k)).
Qed.

Lemma tty_termios_roundtrip_witness :
  exists i' m', tty_file_ioctl tt terminal_new demo_tty_mem TCSETS 0x1000 = (tt, i', demo_tty_mem, Ret tt) /\
    bytes_at m' 0x2000 USER_TERMIOS_SIZE = termios_bytes new_standard.
Proof.
  destruct (tty_termios_roundtrip tt terminal_new demo_tty_mem 0x1000 0x2000 new_standard) as ((i' & m' & H1 & _ & _ & _ & H2 & _) & _);
    [lia|vm_compute; discriminate|apply mapped_dec; vm_compute; reflexivity|lia|vm_compute; discriminate
    |apply mapped_dec; vm_compute; reflexivity|repeat split; vm_compute; discriminate || reflexivity|vm_compute; reflexivity|].
  exists i', m'. split; [exact H1|]. rewrite H2. vm_compute. reflexivity.
Defined.

(** ** Where the code departs from its intent *)

(** The end-of-file character wakes the readers, but they find no line: input
    that ends with it is never delivered. *)
Theorem tty_eof_ignored :
  let i := mkTerm new_standard None [120] in
  commit_char (fun _ => true) i CTRL_D = Ret (i, [TNotify]) /\ tty_read_try i demo_line_buffer = Pending.
Proof. split; reflexivity. Qed.

(** A canonical read takes the whole line out of the buffer even when the
    caller's buffer is smaller, and the rest of the line is lost. *)
Theorem tty_read_loses_bytes :
  match tty_read_try (mkTerm new_standard None [1; 2; 3; 4; 10]) (byte_buffer_new [0; 0]) with
  | Ready (Ret (n, b), i) => n = 2%nat /\ bb_data b = [1; 2] /\ tm_buffer i = []
  | _ => False
  end.
Proof. vm_compute. by split_and!. Qed.

(** Taking a terminal from another session by force gives it back to the old
    session instead of the new one. *)
Theorem set_session_keeps_old `{SessionOps W} (w : W) t b old session :
  ses_alive w old = true ->
  set_session w (mkTerm t (Some old) b) session true = Ret (ses_drop_control_terminal w old, mkTerm t (Some old) b).
Proof. intros Ha. unfold set_session, session_upgrade. simpl. by rewrite Ha. Qed.

(** Without [VEOL] a NUL byte in a line stops the erasure of what is before it. *)
Theorem tty_nul_stops_erase :
  let i := mkTerm new_standard None [120; 0] in commit_char (fun _ => true) i 0x7f = Ret (i, []).
Proof. reflexivity. Qed.
