(* ===== verification/Process.v ===== *)
(** * Processes, process groups and sessions

    Models src/kernel/task/process.rs, process_list.rs, process_group.rs and
    session.rs, and the process part of src/kernel/task/clone.rs.

    A process, its group and its session refer to each other by [Arc] and
    [Weak].  Processes are named by their pid: a [Process] lives from
    [ProcessBuilder::build] until its parent has waited for it, because the
    process list keeps the leader's [Thread] until then.  Groups and sessions
    are objects of a store with an identity of their own, since a group id can
    be used again; an object is alive while a process points at it or while a
    closure handed to [call_rcu] still owns it, and a [Weak] can be upgraded
    exactly then.  The closures run at any time ([rcu_run]).

    The operations hold the process list's lock and are one step each, except
    [wait], which gives the lock up between taking the object from the queue and
    removing the process.  What they ask of other parts of the kernel is
    recorded in the order of the calls ([w_calls]). *)

From stdpp Require Import sorting.
From S2P Require Import Prelude Io UserMem Signal.

(** ** Wait objects *)

Inductive WaitType := WExited (status : Z) | WSignaled (signal : Z) | WStopped (signal : Z) | WContinued.
Record WaitObject := mkWaitObject { wob_pid : Z; wob_code : WaitType }.

#[export] Instance WaitType_eq_dec : EqDecision WaitType.
Proof. solve_decision. Defined.
#[export] Instance WaitObject_eq_dec : EqDecision WaitObject.
Proof. solve_decision. Defined.

(** [SIGNAL_COREDUMP!]. *)
Definition signal_coredump (s : Z) : bool :=
  (s =? 3) || (s =? SIGILL) || (s =? 6) || (s =? 8) || (s =? SIGSEGV) || (s =? SIGBUS) || (s =? 5) || (s =? SIGSYS) ||
  (s =? 24) || (s =? 25).

Definition to_wstatus (t : WaitType) : Z :=
  match t with
  | WExited status => Z.shiftl (Z.land status 0xff) 8
  | WSignaled signal => if signal_coredump signal then Z.lor signal 0x80 else signal
  | WStopped signal => Z.lor 0x7f (Z.shiftl signal 8)
  | WContinued => 0xffff
  end.

Definition CLD_EXITED : Z := 1.
Definition CLD_KILLED : Z := 2.
Definition CLD_DUMPED : Z := 3.
Definition CLD_STOPPED : Z := 5.
Definition CLD_CONTINUED : Z := 6.

Definition to_status_code (t : WaitType) : Z * Z :=
  match t with
  | WExited status => (status, CLD_EXITED)
  | WSignaled signal => if signal_coredump signal then (signal, CLD_DUMPED) else (signal, CLD_KILLED)
  | WStopped signal => (signal, CLD_STOPPED)
  | WContinued => (SIGCONT, CLD_CONTINUED)
  end.

Definition stopped (o : WaitObject) : option Z := match wob_code o with WStopped s => Some s | _ => None end.
Definition is_continue (o : WaitObject) : bool := match wob_code o with WContinued => true | _ => false end.

(** Objects that are not about a stop or a continuation. *)
Definition is_exit (o : WaitObject) : bool :=
  match stopped o with Some _ => false | None => negb (is_continue o) end.

Inductive WaitId := WAny | WPid (pid : Z) | WPgid (pgid : Z).

Definition P_ALL : Z := 0.
Definition P_PID : Z := 1.
Definition P_PGID : Z := 2.
Definition P_PIDFD : Z := 3.

Definition from_type_and_id (id_type id : Z) : outcome WaitId :=
  if id_type =? P_ALL then Ret WAny
  else if id_type =? P_PID then Ret (WPid id)
  else if id_type =? P_PGID then Ret (WPgid id)
  else if id_type =? P_PIDFD then Panic
  else Err EINVAL.

(** ** The world *)

Record Process := mkProcess {
  p_parent : option Z; p_pgroup : option Z; p_session : option Z;
  p_children : gset Z; p_threads : gset Z; p_waits : list WaitObject; p_exit_signal : option Z
}.
Record ProcessGroup := mkProcessGroup { g_pgid : Z; g_session : Z; g_members : gset Z }.
(** The terminal that controls the session is named by its identity. *)
Record Session := mkSession { s_sid : Z; s_groups : gmap Z Z; s_foreground : option Z; s_control_terminal : option Z }.

(** The part of a [Thread] the process list uses. *)
Record Thread := mkThread { t_process : Z; t_clear_child_tid : option Z; t_dead : bool }.

(** What a closure given to [call_rcu] owns. *)
Record RcuItem := mkRcuItem { rcu_pgroup : option Z; rcu_session : option Z }.

(** Calls to other parts of the kernel. *)
Inductive Call :=
| CRaise (pid signal : Z)              (** [Process::raise] *)
| CClearTid (tid addr : Z)             (** zero at [clear_child_tid] and two [futex_wake]s *)
| CRobustList (tid : Z)                (** [RobustListHead::wake_all] *)
| CFutexWakeProcess (pid : Z)
| CCloseFiles (tid : Z)
| CDropTtySession (tty : Z)            (** [Terminal::drop_session] *)
| CReleaseMm (pid : Z).

Record ProcWorld := mkProcWorld {
  w_init : option Z;
  w_threads : gmap Z Thread;
  w_processes : gmap Z Process;
  w_pgroups : gmap Z Z;                (** the [Weak]s by group id *)
  w_sessions : gmap Z Z;               (** the [Weak]s by session id *)
  w_group_store : gmap Z ProcessGroup;
  w_session_store : gmap Z Session;
  w_next_object : Z;
  w_next_pid : Z;
  w_rcu : list RcuItem;
  w_calls : list Call
}.

Definition proc_world_init : ProcWorld := mkProcWorld None ∅ ∅ ∅ ∅ ∅ ∅ 0 1 [] [].

Definition set_threads (w : ProcWorld) x := mkProcWorld (w_init w) x (w_processes w) (w_pgroups w) (w_sessions w) (w_group_store w) (w_session_store w) (w_next_object w) (w_next_pid w) (w_rcu w) (w_calls w).
Definition set_processes (w : ProcWorld) x := mkProcWorld (w_init w) (w_threads w) x (w_pgroups w) (w_sessions w) (w_group_store w) (w_session_store w) (w_next_object w) (w_next_pid w) (w_rcu w) (w_calls w).
Definition set_pgroups (w : ProcWorld) x := mkProcWorld (w_init w) (w_threads w) (w_processes w) x (w_sessions w) (w_group_store w) (w_session_store w) (w_next_object w) (w_next_pid w) (w_rcu w) (w_calls w).
Definition set_sessions (w : ProcWorld) x := mkProcWorld (w_init w) (w_threads w) (w_processes w) (w_pgroups w) x (w_group_store w) (w_session_store w) (w_next_object w) (w_next_pid w) (w_rcu w) (w_calls w).
Definition set_group_store (w : ProcWorld) x := mkProcWorld (w_init w) (w_threads w) (w_processes w) (w_pgroups w) (w_sessions w) x (w_session_store w) (w_next_object w) (w_next_pid w) (w_rcu w) (w_calls w).
Definition set_session_store (w : ProcWorld) x := mkProcWorld (w_init w) (w_threads w) (w_processes w) (w_pgroups w) (w_sessions w) (w_group_store w) x (w_next_object w) (w_next_pid w) (w_rcu w) (w_calls w).
Definition set_rcu (w : ProcWorld) x := mkProcWorld (w_init w) (w_threads w) (w_processes w) (w_pgroups w) (w_sessions w) (w_group_store w) (w_session_store w) (w_next_object w) (w_next_pid w) x (w_calls w).
Definition call (w : ProcWorld) (c : Call) := mkProcWorld (w_init w) (w_threads w) (w_processes w) (w_pgroups w) (w_sessions w) (w_group_store w) (w_session_store w) (w_next_object w) (w_next_pid w) (w_rcu w) (w_calls w ++ [c]).
Definition new_object (w : ProcWorld) := mkProcWorld (w_init w) (w_threads w) (w_processes w) (w_pgroups w) (w_sessions w) (w_group_store w) (w_session_store w) (w_next_object w + 1) (w_next_pid w) (w_rcu w) (w_calls w).

Definition set_children (p : Process) x := mkProcess (p_parent p) (p_pgroup p) (p_session p) x (p_threads p) (p_waits p) (p_exit_signal p).
Definition set_p_threads (p : Process) x := mkProcess (p_parent p) (p_pgroup p) (p_session p) (p_children p) x (p_waits p) (p_exit_signal p).
Definition set_waits (p : Process) x := mkProcess (p_parent p) (p_pgroup p) (p_session p) (p_children p) (p_threads p) x (p_exit_signal p).
Definition set_p_parent (p : Process) x := mkProcess x (p_pgroup p) (p_session p) (p_children p) (p_threads p) (p_waits p) (p_exit_signal p).
Definition set_p_pgroup (p : Process) x := mkProcess (p_parent p) x (p_session p) (p_children p) (p_threads p) (p_waits p) (p_exit_signal p).
Definition set_p_session (p : Process) x := mkProcess (p_parent p) (p_pgroup p) x (p_children p) (p_threads p) (p_waits p) (p_exit_signal p).

Definition get_process (w : ProcWorld) (pid : Z) : outcome Process := expect (w_processes w !! pid).
Definition put_process (w : ProcWorld) (pid : Z) (p : Process) : ProcWorld := set_processes w (<[pid := p]> (w_processes w)).

(** ** Strong references *)

Definition group_alive (w : ProcWorld) (g : Z) : bool :=
  existsb (fun kp => bool_decide (p_pgroup kp.2 = Some g)) (map_to_list (w_processes w)) ||
  existsb (fun i => bool_decide (rcu_pgroup i = Some g)) (w_rcu w).
Definition session_alive (w : ProcWorld) (s : Z) : bool :=
  existsb (fun kp => bool_decide (p_session kp.2 = Some s)) (map_to_list (w_processes w)) ||
  existsb (fun i => bool_decide (rcu_session i = Some s)) (w_rcu w).

Definition call_rcu (w : ProcWorld) (i : RcuItem) : ProcWorld := set_rcu w (w_rcu w ++ [i]).
(** The closures marked [true] run. *)
Fixpoint rcu_keep (q : list RcuItem) (mask : list bool) : list RcuItem :=
  match q, mask with
  | i :: q, ran :: mask => if ran : bool then rcu_keep q mask else i :: rcu_keep q mask
  | q, _ => q
  end.
Definition rcu_run (w : ProcWorld) (mask : list bool) : ProcWorld := set_rcu w (rcu_keep (w_rcu w) mask).

(** ** [ProcessList] *)

Definition try_find_process (w : ProcWorld) (pid : Z) : option Process := w_processes w !! pid.
Definition try_find_pgroup (w : ProcWorld) (pgid : Z) : option Z :=
  g ← w_pgroups w !! pgid; if group_alive w g then Some g else None.
Definition try_find_session (w : ProcWorld) (sid : Z) : option Z :=
  s ← w_sessions w !! sid; if session_alive w s then Some s else None.

Definition add_session (w : ProcWorld) (sid s : Z) : ProcWorld := set_sessions w (<[sid := s]> (w_sessions w)).
Definition add_pgroup (w : ProcWorld) (pgid g : Z) : ProcWorld := set_pgroups w (<[pgid := g]> (w_pgroups w)).
Definition add_process (w : ProcWorld) (pid : Z) (p : Process) : ProcWorld := put_process w pid p.
Definition add_thread (w : ProcWorld) (tid : Z) (t : Thread) : ProcWorld := set_threads w (<[tid := t]> (w_threads w)).

(** ** [Session] *)

Definition session_new (w : ProcWorld) (leader : Z) : Z * ProcWorld :=
  let s := w_next_object w in
  let w := new_object w in
  let w := set_session_store w (<[s := mkSession leader ∅ None None]> (w_session_store w)) in
  (s, add_session w leader s).

Definition session_add_member (w : ProcWorld) (s pgid g : Z) : outcome ProcWorld :=
  o ← expect (w_session_store w !! s);
  assert_ (bool_decide (s_groups o !! pgid = None));;
  Ret (set_session_store w (<[s := mkSession (s_sid o) (<[pgid := g]> (s_groups o)) (s_foreground o) (s_control_terminal o)]> (w_session_store w))).

Definition session_remove_member (w : ProcWorld) (s pgid : Z) : outcome ProcWorld :=
  o ← expect (w_session_store w !! s);
  assert_ (bool_decide (is_Some (s_groups o !! pgid)));;
  Ret (set_session_store w (<[s := mkSession (s_sid o) (delete pgid (s_groups o)) (s_foreground o) (s_control_terminal o)]> (w_session_store w))).

(** The group id of the foreground group, if it is alive. *)
Definition session_foreground (w : ProcWorld) (s : Z) : option Z :=
  o ← w_session_store w !! s;
  g ← s_foreground o;
  if group_alive w g then (fun x => g_pgid x) <$> w_group_store w !! g else None.

Definition set_foreground_pgid (w : ProcWorld) (s pgid : Z) : outcome ProcWorld :=
  o ← expect (w_session_store w !! s);
  match s_groups o !! pgid with
  | Some g => Ret (set_session_store w (<[s := mkSession (s_sid o) (s_groups o) (Some g) (s_control_terminal o)]> (w_session_store w)))
  | None => Err EPERM
  end.

Definition drop_control_terminal (w : ProcWorld) (s : Z) : option Z * ProcWorld :=
  match w_session_store w !! s with
  | Some o => (s_control_terminal o,
      set_session_store w (<[s := mkSession (s_sid o) (s_groups o) None None]> (w_session_store w)))
  | None => (None, w)
  end.

(** ** [ProcessGroup] *)

(** [ProcessGroupBuilder::build] with a leader and a session. *)
Definition pgroup_build (w : ProcWorld) (leader s : Z) : outcome (Z * ProcWorld) :=
  let g := w_next_object w in
  let w := new_object w in
  let w := set_group_store w (<[g := mkProcessGroup leader s {[leader]}]> (w_group_store w)) in
  let w := add_pgroup w leader g in
  w ← session_add_member w s leader g;
  Ret (g, w).

Definition pgroup_add_member (w : ProcWorld) (g pid : Z) : outcome ProcWorld :=
  o ← expect (w_group_store w !! g);
  assert_ (bool_decide (pid ∉ g_members o));;
  Ret (set_group_store w (<[g := mkProcessGroup (g_pgid o) (g_session o) ({[pid]} ∪ g_members o)]> (w_group_store w))).

(** [held] are the sessions the caller itself keeps alive. *)
Definition pgroup_remove_member (held : list Z) (w : ProcWorld) (g pid : Z) : outcome ProcWorld :=
  o ← expect (w_group_store w !! g);
  assert_ (bool_decide (pid ∈ g_members o));;
  let members := g_members o ∖ {[pid]} in
  let w := set_group_store w (<[g := mkProcessGroup (g_pgid o) (g_session o) members]> (w_group_store w)) in
  if decide (members = ∅) then
    assert_ (session_alive w (g_session o) || bool_decide (g_session o ∈ held));;
    session_remove_member w (g_session o) (g_pgid o)
  else Ret w.

(** ** Building *)

Definition add_child (w : ProcWorld) (pid child : Z) : outcome ProcWorld :=
  p ← get_process w pid;
  assert_ (bool_decide (child ∉ p_children p));;
  Ret (put_process w pid (set_children p ({[child]} ∪ p_children p))).

Definition process_add_thread (w : ProcWorld) (pid tid : Z) : outcome ProcWorld :=
  p ← get_process w pid;
  assert_ (bool_decide (tid ∉ p_threads p));;
  Ret (put_process w pid (set_p_threads p ({[tid]} ∪ p_threads p))).

(** The part of [ThreadBuilder::build] that concerns the process list. *)
Definition thread_build (w : ProcWorld) (tid pid : Z) (clear_child_tid : option Z) : outcome ProcWorld :=
  let w := add_thread w tid (mkThread pid clear_child_tid false) in
  process_add_thread w pid tid.

(** [ProcessBuilder::build]. *)
Definition process_build (w : ProcWorld) (pid : Z) (clear_child_tid exit_signal parent pgroup session : option Z) : outcome ProcWorld :=
  let w := add_process w pid (mkProcess None None None ∅ ∅ [] exit_signal) in
  w ← thread_build w pid pid clear_child_tid;
  let (s, w) := match session with Some s => (s, w) | None => session_new w pid end in
  '(g, w) ← match pgroup with
            | Some g => w ← pgroup_add_member w g pid; Ret (g, w)
            | None => pgroup_build w pid s
            end;
  w ← match parent with Some pp => add_child w pp pid | None => Ret w end;
  p ← get_process w pid;
  Ret (put_process w pid (set_p_session (set_p_pgroup (set_p_parent p parent) (Some g)) (Some s))).

Definition alloc_pid (w : ProcWorld) : Z * ProcWorld :=
  (w_next_pid w,
   mkProcWorld (w_init w) (w_threads w) (w_processes w) (w_pgroups w) (w_sessions w) (w_group_store w) (w_session_store w)
     (w_next_object w) (wrap32 (w_next_pid w + 1)) (w_rcu w) (w_calls w)).

Definition set_init_process (w : ProcWorld) (pid : Z) : outcome ProcWorld :=
  assert_ (bool_decide (w_init w = None));;
  Ret (mkProcWorld (Some pid) (w_threads w) (w_processes w) (w_pgroups w) (w_sessions w) (w_group_store w) (w_session_store w)
         (w_next_object w) (w_next_pid w) (w_rcu w) (w_calls w)).

(** The first process: [init_process] of src/lib.rs. *)
Definition boot : outcome ProcWorld :=
  let (pid, w) := alloc_pid proc_world_init in
  w ← process_build w pid None None None None None;
  set_init_process w pid.

(** [do_clone], for a thread of process [pid]. *)
Definition do_clone (w : ProcWorld) (pid : Z) (clone_thread : bool) (clear_child_tid exit_signal : option Z) : outcome (Z * ProcWorld) :=
  p ← get_process w pid;
  let (new_pid, w) := alloc_pid w in
  if clone_thread then
    w ← thread_build w new_pid pid clear_child_tid;
    Ret (new_pid, w)
  else
    g ← expect (p_pgroup p);
    s ← expect (p_session p);
    w ← process_build w new_pid clear_child_tid exit_signal (Some pid) (Some g) (Some s);
    Ret (new_pid, w).

(** ** Sessions and groups of a process *)

Definition setsid (w : ProcWorld) (pid : Z) : outcome (Z * ProcWorld) :=
  match try_find_session w pid with
  | Some _ => Err EPERM
  | None =>
      let (s, w) := session_new w pid in
      '(g, w) ← pgroup_build w pid s;
      p ← get_process w pid;
      old_session ← expect (p_session p);
      old_pgroup ← expect (p_pgroup p);
      let w := put_process w pid (set_p_pgroup (set_p_session p (Some s)) (Some g)) in
      w ← pgroup_remove_member [old_session] w old_pgroup pid;
      let w := call_rcu w (mkRcuItem (Some old_pgroup) (Some old_session)) in
      Ret (pid, w)
  end.

(** The end of [do_setpgid]: leave the old group, point at the new one. *)
Definition setpgid_move (w : ProcWorld) (pid old_g new_g : Z) : outcome ProcWorld :=
  w ← pgroup_remove_member [] w old_g pid;
  p ← get_process w pid;
  old_pgroup ← expect (p_pgroup p);
  let w := put_process w pid (set_p_pgroup p (Some new_g)) in
  Ret (call_rcu w (mkRcuItem (Some old_pgroup) None)).

Definition do_setpgid (w : ProcWorld) (pid pgid : Z) : outcome ProcWorld :=
  p ← get_process w pid;
  s ← expect (p_session p);
  session ← expect (w_session_store w !! s);
  g ← expect (p_pgroup p);
  pgroup ← expect (w_group_store w !! g);
  if s_sid session =? pid then Err EPERM
  else
    match try_find_pgroup w pgid with
    | Some new_g =>
        new_pgroup ← expect (w_group_store w !! new_g);
        assert_ (session_alive w (g_session new_pgroup));;
        new_session ← expect (w_session_store w !! g_session new_pgroup);
        if negb (s_sid new_session =? s_sid session) then Err EPERM
        else if g_pgid new_pgroup =? g_pgid pgroup then Ret w
        else
          w ← pgroup_add_member w new_g pid;
          setpgid_move w pid g new_g
    | None =>
        if negb (pgid =? pid) then Err EPERM
        else
          '(new_g, w) ← pgroup_build w pid s;
          setpgid_move w pid g new_g
    end.

Definition sid_of (w : ProcWorld) (p : Process) : outcome Z :=
  s ← expect (p_session p);
  o ← expect (w_session_store w !! s);
  Ret (s_sid o).
Definition pgid_of (w : ProcWorld) (p : Process) : outcome Z :=
  g ← expect (p_pgroup p);
  o ← expect (w_group_store w !! g);
  Ret (g_pgid o).

Definition setpgid (w : ProcWorld) (self pid pgid : Z) : outcome ProcWorld :=
  if pid =? self then do_setpgid w self pgid
  else
    p ← get_process w self;
    child ← ok_or (if decide (pid ∈ p_children p) then w_processes w !! pid else None) ESRCH;
    child_sid ← sid_of w child;
    self_sid ← sid_of w p;
    if negb (child_sid =? self_sid) then Err EPERM
    else do_setpgid w pid pgid.

(** The system calls around them. *)
Definition sys_setpgid (w : ProcWorld) (self pid pgid : Z) : outcome ProcWorld :=
  let pid := if pid =? 0 then self else pid in
  if pgid =? 0 then setpgid w self pid pid
  else if 1 <=? pgid then setpgid w self pid pgid
  else Err EINVAL.

Definition sys_getsid (w : ProcWorld) (self pid : Z) : outcome Z :=
  p ← (if pid =? 0 then get_process w self else ok_or (try_find_process w pid) ESRCH);
  sid_of w p.
Definition sys_getpgid (w : ProcWorld) (self pid : Z) : outcome Z :=
  p ← (if pid =? 0 then get_process w self else ok_or (try_find_process w pid) ESRCH);
  pgid_of w p.
Definition sys_getppid (w : ProcWorld) (self : Z) : outcome Z :=
  p ← get_process w self;
  Ret (default 0 (p_parent p)).

(** [WaitId::from_id]. *)
Definition from_id (w : ProcWorld) (self id : Z) : outcome WaitId :=
  if id <? -1 then Ret (WPgid (wrap32 (- id)))
  else if id =? -1 then Ret WAny
  else if id =? 0 then p ← get_process w self; pgid ← pgid_of w p; Ret (WPgid pgid)
  else Ret (WPid id).

(** [set_tid_address]; the pointer is not looked at. *)
Definition set_tid_address (w : ProcWorld) (tid tidptr : Z) : outcome (Z * ProcWorld) :=
  t ← expect (w_threads w !! tid);
  Ret (tid, set_threads w (<[tid := mkThread (t_process t) (Some tidptr) (t_dead t)]> (w_threads w))).

(** ** Notifications *)

(** [Process::raise]: the signal goes to the threads of the process. *)
Definition process_raise (w : ProcWorld) (pid signal : Z) : ProcWorld := call w (CRaise pid signal).

(** [ProcessGroup::raise]. *)
Definition pgroup_raise (w : ProcWorld) (g signal : Z) : outcome ProcWorld :=
  o ← expect (w_group_store w !! g);
  foldl (fun w pid => w ← w; p ← get_process w pid; Ret (process_raise w pid signal)) (Ret w) (merge_sort Z.le (elements (g_members o))).

Definition push_waits (w : ProcWorld) (pid : Z) (os : list WaitObject) : outcome ProcWorld :=
  p ← get_process w pid;
  Ret (put_process w pid (set_waits p (p_waits p ++ os))).

Definition process_notify (w : ProcWorld) (pid : Z) (signal : option Z) (wait : WaitObject) : outcome ProcWorld :=
  w ← push_waits w pid [wait];
  Ret (match signal with Some signal => process_raise w pid signal | None => w end).

(** [NotifyBatch]: all the objects, and one [SIGCHLD] if there was any. *)
Definition notify_batch (w : ProcWorld) (pid : Z) (os : list WaitObject) : outcome ProcWorld :=
  w ← push_waits w pid os;
  Ret (match os with [] => w | _ => process_raise w pid SIGCHLD end).

(** ** [do_exit] *)

(** The loop over the exiting threads. *)
Fixpoint exit_threads (w : ProcWorld) (tids : list Z) : outcome ProcWorld :=
  match tids with
  | [] => Ret w
  | tid :: tids =>
      match w_threads w !! tid with
      | None => exit_threads w tids
      | Some t =>
          let w := set_threads w (<[tid := mkThread (t_process t) (t_clear_child_tid t) true]> (w_threads w)) in
          w ← match t_clear_child_tid t with
              | Some addr =>
                  match checked_new addr 4 with
                  | Ret _ => Ret (call w (CClearTid tid addr))
                  | _ => Panic
                  end
              | None => Ret w
              end;
          exit_threads (call w (CRobustList tid)) tids
      end
  end.

(** The children go to the init process. *)
Fixpoint reparent (w : ProcWorld) (init : Z) (children : list Z) : outcome ProcWorld :=
  match children with
  | [] => Ret w
  | c :: children =>
      child ← get_process w c;
      let w := put_process w c (set_p_parent child (Some init)) in
      w ← add_child w init c;
      reparent w init children
  end.

(** The part of [do_exit] that turns the process into a zombie. *)
Definition exit_process (w : ProcWorld) (pid tid : Z) (exit_status : WaitType) : outcome ProcWorld :=
  let w := call w (CCloseFiles tid) in
  p ← get_process w pid;
  s ← expect (p_session p);
  session ← expect (w_session_store w !! s);
  let w := if s_sid session =? pid then
             let (tty, w) := drop_control_terminal w s in
             match tty with Some t => call w (CDropTtySession t) | None => w end
           else w in
  let w := call w (CReleaseMm pid) in
  init ← expect (w_init w);
  w ← reparent w init (merge_sort Z.le (elements (p_children p)));
  p ← get_process w pid;
  let w := put_process w pid (set_waits (set_children p ∅) []) in
  w ← notify_batch w init (List.filter is_exit (p_waits p));
  parent ← expect (p_parent p);
  process_notify w parent (p_exit_signal p) (mkWaitObject pid exit_status).

(** The exiting threads leave the lists; the leader stays in the process list. *)
Definition remove_threads (w : ProcWorld) (pid : Z) (tids : list Z) : outcome ProcWorld :=
  p ← get_process w pid;
  let w := put_process w pid (set_p_threads p (p_threads p ∖ list_to_set tids)) in
  Ret (set_threads w (foldr (fun tid m => if tid =? pid then m else delete tid m) (w_threads w) tids)).

Definition do_exit (w : ProcWorld) (pid tid : Z) (exit_status : WaitType) (is_exiting_group : bool) : outcome ProcWorld :=
  if pid =? 1 then Panic
  else
    p ← get_process w pid;
    let exiting_tids := if is_exiting_group then merge_sort Z.le (elements (p_threads p)) else [tid] in
    w ← exit_threads w exiting_tids;
    let w := call w (CFutexWakeProcess pid) in
    w ← (if is_exiting_group || (size (p_threads p) =? 1)%nat then exit_process w pid tid exit_status else Ret w);
    remove_threads w pid exiting_tids.

(** ** [wait] *)

(** The filters of [Entry::get]. *)
Definition entry_wants (w : ProcWorld) (want_stop want_continue : bool) (want_id : WaitId) (o : WaitObject) : outcome bool :=
  let kind := match stopped o with Some _ => want_stop | None => if is_continue o then want_continue else true end in
  if negb kind then Ret false
  else match want_id with
       | WAny => Ret true
       | WPid pid => Ret (wob_pid o =? pid)
       | WPgid pgid =>
           match try_find_process w (wob_pid o) with
           | Some p => g ← pgid_of w p; Ret (g =? pgid)
           | None => Ret false
           end
       end.

(** [Entry::get]: the first object wanted, and the queue without it. *)
Fixpoint entry_get (w : ProcWorld) (want_stop want_continue : bool) (want_id : WaitId) (q : list WaitObject)
    : outcome (option (WaitObject * list WaitObject)) :=
  match q with
  | [] => Ret None
  | o :: q =>
      b ← entry_wants w want_stop want_continue want_id o;
      if b : bool then Ret (Some (o, q))
      else r ← entry_get w want_stop want_continue want_id q;
           Ret (match r with Some (x, q') => Some (x, o :: q') | None => None end)
  end.

(** One round of the loop of [wait]. *)
Definition wait_round (w : ProcWorld) (self : Z) (wait_id : WaitId) (no_block trace_stop trace_continue : bool)
    : outcome (poll (option WaitObject) * ProcWorld) :=
  p ← get_process w self;
  r ← entry_get w trace_stop trace_continue wait_id (p_waits p);
  match r with
  | Some (o, q) => Ret (Ready (Some o), put_process w self (set_waits p q))
  | None =>
      if decide (p_children p = ∅) then Err ECHILD
      else if no_block then Ret (Ready None, w)
      else Ret (Pending, w)
  end.

(** [ProcessList::remove_process]; [mask] says which closures run while it
    waits in [rcu_sync]. *)
Definition remove_process (w : ProcWorld) (mask : list bool) (pid : Z) : outcome ProcWorld :=
  match w_threads w !! pid with
  | None => Panic
  | Some _ =>
      p ← get_process w pid;
      let w := set_threads w (delete pid (w_threads w)) in
      let w := set_processes w (delete pid (w_processes w)) in
      s ← expect (p_session p);
      g ← expect (p_pgroup p);
      _ ← expect (p_parent p);
      w ← pgroup_remove_member [s] w g pid;
      let w := rcu_run w mask in
      pgroup ← expect (w_group_store w !! g);
      session ← expect (w_session_store w !! s);
      let w := if negb (group_alive w g) then set_pgroups w (delete (g_pgid pgroup) (w_pgroups w)) else w in
      Ret (if negb (session_alive w s) then set_sessions w (delete (s_sid session) (w_sessions w)) else w)
  end.

(** The end of [wait]. *)
Definition wait_reap (w : ProcWorld) (mask : list bool) (self : Z) (o : WaitObject) : outcome ProcWorld :=
  if negb (is_exit o) then Ret w
  else
    w ← remove_process w mask (wob_pid o);
    p ← get_process w self;
    assert_ (bool_decide (wob_pid o ∈ p_children p));;
    Ret (put_process w self (set_children p (p_children p ∖ {[wob_pid o]}))).
