(* ===== verification/ProcessJobs.v ===== *)
(** * Groups and sessions stay consistent

    The invariant that ties processes, groups and sessions together, and its
    preservation by the operations of Process.v that touch them.  Only the
    references of a process to its group and session matter here ([refs_of]). *)

From S2P Require Import Prelude Signal Process.

Notation Refs := (gmap Z (option Z * option Z)).

Definition refs_of (w : ProcWorld) : Refs := (fun p => (p_pgroup p, p_session p)) <$> w_processes w.

(** The strong references of a session. *)
Definition session_held (refs : Refs) (rcu : list RcuItem) (s : Z) : Prop :=
  (exists p rg, refs !! p = Some (rg, Some s)) \/ (exists i, i ∈ rcu /\ rcu_session i = Some s).
Definition group_held (refs : Refs) (rcu : list RcuItem) (g : Z) : Prop :=
  (exists p rs, refs !! p = Some (Some g, rs)) \/ (exists i, i ∈ rcu /\ rcu_pgroup i = Some g).

Lemma existsb_spec {A} (P : A -> Prop) `{!forall x, Decision (P x)} (l : list A) :
  existsb (fun x => bool_decide (P x)) l = true <-> exists x, x ∈ l /\ P x.
Proof.
  rewrite existsb_exists. split; intros (x & Hx & HP); exists x.
  - split; [by apply list_elem_of_In|by apply bool_decide_eq_true in HP].
  - split; [by apply list_elem_of_In|by apply bool_decide_eq_true].
Qed.

Lemma session_alive_spec w s : session_alive w s = true <-> session_held (refs_of w) (w_rcu w) s.
Proof.
  unfold session_alive, session_held, refs_of. rewrite orb_true_iff, !existsb_spec. setoid_rewrite lookup_fmap_Some. split.
  - intros [([k P] & Hk%elem_of_map_to_list & Hs)|Hr]; [|auto]. left. exists k, (p_pgroup P). exists P. simpl in *. by rewrite Hs.
  - intros [(k & rg & P & Hs & HP)|Hr]; [|auto]. left. exists (k, P). split; [by apply elem_of_map_to_list|]. simpl. congruence.
Qed.

Lemma group_alive_spec w g : group_alive w g = true <-> group_held (refs_of w) (w_rcu w) g.
Proof.
  unfold group_alive, group_held, refs_of. rewrite orb_true_iff, !existsb_spec. setoid_rewrite lookup_fmap_Some. split.
  - intros [([k P] & Hk%elem_of_map_to_list & Hs)|Hr]; [|auto]. left. exists k, (p_session P). exists P. simpl in *. by rewrite Hs.
  - intros [(k & rs & P & Hs & HP)|Hr]; [|auto]. left. exists (k, P). split; [by apply elem_of_map_to_list|]. simpl. congruence.
Qed.

(** ** The invariant *)

Definition is_session_leader (refs : Refs) (ss : gmap Z Session) (pid : Z) : Prop :=
  forall rg rs, refs !! pid = Some (rg, rs) -> exists s S, rs = Some s /\ ss !! s = Some S /\ s_sid S = pid.

Record jobs_ok (refs : Refs) (gs : gmap Z ProcessGroup) (ss : gmap Z Session) (pgroups sessions : gmap Z Z)
    (rcu : list RcuItem) (next_object next_pid : Z) : Prop := {
  (** a process is a member of its group, which belongs to its session *)
  jo_refs p rg rs : refs !! p = Some (rg, rs) -> exists g s G S,
    rg = Some g /\ rs = Some s /\ gs !! g = Some G /\ ss !! s = Some S /\ g_session G = s /\ p ∈ g_members G;
  jo_members g G p : gs !! g = Some G -> p ∈ g_members G -> exists rs, refs !! p = Some (Some g, rs);
  (** a session lists its groups that have members, and only those *)
  jo_listed s S pgid g : ss !! s = Some S -> s_groups S !! pgid = Some g -> exists G,
    gs !! g = Some G /\ g_pgid G = pgid /\ g_session G = s /\ g_members G <> ∅;
  jo_groups g G : gs !! g = Some G -> g_members G <> ∅ -> exists S,
    ss !! g_session G = Some S /\ s_groups S !! g_pgid G = Some g;
  (** a live session is found under its id *)
  jo_sessions s S : ss !! s = Some S -> session_held refs rcu s -> sessions !! s_sid S = Some s;
  (** a group with members is found under its id, unless its first leader has
      become a session leader or is gone *)
  jo_found g G : gs !! g = Some G -> g_members G <> ∅ -> pgroups !! g_pgid G = Some g \/ is_session_leader refs ss (g_pgid G);
  jo_table pgid g : pgroups !! pgid = Some g -> exists G, gs !! g = Some G /\ g_pgid G = pgid;
  jo_session g G : gs !! g = Some G -> is_Some (ss !! g_session G) /\ g_pgid G < next_pid /\ g < next_object;
  jo_bounds s S : ss !! s = Some S -> s_sid S < next_pid /\ s < next_object;
  jo_pids p r : refs !! p = Some r -> p < next_pid
}.

Definition jobs_inv (w : ProcWorld) : Prop :=
  jobs_ok (refs_of w) (w_group_store w) (w_session_store w) (w_pgroups w) (w_sessions w) (w_rcu w) (w_next_object w) (w_next_pid w).

(** ** How the steps change the store *)

Lemma session_held_rcu_app refs q i s :
  session_held refs (q ++ [i]) s <-> session_held refs q s \/ rcu_session i = Some s.
Proof.
  unfold session_held. setoid_rewrite elem_of_app. setoid_rewrite list_elem_of_singleton. naive_solver.
Qed.

Lemma rcu_keep_sub q mask i : i ∈ rcu_keep q mask -> i ∈ q.
Proof.
  revert mask. induction q as [|x q IH]; intros [|[] mask]; simpl; try done.
  - intros Hi. apply elem_of_cons. right. by apply (IH mask).
  - intros [->|Hi]%elem_of_cons; apply elem_of_cons; [auto|right; by apply (IH mask)].
Qed.

Lemma session_held_sub refs refs' q q' s :
  (forall p r, refs' !! p = Some r -> refs !! p = Some r) -> (forall i, i ∈ q' -> i ∈ q) ->
  session_held refs' q' s -> session_held refs q s.
Proof. intros Hr Hq [(p & rg & Hp)|(i & Hi & Hs)]; [left; eauto|right; eauto]. Qed.

(** Running closures. *)
Lemma jobs_rcu refs gs ss pg st q q' no np :
  (forall i, i ∈ q' -> i ∈ q) -> jobs_ok refs gs ss pg st q no np -> jobs_ok refs gs ss pg st q' no np.
Proof.
  intros Hq [H1 H2 H3 H4 H5 H6 H7 H8 H9 H10]. constructor; auto.
  intros s S Hs Hh. apply H5; [done|]. by eapply session_held_sub.
Qed.

(** A change of a session that leaves its id and its groups alone. *)
Lemma jobs_session_field refs gs ss pg st q no np s S S' :
  ss !! s = Some S -> s_sid S' = s_sid S -> s_groups S' = s_groups S ->
  jobs_ok refs gs ss pg st q no np -> jobs_ok refs gs (<[s := S']> ss) pg st q no np.
Proof.
  intros HS Hsid Hgr [H1 H2 H3 H4 H5 H6 H7 H8 H9 H10].
  assert (forall x X, ss !! x = Some X -> exists X', <[s := S']> ss !! x = Some X' /\ s_sid X' = s_sid X /\ s_groups X' = s_groups X) as Hfw.
  { intros x X HX. destruct (decide (x = s)) as [->|Hne]; [rewrite lookup_insert_eq; exists S'; by simplify_eq|].
    rewrite lookup_insert_ne by done. eauto. }
  assert (forall x X, <[s := S']> ss !! x = Some X -> exists X', ss !! x = Some X' /\ s_sid X = s_sid X' /\ s_groups X = s_groups X') as Hbw.
  { intros x X [[<- <-]|[_ HX]]%lookup_insert_Some; eauto. }
  constructor; auto.
  - intros p rg rs Hp. destruct (H1 p rg rs Hp) as (g & s0 & G & X & -> & -> & HG & HX & E & Hin).
    destruct (Hfw s0 X HX) as (X' & HX' & _). exists g, s0, G, X'. done.
  - intros x X pgid g HX Hg. destruct (Hbw x X HX) as (X' & HX' & _ & E). rewrite E in Hg. eauto.
  - intros g G HG Hm. destruct (H4 g G HG Hm) as (X & HX & Hg). destruct (Hfw _ X HX) as (X' & HX' & _ & E). exists X'. by rewrite E.
  - intros x X HX Hh. destruct (Hbw x X HX) as (X' & HX' & E & _). rewrite E. eauto.
  - intros g G HG Hm. destruct (H6 g G HG Hm) as [Ht|Hl]; [auto|right]. intros rg rs Hr. destruct (Hl rg rs Hr) as (x & X & -> & HX & E).
    destruct (Hfw x X HX) as (X' & HX' & E' & _). exists x, X'. rewrite E'. done.
  - intros g G HG. destruct (H8 g G HG) as ([X HX] & ? & ?). destruct (Hfw _ X HX) as (X' & HX' & _). split; [by eexists|done].
  - intros x X HX. destruct (Hbw x X HX) as (X' & HX' & E & _). rewrite E. eauto.
Qed.

Definition without_member (G : ProcessGroup) (pid : Z) : ProcessGroup := mkProcessGroup (g_pgid G) (g_session G) (g_members G ∖ {[pid]}).
Definition with_member (G : ProcessGroup) (pid : Z) : ProcessGroup := mkProcessGroup (g_pgid G) (g_session G) ({[pid]} ∪ g_members G).
Definition without_group (S : Session) (pgid : Z) : Session := mkSession (s_sid S) (delete pgid (s_groups S)) (s_foreground S) (s_control_terminal S).
Definition with_group (S : Session) (pgid g : Z) : Session := mkSession (s_sid S) (<[pgid := g]> (s_groups S)) (s_foreground S) (s_control_terminal S).

(** Sessions after a process has left its group. *)
Definition left_sessions (ss : gmap Z Session) (G : ProcessGroup) (S : Session) (pid : Z) : gmap Z Session :=
  if decide (g_members G ∖ {[pid]} = ∅) then <[g_session G := without_group S (g_pgid G)]> ss else ss.

Lemma left_sessions_lookup ss G S pid x X :
  ss !! g_session G = Some S -> ss !! x = Some X ->
  exists X', left_sessions ss G S pid !! x = Some X' /\ s_sid X' = s_sid X /\
    (forall k, s_groups X' !! k = if decide (x = g_session G /\ k = g_pgid G /\ g_members G ∖ {[pid]} = ∅) then None else s_groups X !! k).
Proof.
  intros HS HX. unfold left_sessions. destruct (decide (g_members G ∖ {[pid]} = ∅)) as [He|Hne].
  - destruct (decide (x = g_session G)) as [->|Hx].
    + rewrite lookup_insert_eq. eexists. split; [done|]. simplify_eq. split; [done|]. intros k. simpl.
      destruct (decide (k = g_pgid G)) as [->|Hk]; [by rewrite lookup_delete_eq, decide_True|].
      rewrite lookup_delete_ne by done. by rewrite decide_False by naive_solver.
    + rewrite lookup_insert_ne by done. exists X. split; [done|]. split; [done|]. intros k. by rewrite decide_False by naive_solver.
  - exists X. split; [done|]. split; [done|]. intros k. by rewrite decide_False by naive_solver.
Qed.

Lemma left_sessions_inv ss G S pid x X' :
  ss !! g_session G = Some S -> left_sessions ss G S pid !! x = Some X' ->
  exists X, ss !! x = Some X /\ s_sid X' = s_sid X /\
    (forall k, s_groups X' !! k = if decide (x = g_session G /\ k = g_pgid G /\ g_members G ∖ {[pid]} = ∅) then None else s_groups X !! k).
Proof.
  intros HS HX'. assert (is_Some (ss !! x)) as [X HX].
  { unfold left_sessions in HX'. destruct (decide _); [|eauto]. apply lookup_insert_Some in HX' as [[<- _]|[_ H]]; eauto. }
  destruct (left_sessions_lookup ss G S pid x X HS HX) as (Y & HY & Hr). exists X. by simplify_eq.
Qed.

(** A process leaves its group (and is not counted any more). *)
Lemma jobs_leave refs gs ss pg st q no np pid g s G S :
  jobs_ok refs gs ss pg st q no np ->
  refs !! pid = Some (Some g, Some s) -> gs !! g = Some G -> ss !! g_session G = Some S ->
  jobs_ok (delete pid refs) (<[g := without_member G pid]> gs) (left_sessions ss G S pid) pg st q no np.
Proof.
  intros [H1 H2 H3 H4 H5 H6 H7 H8 H9 H10] Hpid HG HS.
  assert (pid ∈ g_members G) as Hmem by (destruct (H1 pid _ _ Hpid) as (? & ? & ? & ? & ? & ? & ? & ? & ? & ?); by simplify_eq).
  assert (forall x X, <[g := without_member G pid]> gs !! x = Some X ->
    exists Y, gs !! x = Some Y /\ g_pgid X = g_pgid Y /\ g_session X = g_session Y /\ g_members X ⊆ g_members Y /\ (x = g -> X = without_member G pid)) as Hgb.
  { intros x X [[<- <-]|[Hne HX]]%lookup_insert_Some; [exists G|exists X; naive_solver]. repeat split; simpl; try done; set_solver. }
  constructor.
  - intros p rg rs [Hne Hp]%lookup_delete_Some. destruct (H1 p rg rs Hp) as (g0 & s0 & G0 & S0 & -> & -> & HG0 & HS0 & E & Hin).
    destruct (left_sessions_lookup ss G S pid s0 S0 HS HS0) as (X' & HX' & _).
    destruct (decide (g0 = g)) as [->|Hg].
    + simplify_eq. exists g, (g_session G), (without_member G pid), X'. rewrite lookup_insert_eq. repeat split; simpl; try done; set_solver.
    + exists g0, s0, G0, X'. rewrite lookup_insert_ne by done. done.
  - intros x X p HX Hp. destruct (Hgb x X HX) as (Y & HY & _ & _ & Hsub & Hxg). destruct (H2 x Y p HY (Hsub p Hp)) as [rs Hr].
    exists rs. rewrite lookup_delete_ne; [done|]. intros <-. rewrite Hpid in Hr. injection Hr as <- _. rewrite (Hxg eq_refl) in Hp. simpl in Hp. set_solver.
  - intros x X' k g0 HX' Hk. destruct (left_sessions_inv ss G S pid x X' HS HX') as (X & HX & _ & Hgr). rewrite Hgr in Hk.
    destruct (decide (x = g_session G /\ k = g_pgid G /\ g_members G ∖ {[pid]} = ∅)) as [|Hn]; [done|].
    destruct (H3 x X k g0 HX Hk) as (G0 & HG0 & Hpg & Hs0 & Hne). destruct (decide (g0 = g)) as [->|Hg].
    + exists (without_member G pid). rewrite lookup_insert_eq. simplify_eq. simpl. repeat split; try done. intros E. by apply Hn.
    + exists G0. rewrite lookup_insert_ne by done. done.
  - intros x X HX Hne. destruct (Hgb x X HX) as (Y & HY & -> & -> & Hsub & Hxg).
    destruct (H4 x Y HY) as (S0 & HS0 & Hk); [set_solver|]. destruct (left_sessions_lookup ss G S pid _ S0 HS HS0) as (X' & HX' & _ & Hgr).
    exists X'. split; [done|]. rewrite Hgr, decide_False; [done|]. intros (E1 & E2 & E3).
    destruct (decide (x = g)) as [->|Hx]; [rewrite (Hxg eq_refl) in Hne; by simpl in Hne|].
    destruct (H4 g G HG) as (S1 & HS1 & Hk1); [set_solver|]. rewrite E1 in HS0. rewrite E2 in Hk. by simplify_eq.
  - intros x X' HX' Hh. destruct (left_sessions_inv ss G S pid x X' HS HX') as (X & HX & -> & _). apply H5; [done|].
    eapply session_held_sub; [|done|exact Hh]. by intros p r [_ Hp]%lookup_delete_Some.
  - intros x X HX Hne. destruct (Hgb x X HX) as (Y & HY & -> & _ & Hsub & _). destruct (H6 x Y HY) as [Ht|Hl]; [set_solver|auto|right].
    intros rg rs [_ Hr]%lookup_delete_Some. destruct (Hl rg rs Hr) as (s0 & S0 & -> & HS0 & E).
    destruct (left_sessions_lookup ss G S pid s0 S0 HS HS0) as (X' & HX' & Es & _). exists s0, X'. rewrite Es. done.
  - intros k g0 Hk. destruct (H7 k g0 Hk) as (G0 & HG0 & Hpg). destruct (decide (g0 = g)) as [->|Hg].
    + exists (without_member G pid). rewrite lookup_insert_eq. by simplify_eq.
    + exists G0. by rewrite lookup_insert_ne.
  - intros x X HX. destruct (Hgb x X HX) as (Y & HY & -> & -> & _). destruct (H8 x Y HY) as ([S0 HS0] & ? & ?).
    destruct (left_sessions_lookup ss G S pid _ S0 HS HS0) as (X' & HX' & _). split; [by eexists|done].
  - intros x X' HX'. destruct (left_sessions_inv ss G S pid x X' HS HX') as (X & HX & -> & _). by apply H9.
  - intros p r [_ Hp]%lookup_delete_Some. by apply (H10 p r).
Qed.

(** A process joins a group that has members. *)
Lemma jobs_enter refs gs ss pg st q no np pid g G :
  jobs_ok refs gs ss pg st q no np ->
  refs !! pid = None -> pid < np -> gs !! g = Some G -> g_members G <> ∅ ->
  (forall g' G' S, gs !! g' = Some G' -> g_members G' <> ∅ -> g_pgid G' = pid -> ss !! g_session G = Some S ->
     pg !! pid = Some g' \/ s_sid S = pid) ->
  jobs_ok (<[pid := (Some g, Some (g_session G))]> refs) (<[g := with_member G pid]> gs) ss pg st q no np.
Proof.
  intros [H1 H2 H3 H4 H5 H6 H7 H8 H9 H10] Hpid Hnp HG Hne Hown.
  assert (forall x X, <[g := with_member G pid]> gs !! x = Some X ->
    exists Y, gs !! x = Some Y /\ g_pgid X = g_pgid Y /\ g_session X = g_session Y /\ (x <> g -> X = Y) /\ (x = g -> Y = G /\ X = with_member G pid)) as Hgb.
  { intros x X [[<- <-]|[Hx HX]]%lookup_insert_Some; [exists G|exists X]; naive_solver. }
  destruct (H4 g G HG Hne) as (S & HS & Hlist).
  constructor.
  - intros p rg rs [[<- [= <- <-]]|[Hp Hr]]%lookup_insert_Some.
    + exists g, (g_session G), (with_member G pid), S. rewrite lookup_insert_eq. repeat split; simpl; try done; set_solver.
    + destruct (H1 p rg rs Hr) as (g0 & s0 & G0 & S0 & -> & -> & HG0 & HS0 & E & Hin). destruct (decide (g0 = g)) as [->|Hg].
      * simplify_eq. exists g, (g_session G), (with_member G pid), S. rewrite lookup_insert_eq. repeat split; simpl; try done; set_solver.
      * exists g0, s0, G0, S0. by rewrite lookup_insert_ne.
  - intros x X p HX Hp. destruct (Hgb x X HX) as (Y & HY & _ & _ & Hxn & Hxg). destruct (decide (x = g)) as [->|Hx].
    + destruct (Hxg eq_refl) as [-> ->]. simpl in Hp. apply elem_of_union in Hp as [->%elem_of_singleton|Hp].
      * exists (Some (g_session G)). by rewrite lookup_insert_eq.
      * destruct (H2 g G p HG Hp) as [rs Hr]. exists rs. rewrite lookup_insert_ne; [done|]. congruence.
    + rewrite (Hxn Hx) in Hp. destruct (H2 x Y p HY Hp) as [rs Hr]. exists rs. rewrite lookup_insert_ne; [done|]. congruence.
  - intros x X k g0 HX Hk. destruct (H3 x X k g0 HX Hk) as (G0 & HG0 & Hpg & Hs0 & Hm). destruct (decide (g0 = g)) as [->|Hg].
    + exists (with_member G pid). rewrite lookup_insert_eq. simplify_eq. simpl. repeat split; try done; set_solver.
    + exists G0. by rewrite lookup_insert_ne.
  - intros x X HX Hm. destruct (Hgb x X HX) as (Y & HY & -> & -> & Hxn & Hxg). destruct (decide (x = g)) as [->|Hx].
    + destruct (Hxg eq_refl) as [-> _]. eauto.
    + rewrite (Hxn Hx) in Hm. by apply H4.
  - intros x X HX Hh. apply H5; [done|]. destruct Hh as [(p & rg & Hp)|Hh]; [|by right].
    apply lookup_insert_Some in Hp as [[<- [= _ <-]]|[_ Hp]]; [|left; eauto].
    destruct (set_choose_L (g_members G) Hne) as [m Hm]. destruct (H2 g G m HG Hm) as [rs Hr].
    destruct (H1 m _ _ Hr) as (? & ? & ? & ? & ? & ? & ? & ? & ? & ?). simplify_eq. left. eauto.
  - intros x X HX Hm. destruct (Hgb x X HX) as (Y & HY & Epg & _ & Hxn & Hxg). rewrite Epg.
    assert (g_members Y <> ∅) as HmY by (destruct (decide (x = g)) as [->|Hx]; [destruct (Hxg eq_refl) as [-> _]; done|by rewrite <- (Hxn Hx)]).
    destruct (H6 x Y HY HmY) as [Ht|Hl]; [auto|]. destruct (decide (g_pgid Y = pid)) as [Ep|Hp].
    + destruct (Hown x Y S HY HmY Ep HS) as [Ht|Hsid]; [left; by rewrite Ep|right]. intros rg rs. rewrite Ep, lookup_insert_eq. intros [= <- <-]. eauto.
    + right. intros rg rs. rewrite lookup_insert_ne by done. apply Hl.
  - intros k g0 Hk. destruct (H7 k g0 Hk) as (G0 & HG0 & Hpg). destruct (decide (g0 = g)) as [->|Hg].
    + exists (with_member G pid). rewrite lookup_insert_eq. by simplify_eq.
    + exists G0. by rewrite lookup_insert_ne.
  - intros x X HX. destruct (Hgb x X HX) as (Y & HY & -> & -> & _). by apply (H8 x Y).
  - done.
  - intros p r [[<- _]|[_ Hp]]%lookup_insert_Some; [done|by apply (H10 p r)].
Qed.

(** A process founds a group of its own in a session. *)
Lemma jobs_found refs gs ss pg st q no np pid s S :
  jobs_ok refs gs ss pg st q no np ->
  refs !! pid = None -> pid < np -> ss !! s = Some S -> s_groups S !! pid = None -> st !! s_sid S = Some s ->
  (s_sid S = pid \/ forall g' G', gs !! g' = Some G' -> g_members G' <> ∅ -> g_pgid G' <> pid) ->
  jobs_ok (<[pid := (Some no, Some s)]> refs) (<[no := mkProcessGroup pid s {[pid]}]> gs) (<[s := with_group S pid no]> ss)
    (<[pid := no]> pg) st q (no + 1) np.
Proof.
  intros [H1 H2 H3 H4 H5 H6 H7 H8 H9 H10] Hpid Hnp HS Hno Hst Hown.
  assert (gs !! no = None) as Hfresh by (destruct (gs !! no) as [X|] eqn:E; [destruct (H8 _ _ E); lia|done]).
  assert (forall x X, ss !! x = Some X -> exists X', <[s := with_group S pid no]> ss !! x = Some X' /\ s_sid X' = s_sid X /\
    (forall k g0, s_groups X !! k = Some g0 -> s_groups X' !! k = Some g0)) as Hfw.
  { intros x X HX. destruct (decide (x = s)) as [->|Hx]; [rewrite lookup_insert_eq|rewrite lookup_insert_ne by done; eauto].
    simplify_eq. eexists. split; [done|]. split; [done|]. intros k g0 Hk. simpl. rewrite lookup_insert_ne; [done|]. congruence. }
  constructor.
  - intros p rg rs [[<- [= <- <-]]|[Hp Hr]]%lookup_insert_Some.
    + exists no, s, (mkProcessGroup pid s {[pid]}), (with_group S pid no). rewrite !lookup_insert_eq. repeat split; simpl; try done; set_solver.
    + destruct (H1 p rg rs Hr) as (g0 & s0 & G0 & S0 & -> & -> & HG0 & HS0 & E & Hin). destruct (Hfw s0 S0 HS0) as (X' & HX' & _).
      exists g0, s0, G0, X'. rewrite lookup_insert_ne by congruence. done.
  - intros x X p [[<- <-]|[Hx HX]]%lookup_insert_Some Hp.
    + simpl in Hp. apply elem_of_singleton in Hp as ->. rewrite lookup_insert_eq. eauto.
    + destruct (H2 x X p HX Hp) as [rs Hr]. exists rs. rewrite lookup_insert_ne; [done|]. congruence.
  - intros x X k g0 [[<- <-]|[Hx HX]]%lookup_insert_Some Hk.
    + simpl in Hk. apply lookup_insert_Some in Hk as [[<- <-]|[Hk' Hk]].
      * eexists. rewrite lookup_insert_eq. split; [done|]. simpl. repeat split; try done; set_solver.
      * destruct (H3 s S k g0 HS Hk) as (G0 & HG0 & ?). exists G0. rewrite lookup_insert_ne by congruence. done.
    + destruct (H3 x X k g0 HX Hk) as (G0 & HG0 & ?). exists G0. rewrite lookup_insert_ne by congruence. done.
  - intros x X [[<- <-]|[Hx HX]]%lookup_insert_Some Hm.
    + simpl. rewrite lookup_insert_eq. eexists. split; [done|]. simpl. by rewrite lookup_insert_eq.
    + destruct (H4 x X HX Hm) as (S0 & HS0 & Hk). destruct (Hfw _ S0 HS0) as (X' & HX' & _ & Hg). eauto.
  - intros x X HX Hh. assert (exists Y, ss !! x = Some Y /\ s_sid X = s_sid Y) as (Y & HY & ->).
    { apply lookup_insert_Some in HX as [[<- <-]|[_ HX]]; eauto. }
    destruct Hh as [(p & rg & Hp)|Hh]; [|by apply H5; [|right]].
    apply lookup_insert_Some in Hp as [[<- [= _ <-]]|[_ Hp]]; [by simplify_eq|]. apply H5; [done|]. left. eauto.
  - intros x X HX Hm. destruct (decide (g_pgid X = pid)) as [Ep|Hp].
    + apply lookup_insert_Some in HX as [[<- <-]|[Hx HX]]; [left; simpl; by rewrite lookup_insert_eq|].
      destruct Hown as [Hsid|Hown]; [|by destruct (Hown x X)]. right. intros rg rs. rewrite Ep, lookup_insert_eq. intros [= <- <-].
      exists s, (with_group S pid no). rewrite lookup_insert_eq. done.
    + apply lookup_insert_Some in HX as [[<- <-]|[Hx HX]]; [done|]. rewrite lookup_insert_ne by done.
      destruct (H6 x X HX Hm) as [Ht|Hl]; [auto|right]. intros rg rs. rewrite lookup_insert_ne by done. intros Hr.
      destruct (Hl rg rs Hr) as (s0 & S0 & -> & HS0 & E). destruct (Hfw s0 S0 HS0) as (X' & HX' & Es & _). exists s0, X'. rewrite Es. done.
  - intros k g0 [[<- <-]|[Hk' Hk]]%lookup_insert_Some; [rewrite lookup_insert_eq; eauto|].
    destruct (H7 k g0 Hk) as (G0 & HG0 & ?). exists G0. rewrite lookup_insert_ne by congruence. done.
  - intros x X [[<- <-]|[Hx HX]]%lookup_insert_Some.
    + simpl. rewrite lookup_insert_eq. split; [by eexists|]. lia.
    + destruct (H8 x X HX) as ([S0 HS0] & ? & ?). destruct (Hfw _ S0 HS0) as (X' & HX' & _). split; [by eexists|]. lia.
  - intros x X [[<- <-]|[_ HX]]%lookup_insert_Some; [destruct (H9 s S HS)|destruct (H9 x X HX)]; simpl; lia.
  - intros p r [[<- _]|[_ Hp]]%lookup_insert_Some; [done|by apply (H10 p r)].
Qed.

(** A new session under the id of a process that has none alive. *)
Lemma jobs_new_session refs gs ss pg st q no np pid :
  jobs_ok refs gs ss pg st q no np -> pid < np ->
  (forall s S, ss !! s = Some S -> s_sid S = pid -> ~ session_held refs q s) ->
  jobs_ok refs gs (<[no := mkSession pid ∅ None None]> ss) pg (<[pid := no]> st) q (no + 1) np.
Proof.
  intros [H1 H2 H3 H4 H5 H6 H7 H8 H9 H10] Hnp Hdead.
  assert (forall x X, ss !! x = Some X -> x <> no) as Hfresh by (intros x X HX ->; destruct (H9 _ _ HX); lia).
  constructor; auto.
  - intros p rg rs Hp. destruct (H1 p rg rs Hp) as (g0 & s0 & G0 & S0 & -> & -> & HG0 & HS0 & E & Hin).
    exists g0, s0, G0, S0. rewrite lookup_insert_ne by (symmetry; eauto). done.
  - intros x X k g0 [[<- <-]|[_ HX]]%lookup_insert_Some Hk; [simpl in Hk; by rewrite lookup_empty in Hk|eauto].
  - intros x X HX Hm. destruct (H4 x X HX Hm) as (S0 & HS0 & Hk). exists S0. rewrite lookup_insert_ne by (symmetry; eauto). done.
  - intros x X [[<- <-]|[_ HX]]%lookup_insert_Some Hh; [simpl; by rewrite lookup_insert_eq|].
    rewrite lookup_insert_ne; [auto|]. intros E. by apply (Hdead x X).
  - intros x X HX Hm. destruct (H6 x X HX Hm) as [Ht|Hl]; [auto|right]. intros rg rs Hr.
    destruct (Hl rg rs Hr) as (s0 & S0 & -> & HS0 & E). exists s0, S0. rewrite lookup_insert_ne by (symmetry; eauto). done.
  - intros x X HX. destruct (H8 x X HX) as ([S0 HS0] & ? & ?). split; [|lia]. exists S0. rewrite lookup_insert_ne by (symmetry; eauto). done.
  - intros x X [[<- <-]|[_ HX]]%lookup_insert_Some; [simpl; lia|]. destruct (H9 x X HX). lia.
Qed.

Lemma jobs_rcu_app refs gs ss pg st q no np i :
  jobs_ok refs gs ss pg st q no np ->
  (forall s S, rcu_session i = Some s -> ss !! s = Some S -> st !! s_sid S = Some s) ->
  jobs_ok refs gs ss pg st (q ++ [i]) no np.
Proof.
  intros [H1 H2 H3 H4 H5 H6 H7 H8 H9 H10] Hi. constructor; auto.
  intros s S HS [Hh|Hh]%session_held_rcu_app; auto.
Qed.

Lemma jobs_next_pid refs gs ss pg st q no np np' :
  np <= np' -> jobs_ok refs gs ss pg st q no np -> jobs_ok refs gs ss pg st q no np'.
Proof.
  intros Hle [H1 H2 H3 H4 H5 H6 H7 H8 H9 H10]. constructor; auto.
  - intros g G HG. destruct (H8 g G HG) as (? & ? & ?). split; [done|]. lia.
  - intros s S HS. destruct (H9 s S HS). lia.
  - intros p r Hp. specialize (H10 p r Hp). lia.
Qed.

(** A group or a session that nobody refers to leaves the table. *)
Lemma jobs_drop_group refs gs ss pg st q no np g G :
  jobs_ok refs gs ss pg st q no np -> gs !! g = Some G -> g_members G = ∅ ->
  (forall g' G', gs !! g' = Some G' -> g_members G' <> ∅ -> g_pgid G' = g_pgid G -> is_session_leader refs ss (g_pgid G)) ->
  jobs_ok refs gs ss (delete (g_pgid G) pg) st q no np.
Proof.
  intros [H1 H2 H3 H4 H5 H6 H7 H8 H9 H10] HG He Hlead. constructor; auto.
  - intros x X HX Hm. destruct (decide (g_pgid X = g_pgid G)) as [E|Hne]; [right; rewrite E; by eapply Hlead|].
    rewrite lookup_delete_ne by done. by apply H6.
  - intros k g0 [_ Hk]%lookup_delete_Some. by apply H7.
Qed.

Lemma jobs_drop_session refs gs ss pg st q no np s S :
  jobs_ok refs gs ss pg st q no np -> ss !! s = Some S ->
  (forall s' S', ss !! s' = Some S' -> s_sid S' = s_sid S -> ~ session_held refs q s') ->
  jobs_ok refs gs ss pg (delete (s_sid S) st) q no np.
Proof.
  intros [H1 H2 H3 H4 H5 H6 H7 H8 H9 H10] HS Hdead. constructor; auto.
  intros x X HX Hh. rewrite lookup_delete_ne; [auto|]. intros E. by apply (Hdead x X).
Qed.

(** ** The operations *)

(** The rest of a process, which these operations leave alone. *)
Record TNode := mkTNode { tn_parent : option Z; tn_children : gset Z; tn_threads : gset Z; tn_waits : list WaitObject }.
Definition node_of (p : Process) : TNode := mkTNode (p_parent p) (p_children p) (p_threads p) (p_waits p).
Definition tree_of (w : ProcWorld) : gmap Z TNode := node_of <$> w_processes w.

Definition same_tree (w w' : ProcWorld) : Prop :=
  tree_of w' = tree_of w /\ w_threads w' = w_threads w /\ w_init w' = w_init w /\ w_next_pid w' = w_next_pid w.

Lemma refs_put w pid p : refs_of (put_process w pid p) = <[pid := (p_pgroup p, p_session p)]> (refs_of w).
Proof. unfold refs_of. simpl. by rewrite fmap_insert. Qed.

Lemma tree_put w pid p p0 : w_processes w !! pid = Some p0 -> node_of p = node_of p0 -> tree_of (put_process w pid p) = tree_of w.
Proof.
  intros Hp E. unfold tree_of. simpl. rewrite fmap_insert, E. apply insert_id. by rewrite lookup_fmap, Hp.
Qed.

Lemma jobs_ok_eq refs refs' gs gs' ss ss' pg pg' st st' q q' no no' np np' :
  jobs_ok refs gs ss pg st q no np -> refs' = refs -> gs' = gs -> ss' = ss -> pg' = pg -> st' = st -> q' = q -> no' = no -> np' = np ->
  jobs_ok refs' gs' ss' pg' st' q' no' np'.
Proof. intros; by subst. Qed.

Lemma left_sessions_insert_ne ss G S pid x X :
  x <> g_session G -> left_sessions (<[x := X]> ss) G S pid = <[x := X]> (left_sessions ss G S pid).
Proof. intros Hne. unfold left_sessions. destruct (decide _); [|done]. by rewrite insert_insert_ne. Qed.

(** Leaving a group. *)
Lemma pgroup_remove_member_eq held w g pid G S :
  w_group_store w !! g = Some G -> pid ∈ g_members G -> w_session_store w !! g_session G = Some S ->
  is_Some (s_groups S !! g_pgid G) -> g_session G ∈ held \/ session_held (refs_of w) (w_rcu w) (g_session G) ->
  pgroup_remove_member held w g pid =
  Ret (set_session_store (set_group_store w (<[g := without_member G pid]> (w_group_store w))) (left_sessions (w_session_store w) G S pid)).
Proof.
  intros HG Hin HS Hgr Hh. unfold pgroup_remove_member. rewrite HG. cbn [mbind outcome_bind expect].
  rewrite (bool_decide_eq_true_2 (pid ∈ g_members G)) by done. cbn [assert_ mbind outcome_bind]. unfold left_sessions. destruct (decide _) as [He|Hne]; [|by destruct w].
  assert ((session_alive (set_group_store w (<[g := mkProcessGroup (g_pgid G) (g_session G) (g_members G ∖ {[pid]})]> (w_group_store w))) (g_session G)
    || bool_decide (g_session G ∈ held)) = true) as ->.
  { apply orb_true_iff. destruct Hh as [Hh|Hh]; [right; by apply bool_decide_eq_true|left; by apply session_alive_spec]. }
  cbn [assert_ mbind outcome_bind]. unfold session_remove_member. simpl. rewrite HS. simpl. rewrite bool_decide_eq_true_2 by done. done.
Qed.

Lemma refs_lookup w pid p : w_processes w !! pid = Some p -> refs_of w !! pid = Some (p_pgroup p, p_session p).
Proof. intros Hp. unfold refs_of. by rewrite lookup_fmap, Hp. Qed.

(** What the invariant says about one process. *)
Lemma jobs_process w pid p :
  jobs_inv w -> w_processes w !! pid = Some p ->
  exists g G S, p_pgroup p = Some g /\ p_session p = Some (g_session G) /\ w_group_store w !! g = Some G /\
    w_session_store w !! g_session G = Some S /\ pid ∈ g_members G /\ s_groups S !! g_pgid G = Some g /\
    w_sessions w !! s_sid S = Some (g_session G) /\ session_held (refs_of w) (w_rcu w) (g_session G).
Proof.
  intros Hj Hp. pose proof (refs_lookup w pid p Hp) as Hr.
  destruct (jo_refs _ _ _ _ _ _ _ _ Hj _ _ _ Hr) as (g & s & G & S & Eg & Es & HG & HS & <- & Hin).
  exists g, G, S. destruct (jo_groups _ _ _ _ _ _ _ _ Hj g G HG) as (S' & HS' & Hl); [set_solver|]. simplify_eq.
  assert (session_held (refs_of w) (w_rcu w) (g_session G)) as Hh by (left; rewrite Es in Hr; eauto).
  repeat split; try done. by apply (jo_sessions _ _ _ _ _ _ _ _ Hj).
Qed.

Lemma try_find_session_none w sid :
  jobs_inv w -> try_find_session w sid = None ->
  forall s S, w_session_store w !! s = Some S -> s_sid S = sid -> ~ session_held (refs_of w) (w_rcu w) s.
Proof.
  intros Hj Hn s S HS <- Hh. unfold try_find_session in Hn.
  rewrite (jo_sessions _ _ _ _ _ _ _ _ Hj s S HS Hh) in Hn. simpl in Hn. apply session_alive_spec in Hh. by rewrite Hh in Hn.
Qed.

(** The world after a process has founded a group. *)
Definition found_world (w : ProcWorld) (pid s : Z) (S : Session) : ProcWorld :=
  mkProcWorld (w_init w) (w_threads w) (w_processes w) (<[pid := w_next_object w]> (w_pgroups w)) (w_sessions w)
    (<[w_next_object w := mkProcessGroup pid s {[pid]}]> (w_group_store w))
    (<[s := with_group S pid (w_next_object w)]> (w_session_store w)) (w_next_object w + 1) (w_next_pid w) (w_rcu w) (w_calls w).

Lemma pgroup_build_eq w pid s S :
  w_session_store w !! s = Some S -> s_groups S !! pid = None -> pgroup_build w pid s = Ret (w_next_object w, found_world w pid s S).
Proof.
  intros HS Hn. unfold pgroup_build, session_add_member. simpl. rewrite HS. simpl. by rewrite bool_decide_eq_true_2.
Qed.

(** The group and the session of a process after a step. *)
Definition points_at (w : ProcWorld) (pid pgid sid : Z) : Prop :=
  exists p, w_processes w !! pid = Some p /\ pgid_of w p = Ret pgid /\ sid_of w p = Ret sid.

Lemma setsid_ok w pid p :
  jobs_inv w -> w_processes w !! pid = Some p ->
  match setsid w pid with
  | Ret (sid, w') => sid = pid /\ jobs_inv w' /\ same_tree w w' /\ points_at w' pid pid pid
  | Err e => e = EPERM /\ is_Some (try_find_session w pid)
  | Panic => False
  end.
Proof.
  intros Hj Hp. unfold setsid. destruct (try_find_session w pid) as [s|] eqn:Ef; [eauto|].
  pose proof (try_find_session_none w pid Hj Ef) as Hdead.
  destruct (jobs_process w pid p Hj Hp) as (g0 & G0 & S0 & Eg & Es & HG & HS & Hin & Hl & Ht & Hh).
  unfold session_new. set (no := w_next_object w). pose proof (jo_session _ _ _ _ _ _ _ _ Hj g0 G0 HG) as (_ & _ & Hg0).
  pose proof (jo_bounds _ _ _ _ _ _ _ _ Hj _ S0 HS) as [_ Hs0]. fold no in Hg0, Hs0.
  assert (s_sid S0 <> pid) as Hsid by (intros E; by apply (Hdead _ S0 HS E)).
  pose proof (jo_pids _ _ _ _ _ _ _ _ Hj _ _ (refs_lookup w pid p Hp)) as Hnp.
  set (N := mkSession pid ∅ None None). set (w1 := add_session _ pid no).
  rewrite (pgroup_build_eq w1 pid no N); [|simpl; by rewrite lookup_insert_eq|done]. cbn [mbind outcome_bind].
  unfold get_process. change (w_processes (found_world w1 pid no N)) with (w_processes w). rewrite Hp. cbn [mbind outcome_bind expect].
  rewrite Es, Eg. cbn [mbind outcome_bind expect].
  set (w2 := put_process _ pid _).
  rewrite (pgroup_remove_member_eq _ w2 g0 pid G0 S0); [|simpl; rewrite lookup_insert_ne; [done|lia]|done|
    simpl; rewrite !lookup_insert_ne by lia; done|by eexists|left; set_solver].
  cbn [mbind outcome_bind]. split; [done|]. split; [|split].
  - pose proof (jobs_new_session _ _ _ _ _ _ _ _ pid Hj Hnp Hdead) as H1. fold no N in H1.
    pose proof (jobs_leave _ _ _ _ _ _ _ _ pid g0 (g_session G0) G0 S0 H1) as H2.
    rewrite (refs_lookup w pid p Hp), Eg, Es in H2. rewrite lookup_insert_ne in H2 by lia. specialize (H2 eq_refl HG HS).
    rewrite left_sessions_insert_ne in H2 by lia.
    pose proof (jobs_found _ _ _ _ _ _ _ _ pid no N H2) as H3. rewrite lookup_delete_eq, !lookup_insert_eq in H3.
    specialize (H3 eq_refl Hnp eq_refl eq_refl eq_refl (or_introl eq_refl)).
    apply (jobs_rcu_app _ _ _ _ _ _ _ _ (mkRcuItem (Some g0) (Some (g_session G0)))) in H3.
    2:{ intros x X [= <-] HX. rewrite insert_insert_eq, lookup_insert_ne in HX by lia.
        destruct (left_sessions_inv _ G0 S0 pid _ X HS HX) as (Y & HY & -> & _). simplify_eq. by rewrite lookup_insert_ne. }
    eapply jobs_ok_eq; [exact H3|..]; simpl; try done.
    + change (refs_of _) with (refs_of w2) at 1. unfold w2. rewrite refs_put. simpl. by rewrite insert_delete_eq.
    + apply insert_insert_ne. lia.
    + rewrite left_sessions_insert_ne by lia. f_equal. by rewrite left_sessions_insert_ne by lia.
  - split; [|done]. exact (tree_put (found_world w1 pid no N) pid (set_p_pgroup (set_p_session p (Some no)) (Some (w_next_object w1))) p Hp eq_refl).
  - exists (set_p_pgroup (set_p_session p (Some no)) (Some (no + 1))). simpl. rewrite lookup_insert_eq. split; [done|]. split.
    + unfold pgid_of. simpl. rewrite lookup_insert_ne by lia. by rewrite lookup_insert_eq.
    + unfold sid_of. simpl. rewrite !left_sessions_insert_ne by lia. by rewrite lookup_insert_eq.
Qed.

(** A group with members is alive. *)
Lemma group_held_members w g G :
  jobs_inv w -> w_group_store w !! g = Some G -> g_members G <> ∅ ->
  group_alive w g = true /\ session_held (refs_of w) (w_rcu w) (g_session G).
Proof.
  intros Hj HG Hm. destruct (set_choose_L _ Hm) as [m Hin]. destruct (jo_members _ _ _ _ _ _ _ _ Hj g G m HG Hin) as [rs Hr].
  split; [apply group_alive_spec; left; eauto|].
  destruct (jo_refs _ _ _ _ _ _ _ _ Hj _ _ _ Hr) as (? & ? & ? & ? & ? & ? & ? & ? & ? & ?). simplify_eq. left. eauto.
Qed.

(** The world after a process has moved from group [g] to [g']. *)
Definition moved_world (w : ProcWorld) (pid : Z) (p : Process) (g g' : Z) (G : ProcessGroup) (S : Session) : ProcWorld :=
  call_rcu (put_process (set_session_store (set_group_store w (<[g := without_member G pid]> (w_group_store w)))
      (left_sessions (w_session_store w) G S pid)) pid (set_p_pgroup p (Some g'))) (mkRcuItem (Some g) None).

Lemma setpgid_move_eq w pid p g g' G S :
  w_processes w !! pid = Some p -> p_pgroup p = Some g ->
  w_group_store w !! g = Some G -> pid ∈ g_members G -> w_session_store w !! g_session G = Some S ->
  is_Some (s_groups S !! g_pgid G) -> session_held (refs_of w) (w_rcu w) (g_session G) ->
  setpgid_move w pid g g' = Ret (moved_world w pid p g g' G S).
Proof.
  intros Hp Eg HG Hin HS Hgr Hh. unfold setpgid_move. rewrite (pgroup_remove_member_eq [] w g pid G S) by auto.
  cbn [mbind outcome_bind]. unfold get_process. simpl. rewrite Hp. cbn [mbind outcome_bind expect]. rewrite Eg. done.
Qed.

Section setpgid.
Context (w : ProcWorld) (pid : Z) (p : Process) (g : Z) (G : ProcessGroup) (S : Session).
Context (Hj : jobs_inv w) (Hp : w_processes w !! pid = Some p) (Eg : p_pgroup p = Some g) (Es : p_session p = Some (g_session G)).
Context (HG : w_group_store w !! g = Some G) (HS : w_session_store w !! g_session G = Some S) (Hin : pid ∈ g_members G).
Context (Hl : s_groups S !! g_pgid G = Some g) (Ht : w_sessions w !! s_sid S = Some (g_session G)).
Context (Hh : session_held (refs_of w) (w_rcu w) (g_session G)).

Let Hr : refs_of w !! pid = Some (Some g, Some (g_session G)).
Proof. rewrite (refs_lookup w pid p Hp). by rewrite Eg, Es. Qed.

Lemma setpgid_own_groups g' G' :
  s_sid S <> pid -> w_group_store w !! g' = Some G' -> g_members G' <> ∅ -> g_pgid G' = pid -> w_pgroups w !! pid = Some g'.
Proof.
  intros Hsid HG' Hm E. destruct (jo_found _ _ _ _ _ _ _ _ Hj g' G' HG' Hm) as [Hf|Hlead]; rewrite E in *; [done|].
  destruct (Hlead _ _ Hr) as (s0 & S0 & [= <-] & HS0 & E0). simplify_eq.
Qed.

Lemma setpgid_join g' G' :
  s_sid S <> pid -> w_group_store w !! g' = Some G' -> g_members G' <> ∅ -> g_session G' = g_session G -> g_pgid G' <> g_pgid G ->
  let w1 := set_group_store w (<[g' := with_member G' pid]> (w_group_store w)) in
  pgroup_add_member w g' pid = Ret w1 /\ setpgid_move w1 pid g g' = Ret (moved_world w1 pid p g g' G S) /\
  jobs_inv (moved_world w1 pid p g g' G S).
Proof.
  intros Hsid HG' Hm Esn Hpg w1. assert (g' <> g) as Hgg by (intros ->; by simplify_eq).
  assert (pid ∉ g_members G') as Hnin.
  { intros Hi. destruct (jo_members _ _ _ _ _ _ _ _ Hj g' G' pid HG' Hi) as [rs E]. rewrite Hr in E. by simplify_eq. }
  split; [unfold pgroup_add_member; rewrite HG'; simpl; by rewrite bool_decide_eq_true_2|].
  split; [apply setpgid_move_eq; simpl; rewrite ?lookup_insert_ne by congruence; eauto|].
  pose proof (jobs_leave _ _ _ _ _ _ _ _ pid g _ G S Hj Hr HG HS) as H1.
  assert (exists S', left_sessions (w_session_store w) G S pid !! g_session G' = Some S' /\ s_sid S' = s_sid S) as (S' & HS' & Esid).
  { rewrite Esn. destruct (left_sessions_lookup _ G S pid _ S HS HS) as (X & HX & EX & _). eauto. }
  pose proof (jobs_enter _ _ _ _ _ _ _ _ pid g' G' H1) as H2.
  rewrite lookup_delete_eq, lookup_insert_ne in H2 by congruence.
  specialize (H2 eq_refl (jo_pids _ _ _ _ _ _ _ _ Hj _ _ Hr) HG' Hm). rewrite insert_delete_eq, Esn in H2.
  eapply jobs_ok_eq; [eapply (jobs_rcu_app _ _ _ _ _ _ _ _ (mkRcuItem (Some g) None)); [apply H2|done]|..]; try done.
  - intros g2 G2 S2 HG2 Hm2 E2 HS2. left. apply lookup_insert_Some in HG2 as [[<- <-]|[_ HG2]].
    + apply (setpgid_own_groups g G Hsid HG); [set_solver|done].
    + by apply (setpgid_own_groups g2 G2 Hsid HG2).
  - change (refs_of (moved_world _ _ _ _ _ _ _)) with (refs_of (put_process w pid (set_p_pgroup p (Some g')))).
    rewrite refs_put. simpl. by rewrite Es.
  - simpl. apply insert_insert_ne. congruence.
Qed.

Lemma setpgid_found :
  s_sid S <> pid -> try_find_pgroup w pid = None ->
  let w1 := found_world w pid (g_session G) S in let S1 := with_group S pid (w_next_object w) in
  pgroup_build w pid (g_session G) = Ret (w_next_object w, w1) /\
  setpgid_move w1 pid g (w_next_object w) = Ret (moved_world w1 pid p g (w_next_object w) G S1) /\
  jobs_inv (moved_world w1 pid p g (w_next_object w) G S1).
Proof.
  intros Hsid Hf w1 S1.
  assert (forall g' G', w_group_store w !! g' = Some G' -> g_members G' <> ∅ -> g_pgid G' <> pid) as Hnone.
  { intros g' G' HG' Hm E. pose proof (setpgid_own_groups g' G' Hsid HG' Hm E) as Hx. unfold try_find_pgroup in Hf. rewrite Hx in Hf.
    simpl in Hf. by rewrite (proj1 (group_held_members w g' G' Hj HG' Hm)) in Hf. }
  assert (s_groups S !! pid = None) as Hn.
  { destruct (s_groups S !! pid) as [g'|] eqn:E; [|done]. destruct (jo_listed _ _ _ _ _ _ _ _ Hj _ _ _ _ HS E) as (G' & HG' & E' & _ & Hm).
    by destruct (Hnone g' G' HG' Hm). }
  assert (g_pgid G <> pid) as Hpg by (apply (Hnone g G HG); set_solver).
  destruct (jo_session _ _ _ _ _ _ _ _ Hj g G HG) as (_ & _ & Hlt).
  split; [by apply pgroup_build_eq|]. split.
  { apply setpgid_move_eq; simpl; rewrite ?lookup_insert_eq, ?lookup_insert_ne by (done || lia); eauto. }
  pose proof (jobs_leave _ _ _ _ _ _ _ _ pid g _ G S Hj Hr HG HS) as H1.
  destruct (left_sessions_lookup _ G S pid _ S HS HS) as (S' & HS' & Esid & Hgr).
  pose proof (jobs_found _ _ _ _ _ _ _ _ pid (g_session G) S' H1) as H2. rewrite lookup_delete_eq, Hgr, Esid in H2.
  specialize (H2 eq_refl (jo_pids _ _ _ _ _ _ _ _ Hj _ _ Hr) HS'). rewrite Hn, Ht, insert_delete_eq in H2.
  eapply jobs_ok_eq; [eapply (jobs_rcu_app _ _ _ _ _ _ _ _ (mkRcuItem (Some g) None)); [apply H2|done]|..]; try done.
  - by destruct (decide _).
  - right. intros g2 G2 HG2 Hm2. apply lookup_insert_Some in HG2 as [[<- <-]|[_ HG2]]; [done|by apply (Hnone g2)].
  - change (refs_of (moved_world _ _ _ _ _ _ _)) with (refs_of (put_process w pid (set_p_pgroup p (Some (w_next_object w))))).
    rewrite refs_put. simpl. by rewrite Es.
  - simpl. apply insert_insert_ne. lia.
  - simpl. unfold left_sessions in *. destruct (decide (g_members G ∖ {[pid]} = ∅)).
    + rewrite lookup_insert_eq in HS'. injection HS' as <-. rewrite !insert_insert_eq. f_equal. unfold without_group, with_group. simpl.
      f_equal. apply delete_insert_ne. done.
    + simplify_eq. done.
Qed.
End setpgid.

Lemma same_tree_moved w w1 pid p g g' G S :
  w_processes w1 = w_processes w -> w_threads w1 = w_threads w -> w_init w1 = w_init w -> w_next_pid w1 = w_next_pid w ->
  w_processes w !! pid = Some p -> same_tree w (moved_world w1 pid p g g' G S).
Proof.
  intros E1 E2 E3 E4 Hp. split; [|done]. unfold tree_of. simpl. rewrite E1, fmap_insert. apply insert_id. by rewrite lookup_fmap, Hp.
Qed.

(** No member of the wanted group is left, but its object still is. *)
Definition revives (w : ProcWorld) (pgid : Z) : Prop :=
  exists g G, try_find_pgroup w pgid = Some g /\ w_group_store w !! g = Some G /\ g_members G = ∅.

Lemma try_find_pgroup_some w pgid g :
  jobs_inv w -> try_find_pgroup w pgid = Some g -> exists G, w_group_store w !! g = Some G /\ g_pgid G = pgid.
Proof.
  intros Hj Hf. unfold try_find_pgroup in Hf. destruct (w_pgroups w !! pgid) as [x|] eqn:E; [|done]. simpl in Hf.
  destruct (group_alive w x); [|done]. injection Hf as <-. by apply (jo_table _ _ _ _ _ _ _ _ Hj).
Qed.

Lemma do_setpgid_ok w pid p pgid :
  jobs_inv w -> w_processes w !! pid = Some p -> ~ revives w pgid ->
  match do_setpgid w pid pgid with
  | Ret w' => jobs_inv w' /\ same_tree w w' /\ exists sid, sid_of w p = Ret sid /\ sid <> pid /\ points_at w' pid pgid sid
  | Err e => e = EPERM
  | Panic => False
  end.
Proof.
  intros Hj Hp Hrev. destruct (jobs_process w pid p Hj Hp) as (g & G & S & Eg & Es & HG & HS & Hin & Hl & Ht & Hh).
  unfold do_setpgid, get_process. rewrite Hp. cbn [mbind outcome_bind expect]. rewrite Es. cbn [mbind outcome_bind expect]. rewrite HS.
  cbn [mbind outcome_bind expect]. rewrite Eg. cbn [mbind outcome_bind expect]. rewrite HG. cbn [mbind outcome_bind expect].
  assert (sid_of w p = Ret (s_sid S)) as Esid by (unfold sid_of; rewrite Es; simpl; by rewrite HS).
  destruct (Z.eqb_spec (s_sid S) pid) as [|Hsid]; [done|].
  destruct (try_find_pgroup w pgid) as [g'|] eqn:Ef.
  - destruct (try_find_pgroup_some w pgid g' Hj Ef) as (G' & HG' & Epg). rewrite HG'. cbn [mbind outcome_bind expect].
    assert (g_members G' <> ∅) as Hm by (intros E; apply Hrev; by exists g', G').
    destruct (group_held_members w g' G' Hj HG' Hm) as [_ Hh']. rewrite (proj2 (session_alive_spec w _) Hh'). cbn [assert_ mbind outcome_bind].
    destruct (jo_groups _ _ _ _ _ _ _ _ Hj g' G' HG' Hm) as (S' & HS' & _). rewrite HS'. cbn [mbind outcome_bind expect].
    destruct (Z.eqb_spec (s_sid S') (s_sid S)) as [E|]; [|done]. cbn [negb].
    assert (g_session G' = g_session G) as Esn by (pose proof (jo_sessions _ _ _ _ _ _ _ _ Hj _ S' HS' Hh') as H; rewrite E, Ht in H; congruence).
    destruct (Z.eqb_spec (g_pgid G') (g_pgid G)) as [E2|Hne].
    + split; [done|]. split; [done|]. exists (s_sid S). split; [done|]. split; [done|]. exists p. split; [done|]. split; [|done].
      unfold pgid_of. rewrite Eg. simpl. rewrite HG. simpl. f_equal. congruence.
    + destruct (setpgid_join w pid p g G S Hj Hp Eg Es HG HS Hin Hl Ht Hh g' G' Hsid HG' Hm Esn Hne) as (-> & H2 & H3).
      cbn [mbind outcome_bind]. rewrite H2. split; [done|]. split; [by apply same_tree_moved|]. exists (s_sid S). split; [done|]. split; [done|].
      eexists. simpl. rewrite lookup_insert_eq. split; [done|]. split.
      * unfold pgid_of. simpl. rewrite lookup_insert_ne, lookup_insert_eq by congruence. simpl. by f_equal.
      * unfold sid_of. simpl. rewrite Es. simpl. destruct (left_sessions_lookup _ G S pid _ S HS HS) as (X & -> & E3 & _). simpl. by f_equal.
  - destruct (Z.eqb_spec pgid pid) as [->|]; [|done]. cbn [negb].
    destruct (setpgid_found w pid p g G S Hj Hp Eg Es HG HS Hin Hl Ht Hh Hsid Ef) as (-> & H2 & H3).
    cbn [mbind outcome_bind]. rewrite H2. split; [done|]. split; [by apply same_tree_moved|]. exists (s_sid S). split; [done|]. split; [done|].
    destruct (jo_session _ _ _ _ _ _ _ _ Hj g G HG) as (_ & _ & Hlt). eexists. simpl. rewrite lookup_insert_eq. split; [done|]. split.
    + unfold pgid_of. simpl. rewrite lookup_insert_ne, lookup_insert_eq by lia. done.
    + unfold sid_of. simpl. rewrite Es. simpl.
      destruct (left_sessions_lookup (<[g_session G := with_group S pid (w_next_object w)]> (w_session_store w)) G (with_group S pid (w_next_object w))
        pid (g_session G) (with_group S pid (w_next_object w))) as (X & -> & E3 & _); [by rewrite lookup_insert_eq..|]. simpl. by f_equal.
Qed.

Lemma setpgid_ok w self p pid pgid :
  jobs_inv w -> w_processes w !! self = Some p -> ~ revives w pgid ->
  match setpgid w self pid pgid with
  | Ret w' => jobs_inv w' /\ same_tree w w' /\ (pid = self \/ pid ∈ p_children p)
  | Err e => e = EPERM \/ e = ESRCH
  | Panic => False
  end.
Proof.
  intros Hj Hp Hrev. unfold setpgid. destruct (Z.eqb_spec pid self) as [->|Hne].
  - pose proof (do_setpgid_ok w self p pgid Hj Hp Hrev) as H. destruct (do_setpgid w self pgid); [|auto|done]. destruct H as (? & ? & _). auto.
  - unfold get_process. rewrite Hp. cbn [mbind outcome_bind expect]. destruct (decide (pid ∈ p_children p)) as [Hc|]; [|simpl; auto].
    destruct (w_processes w !! pid) as [c|] eqn:Ec; [|simpl; auto]. cbn [ok_or mbind outcome_bind].
    destruct (jobs_process w pid c Hj Ec) as (g1 & G1 & S1 & _ & Es1 & _ & HS1 & _). destruct (jobs_process w self p Hj Hp) as (g2 & G2 & S2 & _ & Es2 & _ & HS2 & _).
    unfold sid_of. rewrite Es1. cbn [mbind outcome_bind expect]. rewrite HS1. cbn [mbind outcome_bind expect].
    rewrite Es2. cbn [mbind outcome_bind expect]. rewrite HS2. cbn [mbind outcome_bind expect].
    destruct (negb _); [auto|]. pose proof (do_setpgid_ok w pid c pgid Hj Ec Hrev) as H. destruct (do_setpgid w pid pgid); [|auto|done]. destruct H as (? & ? & _). auto.
Qed.

(** A new process in the group and the session of its parent. *)
Lemma jobs_clone w pid p g G :
  jobs_inv w -> w_processes w !! pid = Some p -> p_pgroup p = Some g -> w_group_store w !! g = Some G -> p_session p = Some (g_session G) ->
  let np := w_next_pid w in
  jobs_ok (<[np := (Some g, Some (g_session G))]> (refs_of w)) (<[g := with_member G np]> (w_group_store w)) (w_session_store w)
    (w_pgroups w) (w_sessions w) (w_rcu w) (w_next_object w) (np + 1) /\ np ∉ g_members G.
Proof.
  intros Hj Hp Eg HG Es np. destruct (jobs_process w pid p Hj Hp) as (g' & G' & S & Eg' & Es' & HG' & HS & Hin & _). simplify_eq.
  assert (refs_of w !! np = None) as Hn.
  { destruct (refs_of w !! np) eqn:E; [|done]. pose proof (jo_pids _ _ _ _ _ _ _ _ Hj _ _ E). unfold np in *. lia. }
  split.
  - apply jobs_enter; [apply (jobs_next_pid _ _ _ _ _ _ _ np); [lia|done]|done|lia|done|set_solver|].
    intros g1 G1 S1 HG1 _ E _. destruct (jo_session _ _ _ _ _ _ _ _ Hj g1 G1 HG1) as (_ & Hlt & _). unfold np in *. lia.
  - intros Hi. destruct (jo_members _ _ _ _ _ _ _ _ Hj g G np HG Hi) as [rs E]. congruence.
Qed.

Lemma is_session_leader_leave refs ss G S pid x :
  ss !! g_session G = Some S -> is_session_leader refs ss x -> is_session_leader (delete pid refs) (left_sessions ss G S pid) x.
Proof.
  intros HS Hl rg rs [_ Hr]%lookup_delete_Some. destruct (Hl rg rs Hr) as (s & X & -> & HX & E).
  destruct (left_sessions_lookup ss G S pid s X HS HX) as (X' & HX' & E' & _). exists s, X'. by rewrite E'.
Qed.

(** After a process has gone, its group leaves the table if nobody holds it. *)
Lemma jobs_group_gone refs gs ss pg st q q' no np pid g s G S :
  jobs_ok refs gs ss pg st q no np -> refs !! pid = Some (Some g, Some s) -> gs !! g = Some G -> ss !! g_session G = Some S -> pid ∈ g_members G ->
  (forall i, i ∈ q' -> i ∈ q) -> ~ group_held (delete pid refs) q' g ->
  jobs_ok (delete pid refs) (<[g := without_member G pid]> gs) (left_sessions ss G S pid) (delete (g_pgid G) pg) st q' no np.
Proof.
  intros Hj Hpid HG HS Hin Hq Hdead. pose proof (jobs_rcu _ _ _ _ _ _ _ _ _ Hq (jobs_leave _ _ _ _ _ _ _ _ pid g s G S Hj Hpid HG HS)) as H1.
  assert (g_members (without_member G pid) = ∅) as He.
  { apply set_eq_subseteq. split; [|set_solver]. intros m Hm. destruct (jo_members _ _ _ _ _ _ _ _ H1 g (without_member G pid) m) as [rs E]; [by rewrite lookup_insert_eq|done|].
    destruct Hdead. left. eauto. }
  apply (jobs_drop_group _ _ _ _ _ _ _ _ g (without_member G pid)); [done|by rewrite lookup_insert_eq|done|]. simpl.
  intros g1 G1 HG1 Hm1 E1. apply lookup_insert_Some in HG1 as [[<- <-]|[Hne HG1]]; [done|].
  destruct (jo_found _ _ _ _ _ _ _ _ Hj g1 G1 HG1 Hm1) as [Hf1|Hl1]; [|rewrite <- E1; by apply is_session_leader_leave].
  destruct (jo_found _ _ _ _ _ _ _ _ Hj g G HG) as [Hf|Hl]; [set_solver|rewrite E1 in Hf1; congruence|by apply is_session_leader_leave].
Qed.

(** Likewise its session. *)
Lemma jobs_session_gone refs gs ss pg st q no np s S :
  jobs_ok refs gs ss pg st q no np -> ss !! s = Some S -> st !! s_sid S = Some s -> ~ session_held refs q s ->
  jobs_ok refs gs ss pg (delete (s_sid S) st) q no np.
Proof.
  intros Hj HS Ht Hdead. apply (jobs_drop_session _ _ _ _ _ _ _ _ s S Hj HS). intros s' S' HS' E Hh.
  pose proof (jo_sessions _ _ _ _ _ _ _ _ Hj s' S' HS' Hh) as Ht'. rewrite E, Ht in Ht'. congruence.
Qed.

Lemma remove_process_ok w mask pid p :
  jobs_inv w -> w_processes w !! pid = Some p -> is_Some (w_threads w !! pid) -> is_Some (p_parent p) ->
  exists w', remove_process w mask pid = Ret w' /\ jobs_inv w' /\ w_processes w' = delete pid (w_processes w) /\
    w_threads w' = delete pid (w_threads w) /\ w_init w' = w_init w /\ w_next_pid w' = w_next_pid w.
Proof.
  intros Hj Hp [t Hthr] [pp Hpar]. destruct (jobs_process w pid p Hj Hp) as (g & G & S & Eg & Es & HG & HS & Hin & Hl & Ht & Hh).
  assert (refs_of w !! pid = Some (Some g, Some (g_session G))) as Hr by (rewrite (refs_lookup w pid p Hp); by rewrite Eg, Es).
  unfold remove_process. rewrite Hthr. unfold get_process. rewrite Hp. cbn [mbind outcome_bind expect]. rewrite Es. cbn [mbind outcome_bind expect].
  rewrite Eg. cbn [mbind outcome_bind expect]. rewrite Hpar. cbn [mbind outcome_bind expect].
  set (w1 := set_processes _ _). rewrite (pgroup_remove_member_eq _ w1 g pid G S); [|done|done|done|by eexists|left; set_solver].
  cbn [mbind outcome_bind]. set (w2 := rcu_run _ mask). simpl w_group_store. rewrite lookup_insert_eq. cbn [mbind outcome_bind expect].
  change (w_session_store w2) with (left_sessions (w_session_store w) G S pid).
  destruct (left_sessions_lookup _ G S pid _ S HS HS) as (S' & HS' & Esid & _). rewrite HS'. cbn [mbind outcome_bind expect].
  assert (refs_of w2 = delete pid (refs_of w)) as Erefs by (unfold refs_of; simpl; by rewrite fmap_delete).
  assert (jobs_inv (if negb (group_alive w2 g) then set_pgroups w2 (delete (g_pgid G) (w_pgroups w2)) else w2)) as H2.
  { assert (forall i, i ∈ rcu_keep (w_rcu w) mask -> i ∈ w_rcu w) as Hq by (intros i; apply rcu_keep_sub).
    destruct (group_alive w2 g) eqn:Ea; cbn [negb].
    - eapply jobs_ok_eq; [eapply jobs_rcu; [exact Hq|apply (jobs_leave _ _ _ _ _ _ _ _ pid g _ G S Hj Hr HG HS)]|..]; try done.
    - eapply jobs_ok_eq; [apply (jobs_group_gone _ _ _ _ _ _ (rcu_keep (w_rcu w) mask) _ _ pid g _ G S Hj Hr HG HS Hin Hq)|..]; try done.
      rewrite <- Erefs. intros Hx. by rewrite (proj2 (group_alive_spec w2 g) Hx) in Ea. }
  set (w3 := if negb (group_alive w2 g) then _ else w2) in *. eexists. split; [reflexivity|].
  assert (w_processes w3 = delete pid (w_processes w) /\ w_threads w3 = delete pid (w_threads w) /\ w_init w3 = w_init w /\ w_next_pid w3 = w_next_pid w /\
    w_session_store w3 = left_sessions (w_session_store w) G S pid /\ w_sessions w3 = w_sessions w) as (F1 & F2 & F3 & F4 & F5 & F6)
    by (unfold w3; by destruct (negb _)).
  destruct (session_alive w3 (g_session G)) eqn:Ea; cbn [negb]; [done|]. split; [|done].
  eapply jobs_ok_eq; [apply (jobs_session_gone _ _ _ _ _ _ _ _ (g_session G) S' H2)|..]; try done.
  - by rewrite F5.
  - by rewrite F6, Esid.
  - intros Hx. by rewrite (proj2 (session_alive_spec w3 _) Hx) in Ea.
Qed.
