(* ===== verification/ProcessTree.v ===== *)
(** * The process tree, exiting and waiting

    The invariant of parents, children, threads and wait objects, its
    preservation by the operations of Process.v, and the theorem that sequences
    of process operations are safe.  An operation in progress that has taken a
    wait object and not yet removed the process is recorded beside the world. *)

From stdpp Require Import sorting.
From S2P Require Import Prelude Io UserMem Signal Process ProcessJobs.

Notation Tree := (gmap Z TNode).
Notation Reaping := (list (Z * WaitObject)).

(** The exits a process can still be told about, or is being told about. *)
Definition owed (q : list WaitObject) (rp : Reaping) (p : Z) : list Z :=
  wob_pid <$> List.filter is_exit (q ++ (List.filter (fun r => r.1 =? p) rp).*2).

Definition tid_ptr_ok (a : option Z) : Prop := forall addr, a = Some addr -> exists ptr, checked_new addr 4 = Ret ptr.

Record tree_ok (tv : Tree) (th : gmap Z Thread) (init : option Z) (np : Z) (rp : Reaping) : Prop := {
  to_init : init = Some 1 /\ exists I, tv !! 1 = Some I /\ tn_parent I = None /\ tn_threads I <> ∅;
  (** parents and children agree *)
  to_parent c C : tv !! c = Some C -> match tn_parent C with
    | Some p => p < c /\ exists P, tv !! p = Some P /\ c ∈ tn_children P | None => c = 1 end;
  to_child p P c : tv !! p = Some P -> c ∈ tn_children P -> exists C, tv !! c = Some C /\ tn_parent C = Some p;
  (** the leader's thread stays listed *)
  to_leader p P : tv !! p = Some P -> is_Some (th !! p);
  to_thread p P t : tv !! p = Some P -> t ∈ tn_threads P -> t < np /\ (is_Some (tv !! t) -> t = p);
  (** an exit is reported to the parent, once *)
  to_owed p P c : tv !! p = Some P -> c ∈ owed (tn_waits P) rp p ->
    exists C, tv !! c = Some C /\ tn_parent C = Some p /\ tn_threads C = ∅;
  to_once p P : tv !! p = Some P -> NoDup (owed (tn_waits P) rp p);
  (** a process without threads has no children and can be waited for *)
  to_zombie c C : tv !! c = Some C -> tn_threads C = ∅ -> tn_children C = ∅ /\
    exists p P, tn_parent C = Some p /\ tv !! p = Some P /\ c ∈ owed (tn_waits P) rp p;
  to_reaping p o : (p, o) ∈ rp -> exists P, tv !! p = Some P /\ tn_threads P <> ∅;
  to_ids p P : tv !! p = Some P -> 1 <= p < np;
  to_tids t r : th !! t = Some r -> t < np /\ tid_ptr_ok (t_clear_child_tid r)
}.

Definition tree_inv (w : ProcWorld) (rp : Reaping) : Prop := tree_ok (tree_of w) (w_threads w) (w_init w) (w_next_pid w) rp.

Lemma owed_app q o rp p : owed (q ++ [o]) rp p ≡ₚ (if is_exit o then [wob_pid o] else []) ++ owed q rp p.
Proof.
  unfold owed. rewrite <- (assoc_L (++)). rewrite !list_filter_app_b. simpl. destruct (is_exit o); [|done]. rewrite !fmap_app. simpl.
  by rewrite Permutation_middle.
Qed.

Lemma owed_elem q rp p c : c ∈ owed q rp p <-> exists o, is_exit o = true /\ wob_pid o = c /\ (o ∈ q \/ (p, o) ∈ rp).
Proof.
  unfold owed. rewrite list_elem_of_fmap. setoid_rewrite list_elem_of_In. setoid_rewrite filter_In. setoid_rewrite <- list_elem_of_In.
  setoid_rewrite elem_of_app. setoid_rewrite list_elem_of_fmap. setoid_rewrite list_elem_of_In. setoid_rewrite filter_In. split.
  - intros (o & -> & [Hq|([x y] & -> & Hin & E%Z.eqb_eq)] & He); simpl in *; subst; eauto.
  - intros (o & He & <- & [Hq|Hr]); exists o; (split; [done|]); (split; [|done]); [auto|right]. exists (p, o). split; [done|]. split; [done|]. simpl. apply Z.eqb_refl.
Qed.

(** ** Steps that leave most of the tree alone *)

Lemma tree_tid tv th init np rp t r :
  tree_ok tv th init np rp -> is_Some (th !! t) -> tid_ptr_ok (t_clear_child_tid r) -> tree_ok tv (<[t := r]> th) init np rp.
Proof.
  intros [H1 H2 H3 H4 H5 H6 H7 H8 H9 H10 H11] [r0 Ht] Hr. constructor; auto.
  - intros p P HP. destruct (decide (p = t)) as [->|Hne]; [rewrite lookup_insert_eq; eauto|rewrite lookup_insert_ne by done; eauto].
  - intros x y [[<- <-]|[_ Hx]]%lookup_insert_Some; [split; [by eapply H11|done]|eauto].
Qed.

(** A change of the queue of one process that keeps the exits it is owed. *)
Lemma tree_requeue tv th init np rp rp' p P q' :
  tree_ok tv th init np rp -> tv !! p = Some P -> owed q' rp' p ≡ₚ owed (tn_waits P) rp p ->
  (forall x q, x <> p -> owed q rp' x = owed q rp x) ->
  (forall x o, (x, o) ∈ rp' -> (x, o) ∈ rp \/ (x = p /\ tn_threads P <> ∅)) ->
  tree_ok (<[p := mkTNode (tn_parent P) (tn_children P) (tn_threads P) q']> tv) th init np rp'.
Proof.
  intros [H1 H2 H3 H4 H5 H6 H7 H8 H9 H10 H11] HP Ho Hother Hrun. set (P' := mkTNode _ _ _ _).
  assert (forall x X, tv !! x = Some X -> exists X', <[p := P']> tv !! x = Some X' /\ tn_parent X' = tn_parent X /\ tn_children X' = tn_children X /\
    tn_threads X' = tn_threads X /\ owed (tn_waits X') rp' x ≡ₚ owed (tn_waits X) rp x) as Hfw.
  { intros x X HX. destruct (decide (x = p)) as [->|Hne]; [rewrite lookup_insert_eq; simplify_eq|rewrite lookup_insert_ne by done].
    - exists P'. by split_and!.
    - exists X. rewrite Hother by done. by split_and!. }
  assert (forall x X', <[p := P']> tv !! x = Some X' -> exists X, tv !! x = Some X /\ tn_parent X' = tn_parent X /\ tn_children X' = tn_children X /\
    tn_threads X' = tn_threads X /\ owed (tn_waits X') rp' x ≡ₚ owed (tn_waits X) rp x) as Hbw.
  { intros x X' HX'. assert (is_Some (tv !! x)) as [X HX] by (apply lookup_insert_Some in HX' as [[<- _]|[_ ?]]; eauto).
    destruct (Hfw x X HX) as (Y & HY & Hr). exists X. by simplify_eq. }
  constructor; auto.
  - destruct H1 as (-> & I & HI & Hp & Ht). split; [done|]. destruct (Hfw 1 I HI) as (I' & HI' & E1 & _ & E3 & _). exists I'. by rewrite E1, E3.
  - intros c C' HC'. destruct (Hbw c C' HC') as (C & HC & -> & _). pose proof (H2 c C HC) as H. destruct (tn_parent C) as [q|]; [|done].
    destruct H as (Hlt & Q & HQ & Hc). split; [done|]. destruct (Hfw q Q HQ) as (Q' & HQ' & _ & E & _). exists Q'. by rewrite E.
  - intros q Q' c HQ' Hc. destruct (Hbw q Q' HQ') as (Q & HQ & _ & E & _). rewrite E in Hc. destruct (H3 q Q c HQ Hc) as (C & HC & Hq).
    destruct (Hfw c C HC) as (C' & HC' & E1 & _). exists C'. by rewrite E1.
  - intros q Q' HQ'. destruct (Hbw q Q' HQ') as (Q & HQ & _). eauto.
  - intros q Q' t HQ' Ht. destruct (Hbw q Q' HQ') as (Q & HQ & _ & _ & E & _). rewrite E in Ht. destruct (H5 q Q t HQ Ht) as [Hlt Hu]. split; [done|].
    intros [X' HX']. apply Hu. destruct (Hbw t X' HX') as (X & HX & _). eauto.
  - intros q Q' c HQ' Hc. destruct (Hbw q Q' HQ') as (Q & HQ & _ & _ & _ & E). rewrite E in Hc. destruct (H6 q Q c HQ Hc) as (C & HC & E1 & E2).
    destruct (Hfw c C HC) as (C' & HC' & F1 & _ & F3 & _). exists C'. by rewrite F1, F3.
  - intros q Q' HQ'. destruct (Hbw q Q' HQ') as (Q & HQ & _ & _ & _ & E). rewrite E. eauto.
  - intros c C' HC' Ht. destruct (Hbw c C' HC') as (C & HC & E1 & E2 & E3 & _). rewrite E3 in Ht. destruct (H8 c C HC Ht) as (Hk & q & Q & Hq & HQ & Ho').
    rewrite E1, E2. split; [done|]. destruct (Hfw q Q HQ) as (Q' & HQ' & _ & _ & _ & E). exists q, Q'. by rewrite E.
  - intros q o' Hq. assert (exists Q, tv !! q = Some Q /\ tn_threads Q <> ∅) as (Q & HQ & Ht) by (destruct (Hrun q o' Hq) as [Hq'|[-> Ht]]; eauto). destruct (Hfw q Q HQ) as (Q' & HQ' & _ & _ & E & _). exists Q'. by rewrite E.
  - intros q Q' HQ'. destruct (Hbw q Q' HQ') as (Q & HQ & _). eauto.
Qed.

(** A stop or a continuation is queued. *)
Lemma tree_stop tv th init np rp p P o :
  tree_ok tv th init np rp -> tv !! p = Some P -> is_exit o = false ->
  tree_ok (<[p := mkTNode (tn_parent P) (tn_children P) (tn_threads P) (tn_waits P ++ [o])]> tv) th init np rp.
Proof. intros Ht HP Ho. apply (tree_requeue _ _ _ _ rp); auto. by rewrite owed_app, Ho. Qed.

Lemma owed_reaping_app q rp p o x : owed q (rp ++ [(p, o)]) x = owed q rp x ++ (if (p =? x) && is_exit o then [wob_pid o] else []).
Proof.
  unfold owed. rewrite (list_filter_app_b _ rp). simpl. destruct (p =? x); simpl; [|by rewrite !app_nil_r].
  rewrite fmap_app, (assoc_L (++)), (list_filter_app_b _ (q ++ _)), fmap_app. simpl. by destruct (is_exit o).
Qed.

(** [wait] takes an object out of the queue. *)
Lemma tree_take tv th init np rp p P q1 o q2 :
  tree_ok tv th init np rp -> tv !! p = Some P -> tn_threads P <> ∅ -> tn_waits P = q1 ++ o :: q2 ->
  tree_ok (<[p := mkTNode (tn_parent P) (tn_children P) (tn_threads P) (q1 ++ q2)]> tv) th init np (rp ++ [(p, o)]).
Proof.
  intros Ht HP Hrun Hq. apply (tree_requeue _ _ _ _ rp); auto.
  - rewrite owed_reaping_app, Z.eqb_refl, Hq. simpl. unfold owed. rewrite <- !(assoc_L (++)). simpl. rewrite !list_filter_app_b. simpl.
    destruct (is_exit o); simpl; rewrite ?list_filter_app_b; [|by rewrite app_nil_r]. rewrite !fmap_app. simpl. rewrite ?fmap_app.
    rewrite Permutation_app_comm. simpl. apply Permutation_middle.
  - intros x q Hx. rewrite owed_reaping_app. destruct (Z.eqb_spec p x); [done|]. by rewrite app_nil_r.
  - intros x y [Hxy|[= -> ->]%list_elem_of_singleton]%elem_of_app; auto.
Qed.

(** ** New threads and processes *)

Lemma owed_fresh tv th init np rp x :
  tree_ok tv th init np rp -> tv !! x = None -> owed [] rp x = [].
Proof.
  intros Ht Hx. destruct (owed [] rp x) as [|c cs] eqn:E; [done|]. assert (c ∈ owed [] rp x) as Hc by (rewrite E; set_solver).
  apply owed_elem in Hc as (o & _ & _ & [Hq|Hr]); [by apply elem_of_nil in Hq|]. destruct (to_reaping _ _ _ _ _ Ht x o Hr) as (P & HP & _). congruence.
Qed.

Lemma tree_new_thread tv th init np rp pid P r :
  tree_ok tv th init np rp -> tv !! pid = Some P -> tn_threads P <> ∅ -> tid_ptr_ok (t_clear_child_tid r) ->
  tree_ok (<[pid := mkTNode (tn_parent P) (tn_children P) ({[np]} ∪ tn_threads P) (tn_waits P)]> tv) (<[np := r]> th) init (np + 1) rp.
Proof.
  intros [H1 H2 H3 H4 H5 H6 H7 H8 H9 H10 H11] HP Hrun Hr. set (P' := mkTNode _ _ _ _).
  assert (forall x X', <[pid := P']> tv !! x = Some X' -> exists X, tv !! x = Some X /\ tn_parent X' = tn_parent X /\ tn_children X' = tn_children X /\
    tn_waits X' = tn_waits X /\ (tn_threads X' = tn_threads X \/ (x = pid /\ X' = P' /\ X = P))) as Hbw.
  { intros x X' [[<- <-]|[_ HX']]%lookup_insert_Some; [exists P|exists X']; split_and!; auto. }
  assert (forall x X, tv !! x = Some X -> exists X', <[pid := P']> tv !! x = Some X') as Hfw.
  { intros x X HX. destruct (decide (x = pid)) as [->|]; [rewrite lookup_insert_eq|rewrite lookup_insert_ne by done]; eauto. }
  assert (forall x, tv !! x = None -> <[pid := P']> tv !! x = None) as Hnn by (intros x Hx; rewrite lookup_insert_ne; [done|congruence]).
  assert (tn_threads P' <> ∅) as Hrun' by (simpl; set_solver).
  assert (forall x X', <[pid := P']> tv !! x = Some X' -> tn_threads X' = ∅ -> tv !! x = Some X') as Hz.
  { by intros x X' [[<- <-]|[_ HX']]%lookup_insert_Some E. }
  constructor.
  - destruct H1 as (-> & I & HI & Hp & Ht). split; [done|]. destruct (Hfw 1 I HI) as (I' & HI'). destruct (Hbw 1 I' HI') as (I0 & HI0 & E1 & _ & _ & E4).
    simplify_eq. exists I'. rewrite E1. split; [done|]. split; [done|]. destruct E4 as [->|(_ & -> & _)]; done.
  - intros c C' HC'. destruct (Hbw c C' HC') as (C & HC & -> & _). pose proof (H2 c C HC) as H. destruct (tn_parent C) as [q|]; [|done].
    destruct H as (Hlt & Q & HQ & Hc). split; [done|]. destruct (Hfw q Q HQ) as (Q' & HQ'). destruct (Hbw q Q' HQ') as (Q0 & HQ0 & _ & E & _).
    exists Q'. rewrite E. by simplify_eq.
  - intros q Q' c HQ' Hc. destruct (Hbw q Q' HQ') as (Q & HQ & _ & E & _). rewrite E in Hc. destruct (H3 q Q c HQ Hc) as (C & HC & Hq).
    destruct (Hfw c C HC) as (C' & HC'). destruct (Hbw c C' HC') as (C0 & HC0 & E1 & _). exists C'. rewrite E1. by simplify_eq.
  - intros q Q' HQ'. destruct (Hbw q Q' HQ') as (Q & HQ & _). destruct (H4 q Q HQ) as [y Hy].
    destruct (decide (q = np)) as [->|]; [rewrite lookup_insert_eq; eauto|rewrite lookup_insert_ne by done; eauto].
  - intros q Q' t HQ' Ht. destruct (Hbw q Q' HQ') as (Q & HQ & _ & _ & _ & [E|(-> & -> & ->)]).
    + rewrite E in Ht. destruct (H5 q Q t HQ Ht) as [Hlt Hu]. split; [lia|]. intros [X' HX']. apply Hu. destruct (Hbw t X' HX') as (X & HX & _). eauto.
    + simpl in Ht. apply elem_of_union in Ht as [->%elem_of_singleton|Ht].
      * split; [lia|]. intros [X' HX']. destruct (Hbw np X' HX') as (X & HX & _). specialize (H10 np X HX). lia.
      * destruct (H5 pid P t HP Ht) as [Hlt Hu]. split; [lia|]. intros [X' HX']. apply Hu. destruct (Hbw t X' HX') as (X & HX & _). eauto.
  - intros q Q' c HQ' Hc. destruct (Hbw q Q' HQ') as (Q & HQ & _ & _ & E & _). rewrite E in Hc. destruct (H6 q Q c HQ Hc) as (C & HC & E1 & E2).
    exists C. rewrite lookup_insert_ne; [done|]. intros <-. simplify_eq.
  - intros q Q' HQ'. destruct (Hbw q Q' HQ') as (Q & HQ & _ & _ & E & _). rewrite E. eauto.
  - intros c C' HC' Ht. pose proof (Hz c C' HC' Ht) as HC. destruct (H8 c C' HC Ht) as (Hk & q & Q & Hq & HQ & Ho).
    split; [done|]. destruct (Hfw q Q HQ) as (Q' & HQ'). destruct (Hbw q Q' HQ') as (Q0 & HQ0 & _ & _ & E & _). simplify_eq. exists q, Q'. by rewrite E.
  - intros q o Hq. destruct (H9 q o Hq) as (Q & HQ & Ht). destruct (Hfw q Q HQ) as (Q' & HQ'). exists Q'. split; [done|]. intros E.
    rewrite (Hz q Q' HQ' E) in HQ. by simplify_eq.
  - intros q Q' HQ'. destruct (Hbw q Q' HQ') as (Q & HQ & _). specialize (H10 q Q HQ). lia.
  - intros t y [[<- <-]|[_ Hy]]%lookup_insert_Some; [split; [lia|done]|]. destruct (H11 t y Hy). split; [lia|done].
Qed.

Lemma tree_fork tv th init np rp pid P r :
  tree_ok tv th init np rp -> tv !! pid = Some P -> tn_threads P <> ∅ -> tid_ptr_ok (t_clear_child_tid r) ->
  tree_ok (<[np := mkTNode (Some pid) ∅ {[np]} []]>
            (<[pid := mkTNode (tn_parent P) ({[np]} ∪ tn_children P) (tn_threads P) (tn_waits P)]> tv)) (<[np := r]> th) init (np + 1) rp.
Proof.
  intros Hok HP Hrun Hr. pose proof Hok as [H1 H2 H3 H4 H5 H6 H7 H8 H9 H10 H11]. set (P' := mkTNode (tn_parent P) _ _ _). set (N := mkTNode _ _ _ _). set (tv' := <[np := N]> _).
  assert (tv !! np = None) as Hnp by (destruct (tv !! np) eqn:E; [apply H10 in E; lia|done]).
  assert (pid <> np) as Hpn by congruence.
  assert (forall x X', tv' !! x = Some X' -> (x = np /\ X' = N) \/ exists X, x <> np /\ tv !! x = Some X /\ tn_parent X' = tn_parent X /\
    (forall c, c ∈ tn_children X' <-> c ∈ tn_children X \/ (x = pid /\ c = np)) /\ tn_waits X' = tn_waits X /\ tn_threads X' = tn_threads X) as Hbw.
  { intros x X' [[<- <-]|[Hne [[<- <-]|[Hne' HX']]%lookup_insert_Some]]%lookup_insert_Some; [auto|right; exists P|right; exists X'].
    - split_and!; try done. simpl. set_solver.
    - split_and!; try done. naive_solver. }
  assert (forall x X, tv !! x = Some X -> exists X', tv' !! x = Some X' /\ tn_parent X' = tn_parent X /\
    (forall c, c ∈ tn_children X' <-> c ∈ tn_children X \/ (x = pid /\ c = np)) /\ tn_waits X' = tn_waits X /\ tn_threads X' = tn_threads X) as Hfw.
  { intros x X HX. assert (x <> np) by congruence. assert (is_Some (tv' !! x)) as [X' HX'].
    { unfold tv'. rewrite lookup_insert_ne by done. destruct (decide (x = pid)) as [->|]; [rewrite lookup_insert_eq|rewrite lookup_insert_ne by done]; eauto. }
    destruct (Hbw x X' HX') as [[? _]|(X0 & _ & HX0 & Hrest)]; [done|]. exists X'. by simplify_eq. }
  pose proof (owed_fresh _ _ _ _ _ np Hok Hnp) as How.
  constructor.
  - destruct H1 as (-> & I & HI & Hp & Ht). split; [done|]. destruct (Hfw 1 I HI) as (I' & HI' & E1 & _ & _ & E4). exists I'. by rewrite E1, E4.
  - intros c C' HC'. destruct (Hbw c C' HC') as [[-> ->]|(C & Hc & HC & -> & _)].
    + simpl. split; [pose proof (H10 pid P HP); lia|]. destruct (Hfw pid P HP) as (P0 & HP0 & _ & E & _). exists P0. split; [done|]. apply E. auto.
    + pose proof (H2 c C HC) as H. destruct (tn_parent C) as [q|]; [|done]. destruct H as (Hlt & Q & HQ & Hq). split; [done|].
      destruct (Hfw q Q HQ) as (Q' & HQ' & _ & E & _). exists Q'. split; [done|]. apply E. auto.
  - intros q Q' c HQ' Hc. destruct (Hbw q Q' HQ') as [[-> ->]|(Q & Hq & HQ & _ & E & _)]; [simpl in Hc; set_solver|].
    destruct (proj1 (E c) Hc) as [Hc'|[-> ->]].
    + destruct (H3 q Q c HQ Hc') as (C & HC & Hp). destruct (Hfw c C HC) as (C' & HC' & E1 & _). exists C'. by rewrite E1.
    + exists N. unfold tv'. by rewrite lookup_insert_eq.
  - intros q Q' HQ'. destruct (Hbw q Q' HQ') as [[-> ->]|(Q & Hq & HQ & _)]; [rewrite lookup_insert_eq; eauto|rewrite lookup_insert_ne by done; eauto].
  - intros q Q' t HQ' Ht. destruct (Hbw q Q' HQ') as [[-> ->]|(Q & Hq & HQ & _ & _ & _ & E)].
    + simpl in Ht. apply elem_of_singleton in Ht as ->. split; [lia|done].
    + rewrite E in Ht. destruct (H5 q Q t HQ Ht) as [Hlt Hu]. split; [lia|]. intros [X' HX'].
      destruct (Hbw t X' HX') as [[-> _]|(X & _ & HX & _)]; [lia|eauto].
  - intros q Q' c HQ' Hc. destruct (Hbw q Q' HQ') as [[-> ->]|(Q & Hq & HQ & _ & _ & E & _)]; [simpl in Hc; rewrite How in Hc; by apply elem_of_nil in Hc|].
    rewrite E in Hc. destruct (H6 q Q c HQ Hc) as (C & HC & E1 & E2). destruct (Hfw c C HC) as (C' & HC' & F1 & _ & _ & F4). exists C'. by rewrite F1, F4.
  - intros q Q' HQ'. destruct (Hbw q Q' HQ') as [[-> ->]|(Q & Hq & HQ & _ & _ & E & _)]; [simpl; rewrite How; constructor|rewrite E; eauto].
  - intros c C' HC' Ht. destruct (Hbw c C' HC') as [[-> ->]|(C & Hc & HC & E1 & E2 & E3 & E4)]; [simpl in Ht; set_solver|].
    rewrite E4 in Ht. destruct (H8 c C HC Ht) as (Hk & q & Q & Hq & HQ & Ho). split.
    + apply set_eq_subseteq. split; [|set_solver]. intros x Hx. destruct (proj1 (E2 x) Hx) as [Hx'|[-> ->]]; [set_solver|]. simplify_eq.
    + destruct (Hfw q Q HQ) as (Q' & HQ' & _ & _ & E & _). exists q, Q'. by rewrite E, E1.
  - intros q o Hq. destruct (H9 q o Hq) as (Q & HQ & Ht). destruct (Hfw q Q HQ) as (Q' & HQ' & _ & _ & _ & E). exists Q'. by rewrite E.
  - intros q Q' HQ'. pose proof (H10 pid P HP). destruct (Hbw q Q' HQ') as [[-> ->]|(Q & _ & HQ & _)]; [lia|]. specialize (H10 q Q HQ). lia.
  - intros t y [[<- <-]|[_ Hy]]%lookup_insert_Some; [split; [lia|done]|]. destruct (H11 t y Hy). split; [lia|done].
Qed.

(** ** Exiting *)

Definition tree_map (f : Z -> TNode -> TNode) (tv : Tree) : Tree := map_imap (fun x N => Some (f x N)) tv.

Lemma tree_map_lookup f tv x : tree_map f tv !! x = f x <$> tv !! x.
Proof. unfold tree_map. rewrite map_lookup_imap. by destruct (tv !! x). Qed.

Lemma tree_map_Some f tv x X' : tree_map f tv !! x = Some X' <-> exists X, tv !! x = Some X /\ X' = f x X.
Proof. rewrite tree_map_lookup, fmap_Some. done. Qed.

(** The children and the undelivered exits of [pid] go to process 1. *)
Definition orphan (pid : Z) (P : TNode) (x : Z) (X : TNode) : TNode :=
  mkTNode (if decide (x ∈ tn_children P) then Some 1 else tn_parent X)
          (if decide (x = 1) then tn_children P ∪ tn_children X else if decide (x = pid) then ∅ else tn_children X)
          (tn_threads X)
          (if decide (x = 1) then tn_waits X ++ List.filter is_exit (tn_waits P) else if decide (x = pid) then [] else tn_waits X).

Lemma owed_exits q P rp p :
  (forall o, (p, o) ∉ rp) -> owed (tn_waits P) rp p = wob_pid <$> List.filter is_exit (tn_waits P) /\
  owed [] rp p = [] /\ forall x, owed (q ++ List.filter is_exit (tn_waits P)) rp x ≡ₚ owed q rp x ++ owed (tn_waits P) rp p.
Proof.
  intros Hn. assert (List.filter (fun r => r.1 =? p) rp = []) as E.
  { induction rp as [|[y o] rp IH]; [done|]. simpl. destruct (Z.eqb_spec y p) as [->|]; [destruct (Hn o); set_solver|].
    apply IH. intros o' Ho'. apply (Hn o'). set_solver. }
  assert (owed (tn_waits P) rp p = wob_pid <$> List.filter is_exit (tn_waits P)) as E1 by (unfold owed; rewrite E; simpl; by rewrite app_nil_r).
  split; [done|]. split; [unfold owed; by rewrite E|]. intros x. rewrite E1. unfold owed. rewrite <- (assoc_L (++)), !list_filter_app_b, !fmap_app.
  assert (List.filter is_exit (List.filter is_exit (tn_waits P)) = List.filter is_exit (tn_waits P)) as ->.
  { generalize (tn_waits P). intros l. induction l as [|o l IH]; [done|]. simpl. destruct (is_exit o) eqn:Eo; [|done]. simpl. by rewrite Eo, IH. }
  rewrite <- (assoc_L (++)). f_equiv. apply Permutation_app_comm.
Qed.

Section orphan.
Context (tv : Tree) (th : gmap Z Thread) (init : option Z) (np : Z) (rp : Reaping) (pid : Z) (P : TNode).
Context (Hok : tree_ok tv th init np rp) (HP : tv !! pid = Some P) (Hrun : tn_threads P <> ∅) (Hpid : pid <> 1) (Hno : forall o, (pid, o) ∉ rp).

Let kids := tn_children P.

Lemma orphan_kids c C : tv !! c = Some C -> c ∈ kids <-> tn_parent C = Some pid.
Proof.
  intros HC. split.
  - intros Hc. destruct (to_child _ _ _ _ _ Hok pid P c HP Hc) as (C' & HC' & E). by simplify_eq.
  - intros E. pose proof (to_parent _ _ _ _ _ Hok c C HC) as H. rewrite E in H. destruct H as (_ & Q & HQ & Hc). by simplify_eq.
Qed.

Lemma orphan_small c : c ∈ kids -> c <> 1 /\ c <> pid /\ 1 < c.
Proof.
  intros Hc. destruct (to_child _ _ _ _ _ Hok pid P c HP Hc) as (C & HC & E). pose proof (to_parent _ _ _ _ _ Hok c C HC) as H. rewrite E in H.
  destruct H as [Hlt _]. pose proof (to_ids _ _ _ _ _ Hok pid P HP). lia.
Qed.

Lemma orphan_init : exists I, tv !! 1 = Some I /\ tn_parent I = None /\ tn_threads I <> ∅ /\ 1 ∉ kids.
Proof.
  destruct (to_init _ _ _ _ _ Hok) as (_ & I & HI & HIp & HIt). exists I. split_and!; try done. intros Hc. by apply orphan_small in Hc as [? _].
Qed.

(** What is owed afterwards. *)
Lemma orphan_owed x X :
  tv !! x = Some X ->
  owed (tn_waits (orphan pid P x X)) rp x ≡ₚ
  if decide (x = 1) then owed (tn_waits X) rp 1 ++ owed (tn_waits P) rp pid else if decide (x = pid) then [] else owed (tn_waits X) rp x.
Proof.
  intros HX. unfold orphan. simpl. destruct (owed_exits (tn_waits X) P rp pid Hno) as (_ & E0 & E). destruct (decide (x = 1)) as [->|]; [apply E|].
  destruct (decide (x = pid)) as [->|]; [by rewrite E0|done].
Qed.

Lemma tree_orphan : tree_ok (tree_map (orphan pid P) tv) th init np rp.
Proof.
  pose proof Hok as [H1 H2 H3 H4 H5 H6 H7 H8 H9 H10 H11]. destruct orphan_init as (I & HI & HIp & HIt & H1k).
  pose proof (H10 pid P HP) as Hpos.
  constructor.
  - destruct H1 as [-> _]. split; [done|]. exists (orphan pid P 1 I). rewrite tree_map_lookup, HI. split; [done|]. simpl. by rewrite decide_False.
  - intros c C' (C & HC & ->)%tree_map_Some. simpl. fold kids. destruct (decide (c ∈ kids)) as [Hc|Hc].
    + split; [by apply orphan_small|]. exists (orphan pid P 1 I). rewrite tree_map_lookup, HI. split; [done|]. simpl. fold kids. set_solver.
    + pose proof (H2 c C HC) as H. destruct (tn_parent C) as [q|] eqn:Ep; [|done]. destruct H as (Hlt & Q & HQ & Hq). split; [done|].
      exists (orphan pid P q Q). rewrite tree_map_lookup, HQ. split; [done|]. simpl. destruct (decide (q = 1)) as [->|]; [set_solver|].
      destruct (decide (q = pid)) as [->|]; [|done]. simplify_eq.
  - intros q Q' c (Q & HQ & ->)%tree_map_Some Hc. simpl in Hc. fold kids in Hc. destruct (decide (q = 1)) as [->|Hq1].
    + simplify_eq. apply elem_of_union in Hc as [Hc|Hc].
      * destruct (H3 pid P c HP Hc) as (C & HC & E). exists (orphan pid P c C). rewrite tree_map_lookup, HC. split; [done|]. simpl. by rewrite decide_True.
      * destruct (H3 1 I c HI Hc) as (C & HC & E). exists (orphan pid P c C). rewrite tree_map_lookup, HC. split; [done|]. simpl. by destruct (decide _).
    + destruct (decide (q = pid)) as [->|Hq]; [set_solver|]. destruct (H3 q Q c HQ Hc) as (C & HC & E).
      exists (orphan pid P c C). rewrite tree_map_lookup, HC. split; [done|]. simpl. rewrite decide_False; [done|]. intros Hk. apply (orphan_kids c C HC) in Hk. congruence.
  - intros q Q' (Q & HQ & ->)%tree_map_Some. eauto.
  - intros q Q' t (Q & HQ & ->)%tree_map_Some Ht. simpl in Ht. destruct (H5 q Q t HQ Ht) as [Hlt Hu]. split; [done|].
    intros [X' (X & HX & _)%tree_map_Some]. eauto.
  - intros q Q' c (Q & HQ & ->)%tree_map_Some Hc. rewrite (orphan_owed q Q HQ) in Hc. destruct (decide (q = 1)) as [->|Hq1].
    + simplify_eq. apply elem_of_app in Hc as [Hc|Hc].
      * destruct (H6 1 I c HI Hc) as (C & HC & E1 & E2). exists (orphan pid P c C). rewrite tree_map_lookup, HC. split; [done|]. simpl. split; [by destruct (decide _)|done].
      * destruct (H6 pid P c HP Hc) as (C & HC & E1 & E2). exists (orphan pid P c C). rewrite tree_map_lookup, HC. split; [done|]. simpl. split; [|done].
        rewrite decide_True; [done|]. by apply (orphan_kids c C HC).
    + destruct (decide (q = pid)) as [->|Hq]; [by apply elem_of_nil in Hc|]. destruct (H6 q Q c HQ Hc) as (C & HC & E1 & E2).
      exists (orphan pid P c C). rewrite tree_map_lookup, HC. split; [done|]. simpl. split; [|done]. rewrite decide_False; [done|].
      intros Hk. apply (orphan_kids c C HC) in Hk. congruence.
  - intros q Q' (Q & HQ & ->)%tree_map_Some. rewrite (orphan_owed q Q HQ). destruct (decide (q = 1)) as [->|Hq1].
    + simplify_eq. apply NoDup_app. split; [by apply (H7 1 I)|]. split; [|by apply (H7 pid P)]. intros c Hc Hc'.
      destruct (H6 1 I c HI Hc) as (C & HC & E1 & _). destruct (H6 pid P c HP Hc') as (C' & HC' & E1' & _). simplify_eq.
    + destruct (decide (q = pid)) as [->|Hq]; [constructor|by apply (H7 q Q)].
  - intros c C' (C & HC & ->)%tree_map_Some Ht. simpl in Ht. destruct (H8 c C HC Ht) as (Hk & q & Q & Hq & HQ & Ho).
    assert (c <> 1) as Hc1 by (intros ->; simplify_eq). assert (c <> pid) as Hcp by (intros ->; simplify_eq). split.
    + simpl. by rewrite !decide_False.
    + destruct (decide (q = pid)) as [->|Hqp].
      * exists 1, (orphan pid P 1 I). simpl. rewrite decide_True by (by apply (orphan_kids c C HC)). rewrite tree_map_lookup, HI. split_and!; try done.
        pose proof (orphan_owed 1 I HI) as Hoo. rewrite decide_True in Hoo by done. simpl in Hoo. rewrite Hoo. simplify_eq. set_solver.
      * exists q, (orphan pid P q Q). simpl. rewrite decide_False by (intros Hkk; apply (orphan_kids c C HC) in Hkk; congruence).
        rewrite tree_map_lookup, HQ. split_and!; try done. pose proof (orphan_owed q Q HQ) as Hoo. simpl in Hoo. rewrite Hoo.
        destruct (decide (q = 1)) as [->|]; [set_solver|]. by rewrite decide_False.
  - intros q o Hq. destruct (H9 q o Hq) as (Q & HQ & Ht). exists (orphan pid P q Q). rewrite tree_map_lookup, HQ. done.
  - intros q Q' (Q & HQ & ->)%tree_map_Some. eauto.
  - done.
Qed.
End orphan.

(** The last thread is gone and the parent is told. *)
Definition zombify (pid p : Z) (o : WaitObject) (x : Z) (X : TNode) : TNode :=
  mkTNode (tn_parent X) (tn_children X) (if decide (x = pid) then ∅ else tn_threads X) (if decide (x = p) then tn_waits X ++ [o] else tn_waits X).

Lemma tree_zombify tv th init np rp pid P p o :
  tree_ok tv th init np rp -> tv !! pid = Some P -> tn_threads P <> ∅ -> tn_children P = ∅ -> tn_parent P = Some p -> (forall o', (pid, o') ∉ rp) ->
  is_exit o = true -> wob_pid o = pid -> tree_ok (tree_map (zombify pid p o) tv) th init np rp.
Proof.
  intros Hok HP Hrun Hkids Hpar Hno Ho Eo. pose proof Hok as [H1 H2 H3 H4 H5 H6 H7 H8 H9 H10 H11].
  pose proof (H2 pid P HP) as Hp. rewrite Hpar in Hp. destruct Hp as (Hlt & Q0 & HQ0 & Hc0).
  assert (forall x X, tv !! x = Some X -> owed (tn_waits (zombify pid p o x X)) rp x ≡ₚ (if decide (x = p) then [pid] else []) ++ owed (tn_waits X) rp x) as How.
  { intros x X HX. simpl. destruct (decide (x = p)); [|done]. by rewrite owed_app, Ho, Eo. }
  constructor.
  - destruct H1 as (-> & I & HI & HIp & HIt). split; [done|]. exists (zombify pid p o 1 I). rewrite tree_map_lookup, HI. split_and!; try done.
    simpl. rewrite decide_False; [done|]. intros <-. simplify_eq.
  - intros c C' (C & HC & ->)%tree_map_Some. simpl. pose proof (H2 c C HC) as H. destruct (tn_parent C) as [q|]; [|done].
    destruct H as (Hq & Q & HQ & Hc). split; [done|]. exists (zombify pid p o q Q). by rewrite tree_map_lookup, HQ.
  - intros q Q' c (Q & HQ & ->)%tree_map_Some Hc. destruct (H3 q Q c HQ Hc) as (C & HC & E). exists (zombify pid p o c C). by rewrite tree_map_lookup, HC.
  - intros q Q' (Q & HQ & ->)%tree_map_Some. eauto.
  - intros q Q' t (Q & HQ & ->)%tree_map_Some Ht. simpl in Ht. destruct (decide (q = pid)); [set_solver|]. destruct (H5 q Q t HQ Ht) as [? Hu].
    split; [done|]. intros [X' (X & HX & _)%tree_map_Some]. eauto.
  - intros q Q' c (Q & HQ & ->)%tree_map_Some Hc. rewrite (How q Q HQ) in Hc. apply elem_of_app in Hc as [Hc|Hc].
    + destruct (decide (q = p)) as [->|]; [|by apply elem_of_nil in Hc]. apply list_elem_of_singleton in Hc as ->.
      exists (zombify pid p o pid P). rewrite tree_map_lookup, HP. split_and!; try done. simpl. by rewrite decide_True.
    + destruct (H6 q Q c HQ Hc) as (C & HC & E1 & E2). exists (zombify pid p o c C). rewrite tree_map_lookup, HC. split_and!; try done. simpl. by destruct (decide _).
  - intros q Q' (Q & HQ & ->)%tree_map_Some. rewrite (How q Q HQ). destruct (decide (q = p)) as [->|]; [|by apply (H7 q Q)].
    simpl. constructor; [|by apply (H7 p Q)]. intros Hin. destruct (H6 p Q pid HQ Hin) as (C & HC & _ & E). simplify_eq.
  - intros c C' (C & HC & ->)%tree_map_Some Ht. simpl in Ht. destruct (decide (c = pid)) as [->|Hc].
    + rewrite HP in HC. injection HC as <-. simpl. split; [done|]. exists p, (zombify pid p o p Q0). split; [done|]. rewrite tree_map_lookup, HQ0. split; [done|].
      rewrite (How p Q0 HQ0), decide_True by done. set_solver.
    + destruct (H8 c C HC Ht) as (Hk & q & Q & Hq & HQ & Hin). simpl. split; [done|]. exists q, (zombify pid p o q Q). split; [done|].
      rewrite tree_map_lookup, HQ. split; [done|]. rewrite (How q Q HQ). set_solver.
  - intros q o' Hq. destruct (H9 q o' Hq) as (Q & HQ & Ht). exists (zombify pid p o q Q). rewrite tree_map_lookup, HQ. split; [done|]. simpl.
    rewrite decide_False; [done|]. intros ->. by destruct (Hno o').
  - intros q Q' (Q & HQ & ->)%tree_map_Some. eauto.
  - done.
Qed.

(** Some threads, but not the last one, leave a process. *)
Lemma tree_drop_threads tv th init np rp pid P ts :
  tree_ok tv th init np rp -> tv !! pid = Some P -> tn_threads P ∖ ts <> ∅ ->
  tree_ok (<[pid := mkTNode (tn_parent P) (tn_children P) (tn_threads P ∖ ts) (tn_waits P)]> tv) th init np rp.
Proof.
  intros [H1 H2 H3 H4 H5 H6 H7 H8 H9 H10 H11] HP Hne. set (P' := mkTNode _ _ _ _).
  assert (tn_threads P <> ∅) as HneP by set_solver.
  assert (forall x X', <[pid := P']> tv !! x = Some X' -> exists X, tv !! x = Some X /\ tn_parent X' = tn_parent X /\ tn_children X' = tn_children X /\
    tn_waits X' = tn_waits X /\ tn_threads X' ⊆ tn_threads X /\ (tn_threads X' = ∅ <-> tn_threads X = ∅)) as Hbw.
  { intros x X' [[<- <-]|[_ HX']]%lookup_insert_Some; [exists P|exists X']; split_and!; try done. simpl. set_solver. }
  assert (forall x X, tv !! x = Some X -> exists X', <[pid := P']> tv !! x = Some X' /\ tn_parent X' = tn_parent X /\ tn_children X' = tn_children X /\
    tn_waits X' = tn_waits X /\ (tn_threads X' = ∅ <-> tn_threads X = ∅)) as Hfw.
  { intros x X HX. assert (is_Some (<[pid := P']> tv !! x)) as [X' HX'] by (apply lookup_insert_is_Some; destruct (decide (pid = x)); eauto).
    destruct (Hbw x X' HX') as (X0 & HX0 & ? & ? & ? & ? & ?). exists X'. by simplify_eq. }
  constructor.
  - destruct H1 as (-> & I & HI & Hp & Ht). split; [done|]. destruct (Hfw 1 I HI) as (I' & HI' & E1 & _ & _ & E3). exists I'. rewrite E1, E3. done.
  - intros c C' HC'. destruct (Hbw c C' HC') as (C & HC & -> & _). pose proof (H2 c C HC) as H. destruct (tn_parent C) as [q|]; [|done].
    destruct H as (Hlt & Q & HQ & Hc). split; [done|]. destruct (Hfw q Q HQ) as (Q' & HQ' & _ & E & _). exists Q'. by rewrite E.
  - intros q Q' c HQ' Hc. destruct (Hbw q Q' HQ') as (Q & HQ & _ & E & _). rewrite E in Hc. destruct (H3 q Q c HQ Hc) as (C & HC & Hq).
    destruct (Hfw c C HC) as (C' & HC' & E1 & _). exists C'. by rewrite E1.
  - intros q Q' HQ'. destruct (Hbw q Q' HQ') as (Q & HQ & _). eauto.
  - intros q Q' t HQ' Ht. destruct (Hbw q Q' HQ') as (Q & HQ & _ & _ & _ & E & _). destruct (H5 q Q t HQ (E t Ht)) as [Hlt Hu]. split; [done|].
    intros [X' HX']. apply Hu. destruct (Hbw t X' HX') as (X & HX & _). eauto.
  - intros q Q' c HQ' Hc. destruct (Hbw q Q' HQ') as (Q & HQ & _ & _ & E & _). rewrite E in Hc. destruct (H6 q Q c HQ Hc) as (C & HC & E1 & E2).
    destruct (Hfw c C HC) as (C' & HC' & F1 & _ & _ & F3). exists C'. rewrite F1, F3. done.
  - intros q Q' HQ'. destruct (Hbw q Q' HQ') as (Q & HQ & _ & _ & E & _). rewrite E. eauto.
  - intros c C' HC' Ht. destruct (Hbw c C' HC') as (C & HC & E1 & E2 & E3 & _ & E4). destruct (H8 c C HC) as (Hk & q & Q & Hq & HQ & Ho); [by apply E4|].
    rewrite E1, E2. split; [done|]. destruct (Hfw q Q HQ) as (Q' & HQ' & _ & _ & E & _). exists q, Q'. by rewrite E.
  - intros q o' Hq. destruct (H9 q o' Hq) as (Q & HQ & Ht). destruct (Hfw q Q HQ) as (Q' & HQ' & _ & _ & _ & E). exists Q'. rewrite E. done.
  - intros q Q' HQ'. destruct (Hbw q Q' HQ') as (Q & HQ & _). eauto.
  - done.
Qed.

(** Threads leave the list; the leaders of the processes stay. *)
Lemma tree_threads tv th th' init np rp :
  tree_ok tv th init np rp -> (forall t r, th' !! t = Some r -> t < np /\ tid_ptr_ok (t_clear_child_tid r)) -> (forall p P, tv !! p = Some P -> is_Some (th' !! p)) ->
  tree_ok tv th' init np rp.
Proof. intros [H1 H2 H3 H4 H5 H6 H7 H8 H9 H10 H11] Ht Hl. constructor; auto. Qed.

(** ** Reaping *)

Lemma owed_reaped q r1 r2 p o x :
  is_exit o = true -> owed q (r1 ++ (p, o) :: r2) x ≡ₚ (if decide (x = p) then [wob_pid o] else []) ++ owed q (r1 ++ r2) x.
Proof.
  intros Ho. unfold owed. rewrite !(list_filter_app_b _ r1). simpl. destruct (Z.eqb_spec p x) as [->|Hne].
  - rewrite decide_True by done. rewrite !fmap_app, !list_filter_app_b. simpl. rewrite Ho, !fmap_app. simpl. rewrite !(assoc_L (++)).
    symmetry. apply Permutation_middle.
  - by rewrite decide_False by congruence.
Qed.

Lemma tree_reap tv th init np r1 r2 self o S0 :
  tree_ok tv th init np (r1 ++ (self, o) :: r2) -> tv !! self = Some S0 -> is_exit o = true ->
  wob_pid o ∈ tn_children S0 /\
  (exists C, tv !! wob_pid o = Some C /\ tn_parent C = Some self) /\ wob_pid o <> self /\
  tree_ok (<[self := mkTNode (tn_parent S0) (tn_children S0 ∖ {[wob_pid o]}) (tn_threads S0) (tn_waits S0)]> (delete (wob_pid o) tv))
    (delete (wob_pid o) th) init np (r1 ++ r2).
Proof.
  intros [H1 H2 H3 H4 H5 H6 H7 H8 H9 H10 H11] HS Ho. set (c := wob_pid o). set (rp := r1 ++ (self, o) :: r2) in *.
  assert (c ∈ owed (tn_waits S0) rp self) as Hc by (apply owed_elem; exists o; split_and!; try done; right; unfold rp; set_solver).
  destruct (H6 self S0 c HS Hc) as (C & HC & HCp & HCt). destruct (H8 c C HC HCt) as (HCk & _).
  destruct (H9 self o) as (S1 & HS1 & Hrun); [unfold rp; set_solver|]. assert (S1 = S0) as -> by congruence.
  assert (c <> self) as Hne by (intros E; rewrite E in HC; congruence).
  pose proof (H2 c C HC) as Hpar. rewrite HCp in Hpar. destruct Hpar as (Hlt & S1 & HS1' & Hcin). assert (S1 = S0) as -> by congruence.
  assert (NoDup (c :: owed (tn_waits S0) (r1 ++ r2) self)) as Hnd.
  { pose proof (H7 self S0 HS) as Hnd. unfold rp in Hnd. rewrite (owed_reaped _ r1 r2 self o self Ho), decide_True in Hnd by done. exact Hnd. }
  apply NoDup_cons in Hnd as [Hcn Hnd].
  assert (forall x q, x <> self -> owed q rp x ≡ₚ owed q (r1 ++ r2) x) as Hoth by (intros x q Hx; unfold rp; by rewrite (owed_reaped _ r1 r2 self o x Ho), decide_False).
  assert (forall q y, y ∈ owed q rp self <-> y = c \/ y ∈ owed q (r1 ++ r2) self) as Hself.
  { intros q y. unfold rp. rewrite (owed_reaped _ r1 r2 self o self Ho), decide_True by done. set_solver. }
  split; [done|]. split; [eauto|]. split; [done|]. set (S' := mkTNode _ _ _ _). set (tv' := <[self := S']> _).
  assert (forall x X', tv' !! x = Some X' -> x <> c /\ exists X, tv !! x = Some X /\ tn_parent X' = tn_parent X /\ tn_threads X' = tn_threads X /\
    tn_waits X' = tn_waits X /\ (forall y, y ∈ tn_children X' <-> y ∈ tn_children X /\ (x = self -> y <> c))) as Hbw.
  { intros x X' [[<- <-]|[Hx [Hxc HX']%lookup_delete_Some]]%lookup_insert_Some.
    - split; [done|]. exists S0. split_and!; try done. simpl. set_solver.
    - split; [done|]. exists X'. split_and!; try done. naive_solver. }
  assert (forall x X, tv !! x = Some X -> x <> c -> exists X', tv' !! x = Some X' /\ tn_parent X' = tn_parent X /\ tn_threads X' = tn_threads X /\
    tn_waits X' = tn_waits X /\ (forall y, y ∈ tn_children X' <-> y ∈ tn_children X /\ (x = self -> y <> c))) as Hfw.
  { intros x X HX Hx. assert (is_Some (tv' !! x)) as [X' HX'].
    { unfold tv'. destruct (decide (x = self)) as [->|]; [rewrite lookup_insert_eq|rewrite lookup_insert_ne, lookup_delete_ne by done]; eauto. }
    destruct (Hbw x X' HX') as (_ & X0 & HX0 & Hrest). exists X'. by simplify_eq. }
  assert (forall x X y, tv !! x = Some X -> y ∈ owed (tn_waits X) (r1 ++ r2) x -> y ∈ owed (tn_waits X) rp x /\ y <> c) as Howd.
  { intros x X y HX Hy. destruct (decide (x = self)) as [->|Hx].
    - assert (X = S0) as -> by congruence. split; [apply Hself; auto|]. intros ->. done.
    - rewrite <- (Hoth x _ Hx) in Hy. split; [done|]. intros ->. destruct (H6 x X c HX Hy) as (C' & HC' & E & _). congruence. }
  constructor.
  - destruct H1 as (-> & I & HI & Hp & Ht). split; [done|]. destruct (Hfw 1 I HI) as (I' & HI' & E1 & E2 & _); [intros E; rewrite E in HI; congruence|].
    exists I'. by rewrite E1, E2.
  - intros x X' HX'. destruct (Hbw x X' HX') as (Hx & X & HX & -> & _). pose proof (H2 x X HX) as H. destruct (tn_parent X) as [q|]; [|done].
    destruct H as (Hq & Q & HQ & Hin). split; [done|]. destruct (Hfw q Q HQ) as (Q' & HQ' & _ & _ & _ & E).
    { intros ->. assert (Q = C) as -> by congruence. set_solver. }
    exists Q'. split; [done|]. apply E. done.
  - intros q Q' x HQ' Hx. destruct (Hbw q Q' HQ') as (Hq & Q & HQ & _ & _ & _ & E). destruct (proj1 (E x) Hx) as [Hxk Hxs].
    destruct (H3 q Q x HQ Hxk) as (X & HX & HXp). destruct (Hfw x X HX) as (X' & HX' & E1 & _).
    { intros ->. assert (X = C) as -> by congruence. assert (q = self) as -> by congruence. by apply Hxs. }
    exists X'. by rewrite E1.
  - intros q Q' HQ'. destruct (Hbw q Q' HQ') as (Hq & Q & HQ & _). rewrite lookup_delete_ne by done. eauto.
  - intros q Q' t HQ' Ht. destruct (Hbw q Q' HQ') as (Hq & Q & HQ & _ & E & _). rewrite E in Ht. destruct (H5 q Q t HQ Ht) as [Htl Hu]. split; [done|].
    intros [X' HX']. destruct (Hbw t X' HX') as (_ & X & HX & _). eauto.
  - intros q Q' x HQ' Hx. destruct (Hbw q Q' HQ') as (Hq & Q & HQ & _ & _ & E & _). rewrite E in Hx. destruct (Howd q Q x HQ Hx) as [Hx' Hxc].
    destruct (H6 q Q x HQ Hx') as (X & HX & E1 & E2). destruct (Hfw x X HX Hxc) as (X' & HX' & F1 & F2 & _). exists X'. by rewrite F1, F2.
  - intros q Q' HQ'. destruct (Hbw q Q' HQ') as (Hq & Q & HQ & _ & _ & E & _). rewrite E. destruct (decide (q = self)) as [->|Hqs].
    + assert (Q = S0) as -> by congruence. done.
    + rewrite <- (Hoth q _ Hqs). eauto.
  - intros x X' HX' Ht. destruct (Hbw x X' HX') as (Hx & X & HX & E1 & E2 & _ & E4). rewrite E2 in Ht. destruct (H8 x X HX Ht) as (Hk & q & Q & Hq & HQ & Hin). split.
    + apply set_eq_subseteq. split; [|set_solver]. intros y Hy. apply E4 in Hy as [Hy _]. set_solver.
    + pose proof (H2 x X HX) as Hp. rewrite Hq in Hp. destruct Hp as (_ & Q0 & HQ0 & Hxin). assert (Q0 = Q) as -> by congruence.
      destruct (Hfw q Q HQ) as (Q' & HQ' & _ & _ & E & _); [intros ->; assert (Q = C) as -> by congruence; set_solver|].
      exists q, Q'. rewrite E1, E. split_and!; try done. destruct (decide (q = self)) as [->|Hqs].
      * assert (Q = S0) as -> by congruence. apply Hself in Hin as [->|Hin]; done.
      * by rewrite <- (Hoth q _ Hqs).
  - intros q o' Hq. destruct (H9 q o') as (Q & HQ & Ht); [unfold rp; set_solver|].
    destruct (Hfw q Q HQ) as (Q' & HQ' & _ & E & _); [intros ->; congruence|]. exists Q'. by rewrite E.
  - intros q Q' HQ'. destruct (Hbw q Q' HQ') as (_ & Q & HQ & _). eauto.
  - intros t r [_ Ht]%lookup_delete_Some. eauto.
Qed.
