(* ===== verification/ProcessSys.v ===== *)
(** * Process operations, together

    The operations of Process.v keep both invariants, so that sequences of them
    are safe; and what goes wrong outside the conditions of that theorem. *)

From stdpp Require Import sorting.
From S2P Require Import Prelude Io UserMem Signal Process ProcessJobs ProcessTree.

Definition proc_inv (w : ProcWorld) (rp : Reaping) : Prop := jobs_inv w /\ tree_inv w rp.

Lemma insert_shadow {A} (m : gmap Z A) a b x y z : a <> b -> <[a := x]> (<[b := y]> (<[a := z]> m)) = <[a := x]> (<[b := y]> m).
Proof. intros Hne. by rewrite (insert_insert_ne _ b a), insert_insert_eq by done. Qed.

Lemma tree_lookup w pid p : w_processes w !! pid = Some p -> tree_of w !! pid = Some (node_of p).
Proof. intros Hp. unfold tree_of. by rewrite lookup_fmap, Hp. Qed.

Lemma tree_lookup_inv w pid X : tree_of w !! pid = Some X -> exists p, w_processes w !! pid = Some p /\ X = node_of p.
Proof. unfold tree_of. rewrite lookup_fmap_Some. naive_solver. Qed.

(** ** [do_clone] *)

Lemma clone_thread_ok w rp pid p ctid sig :
  proc_inv w rp -> w_processes w !! pid = Some p -> p_threads p <> ∅ -> tid_ptr_ok ctid -> w_next_pid w + 1 < 2 ^ 32 ->
  exists w', do_clone w pid true ctid sig = Ret (w_next_pid w, w') /\ proc_inv w' rp.
Proof.
  intros [Hj Ht] Hp Hrun Hc Hn. unfold do_clone, get_process. rewrite Hp. cbn [mbind outcome_bind expect]. unfold alloc_pid.
  assert (1 <= w_next_pid w) as Hpos by (pose proof (to_ids _ _ _ _ _ Ht pid _ (tree_lookup w pid p Hp)); lia).
  rewrite (wrap32_small (w_next_pid w + 1)) by (unfold is_u32; lia). set (np := w_next_pid w).
  unfold thread_build, process_add_thread, get_process. simpl. rewrite Hp. cbn [mbind outcome_bind expect].
  assert (np ∉ p_threads p) as Hnin by (intros Hin; destruct (to_thread _ _ _ _ _ Ht pid _ np (tree_lookup w pid p Hp) Hin); unfold np in *; lia).
  rewrite bool_decide_eq_true_2 by done. cbn [assert_ mbind outcome_bind]. eexists. split; [reflexivity|]. split.
  - eapply jobs_ok_eq; [apply (jobs_next_pid _ _ _ _ _ _ _ np (np + 1)); [lia|exact Hj]|..]; try done.
    unfold refs_of. simpl. rewrite fmap_insert. apply insert_id. by rewrite lookup_fmap, Hp.
  - pose proof (tree_new_thread _ _ _ _ _ pid (node_of p) (mkThread pid ctid false) Ht (tree_lookup w pid p Hp) Hrun Hc) as H.
    unfold tree_inv, tree_of. simpl. rewrite fmap_insert. exact H.
Qed.

Lemma clone_process_ok w rp pid p ctid sig :
  proc_inv w rp -> w_processes w !! pid = Some p -> p_threads p <> ∅ -> tid_ptr_ok ctid -> w_next_pid w + 1 < 2 ^ 32 ->
  exists w', do_clone w pid false ctid sig = Ret (w_next_pid w, w') /\ proc_inv w' rp.
Proof.
  intros [Hj Ht] Hp Hrun Hc Hn. pose proof (to_ids _ _ _ _ _ Ht pid _ (tree_lookup w pid p Hp)) as Hpos.
  destruct (jobs_process w pid p Hj Hp) as (g & G & S & Eg & Es & HG & HS & Hin & _).
  destruct (jobs_clone w pid p g G Hj Hp Eg HG Es) as [Hj' Hnin]. set (np := w_next_pid w) in *.
  unfold do_clone, get_process. rewrite Hp. cbn [mbind outcome_bind expect]. unfold alloc_pid.
  rewrite (wrap32_small (w_next_pid w + 1)) by (unfold is_u32; lia). fold np. rewrite Eg, Es. cbn [mbind outcome_bind expect].
  unfold process_build, thread_build, process_add_thread, get_process. simpl. rewrite lookup_insert_eq. cbn [mbind outcome_bind expect].
  rewrite bool_decide_eq_true_2 by set_solver. cbn [assert_ mbind outcome_bind].
  unfold pgroup_add_member. simpl. rewrite HG. cbn [mbind outcome_bind expect]. rewrite bool_decide_eq_true_2 by done. cbn [assert_ mbind outcome_bind].
  unfold add_child, get_process. simpl. rewrite !lookup_insert_ne, Hp by lia. cbn [mbind outcome_bind expect].
  assert (np ∉ p_children p) as Hk.
  { intros Hk. destruct (to_child _ _ _ _ _ Ht pid _ np (tree_lookup w pid p Hp) Hk) as (C & HC & _). pose proof (to_ids _ _ _ _ _ Ht np C HC). unfold np in *. lia. }
  rewrite bool_decide_eq_true_2 by done. cbn [assert_ mbind outcome_bind]. unfold get_process. simpl. rewrite lookup_insert_ne, lookup_insert_eq by lia.
  cbn [mbind outcome_bind expect]. eexists. split; [reflexivity|]. split.
  - eapply jobs_ok_eq; [exact Hj'|..]; try done. unfold refs_of. simpl. rewrite insert_insert_eq, insert_shadow, !fmap_insert by lia. simpl.
    f_equal. apply insert_id. by rewrite lookup_fmap, Hp.
  - pose proof (tree_fork _ _ _ _ _ pid (node_of p) (mkThread np ctid false) Ht (tree_lookup w pid p Hp) Hrun Hc) as H.
    unfold tree_inv, tree_of. simpl. rewrite insert_insert_eq, insert_shadow, !fmap_insert by lia.
    unfold node_of at 1 2. simpl. rewrite (union_empty_r_L {[np]}). exact H.
Qed.

(** ** [do_exit] *)

(** All but the list of threads and the calls made is the same. *)
Definition quiet (w w' : ProcWorld) : Prop :=
  w_init w' = w_init w /\ w_processes w' = w_processes w /\ w_pgroups w' = w_pgroups w /\ w_sessions w' = w_sessions w /\
  w_group_store w' = w_group_store w /\ w_session_store w' = w_session_store w /\ w_next_object w' = w_next_object w /\
  w_next_pid w' = w_next_pid w /\ w_rcu w' = w_rcu w.

Lemma quiet_jobs w w' : quiet w w' -> jobs_inv w -> jobs_inv w'.
Proof.
  intros (E1 & E2 & E3 & E4 & E5 & E6 & E7 & E8 & E9) Hj. unfold jobs_inv, refs_of. by rewrite E2, E3, E4, E5, E6, E7, E8, E9.
Qed.

(** The threads in [th'] are threads of [th] up to the mark of the dead. *)
Definition threads_le (th th' : gmap Z Thread) : Prop :=
  (forall t r', th' !! t = Some r' -> exists r, th !! t = Some r /\ t_clear_child_tid r' = t_clear_child_tid r) /\
  (forall t, is_Some (th !! t) -> is_Some (th' !! t)).

Lemma exit_threads_ok tids w :
  (forall t r, w_threads w !! t = Some r -> tid_ptr_ok (t_clear_child_tid r)) ->
  exists w', exit_threads w tids = Ret w' /\ quiet w w' /\ threads_le (w_threads w) (w_threads w').
Proof.
  revert w. induction tids as [|t tids IH]; intros w Hok; simpl.
  { exists w. split; [done|]. split; [done|]. split; eauto. }
  destruct (w_threads w !! t) as [r|] eqn:Et; [|by apply IH].
  set (w1 := set_threads w _).
  assert (threads_le (w_threads w) (w_threads w1)) as [L1 L2].
  { split; simpl.
    - intros x r' [[<- <-]|[_ Hx]]%lookup_insert_Some; eauto.
    - intros x Hx. apply lookup_insert_is_Some. destruct (decide (t = x)); auto. }
  assert (forall t r, w_threads w1 !! t = Some r -> tid_ptr_ok (t_clear_child_tid r)) as Hok1.
  { intros x y Hx. destruct (L1 x y Hx) as (y0 & Hy0 & ->). eauto. }
  assert (exists w2, match t_clear_child_tid r with
    | Some addr => match checked_new addr 4 with Ret _ => Ret (call w1 (CClearTid t addr)) | _ => Panic end
    | None => Ret w1 end = Ret w2 /\ quiet w w2 /\ w_threads w2 = w_threads w1) as (w2 & -> & Hq & Eth).
  { destruct (t_clear_child_tid r) as [a|] eqn:Ea; [|by exists w1]. destruct (Hok t r Et a Ea) as [ptr ->]. eexists. split; [reflexivity|]. done. }
  cbn [mbind outcome_bind]. destruct (IH (call w2 (CRobustList t))) as (w' & -> & Hq' & [L3 L4]).
  { simpl. by rewrite Eth. }
  exists w'. split; [done|]. simpl in *. rewrite Eth in *. split.
  - destruct Hq as (? & ? & ? & ? & ? & ? & ? & ? & ?), Hq' as (? & ? & ? & ? & ? & ? & ? & ? & ?). simpl in *. unfold quiet. split_and!; congruence.
  - split.
    + intros x y Hx. destruct (L3 x y Hx) as (y1 & Hy1 & E1). destruct (L1 x y1 Hy1) as (y0 & Hy0 & E0). exists y0. split; [done|congruence].
    + auto.
Qed.

(** The processes after [reparent]. *)
Definition adopted (kids : list Z) (x : Z) (p : Process) : Process :=
  if decide (x = 1) then set_children p (list_to_set kids ∪ p_children p)
  else if decide (x ∈ kids) then set_p_parent p (Some 1) else p.

Lemma reparent_eq kids w I :
  w_processes w !! 1 = Some I -> NoDup kids -> 1 ∉ kids -> (forall c, c ∈ kids -> is_Some (w_processes w !! c) /\ c ∉ p_children I) ->
  exists m, reparent w 1 kids = Ret (set_processes w m) /\ forall x, m !! x = adopted kids x <$> w_processes w !! x.
Proof.
  revert w I. induction kids as [|c kids IH]; intros w I HI Hnd H1 Hk; simpl.
  { exists (w_processes w). split; [by destruct w|]. intros x. destruct (w_processes w !! x) as [p|]; [|done]. simpl. f_equal. unfold adopted.
    destruct (decide (x = 1)); [|by rewrite decide_False by set_solver]. destruct p. unfold set_children. simpl. f_equal. set_solver. }
  apply NoDup_cons in Hnd as [Hc Hnd]. apply not_elem_of_cons in H1 as [Hc1 H1].
  destruct (Hk c) as [[pc Hpc] Hcn]; [set_solver|]. unfold get_process at 1. rewrite Hpc. cbn [mbind outcome_bind expect].
  unfold add_child, get_process. simpl. rewrite lookup_insert_ne, HI by congruence. cbn [mbind outcome_bind expect].
  rewrite bool_decide_eq_true_2 by done. cbn [assert_ mbind outcome_bind].
  set (w1 := put_process _ 1 _).
  assert (forall x, w_processes w1 !! x = if decide (x = 1) then Some (set_children I ({[c]} ∪ p_children I)) else
    if decide (x = c) then Some (set_p_parent pc (Some 1)) else w_processes w !! x) as Hw1.
  { intros x. unfold w1. simpl. destruct (decide (x = 1)) as [->|]; [by rewrite lookup_insert_eq|]. rewrite lookup_insert_ne by done.
    destruct (decide (x = c)) as [->|]; [by rewrite lookup_insert_eq|by rewrite lookup_insert_ne]. }
  destruct (IH w1 (set_children I ({[c]} ∪ p_children I))) as (m & E & Hm).
  - by rewrite Hw1, decide_True.
  - done.
  - done.
  - intros x Hx. destruct (Hk x) as [Hs Hn]; [set_solver|]. split; [|simpl; set_solver]. rewrite Hw1. destruct (decide (x = 1)); [eauto|]. destruct (decide (x = c)); eauto.
  - exists m. split; [exact E|]. intros x. rewrite Hm, Hw1. unfold adopted. destruct (decide (x = 1)) as [->|Hx1].
    + rewrite HI. simpl. f_equal. unfold set_children. simpl. f_equal. set_solver.
    + destruct (decide (x = c)) as [->|Hxc].
      * rewrite Hpc. simpl. rewrite decide_False by done. rewrite decide_True by set_solver. done.
      * destruct (w_processes w !! x) as [px|]; [|done]. simpl. f_equal. destruct (decide (x ∈ kids)); [by rewrite decide_True by set_solver|by rewrite decide_False by set_solver].
Qed.

Lemma refs_put_same w x p p0 : w_processes w !! x = Some p0 -> p_pgroup p = p_pgroup p0 -> p_session p = p_session p0 -> refs_of (put_process w x p) = refs_of w.
Proof.
  intros Hp E1 E2. rewrite refs_put, E1, E2. apply insert_id. by rewrite (refs_lookup w x p0 Hp).
Qed.

Lemma tree_of_put w x p : tree_of (put_process w x p) = <[x := node_of p]> (tree_of w).
Proof. unfold tree_of. simpl. by rewrite fmap_insert. Qed.

(** The parent finds the object in its queue. *)
Definition notified (pp : Z) (o : WaitObject) (x : Z) (X : TNode) : TNode :=
  mkTNode (tn_parent X) (tn_children X) (tn_threads X) (if decide (x = pp) then tn_waits X ++ [o] else tn_waits X).

Lemma drop_terminal_ok w s S pid :
  jobs_inv w -> w_session_store w !! s = Some S ->
  let w' := if s_sid S =? pid then
              let (tty, w) := drop_control_terminal w s in match tty with Some t => call w (CDropTtySession t) | None => w end
            else w in
  jobs_inv w' /\ w_processes w' = w_processes w /\ w_threads w' = w_threads w /\ w_init w' = w_init w /\ w_next_pid w' = w_next_pid w.
Proof.
  intros Hj HS. simpl. destruct (s_sid S =? pid); [|done]. unfold drop_control_terminal. rewrite HS.
  assert (jobs_inv (set_session_store w (<[s := mkSession (s_sid S) (s_groups S) None None]> (w_session_store w)))) as Hj'.
  { eapply jobs_ok_eq; [apply (jobs_session_field _ _ _ _ _ _ _ _ s S (mkSession (s_sid S) (s_groups S) None None) HS eq_refl eq_refl Hj)|..]; done. }
  by destruct (s_control_terminal S).
Qed.

Section exit.
Context (w : ProcWorld) (rp : Reaping) (pid tid : Z) (p : Process) (status : WaitType).
Context (Hj : jobs_inv w) (Ht : tree_inv w rp) (Hp : w_processes w !! pid = Some p) (Hrun : p_threads p <> ∅).
Context (Hpid : pid <> 1) (Hno : forall o, (pid, o) ∉ rp).

Let kids := merge_sort Z.le (elements (p_children p)).
Let o := mkWaitObject pid status.

Lemma exit_kids x : x ∈ kids <-> x ∈ p_children p.
Proof. unfold kids. by rewrite merge_sort_Permutation, elem_of_elements. Qed.

Lemma exit_kids_ok :
  exists I, w_processes w !! 1 = Some I /\ NoDup kids /\ 1 ∉ kids /\ pid ∉ kids /\
    (forall c, c ∈ kids -> is_Some (w_processes w !! c) /\ c ∉ p_children I).
Proof.
  pose proof (tree_lookup w pid p Hp) as Hn. pose proof (to_init _ _ _ _ _ Ht) as (_ & X & HX & _). destruct (tree_lookup_inv w 1 X HX) as (I & HI & ->).
  exists I. split; [done|]. split; [unfold kids; rewrite merge_sort_Permutation; apply NoDup_elements|].
  pose proof (orphan_small _ _ _ _ _ pid _ Ht Hn Hpid) as Hsm. simpl in Hsm. split; [|split].
  - rewrite exit_kids. intros Hc. by destruct (Hsm 1 Hc).
  - rewrite exit_kids. intros Hc. by destruct (Hsm pid Hc) as (_ & ? & _).
  - intros c Hc. rewrite exit_kids in Hc. destruct (to_child _ _ _ _ _ Ht pid _ c Hn Hc) as (C & HC & E). destruct (tree_lookup_inv w c C HC) as (q & Hq & ->).
    split; [eauto|]. intros Hc'. destruct (to_child _ _ _ _ _ Ht 1 _ c HX Hc') as (C' & HC' & E'). rewrite HC in HC'. injection HC' as <-. congruence.
Qed.

Lemma exit_process_ok :
  exists w' pp, exit_process w pid tid status = Ret w' /\ p_parent p = Some pp /\ jobs_inv w' /\
    w_threads w' = w_threads w /\ w_init w' = w_init w /\ w_next_pid w' = w_next_pid w /\
    tree_of w' = tree_map (notified pp o) (tree_map (orphan pid (node_of p)) (tree_of w)).
Proof.
  pose proof (tree_lookup w pid p Hp) as Hn. destruct exit_kids_ok as (I & HI & Hnd & H1 & Hpk & Hk).
  destruct (jobs_process w pid p Hj Hp) as (g & G & S & Eg & Es & HG & HS & Hin & _).
  pose proof (to_parent _ _ _ _ _ Ht pid _ Hn) as Hpar. simpl in Hpar. destruct (p_parent p) as [pp|] eqn:Epp; [|done].
  destruct Hpar as (Hlt & PP & HPP & _). destruct (tree_lookup_inv w pp PP HPP) as (qp & Hqp & ->).
  unfold exit_process. change (get_process (call w (CCloseFiles tid)) pid) with (expect (w_processes w !! pid)). rewrite Hp. cbn [mbind outcome_bind expect]. rewrite Es. cbn [mbind outcome_bind expect].
  change (w_session_store (call w (CCloseFiles tid))) with (w_session_store w). rewrite HS. cbn [mbind outcome_bind expect].
  destruct (drop_terminal_ok (call w (CCloseFiles tid)) (g_session G) S pid Hj HS) as (Hj1 & F1 & F2 & F3 & F4).
  set (w1 := if s_sid S =? pid then _ else _) in *. set (w2 := call w1 (CReleaseMm pid)).
  assert (w_init w2 = Some 1) as -> by (simpl; rewrite F3; apply (to_init _ _ _ _ _ Ht)). cbn [mbind outcome_bind expect]. fold kids.
  destruct (reparent_eq kids w2 I) as (m & -> & Hm); [simpl; by rewrite F1|done|done|simpl; by rewrite F1|]. cbn [mbind outcome_bind].
  change (w_processes w2) with (w_processes w1) in Hm. rewrite F1 in Hm. change (w_processes (call w (CCloseFiles tid))) with (w_processes w) in Hm.
  assert (m !! pid = Some p) as Hmp by (rewrite Hm, Hp; unfold adopted; simpl; by rewrite !decide_False).
  change (get_process (set_processes w2 m) pid) with (expect (m !! pid)). rewrite Hmp. cbn [mbind outcome_bind expect].
  set (items := List.filter is_exit (p_waits p)). set (w3 := put_process (set_processes w2 m) pid _).
  assert (get_process w3 1 = Ret (adopted kids 1 I)) as Hg1 by (unfold get_process, w3; simpl; by rewrite lookup_insert_ne, Hm, HI).
  unfold notify_batch, push_waits. rewrite Hg1. cbn [mbind outcome_bind].
  set (w4 := put_process w3 1 _). set (w5 := match items with [] => w4 | _ :: _ => _ end).
  assert (quiet w4 w5 /\ w_threads w5 = w_threads w4) as [(Q1 & Q2 & Q3 & Q4 & Q5 & Q6 & Q7 & Q8 & Q9) Q10] by (unfold w5; by destruct items).
  rewrite Epp. cbn [mbind outcome_bind expect].
  assert (exists p5, w_processes w5 !! pp = Some p5 /\ node_of p5 = orphan pid (node_of p) pp (node_of qp) /\ p_pgroup p5 = p_pgroup qp /\ p_session p5 = p_session qp) as (p5 & Hp5 & En5 & Eg5 & Es5).
  { rewrite Q2. unfold w4, w3. simpl. destruct (decide (pp = 1)) as [->|Hpp].
    - rewrite lookup_insert_eq. eexists. split; [reflexivity|]. rewrite HI in Hqp. injection Hqp as <-. unfold adopted, orphan, node_of. simpl.
      split; [|done]. rewrite decide_False by (rewrite <- exit_kids; done). f_equal. apply set_eq. intros x. rewrite !elem_of_union, elem_of_list_to_set, exit_kids. done.
    - rewrite !lookup_insert_ne, Hm, Hqp by lia. simpl. eexists. split; [reflexivity|]. unfold adopted, orphan. rewrite decide_False by done.
      simpl. destruct (decide (pp ∈ kids)) as [Hi|Hi]; rewrite exit_kids in Hi; simpl;
        [rewrite (decide_True (P:=pp ∈ p_children p)) by done|rewrite (decide_False (P:=pp ∈ p_children p)) by done]; rewrite !decide_False by lia; done. }
  unfold process_notify, push_waits, get_process. rewrite Hp5. cbn [mbind outcome_bind expect].
  set (w6 := put_process w5 pp _). set (w7 := match p_exit_signal p with Some _ => _ | None => w6 end).
  assert (quiet w6 w7 /\ w_threads w7 = w_threads w6) as [Hq7 Eth] by (unfold w7; by destruct (p_exit_signal p)).
  exists w7, pp. split; [done|]. split; [done|]. pose proof Hq7 as (R1 & R2 & _ & _ & _ & _ & _ & R8 & _).
  assert (refs_of w6 = refs_of w) as Erefs.
  { assert (refs_of w5 = refs_of w) as Er5.
    { assert (refs_of (set_processes w2 m) = refs_of w) as Er2.
      { apply map_eq. intros x. unfold refs_of. simpl. rewrite !lookup_fmap, Hm. destruct (w_processes w !! x) as [px|]; [|done]. simpl. f_equal.
        unfold adopted. by repeat case_decide. }
      unfold refs_of at 1. rewrite Q2. fold (refs_of w4). unfold w4. rewrite (refs_put_same w3 1 _ (adopted kids 1 I)); [|unfold w3; simpl; by rewrite lookup_insert_ne, Hm, HI|done|done].
      unfold w3. by rewrite (refs_put_same _ pid _ p). }
    unfold w6. by rewrite (refs_put_same w5 pp _ p5). }
  assert (w_threads w6 = w_threads w /\ w_init w6 = w_init w /\ w_next_pid w6 = w_next_pid w) as (T1 & T2 & T3).
  { unfold w6. simpl. rewrite Q10, Q1, Q8. simpl. by rewrite F2, F3, F4. }
  split.
  { apply (quiet_jobs w6 w7 Hq7). unfold jobs_inv. rewrite Erefs. unfold w6. simpl. rewrite Q3, Q4, Q5, Q6, Q7, Q8, Q9. simpl.
    unfold jobs_inv in Hj1. unfold refs_of in Hj1. rewrite F1 in Hj1. exact Hj1. }
  rewrite Eth, R1, R8, T1, T2, T3. split_and!; try done.
  unfold tree_of at 1. rewrite R2. fold (tree_of w6). unfold w6. rewrite tree_of_put. unfold tree_of at 1. rewrite Q2. fold (tree_of w4).
  unfold w4. rewrite tree_of_put. unfold w3. rewrite tree_of_put. apply map_eq. intros x. rewrite !tree_map_lookup. unfold tree_of. simpl.
  rewrite lookup_fmap. destruct (decide (x = pp)) as [->|Hxp].
  { rewrite lookup_insert_eq, Hqp. simpl. f_equal. unfold notified. rewrite decide_True by done. rewrite <- En5. done. }
  rewrite lookup_insert_ne by done. destruct (decide (x = 1)) as [->|Hx1].
  { rewrite lookup_insert_eq, HI. simpl. f_equal. unfold notified. rewrite decide_False by done. unfold adopted, orphan, node_of. simpl.
    rewrite decide_False by (rewrite <- exit_kids; done). f_equal. apply set_eq. intros x. by rewrite !elem_of_union, elem_of_list_to_set, exit_kids. }
  rewrite lookup_insert_ne by done. destruct (decide (x = pid)) as [->|Hxpid].
  { rewrite lookup_insert_eq, Hp. simpl. f_equal. unfold notified. rewrite decide_False by done. unfold orphan, node_of. simpl.
    rewrite decide_False by (rewrite <- exit_kids; done). rewrite !(decide_False (P:=pid = 1)) by done. by rewrite !decide_True. }
  rewrite lookup_insert_ne, lookup_fmap, Hm by done. destruct (w_processes w !! x) as [px|]; [|done]. simpl. f_equal.
  unfold notified, adopted, orphan, node_of. simpl. rewrite !(decide_False (P:=x = pp)), !(decide_False (P:=x = 1)), !(decide_False (P:=x = pid)) by done.
  destruct (decide (x ∈ kids)) as [Hi|Hi]; rewrite exit_kids in Hi; [by rewrite (decide_True (P:=x ∈ p_children p))|by rewrite (decide_False (P:=x ∈ p_children p))].
Qed.
End exit.

Lemma drop_listed_lookup (th : gmap Z Thread) pid tids t :
  foldr (fun tid m => if tid =? pid then m else delete tid m) th tids !! t = if decide (t ∈ tids /\ t <> pid) then None else th !! t.
Proof.
  induction tids as [|x tids IH]; cbn [foldr]; [by rewrite decide_False by set_solver|]. destruct (Z.eqb_spec x pid) as [->|Hx].
  - rewrite IH. destruct (decide (t ∈ tids /\ t <> pid)); [by rewrite decide_True by set_solver|by rewrite decide_False by set_solver].
  - destruct (decide (t = x)) as [->|Hne]; [rewrite lookup_delete_eq; by rewrite decide_True by set_solver|].
    rewrite lookup_delete_ne, IH by done. destruct (decide (t ∈ tids /\ t <> pid)); [by rewrite decide_True by set_solver|by rewrite decide_False by set_solver].
Qed.

(** The threads [tids] of [pid] leave the process and the list. *)
Lemma remove_threads_ok w rp pid p tids :
  jobs_inv w -> w_processes w !! pid = Some p ->
  (forall t, t ∈ tids -> is_Some (tree_of w !! t) -> t = pid) ->
  let X := mkTNode (p_parent p) (p_children p) (p_threads p ∖ list_to_set tids) (p_waits p) in
  tree_ok (<[pid := X]> (tree_of w)) (w_threads w) (w_init w) (w_next_pid w) rp ->
  exists w', remove_threads w pid tids = Ret w' /\ proc_inv w' rp.
Proof.
  intros Hj Hp Hown X Ht. unfold remove_threads, get_process. rewrite Hp. cbn [mbind outcome_bind expect]. eexists. split; [reflexivity|]. split.
  - unfold jobs_inv. change (refs_of (set_threads _ _)) with (refs_of (put_process w pid (set_p_threads p (p_threads p ∖ list_to_set tids)))).
    by rewrite (refs_put_same w pid _ p).
  - unfold tree_inv. change (tree_of (set_threads _ _)) with (tree_of (put_process w pid (set_p_threads p (p_threads p ∖ list_to_set tids)))).
    rewrite tree_of_put. apply (tree_threads _ _ _ _ _ _ Ht); simpl.
    + intros t r Hr. rewrite drop_listed_lookup in Hr. destruct (decide _); [done|]. by apply (to_tids _ _ _ _ _ Ht).
    + intros q Q HQ. rewrite drop_listed_lookup. rewrite decide_False; [by apply (to_leader _ _ _ _ _ Ht q Q)|]. intros [Hq Hne]. apply Hne, Hown; [done|].
      apply lookup_insert_Some in HQ as [[<- _]|[_ HQ]]; [done|eauto].
Qed.

Lemma last_thread (ts : gset Z) tid : tid ∈ ts -> size ts = 1%nat -> ts ∖ list_to_set [tid] = ∅.
Proof.
  intros Ht [y Hy%leibniz_equiv]%size_1_elem_of. subst ts. apply elem_of_singleton in Ht as ->.
  rewrite list_to_set_cons, list_to_set_nil, union_empty_r_L. apply difference_diag_L.
Qed.

Lemma not_last_thread (ts : gset Z) tid : tid ∈ ts -> size ts <> 1%nat -> ts ∖ list_to_set [tid] <> ∅.
Proof.
  intros Ht Hs He. apply Hs. rewrite list_to_set_cons, list_to_set_nil, union_empty_r_L in He. assert (ts = {[tid]}) as ->; [|apply size_singleton].
  apply set_eq. intros x. rewrite elem_of_singleton. split; [|by intros ->]. intros Hx. destruct (decide (x = tid)) as [|Hne]; [done|].
  assert (x ∈ ts ∖ {[tid]}) as Hd by (apply elem_of_difference; rewrite elem_of_singleton; done). rewrite He in Hd. by apply elem_of_empty in Hd.
Qed.

Lemma all_threads (ts : gset Z) : ts ∖ list_to_set (merge_sort Z.le (elements ts)) = ∅.
Proof.
  apply set_eq_subseteq. split; [|apply empty_subseteq]. intros t [Hti Hnt]%elem_of_difference. destruct Hnt.
  by rewrite elem_of_list_to_set, merge_sort_Permutation, elem_of_elements.
Qed.

Lemma do_exit_ok w rp pid tid p status group :
  proc_inv w rp -> w_processes w !! pid = Some p -> tid ∈ p_threads p -> pid <> 1 -> (forall o, (pid, o) ∉ rp) ->
  is_exit (mkWaitObject pid status) = true ->
  exists w', do_exit w pid tid status group = Ret w' /\ proc_inv w' rp.
Proof.
  intros [Hj Ht] Hp Htid Hpid Hno Hst. pose proof (tree_lookup w pid p Hp) as Hn.
  assert (p_threads p <> ∅) as Hrun by (intros E; rewrite E in Htid; by apply elem_of_empty in Htid).
  unfold do_exit. apply Z.eqb_neq in Hpid as Epid. rewrite Epid. unfold get_process. rewrite Hp. cbn [mbind outcome_bind expect].
  set (tids := if group then _ else [tid]).
  assert (forall t, t ∈ tids -> t ∈ p_threads p) as Hsub.
  { intros t. unfold tids. destruct group; [by rewrite merge_sort_Permutation, elem_of_elements|]. by intros ->%list_elem_of_singleton. }
  destruct (exit_threads_ok tids w) as (w1 & -> & Hq & [L1 L2]); [intros t r Hr; by apply (to_tids _ _ _ _ _ Ht t)|]. cbn [mbind outcome_bind].
  set (w2 := call w1 _). assert (quiet w w2) as Hq2 by exact Hq. pose proof (quiet_jobs w w2 Hq2 Hj) as Hj2.
  pose proof Hq2 as (E1 & E2 & _ & _ & _ & _ & _ & E8 & _). assert (tree_of w2 = tree_of w) as Etr by (unfold tree_of; by rewrite E2).
  assert (tree_inv w2 rp) as Ht2.
  { unfold tree_inv. rewrite Etr, E1, E8. apply (tree_threads _ _ _ _ _ _ Ht); simpl.
    - intros t r Hr. destruct (L1 t r Hr) as (r0 & Hr0 & ->). by apply (to_tids _ _ _ _ _ Ht).
    - intros q Q HQ. apply L2. by apply (to_leader _ _ _ _ _ Ht q Q). }
  assert (w_processes w2 !! pid = Some p) as Hp2 by by rewrite E2.
  assert (forall t, t ∈ tids -> is_Some (tree_of w !! t) -> t = pid) as Hown by (intros t Hti; by apply (to_thread _ _ _ _ _ Ht pid _ t Hn), Hsub).
  destruct (group || (size (p_threads p) =? 1)%nat) eqn:Ed.
  - destruct (exit_process_ok w2 rp pid tid p status Hj2 Ht2 Hp2 Hpid) as (w3 & pp & -> & Epp & Hj3 & F1 & F2 & F3 & Etr3).
    cbn [mbind outcome_bind]. set (o := mkWaitObject pid status) in *.
    assert (pp <> pid) as Hpp by (pose proof (to_parent _ _ _ _ _ Ht pid _ Hn) as H; simpl in H; rewrite Epp in H; lia).
    assert (p_threads p ∖ list_to_set tids = ∅) as Hgone.
    { unfold tids. destruct group; [apply all_threads|]. simpl in Ed. apply Nat.eqb_eq in Ed. by apply last_thread. }
    assert (tree_of w3 !! pid = Some (notified pp o pid (orphan pid (node_of p) pid (node_of p)))) as Hl3 by (rewrite Etr3, !tree_map_lookup, Etr, Hn; done).
    destruct (tree_lookup_inv w3 pid _ Hl3) as (p3 & Hp3 & En3).
    apply (remove_threads_ok w3 rp pid p3 tids Hj3 Hp3).
    + intros t Hti. rewrite Etr3, Etr. intros [Y (Y1 & (Y0 & HY0 & _)%tree_map_Some & _)%tree_map_Some]. apply Hown; eauto.
    + pose proof (tree_orphan _ _ _ _ _ pid (node_of p) Ht2) as Ho. rewrite Etr in Ho. specialize (Ho Hn Hrun Hpid Hno).
      apply (tree_zombify _ _ _ _ _ pid (orphan pid (node_of p) pid (node_of p)) pp o) in Ho; try done.
      * rewrite F1, F2, F3. replace (<[pid := _]> (tree_of w3)) with (tree_map (zombify pid pp o) (tree_map (orphan pid (node_of p)) (tree_of w))); [exact Ho|].
        apply map_eq. intros x. rewrite !tree_map_lookup. destruct (decide (x = pid)) as [->|Hx].
        -- rewrite lookup_insert_eq, Hn. simpl. f_equal. injection En3 as <- <- <- <-. simpl. unfold zombify. rewrite !(decide_False (P:=pid = pp)), (decide_True (P:=pid = pid)) by done.
           simpl. by rewrite Hgone.
        -- rewrite lookup_insert_ne, Etr3, !tree_map_lookup, Etr by done. destruct (tree_of w !! x) as [Y|]; [|done]. simpl. f_equal. unfold zombify, notified. by rewrite !(decide_False (P:=x = pid)).
      * by rewrite tree_map_lookup, Hn.
      * simpl. rewrite (decide_False (P:=pid = 1)), decide_True by done. done.
      * simpl. rewrite decide_False; [done|]. intros Hc. destruct (orphan_small _ _ _ _ _ pid _ Ht Hn Hpid pid Hc) as (_ & ? & _). done.
  - cbn [mbind outcome_bind]. apply orb_false_iff in Ed as [-> Esz]. apply Nat.eqb_neq in Esz. simpl in tids.
    apply (remove_threads_ok w2 rp pid p tids Hj2 Hp2); [by rewrite Etr|]. apply (tree_drop_threads _ _ _ _ _ pid (node_of p) (list_to_set tids) Ht2); [by rewrite Etr|].
    by apply not_last_thread.
Qed.

(** ** [wait] *)

Lemma pgid_of_ok w pid p : jobs_inv w -> w_processes w !! pid = Some p -> exists pgid, pgid_of w p = Ret pgid.
Proof.
  intros Hj Hp. destruct (jobs_process w pid p Hj Hp) as (g & G & S & Eg & _ & HG & _). exists (g_pgid G). unfold pgid_of. rewrite Eg. simpl. by rewrite HG.
Qed.

Lemma entry_wants_ok w stop cont id o : jobs_inv w -> exists b, entry_wants w stop cont id o = Ret b.
Proof.
  intros Hj. unfold entry_wants. destruct (negb _); [eauto|]. destruct id as [|pid|pgid]; [eauto..|]. unfold try_find_process.
  destruct (w_processes w !! wob_pid o) as [p|] eqn:Ep; [|eauto]. destruct (pgid_of_ok w _ p Hj Ep) as [g ->]. simpl. eauto.
Qed.

(** [Entry::get] finds the first object that is wanted, and leaves the others. *)
Lemma entry_get_ok w stop cont id q :
  jobs_inv w ->
  match entry_get w stop cont id q with
  | Ret (Some (o, q')) => exists q1 q2, q = q1 ++ o :: q2 /\ q' = q1 ++ q2 /\ entry_wants w stop cont id o = Ret true /\
      Forall (fun x => entry_wants w stop cont id x = Ret false) q1
  | Ret None => Forall (fun x => entry_wants w stop cont id x = Ret false) q
  | _ => False
  end.
Proof.
  intros Hj. induction q as [|o q IH]; simpl; [constructor|]. destruct (entry_wants_ok w stop cont id o Hj) as [b Eb]. rewrite Eb. simpl.
  destruct b; [exists [], q; done|]. destruct (entry_get w stop cont id q) as [[[x q']|]| |]; simpl; [|by constructor|done..].
  destruct IH as (q1 & q2 & -> & -> & Hx & Hq1). exists (o :: q1), q2. split_and!; try done. by constructor.
Qed.

Lemma put_waits_tree w pid p q : tree_of (put_process w pid (set_waits p q)) = <[pid := mkTNode (p_parent p) (p_children p) (p_threads p) q]> (tree_of w).
Proof. by rewrite tree_of_put. Qed.

Lemma put_waits_jobs w pid p q : w_processes w !! pid = Some p -> jobs_inv w -> jobs_inv (put_process w pid (set_waits p q)).
Proof. intros Hp Hj. unfold jobs_inv. by rewrite (refs_put_same w pid _ p). Qed.

Lemma wait_round_ok w rp self p id no_block stop cont :
  proc_inv w rp -> w_processes w !! self = Some p -> p_threads p <> ∅ ->
  match wait_round w self id no_block stop cont with
  | Ret (Ready (Some o), w') => proc_inv w' (rp ++ [(self, o)]) /\ entry_wants w stop cont id o = Ret true
  | Ret (Ready None, w') => w' = w /\ no_block = true /\ Forall (fun x => entry_wants w stop cont id x = Ret false) (p_waits p)
  | Ret (Pending, w') => w' = w /\ p_children p <> ∅ /\ Forall (fun x => entry_wants w stop cont id x = Ret false) (p_waits p)
  | Err e => e = ECHILD /\ p_children p = ∅ /\ Forall (fun x => entry_wants w stop cont id x = Ret false) (p_waits p)
  | Panic => False
  end.
Proof.
  intros [Hj Ht] Hp Hrun. unfold wait_round, get_process. rewrite Hp. cbn [mbind outcome_bind expect].
  pose proof (entry_get_ok w stop cont id (p_waits p) Hj) as Hg. destruct (entry_get w stop cont id (p_waits p)) as [[[o q']|]| |]; [| |done..].
  - cbn [mbind outcome_bind]. destruct Hg as (q1 & q2 & Eq & -> & Hw & _). split; [|done]. split; [by apply put_waits_jobs|].
    unfold tree_inv. rewrite put_waits_tree. apply (tree_take _ _ _ _ _ self (node_of p) q1 o q2 Ht); [by apply tree_lookup|done|done].
  - cbn [mbind outcome_bind]. destruct (decide (p_children p = ∅)); [done|]. by destruct no_block.
Qed.

(** The end of [wait], for an object this process has taken. *)
Lemma wait_reap_ok w r1 r2 mask self o :
  proc_inv w (r1 ++ (self, o) :: r2) -> exists w', wait_reap w mask self o = Ret w' /\ proc_inv w' (r1 ++ r2).
Proof.
  intros [Hj Ht]. unfold wait_reap. destruct (is_exit o) eqn:Ho; cbn [negb].
  - destruct (to_reaping _ _ _ _ _ Ht self o) as (X & HX & Hrun); [set_solver|]. destruct (tree_lookup_inv w self X HX) as (p & Hp & ->).
    destruct (tree_reap _ _ _ _ r1 r2 self o (node_of p) Ht HX Ho) as (Hc & (C & HC & HCp) & Hne & Ht'). destruct (tree_lookup_inv w _ C HC) as (pc & Hpc & ->).
    destruct (remove_process_ok w mask (wob_pid o) pc Hj Hpc) as (w1 & -> & Hj1 & F1 & F2 & F3 & F4); [by apply (to_leader _ _ _ _ _ Ht _ (node_of pc))|by eexists|].
    cbn [mbind outcome_bind]. unfold get_process. rewrite F1, lookup_delete_ne, Hp by done. cbn [mbind outcome_bind expect]. rewrite bool_decide_eq_true_2 by done.
    cbn [assert_ mbind outcome_bind]. eexists. split; [reflexivity|]. assert (w_processes w1 !! self = Some p) as Hp1 by (by rewrite F1, lookup_delete_ne). split.
    + unfold jobs_inv. by rewrite (refs_put_same w1 self _ p).
    + unfold tree_inv. rewrite tree_of_put. unfold tree_of. simpl. rewrite F1, F2, F3, F4, fmap_delete. exact Ht'.
  - exists w. split; [done|]. split; [done|]. assert (forall q x, owed q (r1 ++ (self, o) :: r2) x = owed q (r1 ++ r2) x) as How.
    { intros q x. unfold owed. rewrite !(list_filter_app_b _ r1). simpl. destruct (self =? x); [|done]. rewrite !fmap_app, !list_filter_app_b. simpl. by rewrite Ho. }
    destruct Ht as [H1 H2 H3 H4 H5 H6 H7 H8 H9 H10 H11]. constructor; auto.
    + intros p P c HP Hc. rewrite <- How in Hc. eauto.
    + intros p P HP. rewrite <- How. eauto.
    + intros c C HC Hz. destruct (H8 c C HC Hz) as (Hk & p & P & ? & ? & Hin). split; [done|]. exists p, P. rewrite <- How. done.
    + intros p o' Hin. apply (H9 p o'). set_solver.
Qed.

(** ** Notifications of stops, [set_tid_address] and RCU callbacks *)

Lemma notify_stop_ok w rp pid p pp o :
  proc_inv w rp -> w_processes w !! pid = Some p -> p_parent p = Some pp -> is_exit o = false ->
  exists w', process_notify w pp (Some SIGCHLD) o = Ret w' /\ proc_inv w' rp.
Proof.
  intros [Hj Ht] Hp Hpp Ho. pose proof (to_parent _ _ _ _ _ Ht pid _ (tree_lookup w pid p Hp)) as H. simpl in H. rewrite Hpp in H.
  destruct H as (_ & X & HX & _). destruct (tree_lookup_inv w pp X HX) as (q & Hq & ->).
  unfold process_notify, push_waits, get_process. rewrite Hq. cbn [mbind outcome_bind expect]. eexists. split; [reflexivity|].
  assert (proc_inv (put_process w pp (set_waits q (p_waits q ++ [o]))) rp) as [Hj' Ht']; [|done].
  split; [by apply put_waits_jobs|]. unfold tree_inv. rewrite put_waits_tree. by apply (tree_stop _ _ _ _ _ pp (node_of q)).
Qed.

Lemma set_tid_address_ok w rp tid t addr :
  proc_inv w rp -> w_threads w !! tid = Some t -> tid_ptr_ok (Some addr) ->
  exists w', set_tid_address w tid addr = Ret (tid, w') /\ proc_inv w' rp.
Proof.
  intros [Hj Ht] Htid Ha. unfold set_tid_address. rewrite Htid. cbn [mbind outcome_bind expect]. eexists. split; [reflexivity|]. split; [done|].
  unfold tree_inv. simpl. apply tree_tid; [done|eauto|done].
Qed.

Lemma rcu_run_ok w rp mask : proc_inv w rp -> proc_inv (rcu_run w mask) rp.
Proof.
  intros [Hj Ht]. split; [|done]. eapply jobs_ok_eq; [eapply (jobs_rcu _ _ _ _ _ _ (rcu_keep (w_rcu w) mask)); [|exact Hj]|..]; try done.
  intros i. apply rcu_keep_sub.
Qed.

(** ** The system *)

Record PSys := mkPSys { ps_world : ProcWorld; ps_reaping : Reaping }.

Inductive POp :=
| OpClone (pid : Z) (thread : bool) (clear_child_tid exit_signal : option Z)
| OpSetsid (pid : Z)
| OpSetpgid (self pid pgid : Z)
| OpSetTid (tid addr : Z)
| OpStop (pid : Z) (code : WaitType)                  (** a stop or a continuation of [pid] *)
| OpExit (pid tid : Z) (status : WaitType) (group : bool)
| OpWait (self : Z) (id : WaitId) (no_block stop cont : bool)
| OpReap (i : nat) (ran : list bool)                 (** the [i]-th [wait] in progress goes on *)
| OpRcu (ran : list bool).

Definition ps_exec (op : POp) (s : PSys) : outcome PSys :=
  let w := ps_world s in let rp := ps_reaping s in
  match op with
  | OpClone pid thread ctid sig => '(_, w) ← do_clone w pid thread ctid sig; Ret (mkPSys w rp)
  | OpSetsid pid => '(_, w) ← setsid w pid; Ret (mkPSys w rp)
  | OpSetpgid self pid pgid => w ← setpgid w self pid pgid; Ret (mkPSys w rp)
  | OpSetTid tid addr => '(_, w) ← set_tid_address w tid addr; Ret (mkPSys w rp)
  | OpStop pid code =>
      p ← get_process w pid;
      match p_parent p with
      | Some pp => w ← process_notify w pp (Some SIGCHLD) (mkWaitObject pid code); Ret (mkPSys w rp)
      | None => Ret s
      end
  | OpExit pid tid status group => w ← do_exit w pid tid status group; Ret (mkPSys w rp)
  | OpWait self id no_block stop cont =>
      '(r, w) ← wait_round w self id no_block stop cont;
      Ret (mkPSys w (match r with Ready (Some o) => rp ++ [(self, o)] | _ => rp end))
  | OpReap i mask =>
      match rp !! i with
      | Some (self, o) => w ← wait_reap w mask self o; Ret (mkPSys w (delete i rp))
      | None => Ret s
      end
  | OpRcu mask => Ret (mkPSys (rcu_run w mask) rp)
  end.

Definition running (w : ProcWorld) (pid : Z) : Prop := exists p, w_processes w !! pid = Some p /\ p_threads p <> ∅.

(** When an operation can happen.  A call is made by a thread of a running
    process; exits come from a thread that has not exited, of a process that is
    not in the middle of a [wait]; the init process stays; pids do not run out;
    the pointers given for [clear_child_tid] are user addresses; and no process
    joins a group that has lost its members. *)
Definition ps_enabled (op : POp) (s : PSys) : Prop :=
  let w := ps_world s in
  match op with
  | OpClone pid _ ctid _ => running w pid /\ tid_ptr_ok ctid /\ w_next_pid w + 1 < 2 ^ 32
  | OpSetsid pid => running w pid
  | OpSetpgid self _ pgid => running w self /\ ~ revives w pgid
  | OpSetTid tid addr => is_Some (w_threads w !! tid) /\ tid_ptr_ok (Some addr)
  | OpStop pid code => is_Some (w_processes w !! pid) /\ is_exit (mkWaitObject pid code) = false
  | OpExit pid tid status _ => (exists p, w_processes w !! pid = Some p /\ tid ∈ p_threads p) /\ pid <> 1 /\
      (forall o, (pid, o) ∉ ps_reaping s) /\ is_exit (mkWaitObject pid status) = true
  | OpWait self _ _ _ _ => running w self
  | OpReap _ _ | OpRcu _ => True
  end.

Definition ps_step (s s' : PSys) : Prop := exists op, ps_enabled op s /\ ps_exec op s = Ret s'.

Definition ps_inv (s : PSys) : Prop := proc_inv (ps_world s) (ps_reaping s).

Lemma same_tree_inv w w' rp : same_tree w w' -> jobs_inv w' -> tree_inv w rp -> proc_inv w' rp.
Proof. intros (E1 & E2 & E3 & E4) Hj Ht. split; [done|]. unfold tree_inv. by rewrite E1, E2, E3, E4. Qed.

Lemma ps_exec_ok op s :
  ps_inv s -> ps_enabled op s -> match ps_exec op s with Ret s' => ps_inv s' | Err _ => True | Panic => False end.
Proof.
  destruct s as [w rp]. intros Hinv Hen. pose proof Hinv as [Hj Ht]. simpl in Hj, Ht. unfold ps_inv in *. destruct op; simpl in *.
  - destruct Hen as ((p & Hp & Hrun) & Hc & Hn). destruct thread.
    + destruct (clone_thread_ok w rp pid p clear_child_tid exit_signal Hinv Hp Hrun Hc Hn) as (w' & -> & Hi). done.
    + destruct (clone_process_ok w rp pid p clear_child_tid exit_signal Hinv Hp Hrun Hc Hn) as (w' & -> & Hi). done.
  - destruct Hen as (p & Hp & Hrun). pose proof (setsid_ok w pid p Hj Hp) as H. destruct (setsid w pid) as [[sid w']| |]; [|done..].
    destruct H as (_ & Hj' & Hs & _). simpl. by apply (same_tree_inv w).
  - destruct Hen as ((p & Hp & Hrun) & Hrev). pose proof (setpgid_ok w self p pid pgid Hj Hp Hrev) as H. destruct (setpgid w self pid pgid) as [w'| |]; [|done..].
    destruct H as (Hj' & Hs & _). simpl. by apply (same_tree_inv w).
  - destruct Hen as ([t Htid] & Ha). destruct (set_tid_address_ok w rp tid t addr Hinv Htid Ha) as (w' & -> & Hi). done.
  - destruct Hen as ([p Hp] & Ho). unfold get_process. rewrite Hp. cbn [mbind outcome_bind expect]. destruct (p_parent p) as [pp|] eqn:Epp; [|done].
    destruct (notify_stop_ok w rp pid p pp (mkWaitObject pid code) Hinv Hp Epp Ho) as (w' & -> & Hi). done.
  - destruct Hen as ((p & Hp & Htid) & Hpid & Hno & Hst). destruct (do_exit_ok w rp pid tid p status group Hinv Hp Htid Hpid Hno Hst) as (w' & -> & Hi). done.
  - destruct Hen as (p & Hp & Hrun). pose proof (wait_round_ok w rp self p id no_block stop cont Hinv Hp Hrun) as H.
    destruct (wait_round w self id no_block stop cont) as [[[[o|]|] w']| |]; simpl; [by destruct H|by destruct H as [-> _]..|done|done].
  - destruct (rp !! i) as [[self o]|] eqn:Ei; [|done]. pose proof Ei as Ei'. apply list_elem_of_split_length in Ei' as (r1 & r2 & -> & ->).
    destruct (wait_reap_ok w r1 r2 ran self o Hinv) as (w' & -> & Hi). simpl. rewrite delete_middle. done.
  - by apply rcu_run_ok.
Qed.

(** The world with the init process. *)
Definition boot_world : ProcWorld :=
  mkProcWorld (Some 1) {[1 := mkThread 1 None false]} {[1 := mkProcess None (Some 1) (Some 0) ∅ {[1]} [] None]} {[1 := 1]} {[1 := 0]}
    {[1 := mkProcessGroup 1 0 {[1]}]} {[0 := mkSession 1 {[1 := 1]} None None]} 2 2 [] [].

Lemma boot_eq : boot = Ret boot_world.
Proof. vm_compute. reflexivity. Qed.

Lemma boot_refs : refs_of boot_world = {[1 := (Some 1, Some 0)]}.
Proof. unfold refs_of. simpl. by rewrite map_fmap_singleton. Qed.

Lemma boot_tree : tree_of boot_world = {[1 := mkTNode None ∅ {[1]} []]}.
Proof. unfold tree_of. simpl. by rewrite map_fmap_singleton. Qed.

Lemma boot_jobs : jobs_inv boot_world.
Proof.
  unfold jobs_inv. rewrite boot_refs. simpl. constructor.
  - intros p rg rs [<- [= <- <-]]%lookup_singleton_Some. eexists 1, 0, _, _. rewrite !lookup_singleton_eq. split_and!; simpl; try done; set_solver.
  - intros g G p [<- <-]%lookup_singleton_Some Hp. simpl in Hp. apply elem_of_singleton in Hp as ->. rewrite lookup_singleton_eq. eauto.
  - intros s S k g [<- <-]%lookup_singleton_Some Hk. simpl in Hk. apply lookup_singleton_Some in Hk as [<- <-]. eexists. rewrite lookup_singleton_eq. split_and!; simpl; try done; set_solver.
  - intros g G [<- <-]%lookup_singleton_Some _. eexists. simpl. rewrite lookup_singleton_eq. split; [done|]. simpl. by rewrite lookup_singleton_eq.
  - intros s S [<- <-]%lookup_singleton_Some _. simpl. by rewrite lookup_singleton_eq.
  - intros g G [<- <-]%lookup_singleton_Some _. left. simpl. by rewrite lookup_singleton_eq.
  - intros k g [<- <-]%lookup_singleton_Some. rewrite lookup_singleton_eq. eauto.
  - intros g G [<- <-]%lookup_singleton_Some. simpl. rewrite lookup_singleton_eq. split; [by eexists|lia].
  - intros s S [<- <-]%lookup_singleton_Some. simpl. lia.
  - intros p r [<- _]%lookup_singleton_Some. lia.
Qed.

Lemma boot_inv : ps_inv (mkPSys boot_world []).
Proof.
  split; [apply boot_jobs|]. simpl. unfold tree_inv. rewrite boot_tree. simpl. constructor.
  - split; [done|]. eexists. rewrite lookup_singleton_eq. split_and!; simpl; try done; set_solver.
  - by intros c C [<- <-]%lookup_singleton_Some.
  - intros p P c [<- <-]%lookup_singleton_Some Hc. simpl in Hc. set_solver.
  - intros p P [<- <-]%lookup_singleton_Some. rewrite lookup_singleton_eq. by eexists.
  - intros p P t [<- <-]%lookup_singleton_Some Ht. simpl in Ht. apply elem_of_singleton in Ht as ->. split; [lia|done].
  - intros p P c [<- <-]%lookup_singleton_Some Hc. by apply elem_of_nil in Hc.
  - intros p P [<- <-]%lookup_singleton_Some. constructor.
  - intros c C [<- <-]%lookup_singleton_Some Hz. simpl in Hz. set_solver.
  - intros p o Hin. by apply elem_of_nil in Hin.
  - intros p P [<- _]%lookup_singleton_Some. lia.
  - intros t r [<- <-]%lookup_singleton_Some. split; [lia|]. intros a Ha. discriminate Ha.
Qed.

Lemma ps_reachable_inv s : rtc ps_step (mkPSys boot_world []) s -> ps_inv s.
Proof.
  intros Hr. pose proof boot_inv as Hb. induction Hr as [|x y z (op & Hen & Hex) _ IH]; [done|]. apply IH.
  pose proof (ps_exec_ok op x Hb Hen) as H. by rewrite Hex in H.
Qed.

(** Process [pid] is in the group and the session it points at, its parent
    lists it, and if it has exited its parent will be told exactly once. *)
Definition process_sound (s : PSys) (pid : Z) (p : Process) : Prop :=
  let w := ps_world s in
  (exists g G S, p_pgroup p = Some g /\ w_group_store w !! g = Some G /\ pid ∈ g_members G /\
     p_session p = Some (g_session G) /\ w_session_store w !! g_session G = Some S /\ s_groups S !! g_pgid G = Some g /\
     try_find_session w (s_sid S) = Some (g_session G)) /\
  match p_parent p with
  | Some pp => pp < pid /\ exists P, w_processes w !! pp = Some P /\ pid ∈ p_children P /\
      (p_threads p = ∅ <-> pid ∈ owed (p_waits P) (ps_reaping s) pp) /\ NoDup (owed (p_waits P) (ps_reaping s) pp)
  | None => pid = 1 /\ p_threads p <> ∅
  end.

Lemma ps_sound s pid p : ps_inv s -> w_processes (ps_world s) !! pid = Some p -> process_sound s pid p.
Proof.
  intros [Hj Ht] Hp. destruct (jobs_process _ pid p Hj Hp) as (g & G & S & Eg & Es & HG & HS & Hin & Hl & Hs & Hh). split.
  - exists g, G, S. split_and!; try done. unfold try_find_session. rewrite Hs. simpl. by rewrite (proj2 (session_alive_spec _ _) Hh).
  - pose proof (tree_lookup _ pid p Hp) as Hn. pose proof (to_parent _ _ _ _ _ Ht pid _ Hn) as H. simpl in H. destruct (p_parent p) as [pp|] eqn:Epp.
    + destruct H as (Hlt & X & HX & Hk). destruct (tree_lookup_inv _ pp X HX) as (P & HP & ->). split; [done|]. exists P. split; [done|]. split; [done|]. split.
      * split.
        -- intros Hz. destruct (to_zombie _ _ _ _ _ Ht pid _ Hn Hz) as (_ & q & Q & Eq & HQ & Ho). simpl in Eq. rewrite Epp in Eq. injection Eq as <-.
           rewrite HX in HQ. by injection HQ as <-.
        -- intros Ho. destruct (to_owed _ _ _ _ _ Ht pp _ pid HX Ho) as (C & HC & _ & E). rewrite Hn in HC. by injection HC as <-.
      * apply (to_once _ _ _ _ _ Ht pp _ HX).
    + subst pid. split; [done|]. destruct (to_init _ _ _ _ _ Ht) as (_ & I & HI & _ & HIt). rewrite Hn in HI. by injection HI as <-.
Qed.


(** A test of the conditions. *)
Definition running_b (w : ProcWorld) (pid : Z) : bool :=
  match w_processes w !! pid with Some p => negb (bool_decide (p_threads p = ∅)) | None => false end.
Definition tid_ptr_b (a : option Z) : bool :=
  match a with Some addr => match checked_new addr 4 with Ret _ => true | _ => false end | None => true end.
Definition no_revival_b (w : ProcWorld) (pgid : Z) : bool :=
  match try_find_pgroup w pgid with
  | Some g => match w_group_store w !! g with Some G => negb (bool_decide (g_members G = ∅)) | None => true end
  | None => true
  end.

Definition ps_enabled_b (op : POp) (s : PSys) : bool :=
  let w := ps_world s in
  match op with
  | OpClone pid _ ctid _ => running_b w pid && tid_ptr_b ctid && (w_next_pid w + 1 <? 2 ^ 32)
  | OpSetsid pid => running_b w pid
  | OpSetpgid self _ pgid => running_b w self && no_revival_b w pgid
  | OpSetTid tid addr => bool_decide (is_Some (w_threads w !! tid)) && tid_ptr_b (Some addr)
  | OpStop pid code => bool_decide (is_Some (w_processes w !! pid)) && negb (is_exit (mkWaitObject pid code))
  | OpExit pid tid status _ =>
      match w_processes w !! pid with Some p => bool_decide (tid ∈ p_threads p) | None => false end &&
      negb (pid =? 1) && forallb (fun r => negb (r.1 =? pid)) (ps_reaping s) && is_exit (mkWaitObject pid status)
  | OpWait self _ _ _ _ => running_b w self
  | OpReap _ _ | OpRcu _ => true
  end.

Lemma running_b_sound w pid : running_b w pid = true -> running w pid.
Proof.
  unfold running_b, running. destruct (w_processes w !! pid) as [p|]; [|done]. intros H%negb_true_iff%bool_decide_eq_false. eauto.
Qed.

Lemma tid_ptr_b_sound a : tid_ptr_b a = true -> tid_ptr_ok a.
Proof. intros H addr ->. simpl in H. destruct (checked_new addr 4) as [ptr| |]; [eauto|done..]. Qed.

Lemma no_revival_b_sound w pgid : no_revival_b w pgid = true -> ~ revives w pgid.
Proof. unfold no_revival_b. intros H (g & G & E & HG & Hm). rewrite E, HG, Hm in H. by rewrite bool_decide_eq_true_2 in H. Qed.

Lemma ps_enabled_b_sound op s : ps_enabled_b op s = true -> ps_enabled op s.
Proof.
  destruct op; simpl; rewrite ?andb_true_iff; intros H; try done.
  - destruct H as [[H1 H2] H3]. split_and!; [by apply running_b_sound|by apply tid_ptr_b_sound|lia].
  - by apply running_b_sound.
  - destruct H as [H1 H2]. split; [by apply running_b_sound|by apply no_revival_b_sound].
  - destruct H as [H1 H2]. split; [by apply bool_decide_eq_true in H1|by apply tid_ptr_b_sound].
  - destruct H as [H1 H2%negb_true_iff]. split; [by apply bool_decide_eq_true in H1|done].
  - destruct H as [[[H1 H2%negb_true_iff%Z.eqb_neq] H3] H4]. split_and!; try done.
    + destruct (w_processes (ps_world s) !! pid) as [p|]; [|done]. apply bool_decide_eq_true in H1. eauto.
    + intros o Hin. rewrite forallb_forall in H3. apply list_elem_of_In in Hin. specialize (H3 _ Hin). simpl in H3. by rewrite Z.eqb_refl in H3.
  - by apply running_b_sound.
Qed.

(** Running a list of operations, all of them possible and successful. *)
Fixpoint ps_run (ops : list POp) (s : PSys) : option PSys :=
  match ops with
  | [] => Some s
  | op :: ops => if ps_enabled_b op s then match ps_exec op s with Ret s => ps_run ops s | _ => None end else None
  end.

Lemma ps_run_reachable ops s s' : ps_run ops s = Some s' -> rtc ps_step s s'.
Proof.
  revert s. induction ops as [|op ops IH]; intros s; simpl; [by intros [= ->]|].
  destruct (ps_enabled_b op s) eqn:Een; [|done]. destruct (ps_exec op s) as [s1| |] eqn:Eex; [|done..]. intros H.
  eapply rtc_l; [|by apply IH]. exists op. split; [by apply ps_enabled_b_sound|done].
Qed.

(** Process 2 and its child 3 move to the group of 2; 2 exits, is waited for and
    leaves 3, stopped, to the init process. *)
Definition demo_process_ops : list POp :=
  [OpClone 1 false None (Some SIGCHLD); OpClone 2 false None (Some SIGCHLD); OpSetpgid 2 2 2; OpSetpgid 2 3 2;
   OpStop 3 (WStopped SIGSTOP); OpExit 3 3 (WSignaled SIGKILL) true; OpExit 2 2 (WExited 7) true; OpWait 1 (WPid 2) false false false].


(** ** Waiting for a child that has exited *)

(** The child is one of those [wait] was asked for. *)
Definition wait_id_covers (w : ProcWorld) (id : WaitId) (c : Z) (C : Process) : Prop :=
  match id with WAny => True | WPid pid => pid = c | WPgid pgid => pgid_of w C = Ret pgid end.

Lemma exit_wanted w stop cont id o C :
  w_processes w !! wob_pid o = Some C -> is_exit o = true -> wait_id_covers w id (wob_pid o) C -> entry_wants w stop cont id o = Ret true.
Proof.
  intros HC Ho Hid. unfold entry_wants. unfold is_exit in Ho.
  assert (match stopped o with Some _ => stop | None => if is_continue o then cont else true end = true) as ->
    by (destruct (stopped o); [done|]; apply negb_true_iff in Ho; by rewrite Ho).
  cbn [negb]. destruct id as [|pid|pgid]; simpl in Hid; [done|subst pid; by rewrite Z.eqb_refl|].
  unfold try_find_process. rewrite HC, Hid. simpl. by rewrite Z.eqb_refl.
Qed.



(** ** Runs outside the conditions of [ps_enabled] *)

(** Operations one after the other, whatever their conditions. *)
Definition ps_play (ops : list POp) : outcome PSys := foldl (fun s op => s ← s; ps_exec op s) (Ret (mkPSys boot_world [])) ops.

(** A process goes back to the group it was the last member of, before the
    group's memory is freed.  The group is still in the table, so the process
    joins it; the session has forgotten it.  Leaving once more panics in
    [Session::remove_member]. *)
Theorem setpgid_revived_group_panics :
  ps_play [OpClone 1 false None (Some SIGCHLD); OpSetpgid 2 2 2; OpSetpgid 2 2 1; OpSetpgid 2 2 2; OpSetpgid 2 2 1] = Panic.
Proof. vm_compute. reflexivity. Qed.

(** Two threads of a process both call [exit_group]: the second one waits for
    the lock on the process list, and finds no thread left but notifies the
    parent again.  The parent's second [wait] for the child panics. *)
Theorem exit_group_twice_panics :
  ps_play [OpClone 1 false None (Some SIGCHLD); OpClone 2 true None None; OpExit 2 2 (WExited 0) true; OpExit 2 3 (WExited 0) true;
           OpWait 1 WAny false false false; OpReap 0 []; OpWait 1 WAny false false false; OpReap 0 []] = Panic.
Proof. vm_compute. reflexivity. Qed.

(** A thread has taken the notice of a child out of the queue and waits for the
    lock on the process list; another thread of the process calls [exit_group].
    The child is then a child of the init process, and the assertion of [wait]
    fails. *)
Theorem wait_races_exit_group :
  ps_play [OpClone 1 false None (Some SIGCHLD); OpClone 2 true None None; OpClone 2 false None (Some SIGCHLD); OpExit 4 4 (WExited 0) true;
           OpWait 2 WAny false false false; OpExit 2 3 (WExited 0) true; OpReap 0 []] = Panic.
Proof. vm_compute. reflexivity. Qed.

(** [set_tid_address] with a pointer that is not one of user space: the thread's
    exit unwraps the failed check of the pointer. *)
Theorem exit_bad_tid_panics :
  ps_play [OpClone 1 false None (Some SIGCHLD); OpSetTid 2 0; OpExit 2 2 (WExited 0) true] = Panic.
Proof. vm_compute. reflexivity. Qed.

(** [setsid] by the leader of a group with another member: it is not refused,
    and afterwards two groups with one pgid have members, of which the table
    knows one. *)
Theorem setsid_splits_group :
  match ps_play [OpClone 1 false None (Some SIGCHLD); OpSetpgid 2 2 2; OpClone 2 false None (Some SIGCHLD); OpSetsid 2] with
  | Ret s =>
      let w := ps_world s in
      match w_processes w !! 2, w_processes w !! 3, try_find_pgroup w 2 with
      | Some P, Some Q, Some g =>
          pgid_of w P = Ret 2 /\ pgid_of w Q = Ret 2 /\ p_pgroup P = Some g /\ p_pgroup Q <> Some g /\ sid_of w P = Ret 2 /\ sid_of w Q = Ret 1
      | _, _, _ => False
      end
  | _ => False
  end.
Proof. vm_compute. repeat split; discriminate. Qed.

(** [wait] for a pid that is not a child of the caller, which has another child:
    the call blocks instead of failing with [ECHILD]. *)
Theorem wait_for_stranger_blocks :
  match ps_play [OpClone 1 false None (Some SIGCHLD)] with
  | Ret s => match wait_round (ps_world s) 1 (WPid 99) false false false with Ret (Pending, _) => True | _ => False end
  | _ => False
  end.
Proof. vm_compute. exact I. Qed.
