(* ===== verification/File.v ===== *)
(** * File objects and their open counts

    Models src/kernel/vfs/file/mod.rs.

    A [File] is an [Arc] to a [FileData] that several descriptors share, so the
    files and the pipes live in a store, [World], and a file is its number in
    it.  An [Arc] never dangles: where an operation looks up a file that is not
    in the store it panics, and the invariant [refs_ok] shows that this does
    not happen. *)

From S2P Require Import Prelude Io OpenFlags Mode Pipe.

(** ** Files *)

(** [FileType]; pipes are shared objects, an inode file has its entry, the other payloads do not matter here. *)
Inductive FileType :=
| FT_Inode (dentry : nat)
| FT_PipeRead (pipe : nat)
| FT_PipeWrite (pipe : nat)
| FT_SocketPair (read_end write_end : nat)
| FT_Terminal
| FT_CharDev
| FT_Socket
| FT_Event.

Record FileData := mkFile {
  file_flags : Z;
  open_count : Z;
  file_type : FileType
}.

Record World := mkWorld {
  w_files : gmap nat FileData;
  w_pipes : gmap nat PipeInner;
  w_next_file : nat;
  w_next_pipe : nat
}.

Definition world_empty : World := mkWorld ∅ ∅ 0 0.

(** [AtomicI32] arithmetic wraps around. *)
Definition wrap_i32 (x : Z) : Z := (x + 2 ^ 31) mod 2 ^ 32 - 2 ^ 31.

Definition set_files (w : World) (m : gmap nat FileData) : World :=
  mkWorld m (w_pipes w) (w_next_file w) (w_next_pipe w).
Definition set_pipes (w : World) (m : gmap nat PipeInner) : World :=
  mkWorld (w_files w) m (w_next_file w) (w_next_pipe w).

Definition file_new (w : World) (flags : Z) (ty : FileType) : nat * World :=
  (w_next_file w,
   mkWorld (<[w_next_file w := mkFile flags 1 ty]> (w_files w)) (w_pipes w)
           (S (w_next_file w)) (w_next_pipe w)).

Definition new_pipe (w : World) : nat * World :=
  (w_next_pipe w,
   mkWorld (w_files w) (<[w_next_pipe w := pipe_ends]> (w_pipes w))
           (w_next_file w) (S (w_next_pipe w))).

(** [Pipe::new] and [Pipe::socketpair]: the files of the two ends. *)
Definition pipe_files (w : World) (flags : Z) : nat * nat * World :=
  let (read_flags, write_flags) := pipe_new_flags flags in
  let (p, w) := new_pipe w in
  let (r, w) := file_new w read_flags (FT_PipeRead p) in
  let (wr, w) := file_new w write_flags (FT_PipeWrite p) in
  (r, wr, w).

Definition socketpair_files (w : World) (flags : Z) : nat * nat * World :=
  let (left_read, w) := new_pipe w in
  let (right_read, w) := new_pipe w in
  let (l, w) := file_new w (Z.lor flags O_RDWR) (FT_SocketPair left_read right_read) in
  let (r, w) := file_new w (Z.lor flags O_RDWR) (FT_SocketPair right_read left_read) in
  (l, r, w).

Definition get_flags (d : FileData) : Z := file_flags d.

Definition SETFL_DROPPED : Z :=
  Z.lor O_WRONLY (Z.lor O_RDWR (Z.lor O_CREAT (Z.lor O_TRUNC O_EXCL))).

Definition set_flags (w : World) (f : nat) (flags : Z) : outcome World :=
  d ← expect (w_files w !! f);
  Ret (set_files w (<[f := mkFile (bf_remove flags SETFL_DROPPED) (open_count d) (file_type d)]> (w_files w))).

Definition file_dup (w : World) (f : nat) : outcome World :=
  d ← expect (w_files w !! f);
  Ret (set_files w (<[f := mkFile (file_flags d) (wrap_i32 (open_count d + 1)) (file_type d)]> (w_files w))).

Definition close_read_end (w : World) (p : nat) : World :=
  set_pipes w (alter (fun q => fst (read_end_close q)) p (w_pipes w)).
Definition close_write_end (w : World) (p : nat) : World :=
  set_pipes w (alter (fun q => fst (write_end_close q)) p (w_pipes w)).

(** The close of the inner file type, when the last descriptor goes. *)
Definition close_file_type (w : World) (ty : FileType) : World :=
  match ty with
  | FT_PipeRead p => close_read_end w p
  | FT_PipeWrite p => close_write_end w p
  | FT_SocketPair r wr => close_write_end (close_read_end w r) wr
  | _ => w
  end.

Definition file_close (w : World) (f : nat) : outcome World :=
  d ← expect (w_files w !! f);
  let old := open_count d in
  let w := set_files w (<[f := mkFile (file_flags d) (wrap_i32 (old - 1)) (file_type d)]> (w_files w)) in
  if old <? 1 then Panic
  else if old =? 1 then Ret (close_file_type w (file_type d))
  else Ret w.

(** [FileType::poll_ready]: [locked] says which pipes somebody else has locked,
    [socket_poll] is the socket's own [poll_ready]. *)
Definition file_poll_ready (locked : nat -> bool) (socket_poll : Z -> outcome Z)
    (w : World) (ty : FileType) (event : Z) : outcome Z :=
  match ty with
  | FT_Inode _ => Ret event
  | FT_PipeRead p => q ← expect (w_pipes w !! p); poll_read_ready (locked p) q event
  | FT_PipeWrite p => q ← expect (w_pipes w !! p); poll_write_ready (locked p) q event
  | FT_SocketPair r wr =>
      q1 ← expect (w_pipes w !! r); q2 ← expect (w_pipes w !! wr);
      sp_poll_ready (locked r) (locked wr) (mkSocketPair q1 q2) LeftEnd event
  | FT_Socket => socket_poll event
  | _ => Ret poll_empty
  end.

(** ** The invariant of the store

    [total f] is the number of descriptors, in all descriptor tables, that hold
    file [f]. *)

Definition counts_ok (w : World) (total : nat -> Z) : Prop :=
  (forall f, match w_files w !! f with
             | Some d => open_count d = total f /\ 0 <= total f
             | None => total f = 0
             end) /\
  (forall f, (w_next_file w <= f)%nat -> w_files w !! f = None) /\
  (forall p, (w_next_pipe w <= p)%nat -> w_pipes w !! p = None).

Inductive pipe_side := RSide | WSide.

(** The file holds that end of pipe [p]. *)
Definition holds (s : pipe_side) (ty : FileType) (p : nat) : Prop :=
  match s, ty with
  | RSide, FT_PipeRead q | WSide, FT_PipeWrite q => q = p
  | RSide, FT_SocketPair r _ => r = p
  | WSide, FT_SocketPair _ wr => wr = p
  | _, _ => False
  end.

#[export] Instance holds_dec s ty p : Decision (holds s ty p).
Proof. destruct s, ty; simpl; apply _. Defined.

Definition end_closed (w : World) (s : pipe_side) (p : nat) : option bool :=
  (match s with RSide => read_closed | WSide => write_closed end) <$> w_pipes w !! p.

(** Every end of a pipe belongs to one file, and it is closed exactly when that
    file has no descriptor left. *)
Definition ends_ok (w : World) : Prop :=
  (forall s f d p, w_files w !! f = Some d -> holds s (file_type d) p ->
     end_closed w s p = Some (open_count d =? 0)) /\
  (forall s f g d e p, w_files w !! f = Some d -> w_files w !! g = Some e ->
     holds s (file_type d) p -> holds s (file_type e) p -> f = g).

Definition world_ok (w : World) (total : nat -> Z) : Prop :=
  counts_ok w total /\ ends_ok w.

Definition bump (total : nat -> Z) (f : nat) (n : Z) : nat -> Z :=
  fun g => if decide (g = f) then total g + n else total g.

#[export] Instance world_ok_proper w : Proper (pointwise_relation nat eq ==> iff) (world_ok w).
Proof.
  intros t1 t2 Ht. unfold world_ok, counts_ok.
  assert (forall f, t1 f = t2 f) as Hf by done.
  split; intros ((Hc & Hn) & He); split; try done; split; try done; intros f;
    specialize (Hc f); by rewrite Hf in * || rewrite <- Hf in *.
Qed.

Lemma wrap_i32_small x : - 2 ^ 31 <= x < 2 ^ 31 -> wrap_i32 x = x.
Proof. intros. unfold wrap_i32. rewrite Z.mod_small; lia. Qed.

Lemma world_ok_empty : world_ok world_empty (fun _ => 0).
Proof.
  split; [split_and!; intros; by rewrite ?lookup_empty|].
  split; intros *; simpl; rewrite lookup_empty; done.
Qed.

(** What a known file says of its count. *)
Lemma world_ok_lookup w total f :
  world_ok w total -> 0 < total f ->
  exists d, w_files w !! f = Some d /\ open_count d = total f.
Proof.
  intros ((Hc & _) & _) Ht. specialize (Hc f).
  destruct (w_files w !! f) as [d|]; [|lia]. exists d. naive_solver.
Qed.

Lemma end_closed_close_file_type w ty s p :
  end_closed (close_file_type w ty) s p =
  if decide (holds s ty p) then (fun _ => true) <$> end_closed w s p else end_closed w s p.
Proof.
  unfold end_closed, close_file_type, close_read_end, close_write_end, read_end_close, write_end_close.
  destruct ty as [|q|q|r wr| | | |], s; simpl; repeat case_decide; subst; try done.
  all: rewrite ?lookup_alter, ?lookup_alter_eq; repeat case_decide; subst; try done.
  all: repeat match goal with |- context [?m !! ?i] => destruct (m !! i) as [[? [] []]|] end; done.
Qed.

(** Storing a new count (or flags) of a file. *)
Lemma counts_ok_update w total f d n :
  counts_ok w total -> w_files w !! f = Some d -> open_count d = total f ->
  0 <= total f + n ->
  forall fl ty, counts_ok (set_files w (<[f := mkFile fl (total f + n) ty]> (w_files w))) (bump total f n).
Proof.
  intros (Hc & Hn & Hp) Hf Ho H0 fl ty. split_and!; simpl.
  - intros g. unfold bump. specialize (Hc g). case_decide as Hg.
    + subst. rewrite lookup_insert_eq. simpl. by split.
    + by rewrite lookup_insert_ne.
  - intros g Hg. specialize (Hn g Hg). rewrite lookup_insert_ne; [done|].
    intros ->. by rewrite Hf in Hn.
  - done.
Qed.

Lemma end_closed_set_files w m s p : end_closed (set_files w m) s p = end_closed w s p.
Proof. done. Qed.

Lemma w_files_close_file_type w ty : w_files (close_file_type w ty) = w_files w.
Proof. by destruct ty. Qed.

(** The ends after file [f] got the count of [d'] and, when that is the last
    reference, its ends were closed. *)
Lemma ends_ok_update w f d d' :
  ends_ok w -> w_files w !! f = Some d -> file_type d' = file_type d ->
  let w' := set_files w (<[f := d']> (w_files w)) in
  ((open_count d' =? 0) = (open_count d =? 0) -> ends_ok w') /\
  (open_count d' = 0 -> ends_ok (close_file_type w' (file_type d))).
Proof.
  intros [Hcl Hun] Hf Hty w'.
  assert (forall s g h dg dh p, w_files w' !! g = Some dg -> w_files w' !! h = Some dh ->
            holds s (file_type dg) p -> holds s (file_type dh) p -> g = h) as Hun'.
  { intros s g h dg dh p. subst w'. simpl. rewrite !lookup_insert.
    repeat case_decide; subst; intros; simplify_eq; rewrite ?Hty in *; eauto. }
  split; intros Hz; split; rewrite ?w_files_close_file_type; try done.
  - intros s g dg p. subst w'. rewrite end_closed_set_files. simpl. rewrite lookup_insert.
    case_decide; subst; intros; simplify_eq; [|eauto]. rewrite Hty in *. rewrite Hz. eauto.
  - intros s g dg p. subst w'. rewrite end_closed_close_file_type, end_closed_set_files. simpl.
    rewrite lookup_insert. case_decide as Hg; intros Hl Hh; simplify_eq.
    + rewrite Hty in Hh. rewrite decide_True by done. rewrite (Hcl s g d p) by done.
      by rewrite Hz.
    + rewrite decide_False by (intros Hh'; eauto). eauto.
Qed.

Lemma file_dup_ok w total f :
  world_ok w total -> 0 < total f < 2 ^ 31 - 1 ->
  exists w', file_dup w f = Ret w' /\ world_ok w' (bump total f 1).
Proof.
  intros Hok Ht. destruct (world_ok_lookup w total f) as (d & Hd & Hc); [done|lia|].
  destruct Hok as [Hcnt Hends]. unfold file_dup. rewrite Hd. simpl. rewrite Hc.
  rewrite wrap_i32_small by lia. eexists. split; [done|]. split.
  - eapply counts_ok_update; eauto. lia.
  - destruct (ends_ok_update w f d (mkFile (file_flags d) (total f + 1) (file_type d))) as [He _];
      try done. apply He. simpl. rewrite Hc. destruct (Z.eqb_spec (total f + 1) 0), (Z.eqb_spec (total f) 0); lia.
Qed.

Lemma file_close_ok w total f :
  world_ok w total -> 0 < total f < 2 ^ 31 ->
  exists w', file_close w f = Ret w' /\ world_ok w' (bump total f (-1)).
Proof.
  intros Hok Ht. destruct (world_ok_lookup w total f) as (d & Hd & Hc); [done|lia|].
  destruct Hok as [Hcnt Hends]. unfold file_close. rewrite Hd. simpl. rewrite Hc.
  rewrite wrap_i32_small by lia. zcase; [lia|].
  destruct (ends_ok_update w f d (mkFile (file_flags d) (total f + -1) (file_type d))) as [He1 He2];
    try done. simpl in He1, He2.
  pose proof (counts_ok_update w total f d (-1) Hcnt Hd Hc ltac:(lia)
                (file_flags d) (file_type d)) as Hc'.
  zcase; eexists; (split; [done|]); replace (total f - 1) with (total f + -1) by lia.
  - split; [|apply He2; lia]. destruct Hc' as (Hc1 & Hc2 & Hc3).
    split_and!; rewrite ?w_files_close_file_type; [done|..].
    + by destruct (file_type d).
    + destruct (file_type d); simpl; try done; intros; rewrite ?lookup_alter_None; by apply Hc3.
  - split; [done|]. apply He1. rewrite Hc.
    destruct (Z.eqb_spec (total f + -1) 0), (Z.eqb_spec (total f) 0); lia.
Qed.

Lemma bump_0 total f g : bump total f 0 g = total g.
Proof. unfold bump. case_decide; lia. Qed.

Lemma set_flags_ok w total f flags :
  world_ok w total -> 0 < total f ->
  exists w', set_flags w f flags = Ret w' /\ world_ok w' total.
Proof.
  intros Hok Ht. destruct (world_ok_lookup w total f) as (d & Hd & Hc); [done|lia|].
  destruct Hok as [Hcnt Hends]. unfold set_flags. rewrite Hd. simpl. eexists. split; [done|].
  rewrite Hc. replace (total f) with (total f + 0) by lia.
  assert (world_ok (set_files w (<[f := mkFile (bf_remove flags SETFL_DROPPED) (total f + 0) (file_type d)]> (w_files w)))
            (bump total f 0)) as Hw.
  { split; [eapply counts_ok_update; eauto; lia|].
    eapply ends_ok_update; eauto. simpl. by rewrite Hc, Z.add_0_r. }
  eapply world_ok_proper; [|exact Hw]. intros g. by rewrite bump_0.
Qed.

(** A new file, whose ends (if any) are open and belong to nobody else. *)
Lemma file_new_ok w total flags ty :
  world_ok w total ->
  (forall s p, holds s ty p -> end_closed w s p = Some false) ->
  (forall s p f d, holds s ty p -> w_files w !! f = Some d -> ~ holds s (file_type d) p) ->
  world_ok (file_new w flags ty).2 (bump total (file_new w flags ty).1 1) /\
  total (file_new w flags ty).1 = 0.
Proof.
  intros ((Hc & Hn & Hp) & Hcl & Hun) Hopen Hfresh. unfold file_new. simpl.
  set (f := w_next_file w) in *.
  assert (w_files w !! f = None) as Hf by (apply Hn; lia).
  assert (total f = 0) as H0 by (specialize (Hc f); by rewrite Hf in Hc).
  split; [|done]. split; [split_and!; simpl|split; simpl].
  - intros g. unfold bump. rewrite lookup_insert. specialize (Hc g).
    repeat case_decide; subst; simpl; try done. lia.
  - intros g Hg. rewrite lookup_insert_ne by lia. apply Hn. lia.
  - done.
  - intros s g d p. rewrite lookup_insert. case_decide; intros; simplify_eq; simpl in *; [|eauto].
    by rewrite <- (Hopen s p).
  - intros s g h d e p. rewrite !lookup_insert. repeat case_decide; intros; simplify_eq; simpl in *; eauto.
    + by exfalso; eapply Hfresh.
    + by exfalso; eapply Hfresh.
Qed.

Lemma file_new_plain_ok w total flags ty :
  world_ok w total -> (forall s p, ~ holds s ty p) ->
  world_ok (file_new w flags ty).2 (bump total (file_new w flags ty).1 1) /\
  total (file_new w flags ty).1 = 0.
Proof. intros Hok Hpl. apply file_new_ok; [done|..]; intros; exfalso; eapply Hpl; eauto. Qed.

Lemma new_pipe_ok w total :
  world_ok w total ->
  world_ok (new_pipe w).2 total /\
  (forall s, end_closed (new_pipe w).2 s (new_pipe w).1 = Some false) /\
  (forall s f d, w_files (new_pipe w).2 !! f = Some d -> ~ holds s (file_type d) (new_pipe w).1).
Proof.
  intros ((Hc & Hn & Hp) & Hcl & Hun). unfold new_pipe. simpl.
  assert (w_pipes w !! w_next_pipe w = None) as Hnew by (apply Hp; lia).
  assert (forall s f d, w_files w !! f = Some d -> ~ holds s (file_type d) (w_next_pipe w)) as Hnot.
  { intros s f d Hf Hh. specialize (Hcl s f d _ Hf Hh). unfold end_closed in Hcl.
    by rewrite Hnew in Hcl. }
  split_and!; [|by intros []; unfold end_closed; simpl; rewrite lookup_insert_eq|done].
  split; [split_and!; simpl; try done|split; simpl; [|done]].
  - intros p Hle. rewrite lookup_insert_ne by lia. apply Hp. lia.
  - intros s f d p Hf Hh. unfold end_closed. simpl. rewrite lookup_insert_ne; [by eapply Hcl|].
    intros <-. by eapply Hnot.
Qed.

Lemma end_closed_file_new w flags ty s p :
  end_closed (file_new w flags ty).2 s p = end_closed w s p.
Proof. done. Qed.

Lemma pipe_files_ok w total flags r wr w' :
  world_ok w total -> pipe_files w flags = (r, wr, w') ->
  world_ok w' (bump (bump total r 1) wr 1) /\ total r = 0 /\ total wr = 0 /\ r <> wr.
Proof.
  intros Hok. unfold pipe_files. destruct (pipe_new_flags flags) as [rf wf].
  destruct (new_pipe_ok w total Hok) as (Hok1 & Hcl1 & Hno1).
  destruct (new_pipe w) as [p w1]. simpl in *.
  destruct (file_new_ok w1 total rf (FT_PipeRead p) Hok1) as [Hok2 Ht2];
    [by intros [] q; simpl; intros; subst|intros [] q f d; simpl; [intros <-; apply (Hno1 RSide)|done]|].
  destruct (file_new w1 rf (FT_PipeRead p)) as [f1 w2] eqn:E2. simpl in *.
  assert (w2 = (file_new w1 rf (FT_PipeRead p)).2 /\ f1 = (file_new w1 rf (FT_PipeRead p)).1) as [-> ->]
    by (by rewrite E2).
  destruct (file_new_ok (file_new w1 rf (FT_PipeRead p)).2 _ wf (FT_PipeWrite p) Hok2) as [Hok3 Ht3].
  { intros [] q Hh; [done|]. destruct Hh. apply (Hcl1 WSide). }
  { intros [] q f d; simpl; [done|]. intros <-. rewrite lookup_insert.
    case_decide; intros ?; simplify_eq; simpl; [by intros []|by apply (Hno1 WSide f)]. }
  intros [= <- <- <-]. revert Ht3. unfold bump at 1. simpl. case_decide; [lia|]. intros Ht3.
  by split_and!.
Qed.

Lemma socketpair_files_ok w total flags l r w' :
  world_ok w total -> socketpair_files w flags = (l, r, w') ->
  world_ok w' (bump (bump total l 1) r 1) /\ total l = 0 /\ total r = 0 /\ l <> r.
Proof.
  intros Hok. unfold socketpair_files.
  destruct (new_pipe_ok w total Hok) as (Hok1 & Hcl1 & Hno1).
  destruct (new_pipe_ok (new_pipe w).2 total Hok1) as (Hok2 & Hcl2 & Hno2).
  set (w1 := (new_pipe w).2) in *. set (p := (new_pipe w).1) in *.
  set (w2 := (new_pipe w1).2) in *. set (q := (new_pipe w1).1) in *.
  assert (p <> q) as Hpq by (subst p q w1; unfold new_pipe; simpl; lia).
  assert (forall s, end_closed w2 s p = Some false) as Hcl1'.
  { intros s. rewrite <- (Hcl1 s). unfold end_closed. subst w2. simpl. fold q.
    by rewrite lookup_insert_ne. }
  assert (forall s f d, w_files w2 !! f = Some d -> ~ holds s (file_type d) p) as Hno1'
    by (intros s f d; apply Hno1).
  replace (new_pipe w) with (p, w1) by done. replace (new_pipe w1) with (q, w2) by done.
  set (fl := Z.lor flags O_RDWR).
  destruct (file_new_ok w2 total fl (FT_SocketPair p q) Hok2) as [Hok3 Ht3];
    [by intros [] x; simpl; intros; subst|intros [] x f d; simpl; intros <- Hf;
     [apply (Hno1' RSide f d Hf)|apply (Hno2 WSide f d Hf)]|].
  set (w3 := (file_new w2 fl (FT_SocketPair p q)).2) in *.
  destruct (file_new_ok w3 _ fl (FT_SocketPair q p) Hok3) as [Hok4 Ht4].
  { intros [] x Hh; destruct Hh; [apply (Hcl2 RSide)|apply (Hcl1' WSide)]. }
  { intros [] x f d; simpl; intros <-; subst w3; simpl; rewrite lookup_insert;
      case_decide; intros Hf; simplify_eq; simpl; try done;
      [apply (Hno2 RSide f d Hf)|apply (Hno1' WSide f d Hf)]. }
  intros [= <- <- <-]. revert Ht4. unfold bump at 1. simpl. case_decide; [lia|]. intros Ht4.
  by split_and!.
Qed.
