(* ===== verification/FileArray.v ===== *)
(** * File descriptor tables

    Models src/kernel/vfs/filearray.rs on top of the file store of File.v and
    the red-black tree interface of RBTree.v.

    Each operation takes the store and the table and returns them; an [Err]
    leaves both as they were.  A table is used under its lock; the [close] of
    the files taken out happens after the lock is dropped, here in the same
    step. *)

From S2P Require Import Prelude OpenFlags Mode RBTree Pipe File.

Record OpenFile := mkOpen { of_fd : Z; of_flags : Z; of_file : nat }.

#[export] Instance OpenFile_keyed : Keyed OpenFile := of_fd.

#[export] Instance OpenFile_eq_dec : EqDecision OpenFile.
Proof. solve_decision. Defined.

Definition close_on_exec (o : OpenFile) : bool := bf_contains (of_flags o) FD_CLOEXEC.

(** ** [FDAllocator] *)

Definition fd_succ (fd : Z) : Z := wrap32 (fd + 1).

(** The [fold_while] of [find_available]. *)
Fixpoint fold_available (current : Z) (l : list OpenFile) : Z :=
  match l with
  | [] => current
  | o :: l' => if current =? of_fd o then fold_available (fd_succ current) l' else current
  end.

Definition release_fd (min_avail fd : Z) : Z := if fd <? min_avail then fd else min_avail.

(** ** [FileArray] *)

Section array.
Context `{RBTree OpenFile T}.

Record FileArrayInner := mkArray { fa_files : T; min_avail : Z }.

Definition find_available (from : Z) (files : T) : Z :=
  fold_available from (rb_range_from from files).

(** The allocated descriptor and the new [min_avail]. *)
Definition allocate_fd (min from : Z) (files : T) : Z * Z :=
  let from := Z.max from min in
  if from =? min then
    let next_min_avail := find_available (fd_succ from) files in
    (min, next_min_avail)
  else (find_available from files, min).

Definition next_fd (min : Z) (files : T) : Z * Z := allocate_fd min min files.

Definition do_insert (files : T) (fd flags : Z) (file : nat) : outcome T :=
  match rb_find fd files with
  | Some _ => Panic
  | None => Ret (rb_insert (mkOpen fd flags file) files)
  end.

(** [FilesExt::pick], its predicate threading a state.  The loop ends within the
    fuel [pick] gives it ([pick_total]). *)
Fixpoint pick_loop {St} (fuel : nat) (pred : OpenFile -> St -> bool * St)
    (cursor : option Z) (files picked : T) (s : St) : outcome (T * T * St) :=
  match fuel with
  | O => Panic
  | S n =>
      match cursor_get cursor files with
      | None => Ret (files, picked, s)
      | Some open_file =>
          let (b, s) := pred open_file s in
          if negb b then pick_loop n pred (cursor_move_next cursor files) files picked s
          else
            match cursor_remove cursor files with
            | (Some o, files, cursor) =>
                pick_loop n pred (cursor_move_next cursor files) files (rb_insert o picked) s
            | _ => Panic
            end
      end
  end.

Definition pick {St} (pred : OpenFile -> St -> bool * St) (files : T) (s : St) : outcome (T * T * St) :=
  let n := S (length (rb_iter files)) in
  pick_loop (S (n * n)) pred (cursor_front files) files rb_new s.

Fixpoint close_files (w : World) (l : list OpenFile) : outcome World :=
  match l with
  | [] => Ret w
  | o :: l' => w ← file_close w (of_file o); close_files w l'
  end.

Definition fa_new : FileArrayInner := mkArray rb_new 0.

Fixpoint clone_files (w : World) (l : list OpenFile) (new_files : T) : outcome (World * T) :=
  match l with
  | [] => Ret (w, new_files)
  | o :: l' =>
      w ← file_dup w (of_file o);
      clone_files w l' (rb_insert (mkOpen (of_fd o) (of_flags o) (of_file o)) new_files)
  end.

Definition fa_new_cloned (w : World) (other : FileArrayInner) : outcome (FileArrayInner * World) :=
  '(w, new_files) ← clone_files w (rb_iter (fa_files other)) rb_new;
  Ret (mkArray new_files (min_avail other), w).

Definition fa_get (a : FileArrayInner) (fd : Z) : option nat := of_file <$> rb_find fd (fa_files a).

Definition fa_close_all (w : World) (a : FileArrayInner) : outcome (FileArrayInner * World) :=
  w ← close_files w (rb_iter (fa_files a));
  Ret (mkArray rb_new 0, w).

Definition fa_close (w : World) (a : FileArrayInner) (fd : Z) : outcome (FileArrayInner * World) :=
  o ← ok_or (rb_find fd (fa_files a)) EBADF;
  w ← file_close w (of_file o);
  Ret (mkArray (rb_remove fd (fa_files a)) (release_fd (min_avail a) (of_fd o)), w).

Definition close_range_pred (first last : Z) (o : OpenFile) (min : Z) : bool * Z :=
  let should_close := (first <=? of_fd o) && (of_fd o <=? last) in
  (should_close, if should_close then release_fd min (of_fd o) else min).

Definition on_exec_pred (o : OpenFile) (min : Z) : bool * Z :=
  if close_on_exec o then (true, release_fd min (of_fd o)) else (false, min).

Definition fa_close_range (w : World) (a : FileArrayInner) (first last : Z)
  : outcome (FileArrayInner * World) :=
  '(files, picked, min) ← pick (close_range_pred first last) (fa_files a) (min_avail a);
  w ← close_files w (rb_iter picked);
  Ret (mkArray files min, w).

Definition fa_on_exec (w : World) (a : FileArrayInner) : outcome (FileArrayInner * World) :=
  '(files, picked, min) ← pick on_exec_pred (fa_files a) (min_avail a);
  w ← close_files w (rb_iter picked);
  Ret (mkArray files min, w).

Definition fa_dup (w : World) (a : FileArrayInner) (old_fd : Z) : outcome (Z * FileArrayInner * World) :=
  old_file ← ok_or (rb_find old_fd (fa_files a)) EBADF;
  w ← file_dup w (of_file old_file);
  let (new_fd, min) := next_fd (min_avail a) (fa_files a) in
  files ← do_insert (fa_files a) new_fd (of_flags old_file) (of_file old_file);
  Ret (new_fd, mkArray files min, w).

Definition dup_to_no_close (w : World) (a : FileArrayInner) (old_fd new_fd fd_flags : Z)
  : outcome (option nat * FileArrayInner * World) :=
  old_file ← ok_or (rb_find old_fd (fa_files a)) EBADF;
  w ← file_dup w (of_file old_file);
  match rb_find new_fd (fa_files a) with
  | None =>
      let (fd, min) := allocate_fd (min_avail a) new_fd (fa_files a) in
      assert_ (new_fd =? fd);;
      files ← do_insert (fa_files a) new_fd fd_flags (of_file old_file);
      Ret (None, mkArray files min, w)
  | Some file =>
      let files := rb_insert (mkOpen (of_fd file) fd_flags (of_file old_file))
                     (rb_remove new_fd (fa_files a)) in
      Ret (Some (of_file file), mkArray files (min_avail a), w)
  end.

Definition fa_dup_to (w : World) (a : FileArrayInner) (old_fd new_fd flags : Z)
  : outcome (Z * FileArrayInner * World) :=
  '(old, a, w) ← dup_to_no_close w a old_fd new_fd (as_fd_flags flags);
  match old with
  | Some file => w ← file_close w file; Ret (new_fd, a, w)
  | None => Ret (new_fd, a, w)
  end.

(** The descriptors of two new files. *)
Definition insert_two (a : FileArrayInner) (fdflag : Z) (f1 f2 : nat)
  : outcome (Z * Z * FileArrayInner) :=
  let (fd1, min) := next_fd (min_avail a) (fa_files a) in
  let (fd2, min) := next_fd min (fa_files a) in
  files ← do_insert (fa_files a) fd1 fdflag f1;
  files ← do_insert files fd2 fdflag f2;
  Ret (fd1, fd2, mkArray files min).

Definition fa_pipe (w : World) (a : FileArrayInner) (flags : Z) : outcome (Z * Z * FileArrayInner * World) :=
  let '(read_end, write_end, w) := pipe_files w flags in
  '(read_fd, write_fd, a) ← insert_two a (as_fd_flags flags) read_end write_end;
  Ret (read_fd, write_fd, a, w).

Definition fa_socketpair (w : World) (a : FileArrayInner) (flags : Z) : outcome (Z * Z * FileArrayInner * World) :=
  let '(left_end, right_end, w) := socketpair_files w flags in
  '(left_fd, right_fd, a) ← insert_two a (as_fd_flags flags) left_end right_end;
  Ret (left_fd, right_fd, a, w).

(** A new file in the next descriptor. *)
Definition insert_new (w : World) (a : FileArrayInner) (fdflag flags : Z) (ty : FileType)
  : outcome (Z * FileArrayInner * World) :=
  let (fd, min) := next_fd (min_avail a) (fa_files a) in
  let (f, w) := file_new w flags ty in
  files ← do_insert (fa_files a) fd fdflag f;
  Ret (fd, mkArray files min, w).

Definition fa_socket (w : World) (a : FileArrayInner) := insert_new w a 0 0 FT_Socket.
Definition fa_event_file (w : World) (a : FileArrayInner) := insert_new w a 0 0 FT_Event.

(** What [open] gets from the dentry, the inode and the device table. *)
Record OpenTarget := mkTarget {
  ot_dentry : nat;
  ot_open_check : outcome unit;
  ot_inode_mode : outcome Z;
  ot_truncate : outcome unit;
  ot_device : outcome bool   (** [true] for a terminal *)
}.

Definition fa_open (w : World) (a : FileArrayInner) (dentry : OpenTarget) (flags : Z)
  : outcome (Z * FileArrayInner * World) :=
  ot_open_check dentry;;
  let fdflag := as_fd_flags flags in
  mode ← ot_inode_mode dentry;
  let file_format := mode_format mode in
  (if oflags_directory flags then
     if file_format =? S_IFDIR then Ret tt else Err ENOTDIR
   else if (file_format =? S_IFDIR) && oflags_write flags then Err EISDIR else Ret tt);;
  (if oflags_truncate flags && oflags_write flags && mode_is_reg file_format
   then ot_truncate dentry else Ret tt);;
  ty ← (if mode_is_chr file_format then
          is_terminal ← ot_device dentry;
          Ret (if is_terminal : bool then FT_Terminal else FT_CharDev)
        else Ret (FT_Inode (ot_dentry dentry)));
  insert_new w a fdflag flags ty.

Definition F_DUPFD : Z := 0.
Definition F_GETFD : Z := 1.
Definition F_SETFD : Z := 2.
Definition F_GETFL : Z := 3.
Definition F_SETFL : Z := 4.
Definition F_DUPFD_CLOEXEC : Z := 1030.

Definition fa_fcntl (w : World) (a : FileArrayInner) (fd cmd arg : Z)
  : outcome (Z * FileArrayInner * World) :=
  let cur := rb_find fd (fa_files a) in
  if (cmd =? F_DUPFD) || (cmd =? F_DUPFD_CLOEXEC) then
    ofile ← ok_or cur EBADF;
    let cloexec := (cmd =? F_DUPFD_CLOEXEC) || flags_close_on_exec (of_flags ofile) in
    let flags := if cloexec then FD_CLOEXEC else fd_flags_empty in
    w ← file_dup w (of_file ofile);
    let (new_fd, min) := allocate_fd (min_avail a) (wrap32 arg) (fa_files a) in
    files ← do_insert (fa_files a) new_fd flags (of_file ofile);
    Ret (new_fd, mkArray files min, w)
  else if cmd =? F_GETFD then
    ofile ← ok_or cur EBADF; Ret (of_flags ofile, a, w)
  else if cmd =? F_SETFD then
    ofile ← ok_or cur EBADF;
    let ofile := mkOpen (of_fd ofile) (fd_flags_truncate (wrap32 arg)) (of_file ofile) in
    Ret (0, mkArray (rb_insert ofile (rb_remove fd (fa_files a))) (min_avail a), w)
  else if cmd =? F_GETFL then
    ofile ← ok_or cur EBADF;
    d ← expect (w_files w !! of_file ofile);
    Ret (get_flags d, a, w)
  else if cmd =? F_SETFL then
    ofile ← ok_or cur EBADF;
    w ← set_flags w (of_file ofile) (wrap32 arg);
    Ret (0, a, w)
  else Panic.

Definition set_cloexec (a : FileArrayInner) (fd : Z) : outcome FileArrayInner :=
  ofile ← ok_or (rb_find fd (fa_files a)) EBADF;
  let ofile := mkOpen (of_fd ofile) (bf_insert (of_flags ofile) FD_CLOEXEC) (of_file ofile) in
  Ret (mkArray (rb_insert ofile (rb_remove fd (fa_files a))) (min_avail a)).

Definition set_nonblock (w : World) (a : FileArrayInner) (fd : Z) (nonblock : bool) : outcome World :=
  ofile ← ok_or (rb_find fd (fa_files a)) EBADF;
  d ← expect (w_files w !! of_file ofile);
  set_flags w (of_file ofile) (bf_set (get_flags d) O_NONBLOCK nonblock).

(** [console]: whether the console terminal has been registered. *)
Definition open_console (w : World) (console : bool) (a : FileArrayInner)
  : outcome (FileArrayInner * World) :=
  let files := fa_files a in
  let (stdin, min) := next_fd (min_avail a) files in
  let (stdout, min) := next_fd min files in
  let (stderr, min) := next_fd min files in
  assert_ console;;
  let (f0, w) := file_new w 0 FT_Terminal in
  files ← do_insert files stdin FD_CLOEXEC f0;
  let (f1, w) := file_new w 0 FT_Terminal in
  files ← do_insert files stdout FD_CLOEXEC f1;
  let (f2, w) := file_new w 0 FT_Terminal in
  files ← do_insert files stderr FD_CLOEXEC f2;
  Ret (mkArray files min, w).
End array.

Arguments FileArrayInner T : clear implicits.

(** ** The allocator *)

Definition count_refs (l : list OpenFile) (f : nat) : Z :=
  Z.of_nat (length (filter (fun o => of_file o = f) l)).

Lemma count_refs_cons o l f :
  count_refs (o :: l) f = (if decide (f = of_file o) then 1 else 0) + count_refs l f.
Proof.
  unfold count_refs. rewrite filter_cons. repeat case_decide; simpl; try congruence; lia.
Qed.

#[export] Instance count_refs_proper : Proper ((≡ₚ) ==> eq ==> eq) count_refs.
Proof. intros l1 l2 Hl f ? <-. unfold count_refs. by rewrite Hl. Qed.

Lemma count_refs_nonneg l f : 0 <= count_refs l f.
Proof. unfold count_refs. lia. Qed.

Lemma fold_available_spec v l cur :
  SortedBy l -> Forall (fun o => cur <= of_fd o < 2 ^ 32) l ->
  v ∉ (of_fd <$> l) -> 0 <= cur <= v -> v < 2 ^ 32 ->
  cur <= fold_available cur l <= v /\ fold_available cur l ∉ (of_fd <$> l) /\
  forall fd, cur <= fd < fold_available cur l -> fd ∈ (of_fd <$> l).
Proof.
  revert cur. induction l as [|o l IH]; intros cur Hs Hb Hv Hc Hlt; simpl.
  { split_and!; [lia|lia|set_solver|intros; lia]. }
  apply SortedBy_cons in Hs as [Hs Ho]. apply Forall_cons in Hb as [Hbo Hb].
  apply not_elem_of_cons in Hv as [Hvo Hv]. unfold key_of, OpenFile_keyed in Ho.
  destruct (Z.eqb_spec cur (of_fd o)) as [->|Hne].
  - unfold fd_succ. rewrite wrap32_small by (unfold is_u32; lia).
    destruct (IH (of_fd o + 1)) as (Hr & Hn & Hall); [done| |done|lia|done|].
    { rewrite Forall_forall in *. intros x Hx. specialize (Ho x Hx). specialize (Hb x Hx). simpl in *. lia. }
    split_and!; [lia|lia| |].
    + apply not_elem_of_cons. split; [lia|done].
    + intros fd Hfd. apply elem_of_cons. destruct (decide (fd = of_fd o)); [by left|right].
      apply Hall. lia.
  - split_and!; [lia|lia| |intros; lia]. apply not_elem_of_cons. split; [done|].
    intros (x & Hx & Hin)%list_elem_of_fmap. rewrite Forall_forall in Ho.
    specialize (Ho x Hin). simpl in Ho. lia.
Qed.

Section alloc.
Context `{RBTree OpenFile T, !RBTreeLaws OpenFile T}.
Implicit Types (files picked : T) (a : FileArrayInner T).

Definition occupied files (fd : Z) : Prop := is_Some (rb_find fd files).

Definition files_ok files : Prop :=
  SortedBy (rb_iter files) /\ Forall (fun o => 0 <= of_fd o < 2 ^ 32) (rb_iter files).

(** [min] is the least descriptor that is neither used nor reserved. *)
Definition alloc_inv files (reserved : list Z) (min : Z) : Prop :=
  0 <= min < 2 ^ 32 /\ rb_find min files = None /\ min ∉ reserved /\
  (forall fd, 0 <= fd < min -> occupied files fd \/ fd ∈ reserved).

Definition fa_wf a : Prop := files_ok (fa_files a) /\ alloc_inv (fa_files a) [] (min_avail a).

(** The least vacant descriptor from [from] on. *)
Definition least_vacant files (from r : Z) : Prop :=
  from <= r < 2 ^ 32 /\ rb_find r files = None /\
  forall fd, from <= fd < r -> occupied files fd.

Lemma occupied_elem files fd :
  files_ok files -> occupied files fd <-> fd ∈ (of_fd <$> rb_iter files).
Proof.
  intros [Hs _]. unfold occupied. rewrite <- not_eq_None_Some, rb_find_None by done.
  change (@key_of OpenFile _) with of_fd.
  destruct (decide (fd ∈ (of_fd <$> rb_iter files))); naive_solver.
Qed.

Lemma range_from_spec files from o :
  o ∈ rb_range_from from files <-> o ∈ rb_iter files /\ from <= of_fd o.
Proof.
  unfold rb_range_from. rewrite !list_elem_of_In, filter_In. unfold key_of, OpenFile_keyed.
  by rewrite Z.leb_le.
Qed.

Lemma list_filter_SortedBy (p : OpenFile -> bool) l : SortedBy l -> SortedBy (List.filter p l).
Proof.
  induction l as [|x l IH]; simpl; intros Hs; [done|]. apply SortedBy_cons in Hs as [Hs Hx].
  destruct (p x); [|auto]. apply SortedBy_cons. split; [auto|].
  rewrite Forall_forall in *. intros y [Hy _]%list_elem_of_In%filter_In. apply Hx.
  by apply list_elem_of_In.
Qed.

Lemma find_available_spec files from v :
  files_ok files -> 0 <= from <= v -> v < 2 ^ 32 -> rb_find v files = None ->
  least_vacant files from (find_available from files) /\ find_available from files <= v.
Proof.
  intros Hok Hf Hv Hn. pose proof Hok as [Hs Hb].
  assert (forall fd, from <= fd -> fd ∈ (of_fd <$> rb_range_from from files) <-> occupied files fd) as Hocc.
  { intros fd Hfd. rewrite occupied_elem by done. rewrite !list_elem_of_fmap.
    split; intros (o & -> & Ho); exists o; (split; [done|]); apply range_from_spec in Ho || apply range_from_spec;
      naive_solver. }
  destruct (fold_available_spec v (rb_range_from from files) from) as (Hr & Hr' & Hall); try done.
  - by apply list_filter_SortedBy.
  - apply Forall_forall. intros o [Ho Hle]%range_from_spec. rewrite Forall_forall in Hb.
    specialize (Hb o Ho). simpl in Hb. lia.
  - rewrite Hocc by lia. unfold occupied. rewrite Hn. by intros [].
  - fold (find_available from files) in *. split; [|lia]. split_and!; [lia|lia| |].
    + rewrite Hocc in Hr' by lia. by apply eq_None_not_Some.
    + intros fd Hfd. rewrite <- Hocc by lia. by apply Hall.
Qed.

(** Allocation gives the least vacant descriptor not below [from], reserves it,
    and keeps [min_avail] the least one available. *)
Lemma allocate_fd_spec files res min from v fd min' :
  files_ok files -> alloc_inv files res min -> Forall (fun r => r < min) res ->
  0 <= from -> Z.max from min <= v < 2 ^ 32 -> (from <= min -> min < v) -> rb_find v files = None ->
  allocate_fd min from files = (fd, min') ->
  least_vacant files (Z.max from min) fd /\ fd ∉ res /\ alloc_inv files (fd :: res) min' /\
  (from <= min -> fd = min /\ min < min' <= v).
Proof.
  intros Hok (Hm & Hmn & Hmr & Hall) Hres Hfrom Hv Hmv Hvn. unfold allocate_fd.
  assert (forall x, min < x -> x ∉ res) as Hbig.
  { intros x Hx Hin. rewrite Forall_forall in Hres. specialize (Hres x Hin). simpl in Hres. lia. }
  destruct (Z.eqb_spec (Z.max from min) min) as [Heq|Hne]; intros [= <- <-].
  - rewrite Heq in *. specialize (Hmv ltac:(lia)).
    unfold fd_succ. rewrite wrap32_small by (unfold is_u32; lia).
    destruct (find_available_spec files (min + 1) v) as ((Hr & Hrn & Hocc) & Hle); [done|lia|lia|done|].
    set (m := find_available (min + 1) files) in *. unfold least_vacant, alloc_inv.
    split_and!; try lia; try done.
    + apply not_elem_of_cons. split; [lia|]. apply Hbig. lia.
    + intros fd Hfd. destruct (decide (fd = min)) as [->|]; [right; set_solver|].
      destruct (decide (fd < min)).
      * destruct (Hall fd) as [?|?]; [lia|by left|right; set_solver].
      * left. apply Hocc. lia.
  - destruct (find_available_spec files (Z.max from min) v) as ((Hr & Hrn & Hocc) & _); [done|lia|lia|done|].
    set (m := find_available (Z.max from min) files) in *.
    unfold least_vacant, alloc_inv. split_and!; try lia; try done.
    + apply Hbig. lia.
    + apply not_elem_of_cons. split; [lia|done].
    + intros fd Hfd. destruct (Hall fd) as [?|?]; [lia|by left|right; set_solver].
Qed.

(** Using a reserved descriptor. *)
Lemma do_insert_ok files res min fd flags f :
  files_ok files -> alloc_inv files (fd :: res) min -> 0 <= fd < 2 ^ 32 -> rb_find fd files = None ->
  exists files', do_insert files fd flags f = Ret files' /\
    files_ok files' /\ alloc_inv files' res min /\
    (forall k, rb_find k files' = if decide (fd = k) then Some (mkOpen fd flags f) else rb_find k files) /\
    rb_iter files' ≡ₚ mkOpen fd flags f :: rb_iter files.
Proof.
  intros [Hs Hb] (Hm & Hmn & Hmr & Hall) Hfd Hn. unfold do_insert. rewrite Hn.
  eexists. split; [done|].
  assert (rb_iter (rb_insert (mkOpen fd flags f) files) ≡ₚ mkOpen fd flags f :: rb_iter files) as Hperm.
  { rewrite rb_iter_insert; [apply insert_sorted_perm|done|by apply rb_find_None]. }
  assert (forall k, rb_find k (rb_insert (mkOpen fd flags f) files) =
            if decide (fd = k) then Some (mkOpen fd flags f) else rb_find k files) as Hfind
    by (intros k; by rewrite (rb_find_insert k (mkOpen fd flags f) files)).
  apply not_elem_of_cons in Hmr as [Hmf Hmr].
  split_and!; try done.
  - split; [by apply rb_insert_sorted|]. rewrite Hperm. constructor; done.
  - split_and!; try lia; try done.
    + rewrite Hfind. rewrite decide_False by congruence. done.
    + intros k Hk. unfold occupied. rewrite Hfind. case_decide; [left; eauto|].
      destruct (Hall k Hk) as [?|[?|?]%elem_of_cons]; [by left|congruence|by right].
Qed.

(** Taking an entry out, and putting another one in its place. *)
Lemma remove_ok files fd o :
  files_ok files -> rb_find fd files = Some o ->
  of_fd o = fd /\ files_ok (rb_remove fd files) /\ rb_find fd (rb_remove fd files) = None /\
  rb_iter files ≡ₚ o :: rb_iter (rb_remove fd files).
Proof.
  intros [Hs Hb] Hf. pose proof Hf as [Hin Hk]%rb_find_Some; [|done].
  change (of_fd o = fd) in Hk. subst fd.
  split_and!; [done| |by rewrite rb_find_remove, decide_True|].
  - split; [by apply rb_remove_sorted|]. rewrite rb_iter_remove by done.
    rewrite Forall_forall in *. intros x [_ Hx]%list_elem_of_filter. by apply Hb.
  - rewrite rb_iter_remove by done. by apply remove_key_perm.
Qed.

Lemma release_ok files min fd o :
  files_ok files -> alloc_inv files [] min -> rb_find fd files = Some o ->
  alloc_inv (rb_remove fd files) [] (release_fd min fd).
Proof.
  intros Hok (Hm & Hmn & _ & Hall) Hf. pose proof Hok as [Hs Hb].
  pose proof Hf as [Hin Hk]%rb_find_Some; [|done]. change (of_fd o = fd) in Hk. subst fd.
  rewrite Forall_forall in Hb. specialize (Hb o Hin). simpl in Hb.
  assert (forall k, k <> of_fd o -> rb_find k (rb_remove (of_fd o) files) = rb_find k files) as Hne
    by (intros k ?; rewrite rb_find_remove by done; by rewrite decide_False by congruence).
  unfold release_fd, alloc_inv, occupied. zcase; split_and!; try lia; try apply not_elem_of_nil.
  - by rewrite rb_find_remove, decide_True by done.
  - intros k Hk. rewrite Hne by lia. apply Hall. lia.
  - rewrite Hne; [done|]. intros ->. congruence.
  - intros k Hk. rewrite Hne by lia. by apply Hall.
Qed.

Lemma replace_ok files min fd o o' :
  files_ok files -> alloc_inv files [] min -> rb_find fd files = Some o -> of_fd o' = fd ->
  files_ok (rb_insert o' (rb_remove fd files)) /\
  alloc_inv (rb_insert o' (rb_remove fd files)) [] min /\
  (forall k, rb_find k (rb_insert o' (rb_remove fd files)) =
     if decide (fd = k) then Some o' else rb_find k files) /\
  rb_iter (rb_insert o' (rb_remove fd files)) ≡ₚ o' :: rb_iter (rb_remove fd files).
Proof.
  intros Hok (Hm & Hmn & Hmr & Hall) Hf Ho'. pose proof Hok as [Hs Hb].
  destruct (remove_ok files fd o Hok Hf) as (Ho & [Hs' Hb'] & Hn & Hp). subst fd.
  assert (rb_iter (rb_insert o' (rb_remove (of_fd o') files)) ≡ₚ o' :: rb_iter (rb_remove (of_fd o') files)) as Hp'.
  { rewrite rb_iter_insert; [apply insert_sorted_perm|done|by apply rb_find_None]. }
  assert (forall k, rb_find k (rb_insert o' (rb_remove (of_fd o') files)) =
            if decide (of_fd o' = k) then Some o' else rb_find k files) as Hfind.
  { intros k. rewrite (rb_find_insert k o') by done. change (key_of o') with (of_fd o').
    case_decide; [done|]. rewrite rb_find_remove by done. by rewrite decide_False. }
  split_and!; try done.
  - split; [by apply rb_insert_sorted|]. rewrite Hp'. constructor; [|done].
    rewrite Hp in Hb. apply Forall_cons in Hb as [Hb _]. by rewrite <- Ho.
  - unfold alloc_inv, occupied. split_and!; try lia; try done.
    + rewrite Hfind. case_decide; congruence.
    + intros k Hk. rewrite Hfind. case_decide; [left; eauto|by apply Hall].
Qed.

(** ** [pick] terminates *)

Lemma filter_length_le {A} (p q : A -> bool) (l : list A) :
  (forall x, p x = true -> q x = true) ->
  (length (List.filter p l) <= length (List.filter q l))%nat.
Proof.
  intros Hpq. induction l as [|x l IH]; simpl; [done|].
  destruct (p x) eqn:E; [rewrite (Hpq x E); simpl; lia|]. destruct (q x); simpl; lia.
Qed.

Lemma filter_length_lt {A} (p q : A -> bool) (l : list A) x :
  (forall y, p y = true -> q y = true) -> x ∈ l -> p x = false -> q x = true ->
  (length (List.filter p l) < length (List.filter q l))%nat.
Proof.
  intros Hpq Hx Hp Hq. induction l as [|y l IH]; [by apply elem_of_nil in Hx|].
  apply elem_of_cons in Hx as [<-|Hx]; [|specialize (IH Hx)]; simpl.
  - rewrite Hp, Hq. simpl. pose proof (filter_length_le p q l Hpq). lia.
  - destruct (p y) eqn:E; [rewrite (Hpq y E); simpl; lia|]. destruct (q y); simpl; lia.
Qed.

(** The elements from the cursor on. *)
Definition cursor_rest (c : option Z) files : nat :=
  match c with
  | None => 0
  | Some k => length (List.filter (fun o => k <=? of_fd o) (rb_iter files))
  end.

Lemma cursor_rest_le c files : (cursor_rest c files <= length (rb_iter files))%nat.
Proof. destruct c as [k|]; simpl; [|lia]. eapply Nat.le_trans; [apply (filter_length_le _ (fun _ => true)); done|].
  clear. induction (rb_iter files); simpl; lia.
Qed.

Lemma head_elem {A} (l : list A) x : head l = Some x -> x ∈ l.
Proof. destruct l; simpl; [done|]. intros [= ->]. constructor. Qed.

Lemma cursor_after_rest k files o :
  o ∈ rb_iter files -> of_fd o = k ->
  (cursor_rest (cursor_after k files) files < cursor_rest (Some k) files)%nat.
Proof.
  intros Ho Hk. unfold cursor_after, key_of, OpenFile_keyed.
  assert (length (List.filter (fun v => (k <? of_fd v)%Z) (rb_iter files)) < cursor_rest (Some k) files)%nat as Hlt.
  { apply (filter_length_lt _ _ _ o); [|done|lia|lia].
    intros x. rewrite Z.ltb_lt, Z.leb_le. lia. }
  destruct (head _) as [v|] eqn:E; simpl in *; [|lia].
  eapply Nat.le_lt_trans; [|exact Hlt]. apply filter_length_le. intros x.
  apply head_elem, list_elem_of_In, filter_In in E as [_ E].
  rewrite Z.ltb_lt in *. rewrite Z.leb_le. lia.
Qed.

Lemma pick_loop_inv {St} (pred : OpenFile -> St -> bool * St) (Inv : T -> T -> St -> Prop) :
  (forall files picked s, Inv files picked s -> SortedBy (rb_iter files)) ->
  (forall files picked s o s', Inv files picked s -> o ∈ rb_iter files ->
     pred o s = (false, s') -> Inv files picked s') ->
  (forall files picked s o s', Inv files picked s -> o ∈ rb_iter files ->
     pred o s = (true, s') -> Inv (rb_remove (of_fd o) files) (rb_insert o picked) s') ->
  forall fuel cursor files picked s, Inv files picked s ->
  (length (rb_iter files) * length (rb_iter files) + cursor_rest cursor files < fuel)%nat ->
  exists files' picked' s', pick_loop fuel pred cursor files picked s = Ret (files', picked', s') /\
    Inv files' picked' s'.
Proof.
  intros Hsorted Hskip Htake. induction fuel as [|n IH]; intros cursor files picked s HI Hn; [lia|].
  simpl. destruct (cursor_get cursor files) as [o|] eqn:Eg; [|by eexists _, _, _].
  destruct cursor as [k|]; [|done]. simpl in Eg. pose proof (Hsorted _ _ _ HI) as Hs.
  pose proof Eg as [Ho Hk]%rb_find_Some; [|done]. change (of_fd o = k) in Hk.
  pose proof (cursor_after_rest k files o Ho Hk) as Hlt.
  destruct (pred o s) as [[] s'] eqn:Ep; simpl.
  - rewrite Eg. subst k. apply IH; [eauto|].
    assert (length (rb_iter files) = S (length (rb_iter (rb_remove (of_fd o) files)))) as Hlen.
    { rewrite rb_iter_remove by done. by rewrite (remove_key_perm o (rb_iter files)) at 1. }
    match goal with |- (_ + cursor_rest ?c _ < _)%nat =>
      pose proof (cursor_rest_le c (rb_remove (of_fd o) files)) end.
    rewrite Hlen in Hn. nia.
  - apply IH; [eauto|]. simpl. lia.
Qed.

Lemma SortedBy_NoDup (l : list OpenFile) : SortedBy l -> NoDup (of_fd <$> l).
Proof.
  induction l as [|x l IH]; intros Hs; [constructor|]. apply SortedBy_cons in Hs as [Hs Hx].
  constructor; [|auto]. intros (y & Hy & Hin)%list_elem_of_fmap.
  rewrite Forall_forall in Hx. specialize (Hx y Hin). unfold key_of, OpenFile_keyed in Hx. lia.
Qed.

(** What [pick] takes out satisfies the predicate, and the table is cut in two. *)
Definition pick_inv (sel : OpenFile -> bool) (orig : list OpenFile) files picked (min : Z) : Prop :=
  files_ok files /\ alloc_inv files [] min /\ SortedBy (rb_iter picked) /\
  Forall (fun o => sel o = true) (rb_iter picked) /\ orig ≡ₚ rb_iter files ++ rb_iter picked.

Lemma pick_inv_take sel orig files picked min o :
  SortedBy orig -> pick_inv sel orig files picked min -> o ∈ rb_iter files -> sel o = true ->
  pick_inv sel orig (rb_remove (of_fd o) files) (rb_insert o picked) (release_fd min (of_fd o)).
Proof.
  intros Ho (Hok & Hal & Hsp & Hsel & Hperm) Hin Ht.
  assert (rb_find (of_fd o) files = Some o) as Hf by (apply rb_find_Some; [apply Hok|done]).
  destruct (remove_ok files (of_fd o) o Hok Hf) as (_ & Hok' & _ & Hp).
  assert (rb_find (of_fd o) picked = None) as Hn.
  { apply rb_find_None; [done|]. intros Hpk. apply SortedBy_NoDup in Ho. rewrite Hperm, Hp in Ho.
    simpl in Ho. apply NoDup_cons in Ho as [Ho _]. apply Ho. rewrite fmap_app. set_solver. }
  assert (rb_iter (rb_insert o picked) ≡ₚ o :: rb_iter picked) as Hpi.
  { rewrite rb_iter_insert; [apply insert_sorted_perm|done|by apply rb_find_None]. }
  split_and!; [done|by eapply release_ok|by apply rb_insert_sorted| |].
  - rewrite Hpi. by constructor.
  - rewrite Hperm, Hp, Hpi. simpl. by rewrite Permutation_middle.
Qed.

Lemma pick_ok (sel : OpenFile -> bool) pred files min :
  (forall o m, pred o m = (sel o, if sel o then release_fd m (of_fd o) else m)) ->
  files_ok files -> alloc_inv files [] min ->
  exists files' picked min', pick pred files min = Ret (files', picked, min') /\
    pick_inv sel (rb_iter files) files' picked min'.
Proof.
  intros Hpred Hok Hal. unfold pick.
  apply (pick_loop_inv pred (pick_inv sel (rb_iter files))).
  - by intros ??? [[] _].
  - intros files1 picked m o m' HI Ho Hp. rewrite Hpred in Hp. injection Hp as Hb Hm.
    rewrite Hb in Hm. by subst.
  - intros files1 picked m o m' HI Ho Hp. rewrite Hpred in Hp. injection Hp as Hb Hm.
    rewrite Hb in Hm. subst. by apply pick_inv_take; [apply Hok|..].
  - split_and!; try done; rewrite rb_iter_new; [constructor|constructor|by rewrite app_nil_r].
  - pose proof (cursor_rest_le (cursor_front files) files). nia.
Qed.

Lemma close_files_ok w base l :
  (forall f, 0 <= base f) -> (forall f, base f + count_refs l f < 2 ^ 31) ->
  world_ok w (fun f => base f + count_refs l f) ->
  exists w', close_files w l = Ret w' /\ world_ok w' base.
Proof.
  revert w. induction l as [|o l IH]; intros w Hb Hlt Hok; simpl.
  { eexists. split; [done|]. eapply world_ok_proper; [|exact Hok].
    intros f. unfold count_refs. simpl. lia. }
  assert (count_refs (o :: l) (of_file o) = 1 + count_refs l (of_file o)) as Hc
    by (rewrite count_refs_cons; by rewrite decide_True).
  pose proof (count_refs_nonneg l (of_file o)). specialize (Hb (of_file o)) as Hbo.
  specialize (Hlt (of_file o)) as Hlto.
  destruct (file_close_ok w _ (of_file o) Hok) as (w1 & -> & Hok1); [lia|]. simpl.
  apply IH; [done| |].
  - intros f. specialize (Hlt f). rewrite count_refs_cons in Hlt. case_decide; lia.
  - eapply world_ok_proper; [|exact Hok1]. intros f. unfold bump. rewrite count_refs_cons.
    repeat case_decide; congruence || lia.
Qed.

Lemma clone_files_ok w total l files :
  world_ok w total -> (forall o, o ∈ l -> 0 < total (of_file o)) ->
  (forall f, total f + count_refs l f < 2 ^ 31) ->
  SortedBy (rb_iter files) -> NoDup (of_fd <$> (rb_iter files ++ l)) ->
  exists w' files', clone_files w l files = Ret (w', files') /\
    world_ok w' (fun f => total f + count_refs l f) /\
    SortedBy (rb_iter files') /\ rb_iter files' ≡ₚ rb_iter files ++ l.
Proof.
  revert w total files. induction l as [|o l IH]; intros w total files Hok Hpos Hlt Hs Hnd; simpl.
  { eexists _, _. split_and!; [done| |done|by rewrite app_nil_r].
    eapply world_ok_proper; [|exact Hok]. intros f. unfold count_refs. simpl. lia. }
  specialize (Hpos o ltac:(set_solver)) as Hpo. specialize (Hlt (of_file o)) as Hlto.
  pose proof (count_refs_nonneg l (of_file o)). rewrite count_refs_cons, decide_True in Hlto by done.
  destruct (file_dup_ok w total (of_file o) Hok) as (w1 & -> & Hok1); [lia|]. simpl.
  destruct o as [fd fl f]. simpl in *. set (o := mkOpen fd fl f).
  assert (rb_find fd files = None) as Hn.
  { apply rb_find_None; [done|]. intros Hin. rewrite <- Permutation_middle, fmap_cons, NoDup_cons in Hnd.
    destruct Hnd as [Hnd _]. apply Hnd. rewrite fmap_app. set_solver. }
  assert (rb_iter (rb_insert o files) ≡ₚ o :: rb_iter files) as Hp.
  { rewrite rb_iter_insert; [apply insert_sorted_perm|done|by apply rb_find_None]. }
  destruct (IH w1 (bump total f 1) (rb_insert o files)) as (w' & files' & -> & Hok' & Hs' & Hp').
  - done.
  - intros x Hx. specialize (Hpos x ltac:(set_solver)). unfold bump. case_decide; lia.
  - intros g. specialize (Hlt g). rewrite count_refs_cons in Hlt. simpl in Hlt. unfold bump.
    repeat case_decide; congruence || lia.
  - by apply rb_insert_sorted.
  - rewrite Hp. by rewrite <- Permutation_middle in Hnd.
  - eexists _, _. split_and!; [done| |done|].
    + eapply world_ok_proper; [|exact Hok']. intros g. unfold bump. rewrite count_refs_cons. simpl.
      repeat case_decide; congruence || lia.
    + rewrite Hp', Hp. simpl. by rewrite <- Permutation_middle.
Qed.

(** ** Tables and the store together

    [rest f] counts the descriptors of the other tables that hold file [f]. *)

Definition refs a (f : nat) : Z := count_refs (rb_iter (fa_files a)) f.

Definition table_ok (w : World) a (rest : nat -> Z) : Prop :=
  fa_wf a /\ world_ok w (fun f => rest f + refs a f) /\ (forall f, 0 <= rest f).

(** Room for a few more descriptors: the top four numbers are unused and no
    file has [i32::MAX - 2] references. *)
Definition room a (rest : nat -> Z) : Prop :=
  (forall fd, 2 ^ 32 - 4 <= fd < 2 ^ 32 -> rb_find fd (fa_files a) = None) /\
  (forall f, rest f + refs a f < 2 ^ 31 - 1).

Lemma refs_find a fd o :
  fa_wf a -> rb_find fd (fa_files a) = Some o -> 0 < refs a (of_file o).
Proof.
  intros [Hok _] Hf. destruct (remove_ok _ _ _ Hok Hf) as (_ & _ & _ & Hp).
  unfold refs. rewrite Hp, count_refs_cons, decide_True by done.
  pose proof (count_refs_nonneg (rb_iter (rb_remove fd (fa_files a))) (of_file o)). lia.
Qed.

Lemma next_fd_spec files res min v fd min' :
  files_ok files -> alloc_inv files res min -> Forall (fun r => r < min) res ->
  min < v < 2 ^ 32 -> rb_find v files = None -> next_fd min files = (fd, min') ->
  fd = min /\ alloc_inv files (min :: res) min' /\ min < min' <= v /\
  Forall (fun r => r < min') (min :: res).
Proof.
  intros Hok Hal Hres Hv Hn Hnx. pose proof Hal as [Hm _].
  destruct (allocate_fd_spec files res min min v fd min') as (_ & _ & Hal' & Hx); try done; try lia.
  destruct Hx as [-> Hlt]; [lia|]. split_and!; try done; try lia.
  constructor; [lia|]. eapply Forall_impl; [exact Hres|]. simpl. lia.
Qed.

Lemma alloc_inv_perm files res res' min :
  res ≡ₚ res' -> alloc_inv files res min -> alloc_inv files res' min.
Proof.
  intros Hp (Hm & Hn & Hr & Hall). split_and!; try done; try lia.
  - by rewrite <- Hp.
  - intros fd Hfd. rewrite <- Hp. by apply Hall.
Qed.

(** Below the top four numbers there is always a vacant descriptor. *)
Lemma min_avail_room a rest : fa_wf a -> room a rest -> min_avail a <= 2 ^ 32 - 4.
Proof.
  intros [_ (_ & _ & _ & Hall)] [Htop _].
  destruct (decide (min_avail a <= 2 ^ 32 - 4)); [done|].
  destruct (Hall (2 ^ 32 - 4)) as [[o Ho]|Hin]; [lia| |by apply elem_of_nil in Hin].
  rewrite Htop in Ho by lia. done.
Qed.

Lemma alloc_room a rest from fd min' :
  fa_wf a -> room a rest -> 0 <= from < 2 ^ 32 ->
  allocate_fd (min_avail a) from (fa_files a) = (fd, min') ->
  least_vacant (fa_files a) (Z.max from (min_avail a)) fd /\ alloc_inv (fa_files a) [fd] min'.
Proof.
  intros Hwf Hroom Hfrom Ha. pose proof (min_avail_room a rest Hwf Hroom).
  destruct Hwf as [Hok Hal]. destruct Hroom as [Htop _].
  destruct (allocate_fd_spec (fa_files a) [] (min_avail a) from (2 ^ 32 - 1) fd min')
    as (Hl & _ & Hal' & _); try done; try lia.
  apply Htop. lia.
Qed.

(** A new descriptor of a file whose count has been raised. *)
Lemma table_insert w a rest fd flags f min' :
  fa_wf a -> (forall f, 0 <= rest f) -> 0 <= fd < 2 ^ 32 -> rb_find fd (fa_files a) = None ->
  alloc_inv (fa_files a) [fd] min' ->
  world_ok w (bump (fun f => rest f + refs a f) f 1) ->
  exists files', do_insert (fa_files a) fd flags f = Ret files' /\
    table_ok w (mkArray files' min') rest /\
    forall k, rb_find k files' = if decide (fd = k) then Some (mkOpen fd flags f) else rb_find k (fa_files a).
Proof.
  intros [Hok Hal] Hrest Hfd Hn Hal' Hw.
  destruct (do_insert_ok (fa_files a) [] min' fd flags f) as (files' & Hi & Hok' & Hal2 & Hfind & Hp); try done.
  exists files'. split_and!; try done. split_and!; try done.
  eapply world_ok_proper; [|exact Hw]. intros g. unfold bump, refs. simpl. rewrite Hp, count_refs_cons.
  simpl. case_decide; lia.
Qed.

Lemma fa_close_ok w a rest fd :
  table_ok w a rest -> room a rest ->
  match fa_close w a fd with
  | Ret (a', w') => table_ok w' a' rest /\ rb_find fd (fa_files a') = None /\
      forall k, k <> fd -> rb_find k (fa_files a') = rb_find k (fa_files a)
  | Err e => e = EBADF /\ rb_find fd (fa_files a) = None
  | Panic => False
  end.
Proof.
  intros (Hwf & Hw & Hrest) [_ Hlt]. unfold fa_close.
  destruct (rb_find fd (fa_files a)) as [o|] eqn:Ef; simpl; [|done].
  pose proof (refs_find a fd o Hwf Ef) as Hpos. specialize (Hlt (of_file o)) as Hlto.
  specialize (Hrest (of_file o)) as Hro.
  destruct (file_close_ok w _ (of_file o) Hw) as (w' & -> & Hw'); [lia|]. simpl.
  destruct Hwf as [Hok Hal].
  destruct (remove_ok _ _ _ Hok Ef) as (<- & Hok' & Hn & Hp).
  split_and!; [split_and!|done|]; try done.
  - split; [done|]. by eapply release_ok.
  - eapply world_ok_proper; [|exact Hw']. intros g. unfold bump, refs. simpl.
    pose proof (count_refs_proper _ _ Hp g g eq_refl) as Hc. rewrite count_refs_cons in Hc.
    repeat case_decide; lia || congruence.
  - intros k Hk. rewrite rb_find_remove by apply Hok. by rewrite decide_False by congruence.
Qed.

(** [close_range] and [on_exec]. *)
Lemma fa_pick_ok w a rest sel pred :
  (forall o m, pred o m = (sel o, if sel o : bool then release_fd m (of_fd o) else m)) ->
  table_ok w a rest -> room a rest ->
  exists files' picked min' w',
    pick pred (fa_files a) (min_avail a) = Ret (files', picked, min') /\
    close_files w (rb_iter picked) = Ret w' /\
    table_ok w' (mkArray files' min') rest /\
    Forall (fun o => sel o = true) (rb_iter picked) /\
    rb_iter (fa_files a) ≡ₚ rb_iter files' ++ rb_iter picked.
Proof.
  intros Hpred ([Hok Hal] & Hw & Hrest) [_ Hlt].
  destruct (pick_ok sel pred (fa_files a) (min_avail a) Hpred Hok Hal)
    as (files' & picked & min' & -> & Hok' & Hal' & Hsp & Hsel & Hp).
  assert (forall f, rest f + refs a f = rest f + count_refs (rb_iter files') f + count_refs (rb_iter picked) f) as Href.
  { intros f. unfold refs. rewrite Hp. unfold count_refs. rewrite filter_app, length_app. lia. }
  destruct (close_files_ok w (fun f => rest f + count_refs (rb_iter files') f) (rb_iter picked))
    as (w' & Hc & Hw').
  - intros f. specialize (Hrest f). pose proof (count_refs_nonneg (rb_iter files') f). lia.
  - intros f. specialize (Hlt f). rewrite Href in Hlt. lia.
  - eapply world_ok_proper; [|exact Hw]. intros f. by rewrite Href.
  - exists files', picked, min', w'. by split_and!.
Qed.

Lemma fa_close_all_ok w a rest :
  table_ok w a rest -> room a rest ->
  exists w', fa_close_all w a = Ret (mkArray rb_new 0, w') /\ table_ok w' (mkArray rb_new 0) rest.
Proof.
  intros ([Hok Hal] & Hw & Hrest) [_ Hlt]. unfold fa_close_all.
  destruct (close_files_ok w rest (rb_iter (fa_files a))) as (w' & -> & Hw'); [done| |done|].
  { intros f. specialize (Hlt f). unfold refs in Hlt. lia. }
  exists w'. split; [done|]. unfold table_ok, fa_wf, files_ok, alloc_inv, refs, rb_find. simpl.
  rewrite rb_iter_new. split_and!; try done; try lia; try apply not_elem_of_nil; try (by constructor).
  - eapply world_ok_proper; [|exact Hw']. intros f. unfold count_refs. simpl. lia.
Qed.

(** Duplicating the file of [old_fd] into the descriptor [allocate_fd] gives. *)
Lemma dup_from_ok w a rest o from flags fd min' :
  table_ok w a rest -> room a rest -> 0 <= from < 2 ^ 32 ->
  0 < refs a (of_file o) ->
  allocate_fd (min_avail a) from (fa_files a) = (fd, min') ->
  exists w' files', file_dup w (of_file o) = Ret w' /\
    do_insert (fa_files a) fd flags (of_file o) = Ret files' /\
    table_ok w' (mkArray files' min') rest /\
    least_vacant (fa_files a) (Z.max from (min_avail a)) fd /\
    forall k, rb_find k files' =
      if decide (fd = k) then Some (mkOpen fd flags (of_file o)) else rb_find k (fa_files a).
Proof.
  intros (Hwf & Hw & Hrest) Hroom Hfrom Hpos Ha.
  destruct (alloc_room a rest from fd min' Hwf Hroom Hfrom Ha) as (Hl & Hal').
  destruct Hroom as [_ Hlt]. specialize (Hlt (of_file o)). specialize (Hrest (of_file o)) as Hro.
  destruct (file_dup_ok w _ (of_file o) Hw) as (w' & -> & Hw'); [lia|].
  pose proof Hl as (Hr & Hn & _). pose proof Hwf as [_ (Hm & _)].
  destruct (table_insert w' a rest fd flags (of_file o) min') as (files' & Hi & Ht & Hfind);
    try done; try lia.
  by exists w', files'.
Qed.

Lemma fa_dup_ok w a rest old_fd :
  table_ok w a rest -> room a rest ->
  match fa_dup w a old_fd with
  | Ret (fd, a', w') => table_ok w' a' rest /\ least_vacant (fa_files a) 0 fd /\
      exists o, rb_find old_fd (fa_files a) = Some o /\
      forall k, rb_find k (fa_files a') =
        if decide (fd = k) then Some (mkOpen fd (of_flags o) (of_file o)) else rb_find k (fa_files a)
  | Err e => e = EBADF /\ rb_find old_fd (fa_files a) = None
  | Panic => False
  end.
Proof.
  intros Ht Hroom. unfold fa_dup, next_fd. pose proof Ht as (Hwf & _). pose proof Hwf as [_ (Hm & _ & _ & Hall)].
  destruct (rb_find old_fd (fa_files a)) as [o|] eqn:Ef; simpl; [|done].
  destruct (allocate_fd (min_avail a) (min_avail a) (fa_files a)) as [fd min'] eqn:Ea.
  destruct (dup_from_ok w a rest o (min_avail a) (of_flags o) fd min')
    as (w' & files' & -> & Hi & Ht' & (Hr & Hn & Hocc) & Hfind); try done; [by eapply refs_find|].
  simpl. rewrite Hi. simpl. split_and!; [done| |by eexists].
  split_and!; [lia|lia|done|]. intros k Hk. destruct (decide (k < min_avail a)).
  - destruct (Hall k) as [?|?%elem_of_nil]; [lia|done|done].
  - apply Hocc. lia.
Qed.

(** Replacing the entry of a descriptor by one with another file. *)
Lemma table_replace w a rest fd o o' :
  fa_wf a -> (forall f, 0 <= rest f) -> rb_find fd (fa_files a) = Some o -> of_fd o' = fd ->
  world_ok w (bump (bump (fun f => rest f + refs a f) (of_file o') 1) (of_file o) (-1)) ->
  table_ok w (mkArray (rb_insert o' (rb_remove fd (fa_files a))) (min_avail a)) rest /\
  forall k, rb_find k (rb_insert o' (rb_remove fd (fa_files a))) =
    if decide (fd = k) then Some o' else rb_find k (fa_files a).
Proof.
  intros [Hok Hal] Hrest Hf Ho' Hw.
  destruct (replace_ok _ _ _ _ o' Hok Hal Hf Ho') as (Hok' & Hal' & Hfind & Hp').
  destruct (remove_ok _ _ _ Hok Hf) as (_ & _ & _ & Hp).
  split; [|done]. split_and!; try done.
  eapply world_ok_proper; [|exact Hw]. intros g. unfold bump, refs. simpl.
  pose proof (count_refs_proper _ _ Hp g g eq_refl) as Hc. rewrite count_refs_cons in Hc.
  rewrite Hp', count_refs_cons. repeat case_decide; congruence || lia.
Qed.

Lemma bump_bump_cancel total f g : bump (bump total f 1) f (-1) g = total g.
Proof. unfold bump. repeat case_decide; lia. Qed.

Lemma table_replace_flags w a rest fd o flags :
  table_ok w a rest -> rb_find fd (fa_files a) = Some o ->
  table_ok w (mkArray (rb_insert (mkOpen (of_fd o) flags (of_file o)) (rb_remove fd (fa_files a)))
                (min_avail a)) rest.
Proof.
  intros (Hwf & Hw & Hrest) Hf. destruct (remove_ok _ _ _ (proj1 Hwf) Hf) as (Ho & _).
  apply (table_replace w a rest fd o); try done. simpl.
  eapply world_ok_proper; [|exact Hw]. intros g. apply bump_bump_cancel.
Qed.

Lemma fa_dup_to_ok w a rest old_fd new_fd flags :
  table_ok w a rest -> room a rest -> 0 <= new_fd < 2 ^ 32 ->
  match fa_dup_to w a old_fd new_fd flags with
  | Ret (fd, a', w') => fd = new_fd /\ table_ok w' a' rest /\
      exists o, rb_find old_fd (fa_files a) = Some o /\
      forall k, rb_find k (fa_files a') =
        if decide (new_fd = k) then Some (mkOpen new_fd (as_fd_flags flags) (of_file o))
        else rb_find k (fa_files a)
  | Err e => e = EBADF /\ rb_find old_fd (fa_files a) = None
  | Panic => False
  end.
Proof.
  intros Ht Hroom Hnew. unfold fa_dup_to, dup_to_no_close. pose proof Ht as (Hwf & Hw & Hrest).
  destruct (rb_find old_fd (fa_files a)) as [o|] eqn:Ef; simpl; [|done].
  pose proof (refs_find a old_fd o Hwf Ef) as Hpos.
  destruct (rb_find new_fd (fa_files a)) as [n|] eqn:En.
  - pose proof (refs_find a new_fd n Hwf En) as Hposn.
    destruct Hroom as [_ Hlt]. specialize (Hlt (of_file o)) as Hlto. specialize (Hlt (of_file n)).
    specialize (Hrest (of_file o)) as Hro. specialize (Hrest (of_file n)) as Hrn.
    destruct (file_dup_ok w _ (of_file o) Hw) as (w1 & -> & Hw1); [lia|]. simpl.
    destruct (file_close_ok w1 _ (of_file n) Hw1) as (w2 & -> & Hw2); [unfold bump; case_decide; lia|].
    simpl. destruct (remove_ok _ _ _ (proj1 Hwf) En) as (Hn & _). rewrite Hn.
    destruct (table_replace w2 a rest new_fd n (mkOpen new_fd (as_fd_flags flags) (of_file o))) as [Ht' Hf'];
      try done.
    split_and!; [done|done|by eexists].
  - destruct (allocate_fd (min_avail a) new_fd (fa_files a)) as [fd min'] eqn:Ea.
    destruct (dup_from_ok w a rest o new_fd (as_fd_flags flags) fd min')
      as (w' & files' & -> & Hi & Ht' & (Hr & Hn & Hocc) & Hfind); try done. simpl.
    assert (new_fd = fd) as <-.
    { destruct (decide (new_fd = fd)); [done|]. destruct Hwf as [_ (_ & _ & _ & Hall)].
      destruct (decide (new_fd < min_avail a)).
      - destruct (Hall new_fd) as [[x Hx]|?%elem_of_nil]; [lia|congruence|done].
      - destruct (Hocc new_fd) as [x Hx]; [lia|congruence]. }
    rewrite Z.eqb_refl. simpl. rewrite Hi. simpl. split_and!; [done|done|by eexists].
Qed.

Definition plain (ty : FileType) : Prop := forall s p, ~ holds s ty p.

Lemma insert_new_ok w a rest fdflag flags ty :
  table_ok w a rest -> room a rest -> plain ty ->
  exists fd a' w', insert_new w a fdflag flags ty = Ret (fd, a', w') /\ table_ok w' a' rest.
Proof.
  intros (Hwf & Hw & Hrest) Hroom Hty. unfold insert_new, next_fd. pose proof Hwf as [_ (Hm & _)].
  destruct (allocate_fd (min_avail a) (min_avail a) (fa_files a)) as [fd min'] eqn:Ea.
  destruct (alloc_room a rest _ _ _ Hwf Hroom Hm Ea) as ((Hr & Hn & _) & Hal').
  destruct (file_new_plain_ok w _ flags ty Hw Hty) as [Hw' _].
  destruct (file_new w flags ty) as [f w']. simpl in *.
  destruct (table_insert w' a rest fd fdflag f min') as (files' & -> & Ht & _); try done; try lia.
  by eexists _, _, _.
Qed.

Lemma insert_two_ok w a rest fdflag f1 f2 :
  fa_wf a -> room a rest -> (forall f, 0 <= rest f) ->
  world_ok w (bump (bump (fun f => rest f + refs a f) f1 1) f2 1) ->
  exists fd1 fd2 a', insert_two a fdflag f1 f2 = Ret (fd1, fd2, a') /\ table_ok w a' rest.
Proof.
  intros Hwf Hroom Hrest Hw. pose proof (min_avail_room a rest Hwf Hroom) as Hmin.
  destruct Hwf as [Hok Hal]. destruct Hroom as [Htop _]. pose proof Hal as [Hm _]. unfold insert_two.
  destruct (next_fd (min_avail a) (fa_files a)) as [fd1 m1] eqn:E1.
  destruct (next_fd_spec (fa_files a) [] (min_avail a) (2 ^ 32 - 3) fd1 m1)
    as (-> & Hal1 & Hm1 & Hres1); try done; try lia; [apply Htop; lia|].
  destruct (next_fd m1 (fa_files a)) as [fd2 m2] eqn:E2.
  destruct (next_fd_spec (fa_files a) [min_avail a] m1 (2 ^ 32 - 2) fd2 m2)
    as (-> & Hal2 & Hm2 & _); try done; try lia; [apply Htop; lia|].
  destruct (do_insert_ok (fa_files a) [m1] m2 (min_avail a) fdflag f1)
    as (files1 & -> & Hok1 & Hal1' & Hf1 & Hp1); try done.
  { eapply alloc_inv_perm; [|exact Hal2]. constructor. }
  { apply Hal. }
  simpl. destruct (do_insert_ok files1 [] m2 m1 fdflag f2)
    as (files2 & -> & Hok2 & Hal2' & Hf2 & Hp2); try done; try lia.
  { rewrite Hf1, decide_False by lia. apply Hal1. }
  simpl. eexists _, _, _. split; [done|]. split_and!; try done.
  eapply world_ok_proper; [|exact Hw]. intros g. unfold bump, refs. simpl.
  rewrite Hp2, Hp1, !count_refs_cons. simpl. repeat case_decide; lia.
Qed.

Lemma open_console_ok w a rest :
  table_ok w a rest -> room a rest ->
  exists a' w', open_console w true a = Ret (a', w') /\ table_ok w' a' rest.
Proof.
  intros (Hwf & Hw & Hrest) Hroom. pose proof (min_avail_room a rest Hwf Hroom) as Hmin.
  destruct Hwf as [Hok Hal]. destruct Hroom as [Htop _]. pose proof Hal as [Hm _]. unfold open_console.
  destruct (next_fd (min_avail a) (fa_files a)) as [fd1 m1] eqn:E1.
  destruct (next_fd_spec (fa_files a) [] (min_avail a) (2 ^ 32 - 3) fd1 m1)
    as (-> & Hal1 & Hm1 & Hres1); try done; try lia; [apply Htop; lia|].
  destruct (next_fd m1 (fa_files a)) as [fd2 m2] eqn:E2.
  destruct (next_fd_spec (fa_files a) [min_avail a] m1 (2 ^ 32 - 2) fd2 m2)
    as (-> & Hal2 & Hm2 & Hres2); try done; try lia; [apply Htop; lia|].
  destruct (next_fd m2 (fa_files a)) as [fd3 m3] eqn:E3.
  destruct (next_fd_spec (fa_files a) [m1; min_avail a] m2 (2 ^ 32 - 1) fd3 m3)
    as (-> & Hal3 & Hm3 & _); try done; try lia; [apply Htop; lia|].
  cbn [assert_ mbind outcome_bind].
  assert (plain FT_Terminal) as Hpl by (intros [] q; by intros []).
  destruct (file_new_plain_ok w _ 0 FT_Terminal Hw Hpl) as [Hw1 _].
  destruct (file_new w 0 FT_Terminal) as [f0 w1]. cbn [fst snd] in Hw1.
  destruct (do_insert_ok (fa_files a) [m1; m2] m3 (min_avail a) FD_CLOEXEC f0)
    as (files1 & -> & Hok1 & Hal1' & Hf1 & Hp1); try done.
  { eapply alloc_inv_perm; [|exact Hal3].
    exact (symmetry (reverse_Permutation [m2; m1; min_avail a])). }
  { apply Hal. }
  cbn [mbind outcome_bind]. destruct (file_new_plain_ok w1 _ 0 FT_Terminal Hw1 Hpl) as [Hw2 _].
  destruct (file_new w1 0 FT_Terminal) as [f1 w2]. cbn [fst snd] in Hw2.
  destruct (do_insert_ok files1 [m2] m3 m1 FD_CLOEXEC f1)
    as (files2 & -> & Hok2 & Hal2' & Hf2 & Hp2); try done; try lia.
  { rewrite Hf1, decide_False by lia. apply Hal1. }
  cbn [mbind outcome_bind]. destruct (file_new_plain_ok w2 _ 0 FT_Terminal Hw2 Hpl) as [Hw3 _].
  destruct (file_new w2 0 FT_Terminal) as [f2 w3]. cbn [fst snd] in Hw3.
  destruct (do_insert_ok files2 [] m3 m2 FD_CLOEXEC f2)
    as (files3 & -> & Hok3 & Hal3' & Hf3 & Hp3); try done; try lia.
  { rewrite Hf2, Hf1, !decide_False by lia. apply Hal2. }
  simpl. eexists _, _. split; [done|]. split_and!; try done.
  eapply world_ok_proper; [|exact Hw3]. intros g. unfold bump, refs. simpl.
  rewrite Hp3, Hp2, Hp1, !count_refs_cons. simpl. repeat case_decide; lia.
Qed.

Definition fcntl_cmd_known (cmd : Z) : Prop :=
  cmd ∈ [F_DUPFD; F_GETFD; F_SETFD; F_GETFL; F_SETFL; F_DUPFD_CLOEXEC].

Lemma fa_fcntl_ok w a rest fd cmd arg :
  table_ok w a rest -> room a rest -> fcntl_cmd_known cmd ->
  match fa_fcntl w a fd cmd arg with
  | Ret (_, a', w') => table_ok w' a' rest
  | Err e => e = EBADF /\ rb_find fd (fa_files a) = None
  | Panic => False
  end.
Proof.
  intros Ht Hroom Hcmd. pose proof Ht as (Hwf & Hw & Hrest).
  destruct (rb_find fd (fa_files a)) as [o|] eqn:Ef.
  2: { unfold fa_fcntl. rewrite Ef. unfold fcntl_cmd_known in Hcmd.
       repeat (apply elem_of_cons in Hcmd as [->|Hcmd]; [done|]). by apply elem_of_nil in Hcmd. }
  pose proof (refs_find a fd o Hwf Ef) as Hpos.
  assert (forall flags, match allocate_fd (min_avail a) (wrap32 arg) (fa_files a) with (nfd, min') =>
     exists w' files', file_dup w (of_file o) = Ret w' /\
       do_insert (fa_files a) nfd flags (of_file o) = Ret files' /\
       table_ok w' (mkArray files' min') rest end) as Hdup.
  { intros flags. destruct (allocate_fd _ _ _) as [nfd min'] eqn:Ea.
    edestruct (dup_from_ok w a rest o (wrap32 arg) flags nfd min')
      as (w' & files' & ? & ? & ? & _); try done; eauto.
    unfold wrap32. by apply Z.mod_pos_bound. }
  assert (exists d, w_files w !! of_file o = Some d) as [d Hd].
  { specialize (Hrest (of_file o)). edestruct (world_ok_lookup w _ (of_file o) Hw) as (d & ? & _); [lia|eauto]. }
  unfold fa_fcntl. rewrite Ef. unfold fcntl_cmd_known in Hcmd.
  repeat (apply elem_of_cons in Hcmd as [->|Hcmd]); try by apply elem_of_nil in Hcmd.
  all: cbn -[bf_remove fd_flags_truncate allocate_fd file_dup do_insert wrap32].
  - specialize (Hdup (if flags_close_on_exec (of_flags o) then FD_CLOEXEC else fd_flags_empty)).
    destruct (allocate_fd _ _ _) as [nfd min']. destruct Hdup as (w' & files' & -> & Hi & Ht').
    simpl. by rewrite Hi.
  - done.
  - by eapply table_replace_flags.
  - by rewrite Hd.
  - destruct (set_flags_ok w _ (of_file o) (wrap32 arg) Hw) as (w' & -> & Hw');
      [specialize (Hrest (of_file o)); lia|]. exact (conj Hwf (conj Hw' Hrest)).
  - specialize (Hdup FD_CLOEXEC).
    destruct (allocate_fd _ _ _) as [nfd min']. destruct Hdup as (w' & files' & -> & Hi & Ht').
    simpl. by rewrite Hi.
Qed.

(** ** System calls on a table *)

Inductive fd_op :=
| OpClose (fd : Z)
| OpCloseRange (first_fd last_fd : Z)
| OpOnExec
| OpCloseAll
| OpDup (fd : Z)
| OpDupTo (old_fd new_fd flags : Z)
| OpPipe (flags : Z)
| OpSocketpair (flags : Z)
| OpSocket
| OpEventFile
| OpOpen (dentry : OpenTarget) (flags : Z)
| OpFcntl (fd cmd arg : Z)
| OpSetCloexec (fd : Z)
| OpSetNonblock (fd : Z) (nonblock : bool)
| OpConsole.

Definition run_op (w : World) a (op : fd_op) : outcome (FileArrayInner T * World) :=
  match op with
  | OpClose fd => fa_close w a fd
  | OpCloseRange first last => fa_close_range w a first last
  | OpOnExec => fa_on_exec w a
  | OpCloseAll => fa_close_all w a
  | OpDup fd => '(_, a, w) ← fa_dup w a fd; Ret (a, w)
  | OpDupTo old_fd new_fd flags => '(_, a, w) ← fa_dup_to w a old_fd new_fd flags; Ret (a, w)
  | OpPipe flags => '(_, _, a, w) ← fa_pipe w a flags; Ret (a, w)
  | OpSocketpair flags => '(_, _, a, w) ← fa_socketpair w a flags; Ret (a, w)
  | OpSocket => '(_, a, w) ← fa_socket w a; Ret (a, w)
  | OpEventFile => '(_, a, w) ← fa_event_file w a; Ret (a, w)
  | OpOpen dentry flags => '(_, a, w) ← fa_open w a dentry flags; Ret (a, w)
  | OpFcntl fd cmd arg => '(_, a, w) ← fa_fcntl w a fd cmd arg; Ret (a, w)
  | OpSetCloexec fd => a ← set_cloexec a fd; Ret (a, w)
  | OpSetNonblock fd nonblock => w ← set_nonblock w a fd nonblock; Ret (a, w)
  | OpConsole => open_console w true a
  end.

(** What the callers guarantee: descriptors are [u32]s, [fcntl] commands are
    the implemented ones, and the file system did not panic. *)
Definition op_valid (op : fd_op) : Prop :=
  match op with
  | OpDupTo _ new_fd _ => is_u32 new_fd
  | OpFcntl _ cmd _ => fcntl_cmd_known cmd
  | OpOpen d _ => ot_open_check d <> Panic /\ ot_inode_mode d <> Panic /\
                  ot_truncate d <> Panic /\ ot_device d <> Panic
  | _ => True
  end.

(** The result of a step keeps the invariant. *)
Definition step_ok (r : outcome (FileArrayInner T * World)) (rest : nat -> Z) : Prop :=
  match r with
  | Ret (a', w') => table_ok w' a' rest
  | Err _ => True
  | Panic => False
  end.

Lemma fa_open_ok w a rest d flags :
  table_ok w a rest -> room a rest -> op_valid (OpOpen d flags) ->
  match fa_open w a d flags with
  | Ret (_, a', w') => table_ok w' a' rest | Err _ => True | Panic => False
  end.
Proof.
  intros Ht Hroom (H1 & H2 & H3 & H4). unfold fa_open.
  destruct (ot_open_check d); simpl; try done. destruct (ot_inode_mode d) as [mode| |]; simpl; try done.
  match goal with |- context [mbind _ ?c] => destruct c as [[]|e|] eqn:E1 end; simpl; try done.
  2: by destruct (oflags_directory flags), (mode_format mode =? S_IFDIR), (oflags_write flags).
  match goal with |- context [mbind _ (if ?b then ot_truncate d else _)] => destruct b end;
    [destruct (ot_truncate d) as [[]| |]; try done|]; simpl.
  all: match goal with |- context [mbind _ (if ?b then _ else _)] => destruct b end;
    [destruct (ot_device d) as [[]| |]; simpl; try done|]; simpl.
  all: match goal with Ht : table_ok ?w ?a ?r |- context [insert_new ?w ?a ?fl ?fl' ?ty] =>
         destruct (insert_new_ok w a r fl fl' ty) as (? & ? & ? & -> & ?) end;
       try done; by intros [] p; intros [].
Qed.

Lemma fa_two_files_ok a rest fdflag f1 f2 w' :
  fa_wf a -> room a rest -> (forall f, 0 <= rest f) ->
  world_ok w' (bump (bump (fun f => rest f + refs a f) f1 1) f2 1) ->
  step_ok ('(_, _, a, w) ← ('(fd1, fd2, a) ← insert_two a fdflag f1 f2; Ret (fd1, fd2, a, w'));
           Ret (a, w)) rest.
Proof.
  intros Hwf Hroom Hrest Hw.
  by destruct (insert_two_ok w' a rest fdflag f1 f2 Hwf Hroom Hrest Hw) as (? & ? & ? & -> & ?).
Qed.

Lemma close_range_pred_sel first last o m :
  close_range_pred first last o m =
  ((first <=? of_fd o) && (of_fd o <=? last),
   if (first <=? of_fd o) && (of_fd o <=? last) then release_fd m (of_fd o) else m).
Proof. done. Qed.

Lemma on_exec_pred_sel o m :
  on_exec_pred o m = (close_on_exec o, if close_on_exec o then release_fd m (of_fd o) else m).
Proof. unfold on_exec_pred. by destruct (close_on_exec o). Qed.

Lemma step_ok_files w a rest op :
  table_ok w a rest -> room a rest ->
  match op with
  | OpPipe _ | OpSocketpair _ | OpSocket | OpEventFile | OpConsole | OpOnExec | OpCloseRange _ _ => True
  | _ => False
  end -> step_ok (run_op w a op) rest.
Proof.
  intros Ht Hroom. pose proof Ht as (Hwf & Hw & Hrest). destruct op; simpl; try done; intros _.
  - unfold fa_close_range.
    by destruct (fa_pick_ok w a rest _ _ (close_range_pred_sel first_fd last_fd) Ht Hroom)
      as (? & ? & ? & ? & -> & Hc & ? & _); simpl; rewrite Hc.
  - unfold fa_on_exec.
    by destruct (fa_pick_ok w a rest _ _ on_exec_pred_sel Ht Hroom)
      as (? & ? & ? & ? & -> & Hc & ? & _); simpl; rewrite Hc.
  - unfold fa_pipe. destruct (pipe_files w flags) as [[r wr] w'] eqn:E.
    destruct (pipe_files_ok _ _ _ _ _ _ Hw E) as [Hw' _]. by apply fa_two_files_ok.
  - unfold fa_socketpair. destruct (socketpair_files w flags) as [[r wr] w'] eqn:E.
    destruct (socketpair_files_ok _ _ _ _ _ _ Hw E) as [Hw' _]. by apply fa_two_files_ok.
  - unfold fa_socket. destruct (insert_new_ok w a rest 0 0 FT_Socket) as (? & ? & ? & -> & ?); try done.
    by intros [] p; intros [].
  - unfold fa_event_file. destruct (insert_new_ok w a rest 0 0 FT_Event) as (? & ? & ? & -> & ?); try done.
    by intros [] p; intros [].
  - destruct (open_console_ok w a rest) as (? & ? & -> & ?); done.
Qed.

Lemma set_nonblock_ok w a rest fd nonblock :
  table_ok w a rest -> step_ok (run_op w a (OpSetNonblock fd nonblock)) rest.
Proof.
  intros (Hwf & Hw & Hrest). simpl. unfold set_nonblock.
  destruct (rb_find fd (fa_files a)) as [o|] eqn:Ef; simpl; [|done].
  pose proof (refs_find a fd o Hwf Ef) as Hpos. specialize (Hrest (of_file o)) as Hro.
  destruct (world_ok_lookup w _ (of_file o) Hw) as (d & -> & _); [lia|]. simpl.
  destruct (set_flags_ok w _ (of_file o) (bf_set (get_flags d) O_NONBLOCK nonblock) Hw) as (w' & -> & Hw');
    [lia|]. simpl. exact (conj Hwf (conj Hw' Hrest)).
Qed.


(** [dup] returns the lowest free descriptor, which then refers to the same
    file with the same flags; [dup2]/[dup3] make the given descriptor refer to
    the old one's file with the requested flags, whether it was free or in use
    (also when both are the same); every other descriptor stays as it was, and
    the only error is [EBADF] for an unused source. *)
Theorem dup_correct w a rest old_fd new_fd flags :
  table_ok w a rest -> room a rest -> is_u32 new_fd ->
  match rb_find old_fd (fa_files a) with
  | None => fa_dup w a old_fd = Err EBADF /\ fa_dup_to w a old_fd new_fd flags = Err EBADF
  | Some o =>
      (exists fd a' w', fa_dup w a old_fd = Ret (fd, a', w') /\ least_vacant (fa_files a) 0 fd /\
         forall k, rb_find k (fa_files a') =
           if decide (fd = k) then Some (mkOpen fd (of_flags o) (of_file o)) else rb_find k (fa_files a)) /\
      (exists a' w', fa_dup_to w a old_fd new_fd flags = Ret (new_fd, a', w') /\
         forall k, rb_find k (fa_files a') =
           if decide (new_fd = k) then Some (mkOpen new_fd (as_fd_flags flags) (of_file o))
           else rb_find k (fa_files a))
  end.
Proof.
  intros Ht Hroom Hn. pose proof (fa_dup_ok w a rest old_fd Ht Hroom) as Hd.
  pose proof (fa_dup_to_ok w a rest old_fd new_fd flags Ht Hroom Hn) as Hd2.
  destruct (rb_find old_fd (fa_files a)) as [o|] eqn:E.
  - split.
    + destruct (fa_dup w a old_fd) as [[[fd a'] w']| |]; [|naive_solver..].
      destruct Hd as (_ & Hl & o' & Ho' & Hf). simplify_eq. by exists fd, a', w'.
    + destruct (fa_dup_to w a old_fd new_fd flags) as [[[fd a'] w']| |]; [|naive_solver..].
      destruct Hd2 as (-> & _ & o' & Ho' & Hf). simplify_eq. by exists a', w'.
  - split.
    + destruct (fa_dup w a old_fd) as [[[]]| |]; naive_solver.
    + destruct (fa_dup_to w a old_fd new_fd flags) as [[[]]| |]; naive_solver.
Qed.

(** [fork] copies the table: the child's descriptors refer to the same
    files with the same flags, and the counts then account for both tables. *)
Theorem new_cloned_correct w a rest :
  table_ok w a rest -> (forall f, rest f + 2 * refs a f < 2 ^ 31) ->
  exists a' w', fa_new_cloned w a = Ret (a', w') /\
    (forall fd, rb_find fd (fa_files a') = rb_find fd (fa_files a)) /\
    table_ok w' a' (fun f => rest f + refs a f) /\
    table_ok w' a (fun f => rest f + refs a' f).
Proof.
  intros ([Hok Hal] & Hw & Hrest) Hlt. pose proof Hok as [Hs Hb]. unfold fa_new_cloned.
  destruct (clone_files_ok w _ (rb_iter (fa_files a)) rb_new Hw) as (w' & files' & -> & Hw' & Hs' & Hp).
  - intros o Ho. specialize (Hrest (of_file o)).
    assert (rb_find (of_fd o) (fa_files a) = Some o) as Hf by (by apply rb_find_Some).
    pose proof (refs_find a _ _ (conj Hok Hal) Hf). lia.
  - intros f. specialize (Hlt f). unfold refs in *. lia.
  - rewrite rb_iter_new. constructor.
  - rewrite rb_iter_new. by apply SortedBy_NoDup.
  - rewrite rb_iter_new in Hp. simpl in *. eexists _, _. split; [done|].
    assert (forall fd, rb_find fd files' = rb_find fd (fa_files a)) as Hfind.
    { intros fd. apply option_eq. intros o. by rewrite !rb_find_Some, Hp by done. }
    assert (forall f, refs (mkArray files' (min_avail a)) f = refs a f) as Hrefs.
    { intros f. unfold refs. simpl. by rewrite Hp. }
    split_and!; [done| |].
    + split_and!; [split| |]; simpl.
      * split; [done|]. by rewrite Hp.
      * destruct Hal as (? & Hn & Hr & Hall). unfold alloc_inv, occupied.
        split_and!; try done; try lia; [by rewrite Hfind|].
        intros fd Hfd. rewrite Hfind. by apply Hall.
      * eapply world_ok_proper; [|exact Hw']. intros f. rewrite Hrefs. done.
      * intros f. specialize (Hrest f). pose proof (count_refs_nonneg (rb_iter (fa_files a)) f). unfold refs. lia.
    + split_and!; [done| |].
      * eapply world_ok_proper; [|exact Hw']. intros f. rewrite Hrefs. done.
      * intros f. specialize (Hrest f). rewrite Hrefs. pose proof (count_refs_nonneg (rb_iter (fa_files a)) f). unfold refs. lia.
Qed.

(** Each descriptor after [pick] is as before, or it was selected and is gone. *)
Lemma pick_entries sel files files' picked :
  files_ok files -> SortedBy (rb_iter files') -> Forall (fun o => sel o = true) (rb_iter picked) ->
  rb_iter files ≡ₚ rb_iter files' ++ rb_iter picked ->
  forall fd, rb_find fd files' = rb_find fd files \/
    (rb_find fd files' = None /\ exists o, rb_find fd files = Some o /\ sel o = true).
Proof.
  intros [Hs _] Hs' Hsel Hp fd. destruct (rb_find fd files) as [o|] eqn:E.
  - apply rb_find_Some in E as [Ho Hk]; [|done]. rewrite Hp in Ho. apply elem_of_app in Ho as [Ho|Ho].
    + left. by apply rb_find_Some.
    + right. rewrite Forall_forall in Hsel. split; [|by eauto].
      apply rb_find_None; [done|]. intros (o' & Ho' & Hin)%list_elem_of_fmap.
      apply SortedBy_NoDup in Hs. rewrite Hp, fmap_app in Hs. apply NoDup_app in Hs as (_ & Hd & _).
      apply (Hd fd); apply list_elem_of_fmap; [by exists o'|by exists o].
  - left. apply rb_find_None; [done|]. apply rb_find_None in E; [|done]. intros Hin. apply E.
    rewrite Hp, fmap_app. set_solver.
Qed.

(** The loop behind [exec] and [close_range] always ends, and what it
    closes is what it was asked to close: every descriptor is as before, or it
    is gone and had the close-on-exec flag (for [on_exec]), or lay in the range
    (for [close_range]). *)
Theorem close_selected_sound w a rest first last :
  table_ok w a rest -> room a rest ->
  (exists a' w', fa_on_exec w a = Ret (a', w') /\
     forall fd, rb_find fd (fa_files a') = rb_find fd (fa_files a) \/
       (rb_find fd (fa_files a') = None /\
        exists o, rb_find fd (fa_files a) = Some o /\ close_on_exec o = true)) /\
  (exists a' w', fa_close_range w a first last = Ret (a', w') /\
     forall fd, rb_find fd (fa_files a') = rb_find fd (fa_files a) \/
       (rb_find fd (fa_files a') = None /\ first <= fd <= last)).
Proof.
  intros Ht Hroom. pose proof Ht as ([Hok _] & _). split.
  - unfold fa_on_exec.
    destruct (fa_pick_ok w a rest _ _ on_exec_pred_sel Ht Hroom)
      as (files' & picked & m & w' & -> & Hc & (([Hs' _] & _) & _) & Hsel & Hp). simpl. rewrite Hc.
    eexists _, _. split; [done|]. by eapply pick_entries.
  - unfold fa_close_range.
    destruct (fa_pick_ok w a rest _ _ (close_range_pred_sel first last) Ht Hroom)
      as (files' & picked & m & w' & -> & Hc & (([Hs' _] & _) & _) & Hsel & Hp). simpl. rewrite Hc.
    eexists _, _. split; [done|]. intros fd.
    destruct (pick_entries _ _ _ _ Hok Hs' Hsel Hp fd) as [?|(? & o & Ho & Hb)]; [by left|right].
    split; [done|]. apply rb_find_Some in Ho as [_ Ho]; [|apply Hok]. change (of_fd o = fd) in Ho. lia.
Qed.

Lemma table_ok_new : table_ok world_empty fa_new (fun _ => 0).
Proof.
  unfold table_ok, fa_wf, files_ok, alloc_inv, occupied, refs, rb_find, fa_new. simpl.
  rewrite rb_iter_new. split_and!; try done; try lia; try apply not_elem_of_nil; try (by constructor).
Qed.
End alloc.

(** ** A table in use *)

Definition demo_world : World := (pipe_files world_empty O_CLOEXEC).2.

Definition demo_table : FileArrayInner (list OpenFile) :=
  mkArray [mkOpen 0 FD_CLOEXEC 0; mkOpen 1 FD_CLOEXEC 1] 2.

Lemma demo_pipe :
  run_op world_empty (fa_new : FileArrayInner (list OpenFile)) (OpPipe O_CLOEXEC) = Ret (demo_table, demo_world).
Proof. reflexivity. Qed.

Lemma demo_room (a : FileArrayInner (list OpenFile)) :
  Forall (fun o => of_fd o < 4) (fa_files a) ->
  (length (fa_files a) < 4)%nat -> room a (fun _ => 0).
Proof.
  intros Hf Hl. split.
  - intros fd Hfd. unfold rb_find. simpl. induction Hf as [|o l Ho Hf IH]; [done|].
    simpl in *. unfold key_of, OpenFile_keyed at 1. destruct (Z.eqb_spec (of_fd o) fd); [lia|].
    apply IH. lia.
  - intros f. unfold refs, count_refs. simpl.
    pose proof (length_filter (fun o => of_file o = f) (fa_files a)). lia.
Qed.

Lemma demo_table_ok : table_ok demo_world demo_table (fun _ => 0).
Proof.
  pose proof (step_ok_files world_empty (fa_new : FileArrayInner (list OpenFile)) (fun _ => 0)
                (OpPipe O_CLOEXEC) table_ok_new) as Hs.
  rewrite demo_pipe in Hs. apply Hs; [|done]. apply demo_room; simpl; [constructor|lia].
Qed.

Lemma demo_table_room : room demo_table (fun _ => 0).
Proof. apply demo_room; simpl; [repeat constructor; simpl; lia|lia]. Qed.


Lemma dup_correct_witness :
  exists a w, fa_dup demo_world demo_table 1 = Ret (2, a, w) /\
    rb_find 2 (fa_files a) = Some (mkOpen 2 FD_CLOEXEC 1).
Proof.
  pose proof (dup_correct demo_world demo_table (fun _ => 0) 1 7 0
                demo_table_ok demo_table_room ltac:(unfold is_u32; lia)) as Hd.
  simpl in Hd. destruct Hd as [(fd & a & w & Hr & _ & Hf) _].
  vm_compute in Hr. injection Hr as <- <- <-.
  eexists _, _. split; [reflexivity|]. apply (Hf 2).
Defined.

Lemma new_cloned_correct_witness :
  exists a w, fa_new_cloned demo_world demo_table = Ret (a, w) /\
    rb_find 1 (fa_files a) = Some (mkOpen 1 FD_CLOEXEC 1).
Proof.
  destruct (new_cloned_correct demo_world demo_table (fun _ => 0) demo_table_ok) as (a & w & Hr & Hf & _).
  - intros f. destruct demo_table_room as [_ Hl]. unfold refs, count_refs. simpl.
    pose proof (length_filter (fun o => of_file o = f) (fa_files demo_table)). simpl in *. lia.
  - exists a, w. split; [exact Hr|]. rewrite Hf. reflexivity.
Defined.

Lemma close_selected_sound_witness :
  exists a w, fa_close_range demo_world demo_table 1 1 = Ret (a, w) /\
    rb_find 0 (fa_files a) = Some (mkOpen 0 FD_CLOEXEC 0).
Proof.
  destruct (close_selected_sound demo_world demo_table (fun _ => 0) 1 1 demo_table_ok demo_table_room)
    as [_ (a & w & Hr & Hf)].
  exists a, w. split; [exact Hr|]. destruct (Hf 0) as [->|[_ Hc]]; [reflexivity|lia].
Defined.

(** ** Where the code departs from its intent *)

(** With descriptors 0 and 1 both close-on-exec, [on_exec] leaves 1 open: the
    cursor already points at the next element after [remove], and [pick] then
    moves it once more. *)
Theorem on_exec_leaves_cloexec :
  exists a w, fa_on_exec demo_world demo_table = Ret (a, w) /\
    rb_find 0 (fa_files a) = None /\ rb_find 1 (fa_files a) = Some (mkOpen 1 FD_CLOEXEC 1).
Proof. eexists _, _. split_and!; reflexivity. Qed.

(** Duplicating onto the last descriptor number and asking [F_DUPFD] for a
    number from there on wraps around to a used descriptor and panics. *)
Theorem dupfd_wraps_around :
  exists a w, fa_dup_to demo_world demo_table 0 (2 ^ 32 - 1) 0 = Ret (2 ^ 32 - 1, a, w) /\
    fa_fcntl w a 0 F_DUPFD (2 ^ 32 - 1) = Panic.
Proof. eexists _, _. split; reflexivity. Qed.

(** [fcntl(F_SETFL)] on the write end of a pipe drops its access mode. *)
Theorem setfl_drops_access_mode :
  exists a w, fa_fcntl demo_world demo_table 1 F_SETFL O_NONBLOCK = Ret (0, a, w) /\
    oflags_write (default 0 (file_flags <$> w_files demo_world !! 1%nat)) = true /\
    oflags_write (default 0 (file_flags <$> w_files w !! 1%nat)) = false.
Proof. eexists _, _. split_and!; reflexivity. Qed.
