(* ===== verification/FileRw.v ===== *)
(** * The calls that move bytes between files and user memory

    [read], [write], [readv], [writev] and their forms with an offset,
    [copy_file_range], [splice] and [lseek] of src/kernel/syscall/file_rw.rs, and
    [sendfile] of src/kernel/vfs/file/mod.rs.

    The calls are written against the class [FileIo] of what a file does; the
    instance is a set of tmpfs files (InodeFile.v) with any number of open files
    on any number of inodes.  [io_get] is the look-up of a descriptor, at the
    place where each call does it. *)

From S2P Require Import Prelude Io OpenFlags Mode PageCache InodeFile UserMem UserIo.

(** ** What a file does: [FileType::read], [write] and [size] *)

Class FileIo (W F : Type) := {
  io_get : W -> F -> outcome unit;
  io_read {B} `{Buffer B} : W -> F -> B -> option Z -> W * B * outcome nat;
  io_write {T} `{Stream T} : W -> F -> T -> option Z -> W * outcome nat;
  io_size : W -> F -> outcome Z
}.

(** [isize] and [usize] have the same bits. *)
Definition to_isize (x : Z) : Z := if x <? 2 ^ 63 then x else x - 2 ^ 64.

(** [isize::from_le_bytes] and [to_le_bytes]. *)
Definition isize_from_bytes (bs : list Z) : Z := to_isize (little_endian_to_Z 8 bs).
Definition isize_to_bytes (x : Z) : list Z := Z_to_little_endian 8 8 (wrap64 x).

Section Calls.
Context {W F : Type} `{FileIo W F}.

(** ** [read] and [write] *)

Definition sys_read (m : UMem) (w : W) (f : F) (buffer : Z) (bufsize : nat) (offset : option Z) : UMem * W * outcome nat :=
  match user_buffer_new buffer bufsize with
  | Ret b =>
      match io_get w f with
      | Ret _ => let '(w, b, r) := io_read w f (mkUBuf m b : UBuf m buffer bufsize) offset in (ubf_mem b, w, r)
      | Err e => (m, w, Err e)
      | Panic => (m, w, Panic)
      end
  | Err e => (m, w, Err e)
  | Panic => (m, w, Panic)
  end.

Definition sys_write (m : UMem) (w : W) (f : F) (buffer : Z) (count : nat) (offset : option Z) : W * outcome nat :=
  match checked_new buffer count with
  | Ret p =>
      match io_get w f with
      | Ret _ => io_write w f (mkUStream m p) offset
      | Err e => (w, Err e)
      | Panic => (w, Panic)
      end
  | Err e => (w, Err e)
  | Panic => (w, Panic)
  end.

(** ** Vectors *)

Record IoVec := mkIoVec { iv_base : Z; iv_len : Z }.

Definition iovec_of_bytes (bs : list Z) : IoVec :=
  mkIoVec (little_endian_to_Z 8 (take 8 bs)) (little_endian_to_Z 8 (drop 8 bs)).

(** The iterator over the vector: each element is read, the pointer moves to the
    next one, and an element with bytes is turned into a checked pointer.  The
    first error ends it. *)
Fixpoint read_iovecs (m : UMem) (iov_user : Z) (iovcnt : nat) : outcome (list CheckedUserPointer) :=
  match iovcnt with
  | O => Ret []
  | S n =>
      bs ← user_pointer_read m iov_user 16;
      checked_new (iov_user + 16) 16;;
      let v := iovec_of_bytes bs in
      if iv_len v =? 0 then read_iovecs m (iov_user + 16) n
      else
        p ← checked_new (iv_base v) (Z.to_nat (iv_len v));
        l ← read_iovecs m (iov_user + 16) n;
        Ret (p :: l)
  end.

Definition do_writev (m : UMem) (w : W) (f : F) (iov_user : Z) (iovcnt : nat) (offset : option Z) : W * outcome nat :=
  match (io_get w f;; checked_new iov_user 16;; read_iovecs m iov_user iovcnt) with
  | Ret streams => io_write w f (iov_stream_new m streams) offset
  | Err e => (w, Err e)
  | Panic => (w, Panic)
  end.

(** The loop of [do_readv] over its buffers. *)
Fixpoint readv_loop (m : UMem) (w : W) (f : F) (buffers : list CheckedUserPointer) (offset : option Z) (tot : nat) : UMem * W * outcome nat :=
  match buffers with
  | [] => (m, w, Ret tot)
  | p :: buffers =>
      let b := mkUserBuffer p (up_len p) 0 in
      let '(w, b', r) := io_read w f (mkUBuf m b : UBuf m (up_ptr p) (up_len p)) (offset ≫= fun o => Some (wrap64 (o + Z.of_nat tot))) in
      let m := ubf_mem b' in
      match r with
      | Ret nread =>
          let tot := (tot + nread)%nat in
          if (nread =? ub_size b)%nat then readv_loop m w f buffers offset tot else (m, w, Ret tot)
      | Err e => (m, w, Err e)
      | Panic => (m, w, Panic)
      end
  end.

Definition do_readv (m : UMem) (w : W) (f : F) (iov_user : Z) (iovcnt : nat) (offset : option Z) : UMem * W * outcome nat :=
  match (io_get w f;; checked_new iov_user 16;; read_iovecs m iov_user iovcnt) with
  | Ret buffers => readv_loop m w f buffers offset 0
  | Err e => (m, w, Err e)
  | Panic => (m, w, Panic)
  end.

Definition split_offset (offset_low offset_high : Z) : outcome Z :=
  Ret (Z.lor (wrap64 (Z.shiftl offset_high 32)) offset_low).

Definition sys_preadv (m : UMem) (w : W) (f : F) (iov_user : Z) (iovcnt : nat) (offset_low offset_high : Z) : UMem * W * outcome nat :=
  match split_offset offset_low offset_high with
  | Ret o => do_readv m w f iov_user iovcnt (Some o)
  | Err e => (m, w, Err e)
  | Panic => (m, w, Panic)
  end.

Definition sys_pwritev (m : UMem) (w : W) (f : F) (iov_user : Z) (iovcnt : nat) (offset_low offset_high : Z) : W * outcome nat :=
  match split_offset offset_low offset_high with
  | Ret o => do_writev m w f iov_user iovcnt (Some o)
  | Err e => (w, Err e)
  | Panic => (w, Panic)
  end.

Definition sys_preadv2 (m : UMem) (w : W) (f : F) (iov_user : Z) (iovcnt : nat) (offset_low offset_high flags : Z) : UMem * W * outcome nat :=
  if negb (flags =? 0) then (m, w, Err EINVAL) else sys_preadv m w f iov_user iovcnt offset_low offset_high.

Definition sys_pwritev2 (m : UMem) (w : W) (f : F) (iov_user : Z) (iovcnt : nat) (offset_low offset_high flags : Z) : W * outcome nat :=
  if negb (flags =? 0) then (w, Err EINVAL) else sys_pwritev m w f iov_user iovcnt offset_low offset_high.

(** ** [copy_file_range] and [splice] *)

(** [UserBuffer::as_slice]: the bytes are read without a fix-up entry, so an
    address that is not mapped faults in the kernel. *)
Definition ub_as_slice (m : UMem) (b : UserBuffer) : outcome (list Z) :=
  let (bs, left) := load_loop m (up_ptr (ub_ptr b)) (up_len (ub_ptr b)) in
  if (left =? 0)%nat then Ret bs else Panic.

(** The offset behind [off_in], with its buffer: [inl] is an early return. *)
Definition copy_in_offset (m : UMem) (w : W) (file_in : F) (off_in : Z) : outcome (Z + option (Z * UserBuffer)) :=
  if off_in =? 0 then Ret (inr None)
  else
    b ← user_buffer_new off_in 8;
    bs ← ub_as_slice m b;
    let offset := isize_from_bytes bs in
    size ← io_size w file_in;
    assert_ (size <? 2 ^ 63);;
    if size <? offset then Ret (inl 0)
    else if offset <? 0 then Ret (inl (-1))
    else Ret (inr (Some (offset, b))).

Definition copy_out_offset (m : UMem) (off_out : Z) : outcome (Z + option (Z * UserBuffer)) :=
  if off_out =? 0 then Ret (inr None)
  else
    b ← user_buffer_new off_out 8;
    bs ← ub_as_slice m b;
    let offset := isize_from_bytes bs in
    if offset <? 0 then Ret (inl (-1)) else Ret (inr (Some (offset, b))).

Definition at_offset (offset : option Z) (total_copied : Z) : option Z :=
  offset ≫= fun o => Some (wrap64 (o + total_copied)).

(** The loop: [true] in the result is the early return of -1. *)
Fixpoint copy_loop (fuel : nat) (w : W) (file_in : F) (input_offset : option Z) (file_out : F) (output_offset : option Z)
    (is_splice : bool) (remaining total_copied : Z) : option (W * outcome (bool * Z)) :=
  match fuel with
  | O => None
  | S fuel =>
      if remaining <=? 0 then Some (w, Ret (false, total_copied))
      else
        let to_read := Z.min remaining 4096 in
        if to_read =? 0 then Some (w, Ret (false, total_copied))
        else
          let '(w, b, r) := io_read w file_in (byte_buffer_new (replicate (Z.to_nat to_read) 0)) (at_offset input_offset total_copied) in
          match r with
          | Err e => Some (w, Err e)
          | Panic => Some (w, Panic)
          | Ret read_bytes =>
              if (read_bytes =? 0)%nat then Some (w, Ret (false, total_copied))
              else
                let '(w, r) := io_write w file_out (into_stream (take read_bytes (bb_buf b))) (at_offset output_offset total_copied) in
                match r with
                | Err e => Some (w, Err e)
                | Panic => Some (w, Panic)
                | Ret written_bytes =>
                    if (written_bytes =? 0)%nat then Some (w, Ret (false, total_copied))
                    else
                      let total_copied := wrap64 (total_copied + Z.of_nat written_bytes) in
                      let remaining := wrap64 (remaining - Z.of_nat written_bytes) in
                      if (written_bytes <? read_bytes)%nat then Some (w, Ret (true, total_copied))
                      else if is_splice && bool_decide (input_offset = None) then Some (w, Ret (false, total_copied))
                      else copy_loop fuel w file_in input_offset file_out output_offset is_splice remaining total_copied
                end
          end
  end.

(** The new offset is stored; the result of the store is not looked at. *)
Definition store_offset (m : UMem) (o : option (Z * UserBuffer)) (total_copied : Z) : UMem :=
  match o with
  | Some (offset, b) => (ub_fill m b (isize_to_bytes (offset + total_copied))).1
  | None => m
  end.

Definition do_copy_or_splice (fuel : nat) (m : UMem) (w : W) (file_in : F) (off_in : Z) (file_out : F) (off_out : Z)
    (len : Z) (is_splice : bool) : option (UMem * W * outcome Z) :=
  match copy_in_offset m w file_in off_in with
  | Err e => Some (m, w, Err e)
  | Panic => Some (m, w, Panic)
  | Ret (inl n) => Some (m, w, Ret n)
  | Ret (inr oin) =>
      match copy_out_offset m off_out with
      | Err e => Some (m, w, Err e)
      | Panic => Some (m, w, Panic)
      | Ret (inl n) => Some (m, w, Ret n)
      | Ret (inr oout) =>
          match copy_loop fuel w file_in (fst <$> oin) file_out (fst <$> oout) is_splice len 0 with
          | Some (w, Ret (true, _)) => Some (m, w, Ret (-1))
          | Some (w, Ret (false, n)) => Some (store_offset (store_offset m oin n) oout n, w, Ret n)
          | Some (w, Err e) => Some (m, w, Err e)
          | Some (w, Panic) => Some (m, w, Panic)
          | None => None
          end
      end
  end.

Definition sys_copy_file_range (fuel : nat) (m : UMem) (w : W) (file_in : F) (off_in : Z) (file_out : F) (off_out len : Z) : option (UMem * W * outcome Z) :=
  if len =? 0 then Some (m, w, Ret 0)
  else
    match (io_get w file_in;; io_get w file_out) with
    | Ret _ => do_copy_or_splice fuel m w file_in off_in file_out off_out len false
    | Err e => Some (m, w, Err e)
    | Panic => Some (m, w, Panic)
    end.

Definition sys_splice (fuel : nat) (m : UMem) (w : W) (file_in : F) (off_in : Z) (file_out : F) (off_out len : Z) : option (UMem * W * outcome Z) :=
  if len =? 0 then Some (m, w, Ret 0)
  else
    match (io_get w file_in;; io_get w file_out) with
    | Ret _ => do_copy_or_splice fuel m w file_in off_in file_out off_out len true
    | Err e => Some (m, w, Err e)
    | Panic => Some (m, w, Panic)
    end.

(** ** [sendfile] *)

(** [check] is [sendfile_check], [pending] whether a signal is pending in each
    round. *)
Fixpoint sendfile_loop (chunks : list (Z * Z)) (pending : Z -> bool) (w : W) (file dest : F) (nsent : nat) : W * outcome nat :=
  match chunks with
  | [] => (w, Ret nsent)
  | (cur, len) :: chunks =>
      if pending cur then (w, if cur =? 0 then Err EINTR else Ret (Z.to_nat cur))
      else
        let '(w, b, r) := io_read w file (byte_buffer_new (replicate (Z.to_nat len) 0)) None in
        match r with
        | Err e => (w, Err e)
        | Panic => (w, Panic)
        | Ret nread =>
            if (nread =? 0)%nat then (w, Ret nsent)
            else
              let '(w, r) := io_write w dest (into_stream (take nread (bb_buf b))) None in
              match r with
              | Err e => (w, Err e)
              | Panic => (w, Panic)
              | Ret nwrote =>
                  let nsent := (nsent + nwrote)%nat in
                  if Z.of_nat nwrote =? len then sendfile_loop chunks pending w file dest nsent
                  else (w, Ret nsent)
              end
        end
  end.

Definition file_sendfile (check : F -> outcome unit) (pending : Z -> bool) (fuel : nat) (w : W) (file dest : F) (count : Z) : option (W * outcome nat) :=
  match check file with
  | Err e => Some (w, Err e)
  | Panic => Some (w, Panic)
  | Ret _ =>
      match chunks_collect fuel (chunks_new 0 count 4096) with
      | Some chunks => Some (sendfile_loop chunks pending w file dest 0)
      | None => None
      end
  end.
End Calls.

(** ** Files of the memory file system

    Any number of inodes, and open files that each refer to one of them. *)

Record RwWorld := mkRwWorld { wd_inodes : gmap nat FileInode; wd_files : gmap nat (nat * InodeFile) }.

Definition world_read {B} `{Buffer B} (w : RwWorld) (f : nat) (b : B) (offset : option Z) : RwWorld * B * outcome nat :=
  match wd_files w !! f with
  | None => (w, b, Err EBADF)
  | Some (i, file) =>
      match wd_inodes w !! i with
      | None => (w, b, Panic)
      | Some fi =>
          match inode_file_read (fun b _ => (b, Err EINVAL)) (fun b => (b, Err EPERM)) file fi b offset with
          | Some (file, fi, b, r) => (mkRwWorld (<[i := fi]> (wd_inodes w)) (<[f := (i, file)]> (wd_files w)), b, r)
          | None => (w, b, Panic)
          end
      end
  end.

Definition world_write {T} `{Stream T} (w : RwWorld) (f : nat) (s : T) (offset : option Z) : RwWorld * outcome nat :=
  match wd_files w !! f with
  | None => (w, Err EBADF)
  | Some (i, file) =>
      match wd_inodes w !! i with
      | None => (w, Panic)
      | Some fi =>
          match inode_file_write (fun s => (s, Err EPERM)) (write_fuel (st_total s)) file fi s offset with
          | Some (file, fi, _, r) => (mkRwWorld (<[i := fi]> (wd_inodes w)) (<[f := (i, file)]> (wd_files w)), r)
          | None => (w, Panic)
          end
      end
  end.

Definition world_get (w : RwWorld) (f : nat) : outcome unit :=
  match wd_files w !! f with Some _ => Ret tt | None => Err EBADF end.

Definition world_size (w : RwWorld) (f : nat) : outcome Z :=
  match wd_files w !! f with
  | None => Err EBADF
  | Some (i, _) => fi ← expect (wd_inodes w !! i); Ret (fi_size fi)
  end.

#[export] Instance world_io : FileIo RwWorld nat := {
  io_get := world_get;
  io_read _ _ := world_read;
  io_write _ _ := world_write;
  io_size := world_size
}.

(** [SEEK_SET], [SEEK_CUR] and [SEEK_END]. *)
Definition SEEK_SET : Z := 0.
Definition SEEK_CUR : Z := 1.
Definition SEEK_END : Z := 2.

Definition world_seek (w : RwWorld) (f : nat) (opt : SeekOption) : RwWorld * outcome Z :=
  match wd_files w !! f with
  | None => (w, Err EBADF)
  | Some (i, file) =>
      match wd_inodes w !! i with
      | None => (w, Panic)
      | Some fi =>
          let (file, r) := inode_file_seek file fi opt in
          (mkRwWorld (wd_inodes w) (<[f := (i, file)]> (wd_files w)), r)
      end
  end.

Definition do_lseek (w : RwWorld) (fd : nat) (offset whence : Z) : RwWorld * outcome Z :=
  match wd_files w !! fd with
  | None => (w, Err EBADF)
  | Some _ =>
      if whence =? SEEK_SET then world_seek w fd (SeekSet offset)
      else if whence =? SEEK_CUR then world_seek w fd (SeekCurrent (to_isize offset))
      else if whence =? SEEK_END then world_seek w fd (SeekEnd (to_isize offset))
      else (w, Err EINVAL)
  end.

(** [InodeFile::sendfile_check] for an open file. *)
Definition world_sendfile_check (w : RwWorld) (f : nat) : outcome unit :=
  match wd_files w !! f with
  | Some (_, file) => inode_file_sendfile_check file
  | None => Err EBADF
  end.

(** What an open file sees: its inode, the bytes of the file, and the file's own
    state. *)
Definition view (w : RwWorld) (f : nat) : option (nat * list Z * InodeFile) :=
  '(i, file) ← wd_files w !! f;
  fi ← wd_inodes w !! i;
  Some (i, fi_contents fi, file).

Record rw_world_ok (w : RwWorld) : Prop := {
  wok_inode i fi : wd_inodes w !! i = Some fi -> fi_ok fi;
  wok_file f i file : wd_files w !! f = Some (i, file) -> is_Some (wd_inodes w !! i) /\ is_u64 (if_cursor file);
}.
