(* ===== verification/FileMove.v ===== *)
(** * Reading, writing and copying files

    What the calls of FileRw.v do to the contents of tmpfs files and to user
    memory. *)

From S2P Require Import Prelude Io OpenFlags Mode PageCache InodeFile UserMem UserIo FileRw.

(** ** One read and one write *)

Lemma view_Some w f i l file :
  view w f = Some (i, l, file) ->
  exists fi, wd_files w !! f = Some (i, file) /\ wd_inodes w !! i = Some fi /\ l = fi_contents fi.
Proof.
  unfold view. destruct (wd_files w !! f) as [[j g]|] eqn:Ef; [|done]. simpl.
  destruct (wd_inodes w !! j) as [fi|] eqn:Ei; [|done]. simpl. intros [= <- <- <-]. eauto.
Qed.

(** The world after inode [i] and file [f] on it have changed. *)
Definition updated (w : RwWorld) (f i : nat) (fi : FileInode) (file : InodeFile) : RwWorld :=
  mkRwWorld (<[i := fi]> (wd_inodes w)) (<[f := (i, file)]> (wd_files w)).

Lemma view_updated w f i fi file : view (updated w f i fi file) f = Some (i, fi_contents fi, file).
Proof. unfold view, updated. simpl. rewrite lookup_insert_eq. simpl. by rewrite lookup_insert_eq. Qed.

Lemma view_other w f i fi file g j l h :
  g <> f -> view w g = Some (j, l, h) ->
  view (updated w f i fi file) g = Some (j, if decide (j = i) then fi_contents fi else l, h).
Proof.
  intros Hne Hg. apply view_Some in Hg as (gi & Hg & Hj & ->). unfold view, updated. simpl.
  rewrite lookup_insert_ne by done. rewrite Hg. simpl. destruct (decide (j = i)) as [->|Hji].
  - by rewrite lookup_insert_eq.
  - by rewrite lookup_insert_ne, Hj.
Qed.

Lemma world_ok_updated w f i fi file :
  rw_world_ok w -> fi_ok fi -> is_u64 (if_cursor file) -> rw_world_ok (updated w f i fi file).
Proof.
  intros [Hi Hf] Hfi Hc. split; simpl.
  - intros j g. destruct (decide (j = i)) as [->|]; [rewrite lookup_insert_eq; by intros [= <-]|].
    rewrite lookup_insert_ne by done. apply Hi.
  - intros g j h Hg. destruct (decide (g = f)) as [->|].
    + rewrite lookup_insert_eq in Hg. injection Hg as <- <-. rewrite lookup_insert_eq. eauto.
    + rewrite lookup_insert_ne in Hg by done. destruct (Hf g j h Hg) as [Hj Hh]. split; [|done].
      destruct (decide (j = i)) as [->|]; [rewrite lookup_insert_eq; eauto|by rewrite lookup_insert_ne].
Qed.

(** The other open files keep their cursors; those on other inodes also see the
    same bytes. *)
Definition same_others (f i : nat) (l : list Z) (w w' : RwWorld) : Prop :=
  forall g j lg h, g <> f -> view w g = Some (j, lg, h) ->
    view w' g = Some (j, if decide (j = i) then l else lg, h).

Definition read_pos (file : InodeFile) (offset : option Z) : Z := default (if_cursor file) offset.

Definition after_read (file : InodeFile) (offset : option Z) (n : nat) : InodeFile :=
  match offset with None => set_cursor file (if_cursor file + Z.of_nat n) | Some _ => file end.

Definition after_write (l : list Z) (file : InodeFile) (offset : option Z) (n : nat) : InodeFile :=
  if if_a file || bool_decide (offset = None)
  then set_cursor file (write_position l file offset + Z.of_nat n) else file.

Lemma view_get w f x : view w f = Some x -> io_get w f = Ret tt.
Proof. unfold view. cbn [io_get world_io]. unfold world_get. by destruct (wd_files w !! f). Qed.

Lemma world_read_ok `{BufferLaws B} w f i l file (b : B) offset :
  rw_world_ok w -> view w f = Some (i, l, file) -> if_r file = true -> buf_ok b -> buf_wrote b = 0%nat ->
  from_option is_u64 True offset ->
  let d := take (available b) (drop (Z.to_nat (read_pos file offset)) l) in
  exists w' b', world_read w f b offset = (w', b', Ret (length d)) /\ rw_world_ok w'
    /\ view w' f = Some (i, l, after_read file offset (length d)) /\ same_others f i l w w'
    /\ buf_ok b' /\ buf_data b' = buf_data b ++ d.
Proof.
  intros Hw Hv Hr Hb Hb0 Ho d. apply view_Some in Hv as (fi & Hf & Hi & ->).
  pose proof (wok_inode _ Hw _ _ Hi) as Hfi. pose proof (wok_file _ Hw _ _ _ Hf) as [_ Hc].
  assert (is_u64 (read_pos file offset)) as Hp by (unfold read_pos; by destruct offset).
  destruct (fi_read_ok fi b (read_pos file offset) Hfi Hb (proj1 Hp)) as (fi' & b' & E & Hfi' & Hs & Hct & Hb' & Hd).
  fold d in Hd.
  assert (length d = buf_wrote b') as Hlen.
  { rewrite (buf_wrote_data b' Hb'), Hd, length_app, <- (buf_wrote_data b Hb), Hb0. done. }
  assert (dentry_read (fun b _ => (b, Err EINVAL)) (fun b => (b, Err EPERM)) fi b (read_pos file offset)
          = Some (fi', b', Ret (buf_wrote b'))) as Er.
  { unfold dentry_read. by rewrite (proj1 (proj2 Hfi)). }
  assert (is_u64 (if_cursor file + Z.of_nat (length d)) \/ offset <> None) as Hu.
  { destruct offset; [by right|left]. unfold d, read_pos. simpl. rewrite length_take, length_drop.
    pose proof (fi_contents_length _ Hfi). destruct Hfi as (Hs' & _). unfold file_inode_ok, is_u64 in *. lia. }
  exists (updated w f i fi' (after_read file offset (length d))), b'.
  split; [|split; [|split; [|split; [|done]]]].
  - unfold world_read, inode_file_read. rewrite Hf, Hi, Hr. cbn [negb]. unfold read_pos in Er.
    destruct offset as [o|]; cbn [default from_option id] in Er; rewrite Er, Hlen; [done|].
    unfold after_read. destruct Hu as [Hu|]; [|done]. rewrite <- Hlen, wrap64_small by done. done.
  - apply world_ok_updated; [done|done|]. destruct offset; [done|]. by destruct Hu.
  - rewrite view_updated. by rewrite Hct.
  - intros g j lg h Hne Hg. rewrite <- Hct. by apply view_other.
Qed.

Lemma world_write_ok `{StreamLaws T} w f i l file (s : T) offset :
  let d := st_rest s in let p := write_position l file offset in
  rw_world_ok w -> view w f = Some (i, l, file) -> if_w file = true ->
  st_ok s -> st_total s = length d -> d <> [] -> from_option is_u64 True offset ->
  p <= Z.of_nat (length l) -> p + Z.of_nat (length d) < 2 ^ 64 ->
  let l' := bytes_write l (Z.to_nat p) d in
  exists w', world_write w f s offset = (w', Ret (length d)) /\ rw_world_ok w'
    /\ view w' f = Some (i, l', after_write l file offset (length d)) /\ same_others f i l' w w'.
Proof.
  intros d p Hw Hv Hwr Hs Ht Hne Ho Hp Hu l'. apply view_Some in Hv as (fi & Hf & Hi & ->).
  pose proof (wok_inode _ Hw _ _ Hi) as Hfi. pose proof (wok_file _ Hw _ _ _ Hf) as [_ Hc].
  pose proof (fi_contents_length _ Hfi) as Hlen.
  set (wo := if if_a file then WEnd else WPosition (default (if_cursor file) offset)).
  assert (write_at fi wo = p) as Ep by (unfold wo, p, write_position; destruct (if_a file); simpl; [lia|done]).
  assert (0 <= p) as Hp0.
  { unfold p, write_position. destruct (if_a file); [lia|]. destruct offset; simpl; [apply Ho|apply Hc]. }
  pose proof (fi_write_ok fi s wo) as Hwrite. cbv zeta in Hwrite. rewrite Ep in Hwrite. fold d in Hwrite.
  destruct (Hwrite Hs Hfi Hne Hp0 Hu) as (fi' & s' & E & Hfi' & Hct); [apply fi_write_safe_inside; lia|].
  assert (dentry_write (fun s => (s, Err EPERM)) (write_fuel (length d)) fi s wo =
    Some (fi', s', Ret (length d, match wo with WEnd => Some (p + Z.of_nat (length d)) | WPosition _ => None end))) as Ew.
  { unfold dentry_write. by rewrite (proj1 (proj2 Hfi)). }
  assert (is_u64 (p + Z.of_nat (length d))) as Hu' by (unfold is_u64; lia).
  exists (updated w f i fi' (after_write (fi_contents fi) file offset (length d))).
  split; [|split; [|split]].
  - unfold world_write, inode_file_write. rewrite Hf, Hi, Hwr, Ht. cbn [negb].
    unfold after_write. fold p. unfold wo in Ew. destruct (if_a file) eqn:Ea; [|destruct offset as [o|]];
      cbn [default from_option id] in Ew; rewrite Ew; cbn [orb].
    + done.
    + by rewrite bool_decide_eq_false_2.
    + rewrite bool_decide_eq_true_2 by done.
      assert (p = if_cursor file) as Epc by (unfold p, write_position; by rewrite Ea).
      rewrite <- Epc, wrap64_small by done. done.
  - apply world_ok_updated; [done|done|]. unfold after_write. fold p. by destruct (if_a file || _).
  - rewrite view_updated. by rewrite Hct.
  - intros g j lg h Hg Hgv. unfold l'. rewrite <- Hct. by apply view_other.
Qed.

(** ** Vectors in user memory *)

Definition iovec_bytes (v : IoVec) : list Z :=
  Z_to_little_endian 8 8 (iv_base v) ++ Z_to_little_endian 8 8 (iv_len v).

(** The array of vectors is at [addr]. *)
Fixpoint iovecs_at (m : UMem) (addr : Z) (vs : list IoVec) : Prop :=
  match vs with
  | [] => True
  | v :: vs => mapped m addr 16 /\ bytes_at m addr 16 = iovec_bytes v /\ iovecs_at m (addr + 16) vs
  end.

(** A vector whose bytes are mapped user memory. *)
Record vec_ok (m : UMem) (v : IoVec) : Prop := {
  vec_base : is_u64 (iv_base v);
  vec_len : is_u64 (iv_len v);
  vec_user : iv_len v <> 0 -> 0 < iv_base v /\ iv_base v + iv_len v <= USER_MAX_ADDR;
  vec_mapped : mapped m (iv_base v) (Z.to_nat (iv_len v));
}.

(** The array is where the call looks for it; the pointer behind its last element
    has to be a user pointer as well. *)
Definition vector_at (m : UMem) (iov_user : Z) (vs : list IoVec) : Prop :=
  0 < iov_user /\ iov_user + 16 * Z.of_nat (S (length vs)) <= USER_MAX_ADDR
  /\ iovecs_at m iov_user vs /\ Forall (vec_ok m) vs.

Definition vec_ptr (v : IoVec) : CheckedUserPointer := mkUserPtr (iv_base v) (Z.to_nat (iv_len v)).
Definition vec_pieces (vs : list IoVec) : list CheckedUserPointer :=
  vec_ptr <$> filter (fun v => iv_len v <> 0) vs.
Definition vec_bytes (m : UMem) (vs : list IoVec) : list Z := concat (ptr_bytes m <$> vec_pieces vs).

Lemma length_le8 z : length (Z_to_little_endian 8 8 z) = 8%nat.
Proof. pose proof (length_Z_to_little_endian 8 8 z). lia. Qed.

Lemma iovec_of_bytes_of v : is_u64 (iv_base v) -> is_u64 (iv_len v) -> iovec_of_bytes (iovec_bytes v) = v.
Proof.
  intros Hb Hl. unfold iovec_of_bytes, iovec_bytes. unfold is_u64 in *.
  rewrite take_app_length', drop_app_length' by (by rewrite length_le8).
  rewrite !little_endian_to_Z_to_little_endian by lia.
  rewrite !Z.mod_small by (simpl; lia). by destruct v.
Qed.

Lemma read_iovecs_ok m addr vs :
  0 < addr -> addr + 16 * Z.of_nat (S (length vs)) <= USER_MAX_ADDR ->
  iovecs_at m addr vs -> Forall (vec_ok m) vs ->
  read_iovecs m addr (length vs) = Ret (vec_pieces vs).
Proof.
  intros Ha Hl Hat Hok. revert addr Ha Hl Hat. induction Hok as [|v vs Hv Hvs IH]; intros addr Ha Hl Hat; [done|].
  destruct Hat as (Hm & Hb & Hat). destruct Hv as [Hvb Hvl Hvu Hvm]. cbn [length read_iovecs].
  unfold user_pointer_read. cbn [length] in Hl. rewrite !checked_new_ok by lia. cbn [mbind outcome_bind].
  rewrite up_read_ok by (done || simpl; lia). cbn [mbind outcome_bind up_ptr]. rewrite Hb, iovec_of_bytes_of by done.
  rewrite IH by (done || lia). unfold vec_pieces. rewrite filter_cons.
  destruct (Z.eqb_spec (iv_len v) 0) as [Hz|Hz]; [by rewrite decide_False by tauto|].
  rewrite decide_True by done. destruct (Hvu Hz) as [Hp He]. unfold is_u64 in *.
  rewrite checked_new_ok by lia. done.
Qed.

Lemma vector_read m iov_user vs :
  vector_at m iov_user vs ->
  (checked_new iov_user 16;; read_iovecs m iov_user (length vs)) = Ret (vec_pieces vs).
Proof. intros (Hp & Hl & Hat & Hok). rewrite checked_new_ok by lia. by apply read_iovecs_ok. Qed.

Lemma pieces_ok m vs : Forall (vec_ok m) vs -> Forall (ptr_ok m) (vec_pieces vs).
Proof.
  intros Hok. unfold vec_pieces. apply Forall_fmap, Forall_forall. intros v Hv.
  apply list_elem_of_filter in Hv as [_ Hv]. rewrite Forall_forall in Hok. exact (vec_mapped _ _ (Hok v Hv)).
Qed.

Lemma length_concat_pieces m ps : length (concat (ptr_bytes m <$> ps)) = sum_list (up_len <$> ps).
Proof. induction ps as [|p ps IH]; [done|]. csimpl. by rewrite length_app, IH, length_ptr_bytes. Qed.

(** Writing a vector is writing its bytes in one piece. *)
Lemma do_writev_ok m w f i l file iov_user vs offset :
  let d := vec_bytes m vs in let p := write_position l file offset in
  vector_at m iov_user vs -> rw_world_ok w -> view w f = Some (i, l, file) -> if_w file = true ->
  d <> [] -> from_option is_u64 True offset -> p <= Z.of_nat (length l) -> p + Z.of_nat (length d) < 2 ^ 64 ->
  let l' := bytes_write l (Z.to_nat p) d in
  exists w', do_writev m w f iov_user (length vs) offset = (w', Ret (length d)) /\ rw_world_ok w'
    /\ view w' f = Some (i, l', after_write l file offset (length d)) /\ same_others f i l' w w'.
Proof.
  intros d p Hvec Hw Hv Hwr Hne Ho Hp Hu. unfold do_writev. rewrite (view_get w f _ Hv). cbn [mbind outcome_bind]. rewrite (vector_read m iov_user vs Hvec).
  destruct Hvec as (_ & _ & _ & Hok).
  pose proof (world_write_ok w f i l file (iov_stream_new m (vec_pieces vs)) offset) as HW. cbv zeta in HW.
  change (st_rest (iov_stream_new m (vec_pieces vs))) with d in HW. apply HW; try done.
  - by apply pieces_ok.
  - unfold d, vec_bytes. by rewrite length_concat_pieces.
Qed.

(** ** Reading into a vector *)

Definition in_piece (p : CheckedUserPointer) (a : Z) : Prop := up_ptr p <= a < up_ptr p + Z.of_nat (up_len p).

(** No byte belongs to two pieces. *)
Fixpoint disjoint_pieces (ps : list CheckedUserPointer) : Prop :=
  match ps with
  | [] => True
  | p :: ps => (forall q a, q ∈ ps -> in_piece p a -> ~ in_piece q a) /\ disjoint_pieces ps
  end.

(** Memory that differs only inside [p], and where [p] is still mapped. *)
Definition only_inside (p : CheckedUserPointer) (m m' : UMem) : Prop :=
  (forall a, ~ in_piece p a -> m' !! a = m !! a) /\ ptr_ok m' p.

Lemma only_inside_other p q m m' :
  only_inside p m m' -> (forall a, in_piece p a -> ~ in_piece q a) ->
  ptr_bytes m' q = ptr_bytes m q /\ (ptr_ok m q -> ptr_ok m' q).
Proof.
  intros [Hf _] Hd.
  assert (forall k, (k < up_len q)%nat -> m' !! (up_ptr q + Z.of_nat k) = m !! (up_ptr q + Z.of_nat k)) as E.
  { intros k Hk. apply Hf. intros Hp. apply (Hd _ Hp). unfold in_piece. lia. }
  split; [by apply bytes_at_ext|]. intros Hq k Hk. rewrite E by done. by apply Hq.
Qed.

Lemma same_others_refl f i l w : (forall g j lg h, view w g = Some (j, lg, h) -> j = i -> lg = l) -> same_others f i l w w.
Proof. intros H g j lg h _ Hg. rewrite Hg. destruct (decide (j = i)) as [->|]; [|done]. by rewrite (H g i lg h Hg). Qed.

Lemma same_others_trans f i l l' w w1 w2 : same_others f i l w w1 -> same_others f i l' w1 w2 -> same_others f i l' w w2.
Proof.
  intros H1 H2 g j lg h Hne Hg. rewrite (H2 g j _ h Hne (H1 g j lg h Hne Hg)). by destruct (decide (j = i)).
Qed.

(** Files on the same inode see the same bytes. *)
Lemma view_inode w f g i l file lg h : view w f = Some (i, l, file) -> view w g = Some (i, lg, h) -> lg = l.
Proof. intros Hf Hg. apply view_Some in Hf as (fi & _ & Hi & ->). apply view_Some in Hg as (gi & _ & Hj & ->). congruence. Qed.

Lemma after_read_add file offset k n : after_read (after_read file offset k) offset n = after_read file offset (k + n).
Proof. destruct offset; [done|]. simpl. unfold set_cursor. simpl. f_equal. lia. Qed.

(** Reading at the position that lies [k] bytes behind the first one. *)
Lemma read_pos_at file offset k :
  0 <= read_pos file offset -> read_pos file offset + Z.of_nat k < 2 ^ 64 ->
  read_pos (after_read file offset k) (at_offset offset (Z.of_nat k)) = read_pos file offset + Z.of_nat k.
Proof. destruct offset as [o|]; simpl; intros H0 Hu; [|done]. apply wrap64_small. unfold is_u64. lia. Qed.

Lemma after_read_at file offset n x :
  after_read file (at_offset offset x) n = after_read file offset n.
Proof. by destruct offset. Qed.

Lemma at_offset_u64 offset x : from_option is_u64 True (at_offset offset x).
Proof. destruct offset; [|done]. apply wrap64_range. Qed.

(** One buffer of a vector. *)
Lemma read_piece w f i l file p m offset :
  rw_world_ok w -> view w f = Some (i, l, file) -> if_r file = true -> ptr_ok m p -> from_option is_u64 True offset ->
  let d := take (up_len p) (drop (Z.to_nat (read_pos file offset)) l) in
  exists w' b', io_read w f (mkUBuf m (mkUserBuffer p (up_len p) 0) : UBuf m (up_ptr p) (up_len p)) offset
                = (w', b', Ret (length d))
    /\ rw_world_ok w' /\ view w' f = Some (i, l, after_read file offset (length d)) /\ same_others f i l w w'
    /\ only_inside p m (ubf_mem b') /\ ptr_bytes (ubf_mem b') p = d ++ drop (length d) (ptr_bytes m p).
Proof.
  intros Hw Hv Hr Hp Ho d. set (b := mkUBuf m (mkUserBuffer p (up_len p) 0) : UBuf m (up_ptr p) (up_len p)).
  pose proof (ubf_new_ok m p Hp) as Hb. fold b in Hb.
  assert (buf_ok b) as Hb' by exact Hb. assert (buf_wrote b = 0%nat) as Hb0 by done.
  pose proof (world_read_ok w f i l file b offset Hw Hv Hr Hb' Hb0 Ho) as HR. cbv zeta in HR.
  replace (available b) with (up_len p) in HR by (unfold available; simpl; lia). fold d in HR.
  destruct HR as (w' & b' & E & Hw' & Hv' & Hs & Hok' & Hd). exists w', b'.
  destruct Hok' as [Hin Hsz Hfr]. split; [exact E|]. split; [done|]. split; [done|]. split; [done|].
  destruct Hin as (Hc & _ & _ & Hm'). rewrite Hsz in Hm', Hc. simpl in Hd.
  assert (ub_cur (ubf_buf b') = length d) as Hcur.
  { apply (f_equal length) in Hd. rewrite length_bytes_at in Hd. exact Hd. }
  split; [split; [|exact Hm']|].
  - intros a Ha. apply Hfr. unfold in_piece in Ha. lia.
  - rewrite Hcur in *. unfold ptr_bytes. rewrite drop_bytes_at by lia.
    pose proof (bytes_at_app (ubf_mem b') (up_ptr p) (length d) (up_len p - length d)) as Happ.
    replace (length d + (up_len p - length d))%nat with (up_len p) in Happ by lia. rewrite Happ, Hd. f_equal.
    apply bytes_at_ext. intros k Hk. apply Hfr. lia.
Qed.

Lemma after_read_r file offset k : if_r (after_read file offset k) = if_r file.
Proof. by destruct offset. Qed.

Lemma after_read_0 file offset : after_read file offset 0 = file.
Proof. destruct offset; [done|]. simpl. unfold set_cursor. rewrite Z.add_0_r. by destruct file. Qed.

(** Memory that is unchanged outside the pieces [ps]. *)
Definition unchanged_outside (ps : list CheckedUserPointer) (m m' : UMem) : Prop :=
  forall a, (forall p, p ∈ ps -> ~ in_piece p a) -> m' !! a = m !! a.

Lemma unchanged_bytes ps m m' q :
  unchanged_outside ps m m' -> (forall p a, p ∈ ps -> in_piece q a -> ~ in_piece p a) -> ptr_bytes m' q = ptr_bytes m q.
Proof.
  intros Hu Hd. apply bytes_at_ext. intros k Hk. apply Hu. intros p Hp. apply Hd; [done|]. unfold in_piece. lia.
Qed.

Lemma only_inside_pieces p ps m m' :
  only_inside p m m' -> (forall q a, q ∈ ps -> in_piece p a -> ~ in_piece q a) ->
  ptr_bytes m' <$> ps = ptr_bytes m <$> ps /\ (Forall (ptr_ok m) ps -> Forall (ptr_ok m') ps).
Proof.
  intros Ho Hd. split.
  - apply list_fmap_ext. intros k q Hq. apply list_elem_of_lookup_2 in Hq. apply (only_inside_other p); [done|]. eauto.
  - intros Hall. apply Forall_forall. intros q Hq. rewrite Forall_forall in Hall.
    apply (only_inside_other p q m m'); eauto.
Qed.

Lemma readv_loop_ok m w f i l file offset ps k :
  let q := read_pos file offset in let n := sum_list (up_len <$> ps) in
  rw_world_ok w -> view w f = Some (i, l, after_read file offset k) -> if_r file = true ->
  0 <= q -> q + Z.of_nat (k + n) < 2 ^ 64 -> Forall (ptr_ok m) ps -> disjoint_pieces ps ->
  let d := take n (drop (Z.to_nat q + k) l) in
  exists m' w', readv_loop m w f ps offset k = (m', w', Ret (k + length d)%nat) /\ rw_world_ok w'
    /\ view w' f = Some (i, l, after_read file offset (k + length d)) /\ same_others f i l w w'
    /\ concat (ptr_bytes m' <$> ps) = d ++ drop (length d) (concat (ptr_bytes m <$> ps))
    /\ unchanged_outside ps m m'.
Proof.
  revert m w k. induction ps as [|p ps IH]; intros m w k q n Hw Hv Hr Hq Hu Hok Hdis d.
  { exists m, w. unfold d, n. cbn. rewrite take_0, Nat.add_0_r. simpl. split_and!; try done.
    apply same_others_refl. intros g j lg h Hg ->. by eapply view_inode. }
  apply Forall_cons in Hok as [Hp Hok]. destruct Hdis as [Hd1 Hdis].
  unfold n in Hu. csimpl in Hu. set (n1 := sum_list (up_len <$> ps)) in *.
  destruct (read_piece w f i l (after_read file offset k) p m (at_offset offset (Z.of_nat k)))
    as (w1 & b1 & E1 & Hw1 & Hv1 & Hs1 & Hin1 & Hb1); [done|done|by rewrite after_read_r|done|apply at_offset_u64|].
  rewrite read_pos_at in * by (unfold q in *; lia). rewrite after_read_at, after_read_add in Hv1.
  replace (Z.to_nat (read_pos file offset + Z.of_nat k)) with (Z.to_nat q + k)%nat in * by (unfold q in *; lia).
  set (d1 := take (up_len p) (drop (Z.to_nat q + k) l)) in *.
  assert (d = d1 ++ take n1 (drop (up_len p) (drop (Z.to_nat q + k) l))) as Ed.
  { unfold d, n. csimpl. fold n1. by rewrite <- take_take_drop. }
  destruct (only_inside_pieces p ps m (ubf_mem b1) Hin1 Hd1) as [Hps Hok1].
  cbn [readv_loop]. fold (at_offset offset (Z.of_nat k)). rewrite E1. cbn [ub_size].
  destruct (Nat.eqb_spec (length d1) (up_len p)) as [Hfull|Hshort].
  - destruct (IH (ubf_mem b1) w1 (k + length d1)%nat) as (m2 & w2 & E2 & Hw2 & Hv2 & Hs2 & Hb2 & Hun); try done; [fold n1; unfold q in *; lia|by apply Hok1|].
    fold q n1 in E2, Hv2, Hb2. rewrite Nat.add_assoc, <- drop_drop, Hfull in E2, Hv2, Hb2.
    set (d2 := take n1 (drop (up_len p) (drop (Z.to_nat q + k) l))) in *.
    exists m2, w2. rewrite Ed, length_app, Hfull. rewrite Nat.add_assoc. split; [exact E2|].
    split; [done|]. split; [done|]. split; [by eapply same_others_trans|]. split.
    + csimpl. rewrite Hb2, (unchanged_bytes ps (ubf_mem b1) m2 p Hun) by eauto. rewrite Hb1, Hfull, Hps.
      rewrite (drop_ge (ptr_bytes m p) (up_len p)) by (rewrite length_ptr_bytes; lia).
      rewrite app_nil_r, <- app_assoc. do 2 f_equal. rewrite drop_app, length_ptr_bytes.
      rewrite (drop_ge (ptr_bytes m p) (up_len p + length d2)) by (rewrite length_ptr_bytes; lia). simpl. f_equal. lia.
    + intros a Ha. rewrite Hun by (intros; apply Ha; set_solver). apply Hin1. apply Ha. set_solver.
  - assert (drop (up_len p) (drop (Z.to_nat q + k) l) = []) as Hnil.
    { apply drop_ge. unfold d1 in Hshort. rewrite length_take in Hshort. lia. }
    rewrite Hnil, take_nil, app_nil_r in Ed. rewrite Ed. exists (ubf_mem b1), w1. split; [done|]. split; [done|].
    split; [done|]. split; [done|]. split.
    + csimpl. rewrite Hb1, Hps, <- app_assoc. f_equal. rewrite drop_app_le; [done|]. rewrite length_ptr_bytes.
      unfold d1. rewrite length_take. lia.
    + intros a Ha. apply Hin1, Ha. set_solver.
Qed.

(** Reading into a vector gives its pieces, in order, the bytes of the file from
    the position on. *)
Lemma do_readv_ok m w f i l file iov_user vs offset :
  let q := read_pos file offset in let n := length (vec_bytes m vs) in
  vector_at m iov_user vs -> disjoint_pieces (vec_pieces vs) ->
  rw_world_ok w -> view w f = Some (i, l, file) -> if_r file = true ->
  0 <= q -> q + Z.of_nat n < 2 ^ 64 ->
  let d := take n (drop (Z.to_nat q) l) in
  exists m' w', do_readv m w f iov_user (length vs) offset = (m', w', Ret (length d)) /\ rw_world_ok w'
    /\ view w' f = Some (i, l, after_read file offset (length d)) /\ same_others f i l w w'
    /\ vec_bytes m' vs = d ++ drop (length d) (vec_bytes m vs)
    /\ unchanged_outside (vec_pieces vs) m m'.
Proof.
  intros q n Hvec Hdis Hw Hv Hr Hq Hu d. unfold do_readv. rewrite (view_get w f _ Hv). cbn [mbind outcome_bind]. rewrite (vector_read m iov_user vs Hvec).
  destruct Hvec as (_ & _ & _ & Hok).
  pose proof (readv_loop_ok m w f i l file offset (vec_pieces vs) 0) as HR. cbv zeta in HR.
  fold q in HR. assert (sum_list (up_len <$> vec_pieces vs) = n) as En.
  { unfold n, vec_bytes. by rewrite length_concat_pieces. }
  rewrite En, after_read_0, !Nat.add_0_r in HR. fold d in HR. simpl in HR. apply HR; try done. by apply pieces_ok.
Qed.

Lemma drop_bytes_write l p d : (p <= length l)%nat -> drop p (bytes_write l p d) = d ++ drop (p + length d) l.
Proof.
  intros Hp. unfold bytes_write. rewrite drop_app_length'; [done|]. rewrite length_take, length_app. lia.
Qed.

(** C12: writing a vector and reading into another one of the same size are
    inverse.  [pwritev] puts the bytes of its pieces into the file one after the
    other, as one write of their concatenation; [preadv] at the same place
    spreads them over its own pieces; memory outside these is not touched, and
    both return the number of bytes. *)
Theorem vectored_roundtrip m w f i l file iov1 vs1 iov2 vs2 o :
  let d := vec_bytes m vs1 in
  vector_at m iov1 vs1 -> vector_at m iov2 vs2 -> disjoint_pieces (vec_pieces vs2) ->
  length (vec_bytes m vs2) = length d -> d <> [] ->
  rw_world_ok w -> view w f = Some (i, l, file) -> if_r file = true -> if_w file = true -> if_a file = false ->
  0 <= o <= Z.of_nat (length l) -> o + Z.of_nat (length d) < 2 ^ 64 ->
  exists w1 m' w2,
    sys_pwritev m w f iov1 (length vs1) o 0 = (w1, Ret (length d))
    /\ sys_preadv m w1 f iov2 (length vs2) o 0 = (m', w2, Ret (length d))
    /\ vec_bytes m' vs2 = d /\ unchanged_outside (vec_pieces vs2) m m'
    /\ view w2 f = Some (i, bytes_write l (Z.to_nat o) d, file).
Proof.
  intros d Hv1 Hv2 Hdis Hlen Hne Hw Hv Hr Hwr Ha Ho Hu.
  assert (is_u64 o) as Hou by (unfold is_u64; lia).
  assert (write_position l file (Some o) = o) as Ep by (unfold write_position; by rewrite Ha).
  pose proof (do_writev_ok m w f i l file iov1 vs1 (Some o)) as HW. cbv zeta in HW. rewrite Ep in HW. fold d in HW.
  destruct (HW Hv1 Hw Hv Hwr Hne Hou ltac:(lia) Hu) as (w1 & E1 & Hw1 & Hview1 & _).
  assert (after_write l file (Some o) (length d) = file) as Ef by (unfold after_write; by rewrite Ha).
  rewrite Ef in Hview1.
  pose proof (do_readv_ok m w1 f i (bytes_write l (Z.to_nat o) d) file iov2 vs2 (Some o)) as HR. cbv zeta in HR. cbn [read_pos default from_option id] in HR.
  rewrite Hlen in HR. rewrite drop_bytes_write, take_app_length in HR by lia.
  destruct (HR Hv2 Hdis Hw1 Hview1 Hr ltac:(lia) Hu) as (m' & w2 & E2 & _ & Hview2 & _ & Hb & Hun).
  exists w1, m', w2. split_and!; [exact E1|exact E2| |exact Hun|exact Hview2].
  rewrite Hb, drop_ge by lia. by rewrite app_nil_r.
Qed.

(** ** Copying from one file to another *)

Lemma length_bytes_write l p d : (p <= length l)%nat -> length (bytes_write l p d) = Nat.max (length l) (p + length d).
Proof.
  intros Hp. unfold bytes_write. rewrite !length_app, length_take, length_app, length_replicate, length_drop. lia.
Qed.

Lemma bytes_write_nil l p : (p <= length l)%nat -> bytes_write l p [] = l.
Proof.
  intros Hp. unfold bytes_write. replace (p - length l)%nat with 0%nat by lia. simpl.
  by rewrite app_nil_r, Nat.add_0_r, take_drop.
Qed.

Lemma bytes_write_app l p d1 d2 :
  (p <= length l)%nat -> bytes_write (bytes_write l p d1) (p + length d1) d2 = bytes_write l p (d1 ++ d2).
Proof.
  intros Hp. set (l1 := bytes_write l p d1).
  assert (take (p + length d1) l1 = take p l ++ d1) as Ht.
  { unfold l1, bytes_write. replace (p - length l)%nat with 0%nat by lia. simpl. rewrite app_nil_r, app_assoc.
    apply take_app_length'. rewrite length_app, length_take. lia. }
  assert (p + length d1 <= length l1)%nat as Hl1 by (unfold l1; rewrite length_bytes_write by done; lia).
  assert (drop (p + length d1 + length d2) l1 = drop (p + length (d1 ++ d2)) l) as Hd.
  { rewrite <- !drop_drop. unfold l1. rewrite drop_bytes_write by done.
    rewrite (drop_app_length' d1) by done. rewrite drop_drop, length_app. by rewrite drop_drop, Nat.add_assoc. }
  unfold bytes_write at 1. replace (p + length d1 - length l1)%nat with 0%nat by lia. simpl.
  rewrite app_nil_r, Ht, Hd. unfold bytes_write. replace (p - length l)%nat with 0%nat by lia. simpl.
  by rewrite app_nil_r, <- !app_assoc.
Qed.

Lemma take_more {A} (R : list A) k c : take k R ++ take c (drop k R) = take (k + length (take c (drop k R))) R.
Proof.
  rewrite <- (take_take_drop R k). f_equal. rewrite length_take.
  destruct (Nat.min_spec c (length (drop k R))) as [[? ->]|[? ->]]; [done|]. by rewrite !take_ge by lia.
Qed.

Section Copy.
Context (fin fout i j : nat) (lin lout : list Z) (Fin Fout : InodeFile) (oin oout : option Z).

Let q := read_pos Fin oin.
Let p := write_position lout Fout oout.

(** The files after [k] bytes have been copied. *)
Record copied (w : RwWorld) (k : nat) : Prop := {
  cp_world : rw_world_ok w;
  cp_in : view w fin = Some (i, lin, after_read Fin oin k);
  cp_out : view w fout = Some (j, bytes_write lout (Z.to_nat p) (take k (drop (Z.to_nat q) lin)),
             if (k =? 0)%nat then Fout else after_write lout Fout oout k);
}.

Context (Hij : i <> j) (Hr : if_r Fin = true) (Hwr : if_w Fout = true)
  (Hq : 0 <= q) (Hp : 0 <= p <= Z.of_nat (length lout)) (len : Z)
  (Hqu : q + len < 2 ^ 64) (Hpu : p + len < 2 ^ 64).

Lemma copied_position k :
  Z.of_nat k < len -> (k <= length lin - Z.to_nat q)%nat ->
  let L := bytes_write lout (Z.to_nat p) (take k (drop (Z.to_nat q) lin)) in
  let F := if (k =? 0)%nat then Fout else after_write lout Fout oout k in
  write_position L F (at_offset oout (Z.of_nat k)) = p + Z.of_nat k /\ if_w F = true
  /\ p + Z.of_nat k <= Z.of_nat (length L)
  /\ forall n, (0 < n)%nat -> after_write L F (at_offset oout (Z.of_nat k)) n = after_write lout Fout oout (k + n).
Proof.
  intros Hk Hkl L F. assert (length (take k (drop (Z.to_nat q) lin)) = k) as Hlk by (rewrite length_take, length_drop; lia).
  assert (length L = Nat.max (length lout) (Z.to_nat p + k)) as HL by (unfold L; rewrite length_bytes_write, Hlk by lia; done).
  assert (if_a F = if_a Fout /\ if_w F = true) as [Ha Hw].
  { unfold F. destruct (k =? 0)%nat; [done|]. unfold after_write. by destruct (_ || _). }
  assert (write_position L F (at_offset oout (Z.of_nat k)) = p + Z.of_nat k) as Epos.
  { unfold write_position at 1. rewrite Ha. unfold p, write_position, F, after_write in *. destruct (if_a Fout) eqn:Ea; [rewrite HL; lia|].
    destruct oout as [o|]; simpl in *.
    - apply wrap64_small. unfold is_u64. lia.
    - destruct (Nat.eqb_spec k 0) as [->|]; [lia|]. simpl. unfold write_position. rewrite Ea. done. }
  split; [done|]. split; [done|]. split; [lia|]. intros n Hn. unfold after_write at 1. rewrite Epos, Ha.
  assert (bool_decide (at_offset oout (Z.of_nat k) = None) = bool_decide (oout = None)) as -> by (by destruct oout).
  unfold F, after_write. destruct (if_a Fout || bool_decide (oout = None)); [|by destruct (k =? 0)%nat].
  fold p. destruct (k =? 0)%nat; unfold set_cursor; simpl; f_equal; lia.
Qed.

(** One round: read a piece, write it. *)
Lemma copy_step w k c :
  copied w k -> (0 < c)%nat -> Z.of_nat (k + c) <= len -> (k <= length lin - Z.to_nat q)%nat ->
  let d := take c (drop (Z.to_nat q + k) lin) in
  exists w1 b, io_read w fin (byte_buffer_new (replicate c 0)) (at_offset oin (Z.of_nat k)) = (w1, b, Ret (length d))
    /\ take (length d) (bb_buf b) = d
    /\ (d = [] -> copied w1 k)
    /\ (d <> [] -> exists w2, io_write w1 fout (into_stream d) (at_offset oout (Z.of_nat k)) = (w2, Ret (length d))
                    /\ copied w2 (k + length d)).
Proof.
  intros [Hw Hin Hout] Hc Hkc Hk d.
  set (b0 := byte_buffer_new (replicate c 0)).
  assert (buf_ok b0) as Hb0 by apply Nat.le_0_l. assert (buf_wrote b0 = 0%nat) as Hw0 by done.
  pose proof (world_read_ok w fin i lin (after_read Fin oin k) b0 (at_offset oin (Z.of_nat k)) Hw Hin) as HR.
  cbv zeta in HR. rewrite after_read_r, read_pos_at in HR by (fold q; lia). rewrite after_read_at, after_read_add in HR.
  replace (available b0) with c in HR by (unfold available, b0; simpl; rewrite length_replicate; lia).
  replace (Z.to_nat (read_pos Fin oin + Z.of_nat k)) with (Z.to_nat q + k)%nat in HR by (fold q; lia). fold d in HR.
  destruct (HR Hr Hb0 Hw0 (at_offset_u64 _ _)) as (w1 & b & E & Hw1 & Hv1 & Hs1 & Hbk & Hd).
  exists w1, b. split; [exact E|].
  assert (bb_data b = d) as Hbd by exact Hd.
  assert (bb_cur b = length d) as Hcur.
  { apply (f_equal length) in Hbd. unfold bb_data in Hbd. rewrite length_take in Hbd. simpl in Hbk. lia. }
  split; [unfold bb_data in Hbd; by rewrite <- Hcur|].
  assert (fout <> fin) as Hne. { intros ->. rewrite Hin in Hout. congruence. }
  pose proof (Hs1 fout j _ _ Hne Hout) as Hv1o. rewrite decide_False in Hv1o by congruence.
  split.
  - intros Hnil. rewrite Hnil, Nat.add_0_r in Hv1. by split.
  - intros Hnn. destruct (copied_position k) as (Epos & HFw & Hle & Haft); [lia|done|].
    set (L := bytes_write lout (Z.to_nat p) (take k (drop (Z.to_nat q) lin))) in *.
    set (F := if (k =? 0)%nat then Fout else after_write lout Fout oout k) in *.
    pose proof (world_write_ok w1 fout j L F (into_stream d) (at_offset oout (Z.of_nat k)) Hw1 Hv1o HFw) as HW.
    cbv zeta in HW. change (st_rest (into_stream d)) with d in HW. rewrite Epos in HW.
    assert (length d <= c)%nat as Hdc by (unfold d; rewrite length_take; lia).
    assert (0 < length d)%nat as Hd0 by (destruct d; [done|simpl; lia]).
    destruct (HW I eq_refl Hnn (at_offset_u64 _ _) Hle ltac:(lia)) as (w2 & E2 & Hw2 & Hv2 & Hs2).
    exists w2. split; [exact E2|]. split; [done| |].
    + rewrite (Hs2 fin i lin _ (not_eq_sym Hne) Hv1), decide_False by done. done.
    + rewrite Hv2, (Haft _ Hd0). destruct (Nat.eqb_spec (k + length d) 0); [lia|]. do 3 f_equal.
      assert (length (take k (drop (Z.to_nat q) lin)) = k) as Hlk by (rewrite length_take, length_drop; lia).
      unfold L. replace (Z.to_nat (p + Z.of_nat k)) with (Z.to_nat p + length (take k (drop (Z.to_nat q) lin)))%nat by (rewrite Hlk; lia).
      rewrite bytes_write_app by lia. f_equal. unfold d.
      rewrite <- drop_drop. apply take_more.
Qed.

Let N := Nat.min (Z.to_nat len) (length lin - Z.to_nat q).

Lemma copy_loop_ok fuel w k :
  0 <= len -> copied w k -> Z.of_nat k <= len -> (k <= length lin - Z.to_nat q)%nat -> len - Z.of_nat k < Z.of_nat fuel ->
  exists w', copy_loop fuel w fin oin fout oout false (len - Z.of_nat k) (Z.of_nat k) = Some (w', Ret (false, Z.of_nat N))
    /\ copied w' N.
Proof.
  intros Hlen. revert w k. induction fuel as [|fuel IH]; intros w k Hcp Hk Hkl Hf; [lia|]. cbn [copy_loop].
  destruct (Z.leb_spec (len - Z.of_nat k) 0) as [Hz|Hz].
  { assert (N = k) as -> by (unfold N; lia). eauto. }
  set (c := Z.min (len - Z.of_nat k) 4096). destruct (Z.eqb_spec c 0); [lia|].
  destruct (copy_step w k (Z.to_nat c) Hcp) as (w1 & b & E & Hb & Hnil & Hne); [lia|lia|done|]. rewrite E.
  set (d := take (Z.to_nat c) (drop (Z.to_nat q + k) lin)) in *.
  assert (length d = Nat.min (Z.to_nat c) (length lin - (Z.to_nat q + k))) as Hld by (unfold d; by rewrite length_take, length_drop).
  destruct (Nat.eqb_spec (length d) 0) as [H0|H0].
  { assert (N = k) as -> by (unfold N; lia). exists w1. split; [done|]. apply Hnil. by apply nil_length_inv. }
  destruct Hne as (w2 & E2 & Hcp2); [by intros Hd; rewrite Hd in H0|]. rewrite Hb, E2.
  destruct (Nat.eqb_spec (length d) 0); [done|]. rewrite Nat.ltb_irrefl. cbn [andb].
  rewrite !wrap64_small by (unfold is_u64; lia).
  replace (len - Z.of_nat k - Z.of_nat (length d)) with (len - Z.of_nat (k + length d)) by lia.
  rewrite <- Nat2Z.inj_add. apply IH; [done|lia|lia|lia].
Qed.

Lemma copied_start w :
  rw_world_ok w -> view w fin = Some (i, lin, Fin) -> view w fout = Some (j, lout, Fout) -> copied w 0.
Proof.
  intros Hw Hi Ho. split; [done|by rewrite after_read_0|]. simpl. rewrite take_0, bytes_write_nil by lia. done.
Qed.
End Copy.

(** An offset behind a user pointer; no offset for the null pointer. *)
Definition offset_at (m : UMem) (ptr : Z) (o : option Z) : Prop :=
  match o with
  | None => ptr = 0
  | Some v => 0 < ptr /\ ptr + 8 <= USER_MAX_ADDR /\ mapped m ptr 8 /\ bytes_at m ptr 8 = isize_to_bytes v
              /\ 0 <= v < 2 ^ 63
  end.

Lemma isize_roundtrip v : 0 <= v < 2 ^ 63 -> isize_from_bytes (isize_to_bytes v) = v.
Proof.
  intros Hv. unfold isize_from_bytes, isize_to_bytes, to_isize. rewrite wrap64_small by (unfold is_u64; lia).
  rewrite little_endian_to_Z_to_little_endian by lia. rewrite Z.mod_small by lia.
  by rewrite (proj2 (Z.ltb_lt _ _)) by lia.
Qed.

Definition offset_buffer (ptr v : Z) : Z * UserBuffer := (v, mkUserBuffer (mkUserPtr ptr 8) 8 0).

Lemma read_offset m ptr v :
  offset_at m ptr (Some v) ->
  user_buffer_new ptr 8 = Ret (mkUserBuffer (mkUserPtr ptr 8) 8 0)
  /\ ub_as_slice m (mkUserBuffer (mkUserPtr ptr 8) 8 0) = Ret (isize_to_bytes v).
Proof.
  intros (Hp & Hl & Hm & Hb & Hv). split.
  - unfold user_buffer_new. by rewrite checked_new_ok.
  - unfold ub_as_slice. cbn [up_ptr up_len ub_ptr]. rewrite load_loop_mapped by done. by rewrite Hb.
Qed.

Lemma copy_out_offset_ok m ptr o :
  offset_at m ptr o -> copy_out_offset m ptr = Ret (inr (offset_buffer ptr <$> o)).
Proof.
  destruct o as [v|]; intros Ho; [|rewrite Ho; done]. destruct (read_offset m ptr v Ho) as [Hn Hs].
  destruct Ho as (Hp & _ & _ & _ & Hv). unfold copy_out_offset. destruct (Z.eqb_spec ptr 0); [lia|].
  rewrite Hn. cbn [mbind outcome_bind]. rewrite Hs. cbn [mbind outcome_bind]. rewrite isize_roundtrip by done.
  by rewrite (proj2 (Z.ltb_ge _ _)) by lia.
Qed.

Lemma copy_in_offset_ok m w f i l file ptr o :
  offset_at m ptr o -> rw_world_ok w -> view w f = Some (i, l, file) ->
  Z.of_nat (length l) < 2 ^ 63 -> from_option (fun v => v <= Z.of_nat (length l)) True o ->
  copy_in_offset m w f ptr = Ret (inr (offset_buffer ptr <$> o)).
Proof.
  intros Ho Hw Hv Hl Hle. destruct o as [v|]; [|rewrite Ho; done]. destruct (read_offset m ptr v Ho) as [Hn Hs].
  destruct Ho as (Hp & _ & _ & _ & Hv2). unfold copy_in_offset. destruct (Z.eqb_spec ptr 0); [lia|].
  rewrite Hn. cbn [mbind outcome_bind]. rewrite Hs. cbn [mbind outcome_bind]. rewrite isize_roundtrip by done.
  apply view_Some in Hv as (fi & Hf & Hi & ->). pose proof (fi_contents_length _ (wok_inode _ Hw _ _ Hi)) as Hlen.
  cbn [io_size world_io]. unfold world_size. rewrite Hf, Hi. cbn [mbind outcome_bind expect]. simpl in Hle.
  rewrite (proj2 (Z.ltb_lt (fi_size fi) (2 ^ 63))) by lia. cbn [assert_ mbind outcome_bind].
  rewrite (proj2 (Z.ltb_ge (fi_size fi) v)) by lia. by rewrite (proj2 (Z.ltb_ge v 0)) by lia.
Qed.

(** The offset that is stored back. *)
Lemma length_isize_bytes v : length (isize_to_bytes v) = 8%nat.
Proof. apply length_le8. Qed.

Lemma store_offset_ok m ptr o n :
  offset_at m ptr o -> 0 <= n -> from_option (fun v => v + n < 2 ^ 63) True o ->
  let m' := store_offset m (offset_buffer ptr <$> o) n in
  offset_at m' ptr ((fun v => v + n) <$> o)
  /\ (forall a, (o = None \/ ~ ptr <= a < ptr + 8) -> m' !! a = m !! a).
Proof.
  intros Ho Hn Hu. destruct o as [v|]; [|done]. destruct Ho as (Hp & Hl & Hm & Hb & Hv). simpl in Hu.
  set (b := mkUserBuffer (mkUserPtr ptr 8) 8 0).
  assert (ub_ok m ptr b) as Hok by (split_and!; simpl; lia || done).
  destruct (ub_fill_ok m ptr b (isize_to_bytes (v + n)) Hok) as (m' & r & b' & Hf & Hok' & Hs & Hc & Hr & _ & Hb' & Hout).
  { intros Hz. apply (f_equal length) in Hz. by rewrite length_isize_bytes in Hz. }
  rewrite length_isize_bytes in Hr. unfold b, ub_remaining in Hr. simpl in Hr.
  assert (ub_cur b' = 8%nat) as Hc8 by (unfold b in Hc; simpl in Hc; lia). rewrite Hc8 in *.
  cbn [store_offset fmap option_fmap option_map offset_buffer]. fold b. rewrite Hf. cbn [fst]. split.
  - split; [done|]. split; [done|]. destruct Hok' as (_ & _ & _ & Hm'). rewrite Hs in Hm'. split; [exact Hm'|].
    split; [|lia]. rewrite Hb'. change (bytes_at m ptr (ub_cur b)) with (@nil Z).
    rewrite take_ge; [done|]. by rewrite length_isize_bytes.
  - intros a [|Ha]; [done|]. apply Hout. simpl. lia.
Qed.

Lemma offset_at_ext m m' ptr o :
  (forall a, ptr <= a < ptr + 8 -> m' !! a = m !! a) -> offset_at m ptr o -> offset_at m' ptr o.
Proof.
  intros He. destruct o as [v|]; [|done]. intros (Hp & Hl & Hm & Hb & Hv). split; [done|]. split; [done|].
  split; [intros k Hk; rewrite He by lia; by apply Hm|]. split; [|done].
  rewrite <- Hb. apply bytes_at_ext. intros k Hk. apply He. lia.
Qed.

(** The two offsets are not in the same place. *)
Definition offsets_apart (o1 o2 : option Z) (p1 p2 : Z) : Prop :=
  o1 <> None -> o2 <> None -> p1 + 8 <= p2 \/ p2 + 8 <= p1.

(** C13: [copy_file_range] copies.  Whatever the pieces in which it reads and
    writes, with offsets given by user pointers or by the cursors of the files,
    and with the target opened for appending or not: the target file has the
    bytes of the source from its position on, as many as asked for or as there
    are; the source is unchanged; the number is returned; each position has moved
    by it, in user memory where an offset was given and in the open file where
    not. *)
Theorem copy_file_range_correct m w fin fout i j lin lout Fin Fout pin oin pout oout len fuel :
  let q := read_pos Fin oin in let p := write_position lout Fout oout in
  let n := Nat.min (Z.to_nat len) (length lin - Z.to_nat q) in
  rw_world_ok w -> view w fin = Some (i, lin, Fin) -> view w fout = Some (j, lout, Fout) -> i <> j ->
  if_r Fin = true -> if_w Fout = true -> offset_at m pin oin -> offset_at m pout oout -> offsets_apart oin oout pin pout ->
  0 < len -> 0 <= q <= Z.of_nat (length lin) -> 0 <= p <= Z.of_nat (length lout) ->
  q + len < 2 ^ 63 -> p + len < 2 ^ 63 -> from_option (fun v => v + len < 2 ^ 63) True oout ->
  Z.of_nat (length lin) < 2 ^ 63 -> len < Z.of_nat fuel ->
  exists m' w', sys_copy_file_range fuel m w fin pin fout pout len = Some (m', w', Ret (Z.of_nat n))
    /\ view w' fin = Some (i, lin, after_read Fin oin n)
    /\ view w' fout = Some (j, bytes_write lout (Z.to_nat p) (take n (drop (Z.to_nat q) lin)),
                            if (n =? 0)%nat then Fout else after_write lout Fout oout n)
    /\ offset_at m' pin ((fun v => v + Z.of_nat n) <$> oin)
    /\ offset_at m' pout ((fun v => v + Z.of_nat n) <$> oout).
Proof.
  intros q p n Hw Hvi Hvo Hij Hr Hwr Hin Hout Hap Hlen Hq Hp Hqu Hpu Hou Hsz Hfuel.
  assert (n <= Z.to_nat len)%nat as Hn by (unfold n; lia).
  unfold sys_copy_file_range. destruct (Z.eqb_spec len 0); [lia|].
  rewrite (view_get w fin _ Hvi). cbn [mbind outcome_bind]. rewrite (view_get w fout _ Hvo). unfold do_copy_or_splice.
  rewrite (copy_in_offset_ok m w fin i lin Fin pin oin Hin Hw Hvi Hsz).
  2:{ destruct oin; [|done]. exact (proj2 Hq). }
  rewrite (copy_out_offset_ok m pout oout Hout).
  assert (forall ptr (o : option Z), fst <$> (offset_buffer ptr <$> o) = o) as Efst by (intros ? []; done). rewrite !Efst.
  pose proof (copy_loop_ok fin fout i j lin lout Fin Fout oin oout Hij Hr Hwr (proj1 Hq) Hp len ltac:(fold q; lia) ltac:(fold p; lia) fuel w 0) as HC.
  destruct HC as (w' & E & [Hw' Hci Hco]); [lia|by apply copied_start|lia|lia|lia|].
  change (Z.of_nat 0) with 0 in E. rewrite Z.sub_0_r in E. fold q n in E, Hci, Hco. rewrite E.
  set (m1 := store_offset m (offset_buffer pin <$> oin) (Z.of_nat n)).
  destruct (store_offset_ok m pin oin (Z.of_nat n) Hin ltac:(lia)) as [Hin1 Hf1].
  { destruct oin as [v|]; [|done]. simpl. unfold q in Hqu. simpl in Hqu. lia. }
  assert (offset_at m1 pout oout) as Hout1.
  { destruct oout as [v'|]; [|done]. apply (offset_at_ext m); [|done]. intros a Ha. apply Hf1.
    destruct oin as [v|]; [right|by left]. destruct (Hap ltac:(done) ltac:(done)); lia. }
  destruct (store_offset_ok m1 pout oout (Z.of_nat n) Hout1 ltac:(lia)) as [Hout2 Hf2].
  { destruct oout as [v|]; [|done]. simpl in Hou |- *. lia. }
  eexists _, w'. split; [reflexivity|]. split; [exact Hci|]. split; [exact Hco|]. split; [|exact Hout2].
  destruct oin as [v'|]; [|done]. apply (offset_at_ext m1); [|exact Hin1]. intros a Ha. apply Hf2.
  destruct oout as [v|]; [right|by left]. destruct (Hap ltac:(done) ltac:(done)); lia.
Qed.

(** ** [sendfile] *)

Lemma sendfile_loop_ok fin fout i j lin lout Fin Fout chunks count w k :
  let q := if_cursor Fin in let p := write_position lout Fout None in
  let n := Nat.min (Z.to_nat count) (length lin - Z.to_nat q) in
  i <> j -> if_r Fin = true -> if_w Fout = true -> 0 <= q -> 0 <= p <= Z.of_nat (length lout) ->
  q + count < 2 ^ 64 -> p + count < 2 ^ 64 ->
  contiguous (Z.of_nat k) chunks count -> Forall (fun x => 0 < x.2 <= 4096) chunks ->
  (k <= length lin - Z.to_nat q)%nat -> copied fin fout i j lin lout Fin Fout None None w k ->
  exists w', sendfile_loop chunks (fun _ => false) w fin fout k = (w', Ret n)
    /\ copied fin fout i j lin lout Fin Fout None None w' n.
Proof.
  intros q p n Hij Hr Hwr Hq Hp Hqu Hpu. revert w k. induction chunks as [|[cur len] chunks IH]; intros w k Hc Hall Hk Hcp; simpl in Hc.
  { assert (n = k) as -> by (unfold n; lia). exists w. done. }
  destruct Hc as [-> Hc]. apply Forall_cons in Hall as [Hlen Hall]. simpl in Hlen. cbn [sendfile_loop].
  assert (Z.of_nat k + len <= count) as Hle.
  { clear -Hc Hall Hlen. revert Hc. generalize (Z.of_nat k + len). induction chunks as [|[a b] chunks IH']; simpl; intros z; [lia|].
    intros [-> Hc]. apply Forall_cons in Hall as [Hb Hall]. simpl in Hb. specialize (IH' Hall _ Hc). lia. }
  destruct (copy_step fin fout i j lin lout Fin Fout None None Hij Hr Hwr Hq Hp count Hqu Hpu w k (Z.to_nat len) Hcp)
    as (w1 & b & E & Hb & Hnil & Hne); [lia|lia|done|].
  cbn [at_offset mbind option_bind] in E. rewrite E. change (read_pos Fin None) with q in *.
  set (d := take (Z.to_nat len) (drop (Z.to_nat q + k) lin)) in *.
  assert (length d = Nat.min (Z.to_nat len) (length lin - (Z.to_nat q + k))) as Hld by (unfold d; by rewrite length_take, length_drop).
  destruct (Nat.eqb_spec (length d) 0) as [H0|H0].
  { assert (n = k) as -> by (unfold n; lia). exists w1. split; [done|]. apply Hnil. by apply nil_length_inv. }
  destruct Hne as (w2 & E2 & Hcp2); [by intros Hd; rewrite Hd in H0|]. cbn [at_offset mbind option_bind] in E2.
  fold d. rewrite Hb, E2. destruct (Z.eqb_spec (Z.of_nat (length d)) len) as [El|El].
  - apply IH; [by rewrite Nat2Z.inj_add, El|done|lia|done].
  - assert (n = k + length d)%nat as -> by (unfold n; lia). exists w2. done.
Qed.

(** Without a signal [sendfile] copies from cursor to cursor. *)
Lemma sendfile_correct fin fout i j lin lout Fin Fout count fuel w :
  let q := if_cursor Fin in let p := write_position lout Fout None in
  let n := Nat.min (Z.to_nat count) (length lin - Z.to_nat q) in
  rw_world_ok w -> view w fin = Some (i, lin, Fin) -> view w fout = Some (j, lout, Fout) ->
  i <> j -> if_r Fin = true -> if_w Fout = true -> if_mode Fin = S_IFREG ->
  0 <= q <= Z.of_nat (length lin) -> 0 <= p <= Z.of_nat (length lout) -> 0 <= count ->
  q + count < 2 ^ 64 -> p + count < 2 ^ 64 -> count + 4096 < 2 ^ 64 -> (Z.to_nat count < fuel)%nat ->
  exists w', file_sendfile (world_sendfile_check w) (fun _ => false) fuel w fin fout count = Some (w', Ret n)
    /\ view w' fin = Some (i, lin, after_read Fin None n)
    /\ view w' fout = Some (j, bytes_write lout (Z.to_nat p) (take n (drop (Z.to_nat q) lin)),
                            if (n =? 0)%nat then Fout else after_write lout Fout None n).
Proof.
  intros q p n Hw Hvi Hvo Hij Hr Hwr Hmode Hq Hp Hc Hqu Hpu Hcu Hf. unfold file_sendfile.
  assert (world_sendfile_check w fin = Ret tt) as ->.
  { apply view_Some in Hvi as (fi & Hfile & _ & _). unfold world_sendfile_check, inode_file_sendfile_check. by rewrite Hfile, Hmode. }
  destruct fuel as [|fuel]; [lia|].
  destruct (chunks_collect_spec fuel (chunks_new 0 count 4096)) as (chunks & -> & Hcont & Hall);
    unfold chunks_new in *; rewrite Z.add_0_l, wrap64_small in * by (unfold is_u64; lia); cbn [ch_end ch_cur ch_len] in *; [lia..|].
  rewrite Z.min_l in Hcont by lia.
  destruct (sendfile_loop_ok fin fout i j lin lout Fin Fout chunks count w 0) as (w' & -> & [_ Hi Ho]); try done; try lia.
  { by apply copied_start. }
  exists w'. done.
Qed.

(** ** The theorems at work *)

Definition demo_rw : InodeFile := mkInodeFile true true false S_IFREG 0.
Definition demo_world0 : RwWorld :=
  mkRwWorld (<[0%nat := file_inode_new 0 0]> {[1%nat := file_inode_new 0 0]})
          (<[0%nat := (0%nat, demo_rw)]> {[1%nat := (1%nat, demo_rw)]}).

Lemma demo_world0_ok : rw_world_ok demo_world0.
Proof.
  split; simpl.
  - intros i fi Hi. apply lookup_insert_Some in Hi as [[_ <-]|[_ Hi]]; [apply fi_new_ok|].
    apply lookup_singleton_Some in Hi as [_ <-]. apply fi_new_ok.
  - intros f i file Hf. apply lookup_insert_Some in Hf as [[_ [= <- <-]]|[_ Hf]].
    + split; [by eexists|]. unfold is_u64. simpl. lia.
    + apply lookup_singleton_Some in Hf as [_ [= <- <-]]. split; [by eexists|]. unfold is_u64. simpl. lia.
Qed.

(** Two files, one with three bytes. *)
Lemma demo_world_ok : exists w, rw_world_ok w /\ view w 0 = Some (0%nat, [1; 2; 3], demo_rw) /\ view w 1 = Some (1%nat, [], demo_rw).
Proof.
  assert (view demo_world0 0 = Some (0%nat, [], demo_rw)) as Hv by reflexivity.
  pose proof (world_write_ok demo_world0 0 0 [] demo_rw (into_stream [1; 2; 3]) (Some 0) demo_world0_ok Hv eq_refl) as HW.
  cbv zeta in HW. change (st_rest (into_stream [1; 2; 3])) with [1; 2; 3] in HW.
  destruct HW as (w & _ & Hw & Hv1 & Hs); [exact I|reflexivity|discriminate|vm_compute; split; [discriminate|reflexivity]|vm_compute; discriminate|reflexivity|].
  exists w. split; [exact Hw|]. split; [exact Hv1|]. by rewrite (Hs 1%nat 1%nat [] demo_rw).
Qed.

Lemma copy_file_range_correct_witness :
  exists w m' w', sys_copy_file_range 10 ∅ w 0%nat 0 1%nat 0 8 = Some (m', w', Ret 3)
    /\ (exists f, view w' 1 = Some (1%nat, [1; 2; 3], f)).
Proof.
  destruct demo_world_ok as (w & Hw & H0 & H1). exists w.
  destruct (copy_file_range_correct ∅ w 0 1 0 1 [1; 2; 3] [] demo_rw demo_rw 0 None 0 None 8 10) as (m' & w' & E & _ & Ho & _).
  - exact Hw.
  - exact H0.
  - exact H1.
  - discriminate.
  - reflexivity.
  - reflexivity.
  - reflexivity.
  - reflexivity.
  - intros Hn. by destruct Hn.
  - lia.
  - cbn. lia.
  - cbn. lia.
  - vm_compute. reflexivity.
  - vm_compute. reflexivity.
  - exact I.
  - vm_compute. reflexivity.
  - lia.
  - exists m', w'. split; [exact E|]. eexists. exact Ho.
Defined.

Definition mapped_b (m : UMem) (a : Z) (n : nat) : bool :=
  forallb (fun i => bool_decide (is_Some (m !! (a + Z.of_nat i)))) (seq 0 n).

Lemma mapped_b_ok m a n : mapped_b m a n = true -> mapped m a n.
Proof.
  intros H i Hi. unfold mapped_b in H. rewrite forallb_forall in H.
  specialize (H i). rewrite bool_decide_eq_true in H. apply H. apply in_seq. lia.
Qed.

(** Two vectors of three bytes in two pieces each. *)
Definition demo_vs1 : list IoVec := [mkIoVec 0x2000 2; mkIoVec 0x2010 1].
Definition demo_vs2 : list IoVec := [mkIoVec 0x3000 1; mkIoVec 0x3010 2].
Definition demo_bytes (a : Z) (l : list Z) : list (Z * Z) := zip (seqZ a (Z.of_nat (length l))) l.
Definition demo_vmem : UMem :=
  list_to_map (demo_bytes 0x1000 (concat (iovec_bytes <$> demo_vs1)) ++ demo_bytes 0x1100 (concat (iovec_bytes <$> demo_vs2))
               ++ demo_bytes 0x2000 [7; 8] ++ demo_bytes 0x2010 [9] ++ demo_bytes 0x3000 [0] ++ demo_bytes 0x3010 [0; 0]).

Lemma demo_vec_ok a n :
  0 < a < 0x10000 -> 0 < n < 0x10000 -> mapped_b demo_vmem a (Z.to_nat n) = true -> vec_ok demo_vmem (mkIoVec a n).
Proof. intros Ha Hn Hm. split; unfold is_u64, USER_MAX_ADDR; cbn [iv_base iv_len]; [lia..|by apply mapped_b_ok]. Qed.

Lemma demo_vector1 : vector_at demo_vmem 0x1000 demo_vs1.
Proof. split; [lia|]. split; [vm_compute; discriminate|]. split.
  - repeat (split; [apply mapped_b_ok; vm_compute; reflexivity|]; split; [vm_compute; reflexivity|]). exact I.
  - apply Forall_cons. split; [by apply demo_vec_ok|]. apply Forall_cons. split; [by apply demo_vec_ok|done].
Qed.

Lemma demo_vector2 : vector_at demo_vmem 0x1100 demo_vs2.
Proof. split; [lia|]. split; [vm_compute; discriminate|]. split.
  - repeat (split; [apply mapped_b_ok; vm_compute; reflexivity|]; split; [vm_compute; reflexivity|]). exact I.
  - apply Forall_cons. split; [by apply demo_vec_ok|]. apply Forall_cons. split; [by apply demo_vec_ok|done].
Qed.

Lemma demo_disjoint : disjoint_pieces (vec_pieces demo_vs2).
Proof.
  split; [|split; [|exact I]].
  - intros q a Hq Hp. apply list_elem_of_singleton in Hq as ->. unfold in_piece in *. cbn in *. lia.
  - intros q a Hq. by apply not_elem_of_nil in Hq.
Qed.

Lemma vectored_roundtrip_witness :
  exists w w1 m' w2, sys_pwritev demo_vmem w 1%nat 0x1000 2 0 0 = (w1, Ret 3%nat)
    /\ sys_preadv demo_vmem w1 1%nat 0x1100 2 0 0 = (m', w2, Ret 3%nat) /\ vec_bytes m' demo_vs2 = [7; 8; 9].
Proof.
  destruct demo_world_ok as (w & Hw & _ & H1). exists w.
  destruct (vectored_roundtrip demo_vmem w 1 1 [] demo_rw 0x1000 demo_vs1 0x1100 demo_vs2 0) as (w1 & m' & w2 & E1 & E2 & Hb & _).
  - exact demo_vector1.
  - exact demo_vector2.
  - exact demo_disjoint.
  - vm_compute. reflexivity.
  - vm_compute. discriminate.
  - exact Hw.
  - exact H1.
  - reflexivity.
  - reflexivity.
  - reflexivity.
  - vm_compute. split; discriminate.
  - vm_compute. reflexivity.
  - exists w1, m', w2. split; [exact E1|]. split; [exact E2|]. rewrite Hb. vm_compute. reflexivity.
Defined.

(** ** Where the calls go wrong *)

(** [copy_file_range] and [splice] with an offset on a file that is not an inode
    file: [size] panics. *)
Lemma copy_offset_not_inode_panics {W F} `{FileIo W F} m w fin fout (pin pout len : Z) is_splice fuel v :
  offset_at m pin (Some v) -> io_size w fin = Panic ->
  do_copy_or_splice fuel m w fin pin fout pout len is_splice = Some (m, w, Panic).
Proof.
  intros Ho Hs. destruct (read_offset m pin v Ho) as [Hn Hb]. destruct Ho as (Hp & _).
  unfold do_copy_or_splice, copy_in_offset. destruct (Z.eqb_spec pin 0); [lia|].
  rewrite Hn. cbn [mbind outcome_bind]. rewrite Hb. cbn [mbind outcome_bind]. by rewrite Hs.
Qed.

(** An offset pointer to memory that is not mapped faults in the kernel. *)
Lemma copy_offset_unmapped_panics :
  sys_copy_file_range 10 ∅ demo_world0 0%nat 0x1000 1%nat 0 8 = Some (∅, demo_world0, Panic).
Proof. reflexivity. Qed.

(** [lseek] moves the cursor of a file to any 64-bit number, and [SEEK_CUR] with a
    negative offset before the beginning is [EOVERFLOW] where it should be
    [EINVAL]. *)
Lemma lseek_before_start :
  (do_lseek demo_world0 0 (2 ^ 64 - 1) SEEK_CUR).2 = Err EOVERFLOW.
Proof. reflexivity. Qed.
