(* ===== verification/FsCalls.v ===== *)
(** * System calls on paths

    Models the calls of src/kernel/syscall/file_rw.rs and procops.rs that name
    files, over the directory entries of Dentry.v and the descriptors of
    FileArray.v: how a descriptor and a path give an entry, and what is then done
    to it.  A path is the bytes of the user's string. *)

From S2P Require Import Prelude RBTree Io OpenFlags Mode Path Dentry DentryCache DentryInv DentryRename DentryOps DentrySys DentryWalk File FileArray.

Definition ERANGE : Z := 34.
Definition AT_FDCWD : Z := 2 ^ 32 - 100.

(** ** [FsContext] *)

Record FsContext := mkFsContext { fc_root : nat; fc_cwd : nat; fc_umask : Z }.

Definition fs_context_global : FsContext := mkFsContext FSROOT FSROOT 0x12.

Definition set_cwd (c : FsContext) (d : nat) : FsContext := mkFsContext (fc_root c) d (fc_umask c).

(** [mode.mask_perm(!umask.non_format_bits())]. *)
Definition mask_mode (c : FsContext) (mode : Z) : Z := mode_mask_perm mode (Z.lnot (mode_non_format (fc_umask c))).

Section Calls.
Context (addr : nat -> Z).

(** [thread.files.get(fd)] with [as_path] of the file. *)
Context (files : Z -> option (option nat)).
Context (ctx : FsContext).

(** [dentry_from]. *)
Definition dentry_from (dirfd : Z) (path : list Z) (follow : bool) : fsop nat :=
  if is_absolute path || (dirfd =? AT_FDCWD) then
    path ← lift (path_new path);
    dentry_open_at addr (fc_root ctx) (fc_cwd ctx) path follow
  else if bool_decide (path = []) then
    dir_file ← lift (ok_or (files dirfd) EBADF);
    lift (ok_or dir_file EBADF)
  else
    path ← lift (path_new path);
    dir_file ← lift (ok_or (files dirfd) EBADF);
    dir_dentry ← lift (ok_or dir_file ENOTDIR);
    dentry_open_at addr (fc_root ctx) dir_dentry path follow.

Definition sys_mkdirat (dirfd : Z) (pathname : list Z) (mode : Z) : fsop unit :=
  d ← dentry_from dirfd pathname true; dentry_mkdir d (mask_mode ctx mode).

Definition sys_unlinkat (dirfd : Z) (pathname : list Z) : fsop unit :=
  d ← dentry_from dirfd pathname false; dentry_unlink d.

Definition sys_symlinkat (target : list Z) (dirfd : Z) (linkpath : list Z) : fsop unit :=
  d ← dentry_from dirfd linkpath false; dentry_symlink d target.

(** The inode of the old entry is unwrapped. *)
Definition sys_linkat (old_dirfd : Z) (old_pathname : list Z) (new_dirfd : Z) (new_pathname : list Z) : fsop unit :=
  old_dentry ← dentry_from old_dirfd old_pathname false;
  new_dentry ← dentry_from new_dirfd new_pathname false;
  e ← get_dentry old_dentry;
  old_inode ← lift (expect (fst <$> d_data e));
  dentry_linkat new_dentry old_inode.

Definition sys_mknodat (dirfd : Z) (pathname : list Z) (mode dev : Z) : fsop unit :=
  if negb (mode_is_blk mode) && negb (mode_is_chr mode) then fail EINVAL
  else d ← dentry_from dirfd pathname true; dentry_mknod d (mask_mode ctx mode) dev.

(** The bytes that go to the user's buffer. *)
Definition sys_readlinkat (dirfd : Z) (pathname : list Z) (bufsize : nat) : fsop (list Z) :=
  d ← dentry_from dirfd pathname false; ino ← dentry_get_inode d; inode_readlink ino bufsize.

(** [is_valid] and [is_directory]. *)
Definition dentry_is_valid (d : nat) : fsop bool := e ← get_dentry d; mret (bool_decide (is_Some (d_data e))).
Definition dentry_is_directory (d : nat) : fsop bool :=
  e ← get_dentry d; mret (match d_data e with Some (_, flags) => negb (Z.land flags D_DIRECTORY =? 0) | None => false end).

Definition sys_faccessat (dirfd : Z) (pathname : list Z) (flags : Z) : fsop unit :=
  d ← dentry_from dirfd pathname (negb (at_no_follow flags));
  valid ← dentry_is_valid d;
  if negb valid then fail ENOENT else mret tt.

(** [Inode::chmod]: directories and files change their mode, symbolic links
    ignore it, devices have the trait's own. *)
Definition inode_chmod (ino mode : Z) : fsop unit :=
  i ← get_inode_data ino;
  match i_kind i with
  | KDirectory _ | KFile => put_inode ino (mkInode (i_kind i) (mode_perm (i_mode i) (mode_non_format mode)) (i_size i) (i_nlink i))
  | KSymlink _ => mret tt
  | KNode _ => fail EPERM
  end.

Definition sys_fchmodat (dirfd : Z) (pathname : list Z) (mode : Z) : fsop unit :=
  d ← dentry_from dirfd pathname true;
  valid ← dentry_is_valid d;
  if negb (valid : bool) then fail ENOENT else ino ← dentry_get_inode d; inode_chmod ino mode.

Definition sys_renameat2 (old_dirfd : Z) (old_pathname : list Z) (new_dirfd : Z) (new_pathname : list Z) (flags : Z) : fsop unit :=
  if negb (Z.ldiff flags (Z.lor RENAME_NOREPLACE RENAME_EXCHANGE) =? 0) then fail EINVAL
  else if bf_contains flags (Z.lor RENAME_NOREPLACE RENAME_EXCHANGE) then fail EINVAL
  else
    old_dentry ← dentry_from old_dirfd old_pathname false;
    new_dentry ← dentry_from new_dirfd new_pathname false;
    dentry_rename addr old_dentry new_dentry flags.

(** A directory to work in, for [chdir] and [fchdir]. *)
Definition check_cwd (d : nat) : fsop FsContext :=
  valid ← dentry_is_valid d;
  if negb (valid : bool) then fail ENOENT
  else
    is_dir ← dentry_is_directory d;
    if negb (is_dir : bool) then fail ENOTDIR else mret (set_cwd ctx d).

Definition sys_chdir (path : list Z) : fsop FsContext :=
  path ← lift (path_new path);
  d ← dentry_open_at addr (fc_root ctx) (fc_cwd ctx) path true;
  check_cwd d.

Definition sys_fchdir (fd : Z) : fsop FsContext :=
  dir_file ← lift (ok_or (files fd) EBADF);
  d ← lift (ok_or dir_file EBADF);
  check_cwd d.

(** The old mask, and the context with the new one. *)
Definition sys_umask (mask : Z) : Z * FsContext := (fc_umask ctx, mkFsContext (fc_root ctx) (fc_cwd ctx) (mode_non_format mask)).

(** The path, through a page, with its zero. *)
Definition sys_getcwd (bufsize : nat) : fsop (list Z) :=
  path ← get_path (fc_root ctx) (fc_cwd ctx);
  let data := path ++ [0] in
  if (4096 <? length data)%nat || (bufsize <? length data)%nat then fail ERANGE else mret data.

(** ** [openat] *)

Section Open.
Context `{RBTree OpenFile T}.

(** What [open] sees of an entry once [open_check] returned [check]; the contents
    of files are apart (InodeFile.v), where truncating to nothing succeeds. *)
Definition open_target (w : NameSys) (d : nat) (check : outcome unit) (device : Z -> outcome bool) : OpenTarget :=
  let ino := e ← ns_dentries w !! d; fst <$> d_data e in
  let inode := ino ← ino; ns_inodes w !! ino in
  mkTarget d check (ok_or (i_mode <$> inode) ENOENT) (Ret tt)
    (match inode with
     | Some i => match i_kind i with KNode dev => device dev | _ => Err (if mode_is_dir (i_mode i) then EISDIR else EINVAL) end
     | None => Err ENOENT
     end).

Definition sys_openat (device : Z -> outcome bool) (world : World) (a : FileArrayInner T) (dirfd : Z) (pathname : list Z) (flags mode : Z) (w : NameSys)
  : NameSys * outcome (Z * FileArrayInner T * World) :=
  match dentry_from dirfd pathname (oflags_follow_symlink flags) w with
  | (w, Ret d) =>
      let '(w, check) := open_check d flags (mask_mode ctx mode) w in
      (w, fa_open world a (open_target w d check device) flags)
  | (w, Err e) => (w, Err e)
  | (w, Panic) => (w, Panic)
  end.

End Open.
End Calls.

(** The entry behind a descriptor. *)
Definition file_as_path (world : World) (f : nat) : option nat :=
  match file_type <$> w_files world !! f with Some (FT_Inode d) => Some d | _ => None end.

Definition fd_path `{RBTree OpenFile T} (world : World) (a : FileArrayInner T) (fd : Z) : option (option nat) := file_as_path world <$> fa_get a fd.

(** ** The place that a path names *)

(** The directory that the names before the last one lead to. *)
Definition spec_parent (m : NameMap) (dirp : Z -> bool) (start : option Z) (ns : list (list Z)) : outcome Z :=
  cur ← spec_walk m dirp start ns;
  match cur with
  | None => Err ENOENT
  | Some c => if dirp c then Ret c else Err ENOTDIR
  end.

Section Places.
Context (addr : nat -> Z) (fsroot : nat).

Lemma walk_items_snoc res ns n cwd w :
  walk_items addr fsroot res cwd (Name <$> (ns ++ [n])) w =
  (c ← walk_items addr fsroot res cwd (Name <$> ns); walk_items addr fsroot res c [Name n]) w.
Proof.
  revert cwd w. induction ns as [|m ns IH]; intros cwd w; [done|]. cbn [app fmap list_fmap walk_items]. unfold mbind, fsop_bind.
  destruct (get_dentry cwd w) as [w1 [e|x|]]; try done. simpl. destruct (walk_item addr fsroot res cwd (Name m) w1) as [w2 [c|x|]]; done.
Qed.

(** The last name, from the directory. *)
Lemma walk_last opn res w cwd e n :
  plain_tree w -> ns_ok addr w -> ns_dentries w !! cwd = Some e -> proper_name n ->
  match (match fst <$> d_data e with None => Err ENOENT | Some c => if inode_is_dir w c then Ret c else Err ENOTDIR end) with
  | Ret dir => exists w' d e', walk_items addr fsroot (resolve_body opn res) cwd [Name n] w = (w', Ret d) /\ ns_ext addr w w' /\
      hashed w' d e' /\ place w' d = Some (dir, n)
  | Err x => walk_items addr fsroot (resolve_body opn res) cwd [Name n] w = (w, Err x)
  | Panic => False
  end.
Proof.
  intros Hp Hok E [Hn1 Hn2]. cbn [walk_items]. fs_ret (get_dentry_run w cwd e E). simpl. pose proof (resolve_plain addr opn res w cwd e Hp Hok E) as Hr.
  destruct (d_data e) as [[ino fl]|] eqn:Ed; simpl.
  2:{ erewrite fs_bind_err; [done|]. unfold walk_item. by fs_err Hr. }
  destruct (inode_is_dir w ino) eqn:Edir.
  2:{ erewrite fs_bind_err; [done|]. unfold walk_item. by fs_err Hr. }
  assert (fl = D_DIRECTORY) as -> by (destruct (Hp cwd e ino fl E Ed) as [?|[_ ?]]; congruence).
  destruct (dentry_find_ok addr w cwd e ino n Hok E Ed Hn1 Hn2) as (w1 & c & ec & Hf & Hx & Hc & Hpar & Hnm & _).
  exists w1, c, ec. split_and!; try done.
  - erewrite fs_bind_ret; [done|]. unfold walk_item. by fs_ret Hr.
  - unfold place. rewrite (proj1 Hc). cbn [mbind option_bind]. rewrite Hpar, (nx_old _ _ _ Hx cwd e E). cbn [mbind option_bind]. rewrite Ed. simpl. by rewrite Hnm.
Qed.

Lemma ext_names w w' : ns_ext addr w w' -> names w' = names w.
Proof. intros Hx. unfold names. by rewrite (nx_inodes _ _ _ Hx). Qed.

Lemma ext_is_dir w w' c : ns_ext addr w w' -> inode_is_dir w' c = inode_is_dir w c.
Proof. intros Hx. unfold inode_is_dir. by rewrite (nx_inodes _ _ _ Hx). Qed.

Lemma open_place w at_ path follow ns n e :
  plain_tree w -> ns_ok addr w -> ns_dentries w !! (if is_absolute path then fsroot else at_) = Some e ->
  path <> [] -> components path = Name <$> (ns ++ [n]) ->
  match spec_parent (names w) (inode_is_dir w) (fst <$> d_data e) ns with
  | Ret dir => exists w' d e', dentry_open_at addr fsroot at_ path follow w = (w', Ret d) /\ ns_ext addr w w' /\
      hashed w' d e' /\ place w' d = Some (dir, n)
  | Err x => exists w', dentry_open_at addr fsroot at_ path follow w = (w', Err x) /\ ns_ext addr w w'
  | Panic => False
  end.
Proof.
  intros Hp Hok E Hne Hc. assert (Forall proper_name (ns ++ [n])) as Hns.
  { apply Forall_forall. intros m Hm. apply (component_proper path). rewrite Hc. by apply list_elem_of_fmap_2. }
  apply Forall_app in Hns as [Hns Hn]. rewrite Forall_singleton in Hn.
  unfold dentry_open_at. rewrite (walk_fns_S addr fsroot 15). cbn [fst]. generalize (walk_fns addr fsroot 15). intros [opn res]. cbn [fst snd].
  unfold open_body, path_iter. rewrite path_items_spec, bool_decide_eq_false_2, Hc by done.
  destruct (walk_names addr fsroot opn res ns w _ e Hp Hok E Hns) as (w1 & r & Hw & Hx & Hs). unfold spec_parent.
  rewrite (fs_bind_ret _ _ w w (Name <$> (ns ++ [n])) eq_refl).
  assert (forall k : nat -> fsop nat, (c ← walk_items addr fsroot (resolve_body opn res) (if is_absolute path then fsroot else at_) (Name <$> (ns ++ [n])); k c) w =
    (c ← (c ← walk_items addr fsroot (resolve_body opn res) (if is_absolute path then fsroot else at_) (Name <$> ns);
          walk_items addr fsroot (resolve_body opn res) c [Name n]); k c) w) as Hsplit
    by (intros k; unfold mbind at 1 3, fsop_bind at 1 3; by rewrite walk_items_snoc).
  rewrite Hsplit. clear Hsplit. destruct (spec_walk _ _ _ ns) as [cur|x|]; [|subst r; exists w1; split; [by erewrite fs_bind_err; [|fs_err Hw]|done]|done].
  destruct Hs as (d1 & e1 & -> & E1 & <-). pose proof (walk_last opn res w1 d1 e1 n (plain_ext addr _ _ Hx Hp) (nx_ok _ _ _ Hx) E1 Hn) as Hl.
  cbn [mbind outcome_bind]. destruct (fst <$> d_data e1) as [c|]; [|exists w1; split; [by erewrite fs_bind_err; [|fs_ret Hw]|done]].
  rewrite (ext_is_dir w w1 c Hx) in Hl. destruct (inode_is_dir w c); [|exists w1; split; [by erewrite fs_bind_err; [|fs_ret Hw]|done]].
  destruct Hl as (w2 & d & ed & Hw2 & Hx2 & Hh & Hpl). exists w2, d, ed. pose proof (ns_ext_trans addr _ _ _ Hx Hx2) as Hx'. split_and!; try done.
  erewrite fs_bind_ret; [|fs_ret Hw; exact Hw2]. fs_ret (get_dentry_run w2 d ed (proj1 Hh)). destruct (d_data ed) as [[ino fl]|] eqn:Edd; [|done].
  destruct (plain_ext addr _ _ Hx' Hp d ed ino fl (proj1 Hh) Edd) as [->|[-> _]]; by rewrite andb_false_r.
Qed.

End Places.

(** ** Calls on one path *)

Inductive PathCall :=
| PMkdir (mode : Z)
| PSymlink (target : list Z)
| PMknod (mode dev : Z)
| PUnlink.

Section PathCalls.
Context (addr : nat -> Z) (files : Z -> option (option nat)) (ctx : FsContext).

Definition path_call (c : PathCall) (dirfd : Z) (path : list Z) : fsop unit :=
  match c with
  | PMkdir mode => sys_mkdirat addr files ctx dirfd path mode
  | PSymlink target => sys_symlinkat addr files ctx target dirfd path
  | PMknod mode dev => sys_mknodat addr files ctx dirfd path mode dev
  | PUnlink => sys_unlinkat addr files ctx dirfd path
  end.

(** What the call does to the entry it is given. *)
Definition call_op (c : PathCall) (d : nat) : NameOp :=
  match c with
  | PMkdir mode => NameMkdir d (mask_mode ctx mode)
  | PSymlink target => NameSymlink d target
  | PMknod mode dev => NameMknod d (mask_mode ctx mode) dev
  | PUnlink => NameUnlink d
  end.

(** [mknodat] looks at the mode first. *)
Definition call_valid (c : PathCall) : Prop :=
  match c with PMknod mode _ => mode_is_blk mode = true \/ mode_is_chr mode = true | _ => True end.

Definition call_follows (c : PathCall) : bool := match c with PMkdir _ | PMknod _ _ => true | _ => false end.

(** Where a relative path starts. *)
Definition call_at (dirfd : Z) (path : list Z) : option nat :=
  if is_absolute path || (dirfd =? AT_FDCWD) then Some (fc_cwd ctx) else default None (files dirfd).

Lemma dentry_from_run dirfd path follow at_ w :
  path_new path = Ret path -> call_at dirfd path = Some at_ ->
  dentry_from addr files ctx dirfd path follow w = dentry_open_at addr (fc_root ctx) at_ path follow w.
Proof.
  intros Hp Ha. unfold dentry_from, call_at in *. rewrite Hp. destruct (is_absolute path || (dirfd =? AT_FDCWD)) eqn:E; [by injection Ha as ->|].
  rewrite bool_decide_eq_false_2 by (intros ->; done). destruct (files dirfd) as [[d|]|]; simpl in Ha; [|done..]. by injection Ha as ->.
Qed.

Lemma path_call_run c dirfd path at_ w w1 d :
  call_valid c -> path_new path = Ret path -> call_at dirfd path = Some at_ ->
  dentry_open_at addr (fc_root ctx) at_ path (call_follows c) w = (w1, Ret d) -> path_call c dirfd path w = name_op addr (call_op c d) w1.
Proof.
  intros Hv Hp Ha Hd. rewrite <- (dentry_from_run dirfd path _ at_ w Hp Ha) in Hd. destruct c as [mode|target|mode dev|]; simpl in *.
  - unfold sys_mkdirat. by fs_ret Hd.
  - unfold sys_symlinkat. by fs_ret Hd.
  - unfold sys_mknodat. replace (negb (mode_is_blk mode) && negb (mode_is_chr mode)) with false by (destruct Hv as [-> | ->]; by rewrite ?andb_false_r).
    by fs_ret Hd.
  - unfold sys_unlinkat. by fs_ret Hd.
Qed.

Lemma path_call_err c dirfd path at_ w w1 x :
  call_valid c -> path_new path = Ret path -> call_at dirfd path = Some at_ ->
  dentry_open_at addr (fc_root ctx) at_ path (call_follows c) w = (w1, Err x) -> path_call c dirfd path w = (w1, Err x).
Proof.
  intros Hv Hp Ha Hd. rewrite <- (dentry_from_run dirfd path _ at_ w Hp Ha) in Hd. destruct c as [mode|target|mode dev|]; simpl in *.
  - unfold sys_mkdirat. by fs_err Hd.
  - unfold sys_symlinkat. by fs_err Hd.
  - unfold sys_mknodat. replace (negb (mode_is_blk mode) && negb (mode_is_chr mode)) with false by (destruct Hv as [-> | ->]; by rewrite ?andb_false_r).
    by fs_err Hd.
  - unfold sys_unlinkat. by fs_err Hd.
Qed.

(** The reference at the place, whatever the entry is called. *)
Lemma spec_op_at m fresh at1 at2 c d d' : at1 d = at2 d' -> spec_op m fresh at1 (call_op c d) = spec_op m fresh at2 (call_op c d').
Proof. intros E. destruct c; simpl; by rewrite E. Qed.


(** ** Renaming *)

Lemma place_ext w w' d p : ns_ext addr w w' -> place w d = Some p -> place w' d = Some p.
Proof.
  intros Hx. unfold place. destruct (ns_dentries w !! d) as [e|] eqn:E; [|done]. rewrite (nx_old _ _ _ Hx d e E). cbn [mbind option_bind].
  destruct (ns_dentries w !! d_parent e) as [pe|] eqn:Ep; [|done]. by rewrite (nx_old _ _ _ Hx _ pe Ep).
Qed.

(** Two entries of the cache at the same place are one. *)
Lemma place_unique w d1 d2 e1 e2 p : ns_ok addr w -> hashed w d1 e1 -> hashed w d2 e2 -> place w d1 = Some p -> place w d2 = Some p -> d1 = d2.
Proof.
  intros Hok H1 H2 P1 P2. destruct p as [dir n]. destruct (place_at addr w d1 dir n Hok (ex_intro _ e1 H1) P1) as [A1].
  destruct (place_at addr w d2 dir n Hok (ex_intro _ e2 H2) P2) as [A2]. destruct (decide (d1 = d2)) as [?|Hne]; [done|].
  by destruct (at_same_dir addr w d1 d2 dir n n A1 A2 Hok Hne).
Qed.

(** What is renamed onto is in the same directory and may be replaced. *)
Definition rename_may (w : NameSys) (p q : Place) : Prop :=
  forall f, p <> q -> names w q.1 q.2 = Some f -> p.1 = q.1 /\ f <> q.1 /\ forall oi, names w p.1 p.2 = Some oi -> replaces_ok true w oi f.

Definition spec_rename_at (m : NameMap) (p q : Place) (flags : Z) : NameMap * outcome unit :=
  if decide (p = q) then (m, Ret tt) else spec_rename m p q flags.

Lemma rename_entries w old new eo en p q flags :
  ns_ok addr w -> hashed w old eo -> hashed w new en -> place w old = Some p -> place w new = Some q -> rename_may w p q ->
  let '(m, r) := spec_rename_at (names w) p q flags in
  exists w', dentry_rename addr old new flags w = (w', r) /\ ns_ok addr w' /\ forall a k, names w' a k = m a k.
Proof.
  intros Hok Ho Hn Hp Hq Hmay. assert (place_of w old = p) as Hpo by (unfold place_of; by rewrite Hp). assert (place_of w new = q) as Hqo by (unfold place_of; by rewrite Hq).
  unfold spec_rename_at. destruct (decide (p = q)) as [->|Hpq].
  - pose proof (place_unique w old new eo en q Hok Ho Hn Hp Hq) as ->. exists w. unfold dentry_rename. by rewrite Nat.eqb_refl.
  - assert (old <> new) as Hne by (intros ->; congruence). rewrite <- Hpo, <- Hqo. apply rename_refines; [done| |done].
    split_and!; [split; [by exists eo|by eexists]|split; [by exists en|by eexists]|]. unfold name_at. rewrite Hpo, Hqo. intros f _. by apply Hmay.
Qed.


End PathCalls.

(** ** Calls on the small tree *)

Definition no_files (fd : Z) : option (option nat) := None.

Notation root_entry := (mkDentry 0 root_name (dentry_hash demo_addr 0 root_name) (Some (0, D_DIRECTORY))).

Lemma demo_dir_plain : plain_tree demo_dir.
Proof.
  intros d e ino fl E Hd. left. destruct (demo_dir_dentry d e E) as [Hn|Hn]; rewrite Hd in Hn; simpl in Hn; congruence.
Qed.

Lemma demo_dir_ok : ns_ok demo_addr demo_dir.
Proof. apply (reachable_ok demo_addr FSROOT), demo_dir_reachable. Qed.

Lemma demo_root_entry : ns_dentries demo_dir !! FSROOT = Some root_entry.
Proof. by vm_compute. Qed.

Lemma demo_parent ns dir :
  spec_parent (names demo_dir) (inode_is_dir demo_dir) (Some 0) ns = Ret dir ->
  spec_parent (names demo_dir) (inode_is_dir demo_dir) (fst <$> d_data root_entry) ns = Ret dir.
Proof. done. Qed.



(** ** What the calls get wrong *)

(** The call succeeds, and then [P] holds. *)
Definition after {A} (r : NameSys * outcome A) (P : NameSys -> A -> Prop) : Prop := match r with (w, Ret a) => P w a | _ => False end.

Section Wrong.
Notation cwd := AT_FDCWD.
Let mkdir (p : list Z) := sys_mkdirat demo_addr no_files fs_context_global cwd p 0x1ed.
Let creat (p : list Z) : fsop unit := d ← dentry_from demo_addr no_files fs_context_global cwd p true; open_check d O_CREAT 0x1a4.
Let unlink (p : list Z) := sys_unlinkat demo_addr no_files fs_context_global cwd p.
Let rename (p q : list Z) := sys_renameat2 demo_addr no_files fs_context_global cwd p cwd q 0.
Let link (p q : list Z) := sys_linkat demo_addr no_files fs_context_global cwd p cwd q.
(** The inode that opening a path finds. *)
Let open_ino (p : list Z) : fsop (option Z) :=
  d ← dentry_from demo_addr no_files fs_context_global cwd p true; e ← get_dentry d; mret (fst <$> d_data e).

(** A rename onto a file of another directory leaves the old name in the cache:
    it opens the file that was replaced, which no directory lists. *)
Theorem cross_rename_leaves_old_name :
  after ((mkdir [97];; mkdir [98];; creat [97; 47; 120];; creat [98; 47; 121];; rename [97; 47; 120] [98; 47; 121]) demo_init) (fun w _ => names w 1 [120] = None /\ names w 2 [121] = Some 3 /\ (open_ino [97; 47; 120] w).2 = Ret (Some 4)).
Proof. vm_compute. tauto. Qed.

(** A directory can be moved into itself: it is then its own only entry. *)
Theorem rename_into_itself :
  after ((mkdir [97];; rename [97] [97; 47; 98]) demo_init) (fun w _ => names w 0 [97] = None /\ names w 1 [98] = Some 1).
Proof. vm_compute. tauto. Qed.

(** A directory with entries can be removed. *)
Theorem unlink_full_directory :
  after ((mkdir [97];; mkdir [97; 47; 98];; unlink [97]) demo_init) (fun w _ => names w 0 [97] = None /\ names w 1 [98] = Some 2).
Proof. vm_compute. tauto. Qed.

(** Removing the working directory twice takes an entry out of a chain it is not in. *)
Theorem unlink_dot_twice_panics :
  after ((mkdir [97];; d ← dentry_from demo_addr no_files fs_context_global cwd [97] true;
          sys_unlinkat demo_addr no_files (set_cwd fs_context_global d) cwd [46];; mret d) demo_init)
        (fun w d => (sys_unlinkat demo_addr no_files (set_cwd fs_context_global d) cwd [46] w).2 = Panic).
Proof. vm_compute. reflexivity. Qed.

(** Renaming a file onto the directory it is in waits for a lock it holds. *)
Theorem rename_onto_parent_stops : ((mkdir [97];; creat [97; 47; 120];; rename [97; 47; 120] [97]) demo_init).2 = Panic.
Proof. vm_compute. reflexivity. Qed.

(** Linking a file that does not exist. *)
Theorem link_missing_panics : (link [97] [98] demo_init).2 = Panic.
Proof. vm_compute. reflexivity. Qed.

(** A new file has one name and two links. *)
Theorem new_file_two_links : after (creat [97] demo_init) (fun w _ => i_nlink <$> ns_inodes w !! 1 = Some 2).
Proof. vm_compute. reflexivity. Qed.

(** A directory replaces a file, which the checks of the modes should refuse. *)
Theorem directory_replaces_file :
  after ((mkdir [97];; creat [98];; rename [97] [98]) demo_init) (fun w _ => names w 0 [98] = Some 1).
Proof. vm_compute. tauto. Qed.

(** A second name of a directory is not one. *)
Theorem linked_directory_not_directory :
  after ((mkdir [97];; mkdir [97; 47; 120];; link [97] [98]) demo_init) (fun w _ => (open_ino [98; 47; 120] w).2 = Err ENOTDIR).
Proof. vm_compute. tauto. Qed.

End Wrong.
