(* ===== verification/FsOpen.v ===== *)
(** * Opening and creating a file

    [openat] puts the components together: the walk along the path
    (DentryWalk.v), the creation of the file (DentryOps.v) and the descriptor
    table (FileArray.v). *)

From S2P Require Import Prelude RBTree Io OpenFlags Mode Path Dentry DentryCache DentryInv DentryRename DentryOps DentrySys DentryWalk Pipe File FileArray FsCalls.

Section Created.
Context (addr : nat -> Z).

(** What creating an inode leaves at the entry. *)
Lemma dir_create_result w d dir name (H : At w d dir name) i fl w' :
  ns_ok addr w -> d_data (at_e _ _ _ _ H) = None -> ns_inodes w !! ns_next_ino w = None ->
  dir_create dir d i fl w = (w', Ret tt) ->
  exists e' i', ns_dentries w' !! d = Some e' /\ d_data e' = Some (ns_next_ino w, fl) /\ d_parent e' = d_parent (at_e _ _ _ _ H) /\ d_name e' = name /\
    ns_inodes w' !! ns_next_ino w = Some i' /\ i_mode i' = i_mode (i (ns_next_ino w)) /\ i_kind i' = i_kind (i (ns_next_ino w)).
Proof.
  intros Hok Hfree Hnone. set (ino := ns_next_ino w) in *. set (w1 := fst (new_inode i w)).
  assert (dir <> ino) as Hdi by (intros Hd; pose proof (at_inode _ _ _ _ H) as Ei; congruence).
  unfold dir_create. fs_ret (as_directory_run w dir _ _ (at_inode _ _ _ _ H) (at_kind _ _ _ _ H)).
  fs_ret (eq_refl : new_inode i w = (w1, Ret ino)).
  destruct (at_mono w w1 d dir name H eq_refl eq_refl) as (H1 & He1 & _).
  { intros i0 l Ei Ek. exists i0. split; [|done]. unfold w1. simpl. by rewrite lookup_insert_ne. }
  rewrite <- He1 in Hfree. assert (ns_inodes w1 !! ino = Some (i ino)) as Enew by apply lookup_insert_eq.
  destruct (attach_run w1 d dir name H1 ino (i ino) fl Hfree Enew) as (i0 & Ei0 & _ & ->). intros [= <-].
  exists (with_data (at_e _ _ _ _ H1) (Some (ino, fl))), (mkInode (i_kind (i ino)) (i_mode (i ino)) (i_size (i ino)) (wrap64 (i_nlink (i ino) + 1))).
  split_and!; try done; simpl.
  - by rewrite lookup_insert_eq.
  - by rewrite He1.
  - apply at_name.
  - rewrite lookup_insert_ne by done. apply lookup_insert_eq.
Qed.

Lemma regular_mode mode : mode_format (i_mode (regular_inode_new mode)) = S_IFREG.
Proof.
  unfold regular_inode_new, mode_format, mode_perm. simpl. rewrite Z.land_lor_distr_l. replace (Z.land (Z.land _ _) S_IFMT) with 0; [done|].
  rewrite <- Z.land_assoc. change (Z.land 0x1ff S_IFMT) with 0. by rewrite Z.land_0_r.
Qed.

(** A free name that is opened with [O_CREAT] becomes an empty regular file. *)
Lemma open_check_creates w d flags mode :
  ns_ok addr w -> name_entry_ok w d -> 0 <= ns_next_ino w < 2 ^ 64 - 1 -> bf_contains flags O_CREAT = true -> name_at w d = None ->
  exists w' e i, open_check d flags mode w = (w', Ret tt) /\ ns_ok addr w' /\
    (forall a n, names w' a n = set_name (names w) (place_of w d).1 (place_of w d).2 (Some (ns_next_ino w)) a n) /\
    ns_dentries w' !! d = Some e /\ d_data e = Some (ns_next_ino w, D_REGULAR) /\
    ns_inodes w' !! ns_next_ino w = Some i /\ mode_format (i_mode i) = S_IFREG /\ i_kind i = KFile.
Proof.
  intros Hok He Hino Hcr Hfree. pose proof (open_refines addr w d flags mode Hok He Hino) as Hr. unfold spec_open in Hr. unfold name_at in Hfree. rewrite Hfree, Hcr in Hr.
  destruct Hr as (w' & Hrun & Hok' & Hnm). destruct (entry_at addr w d Hok He) as [H].
  assert (d_data (at_e _ _ _ _ H) = None) as Hd by (rewrite (at_names addr w d _ _ H Hok) in Hfree; by destruct (d_data (at_e _ _ _ _ H))).
  assert (ns_inodes w !! ns_next_ino w = None) as Hnone.
  { destruct (ns_inodes w !! ns_next_ino w) as [i'|] eqn:E; [|done]. destruct (no_inodes _ w Hok _ _ E) as [_ ?]. lia. }
  assert (dir_create (place_of w d).1 d (fun _ => regular_inode_new mode) D_REGULAR w = (w', Ret tt)) as Hcreate.
  { rewrite <- Hrun. unfold open_check. fs_ret (get_dentry_run w d _ (proj1 (at_hashed _ _ _ _ H))). rewrite Hd, Hcr. simpl.
    by fs_ret (parent_inode_run w d _ _ _ _ (proj1 (at_hashed _ _ _ _ H)) (at_parent _ _ _ _ H) (at_dir _ _ _ _ H)). }
  destruct (dir_create_result w d _ _ H _ _ w' Hok Hd Hnone Hcreate) as (e' & i' & Ed & Hdd & _ & _ & Ei & Hm & Hk).
  exists w', e', i'. split_and!; try done. rewrite Hm. apply regular_mode.
Qed.

End Created.

Section OpenAt.
Context (addr : nat -> Z) (files : Z -> option (option nat)) (ctx : FsContext) (device : Z -> outcome bool).
Context `{RBTree OpenFile T, !RBTreeLaws OpenFile T}.

(** A new file in the table is behind its descriptor. *)
Lemma insert_new_path (world : World) (a : FileArrayInner T) rest fdflag flags d :
  table_ok world a rest -> room a rest ->
  exists fd a' world', insert_new world a fdflag flags (FT_Inode d) = Ret (fd, a', world') /\ table_ok world' a' rest /\
    least_vacant (fa_files a) (min_avail a) fd /\ fd_path world' a' fd = Some (Some d).
Proof.
  intros (Hwf & Hw & Hrest) Hroom. unfold insert_new, next_fd. pose proof Hwf as [_ (Hm & _)].
  destruct (allocate_fd (min_avail a) (min_avail a) (fa_files a)) as [fd min'] eqn:Ea.
  destruct (alloc_room a rest _ _ _ Hwf Hroom Hm Ea) as (Hl & Hal'). rewrite Z.max_id in Hl. pose proof Hl as (Hr & Hn & _).
  assert (forall s p, ~ holds s (FT_Inode d) p) as Hty by (intros [] p; intros []).
  destruct (file_new_plain_ok world _ flags (FT_Inode d) Hw Hty) as [Hw' _].
  destruct (file_new world flags (FT_Inode d)) as [f w'] eqn:Ef. simpl in Hw'.
  destruct (table_insert w' a rest fd fdflag f min') as (files' & Hi & Ht & Hfind); try done; try lia.
  rewrite Hi. exists fd, (mkArray files' min'), w'. split_and!; try done.
  unfold fd_path, fa_get. cbn [fa_files]. rewrite Hfind, decide_True by done. simpl. unfold file_as_path. injection Ef as <- <-. simpl. by rewrite lookup_insert_eq.
Qed.

Lemma fa_open_regular (world : World) (a : FileArrayInner T) d w ino fl e i flags :
  ns_dentries w !! d = Some e -> d_data e = Some (ino, fl) -> ns_inodes w !! ino = Some i -> mode_format (i_mode i) = S_IFREG ->
  oflags_directory flags = false ->
  fa_open world a (open_target w d (Ret tt) device) flags = insert_new world a (as_fd_flags flags) flags (FT_Inode d).
Proof.
  intros Ed Hd Ei Hm Hdir. unfold fa_open, open_target. rewrite Ed. cbn [mbind option_bind]. rewrite Hd. cbn [fmap option_fmap option_map fst mbind option_bind].
  rewrite Ei. simpl. rewrite Hm, Hdir. simpl. by destruct (oflags_truncate flags), (oflags_write flags).
Qed.

(** C11: Creating a file with [openat] joins the name space and the descriptors:
    when the names before the last one lead to a directory that does not list the
    last one, the call succeeds, the directory then lists it with a fresh inode
    and nothing else changes, and the least free descriptor is returned, behind
    which is the entry at that name. *)
Theorem openat_creates (world : World) (a : FileArrayInner T) rest dirfd path at_ ns n e flags mode dir w :
  plain_tree w -> ns_ok addr w -> table_ok world a rest -> room a rest ->
  path_new path = Ret path -> call_at files ctx dirfd path = Some at_ ->
  ns_dentries w !! (if is_absolute path then fc_root ctx else at_) = Some e -> components path = Name <$> (ns ++ [n]) ->
  0 <= ns_next_ino w < 2 ^ 64 - 1 -> bf_contains flags O_CREAT = true -> oflags_directory flags = false ->
  spec_parent (names w) (inode_is_dir w) (fst <$> d_data e) ns = Ret dir -> names w dir n = None ->
  exists w' fd a' world' d ed,
    sys_openat addr files ctx device world a dirfd path flags mode w = (w', Ret (fd, a', world')) /\ ns_ok addr w' /\ table_ok world' a' rest /\
    (forall b k, names w' b k = set_name (names w) dir n (Some (ns_next_ino w)) b k) /\
    least_vacant (fa_files a) (min_avail a) fd /\ fd_path world' a' fd = Some (Some d) /\
    ns_dentries w' !! d = Some ed /\ d_data ed = Some (ns_next_ino w, D_REGULAR).
Proof.
  intros Hpl Hok Ht Hroom Hp Ha E Hc Hino Hcr Hnd Hs Hfree.
  pose proof (open_place addr (fc_root ctx) w at_ path (oflags_follow_symlink flags) ns n e Hpl Hok E ltac:(by intros ->) Hc) as Ho. rewrite Hs in Ho.
  destruct Ho as (w1 & d & ed & Hd & Hx & Hh & Hplace). rewrite <- (dentry_from_run addr files ctx dirfd path _ at_ w Hp Ha) in Hd.
  assert (place_of w1 d = (dir, n)) as Hpo by (unfold place_of; by rewrite Hplace).
  assert (name_entry_ok w1 d) as He by (split; [by exists ed|by eexists]).
  assert (name_at w1 d = None) as Hna by (unfold name_at; by rewrite Hpo, (ext_names addr w w1 Hx)).
  assert (0 <= ns_next_ino w1 < 2 ^ 64 - 1) as Hi1 by (by rewrite (nx_next_ino _ _ _ Hx)).
  destruct (open_check_creates addr w1 d flags (mask_mode ctx mode) (nx_ok _ _ _ Hx) He Hi1 Hcr Hna) as (w2 & e2 & i2 & Hrun & Hok2 & Hnm & Ed & Hdd & Ei & Hm & _).
  rewrite Hpo, (ext_names addr w w1 Hx), (nx_next_ino _ _ _ Hx) in *.
  destruct (insert_new_path world a rest (as_fd_flags flags) flags d Ht Hroom) as (fd & a' & world' & Hins & Ht' & Hl & Hfd).
  exists w2, fd, a', world', d, e2. split_and!; try done. unfold sys_openat. rewrite Hd, Hrun. f_equal.
  by rewrite (fa_open_regular world a d w2 (ns_next_ino w) D_REGULAR e2 i2 flags Ed Hdd Ei Hm Hnd).
Qed.

End OpenAt.

(** Creating [/a/b] in the small tree, with the descriptors of a pipe open. *)
Lemma openat_creates_witness :
  exists w' a' world',
    sys_openat demo_addr no_files fs_context_global (fun _ => Ret true) demo_world demo_table AT_FDCWD [47; 97; 47; 98] (Z.lor O_CREAT O_WRONLY) 0x1a4 demo_dir
      = (w', Ret (2, a', world')) /\ names w' 1 [98] = Some 2.
Proof.
  assert (components [47; 97; 47; 98] = Name <$> ([[97]] ++ [[98]])) as H2 by (by vm_compute).
  assert (0 <= ns_next_ino demo_dir < 2 ^ 64 - 1) as H3 by (by vm_compute).
  assert (spec_parent (names demo_dir) (inode_is_dir demo_dir) (Some 0) [[97]] = Ret 1) as H4 by (by vm_compute).
  assert (names demo_dir 1 [98] = None) as H5 by (by vm_compute).
  assert (ns_next_ino demo_dir = 2) as H6 by (by vm_compute).
  destruct (openat_creates demo_addr no_files fs_context_global (fun _ => Ret true) demo_world demo_table (fun _ => 0) AT_FDCWD [47; 97; 47; 98] FSROOT [[97]] [98]
    _ (Z.lor O_CREAT O_WRONLY) 0x1a4 1 demo_dir demo_dir_plain demo_dir_ok demo_table_ok demo_table_room eq_refl eq_refl demo_root_entry H2 H3 eq_refl eq_refl
    (demo_parent _ _ H4) H5) as (w' & fd & a' & world' & d & ed & Hr & _ & _ & Hn & Hl & _).
  assert (fd = 2) as ->.
  { destruct Hl as (Hge & Hno & Hall). simpl in Hge. destruct (decide (fd = 2)) as [?|Hne]; [done|]. destruct (Hall 2) as [o Ho]; [simpl; lia|]. by vm_compute in Ho. }
  exists w', a', world'. split; [exact Hr|]. by rewrite Hn, set_name_eq, H6.
Defined.
